(* ===== verification/_CoqProject ===== *)
-Q . S2P
Prelude.v
Serial.v
Binheap.v
Dpdk.v
Proto.v
Clist.v
Cores.v
Kern.v
Cm.v
Kverbs.v
Kref.v
Kalloc.v
Kstep.v
Kconn.v
Kaccept.v
Kchar.v
Kclose.v
Kobj.v
Klisten.v
Kprops.v
Kmsg.v
Kdemo.v
Iov.v
State.v
TrpRx.v
Cq.v
Mr.v
Wqe.v
Frame.v
TrpTx.v
Window.v
Rdmap.v
Segment.v
Progress.v
Verbs.v
Conserve.v
Demo.v
Ack.v
Safe.v
Loop.v
Receive.v
Post.v
Life.v
Config.v
Daemon.v
Dsafe.v
Dinit.v
Dclient.v
Dprops.v
Witness.v
