(* ===== verification/Prelude.v ===== *)
(** * A verification of urdma

    urdma implements RDMA verbs in software over UDP, with DPDK as the network
    driver.  A user-space library (src/liburdma) implements the verbs of
    libibverbs; a progress thread in it moves data.  A daemon (src/urdmad)
    owns the network ports and hands out queue pairs, and a kernel module
    (src/kmod) sets up connections.  This development models the library (its
    data path, its verbs, and the life cycle of its objects), the kernel
    module (connections, reference counts, and its interface to the daemon),
    and the daemon (its start, its event loop, and both ends of its socket).

    ** Parts

    An application posts work requests to the queues of a queue pair
    (usiw_post_send, usiw_post_recv).  The progress thread (kni_loop) visits
    each queue pair: it processes received packets, retransmits segments that
    were not acknowledged, starts posted requests, answers RDMA READ requests,
    acknowledges, and flushes the transmit queue (progress_qp).  Messages are
    cut into DDP segments with RDMAP headers; each segment travels in a UDP
    datagram behind a TRP header that carries a packet sequence number and an
    acknowledgement.  Finished requests are reported on completion queues,
    from which the application polls.

    A connection is set up by the kernel modules of the two hosts: the active
    side sends a request in a datagram, the passive side reads it from a
    listening socket, and after the application has accepted it and its daemon
    has prepared the queue pair a reply goes back.  Each side hands the
    connection to its daemon through a character device, and the daemon
    answers when the queue pair is ready.

    A process that uses the library connects to the socket of the daemon and
    asks for processor cores and for queue pairs of a port; the daemon lends
    them from its pools, and takes them back when the process asks it to or
    ends.

    - [Prelude]: records with field updates, the [outcome] of a call (a value
      or a fault), machine integers, byte strings.
    - [Serial]: serial_less_32 and serial_greater_32 of liburdma/interface.c.
    - [Binheap]: util/binheap.c.
    - [Dpdk]: the functions of DPDK that the library calls, as the class
      [Dpdk]; [DpdkLaws] states their documented behaviour, [LivePort] that
      the port accepts frames and that mbufs do not run out; [list_dpdk] is an
      implementation on lists that satisfies both.
    - [Proto]: the headers of include/proto.h and include/proto_trp.h.
    - [Clist]: the doubly linked lists of ccan/list/list.h, on a heap of nodes.
    - [Cores]: the masks of processor cores of urdmad/main.c.
    - [Kern], [Cm] and [Kverbs]: the kernel module (kmod/cm.c, qp.c, obj.c,
      verbs.c and the character device of main.c).
    - [Kref], [Kalloc] and [Kstep]: the invariant of its reference counts, the
      rules of its primitive operations, and endpoints inside a call.
      [Kconn] (connections, work items), [Kaccept], [Kchar] (character
      device), [Kclose] (modifying and destroying queue pairs), [Kobj]
      (creating objects) and [Klisten] show that the calls keep it.
    - [Kprops]: the calls together, and the states they reach; [Kmsg]: the
      messages of the handshake; [Kdemo]: a connection from end to end.
    - [Iov]: application memory, memcpy_from_iov and memcpy_to_iov.
    - [State]: the structures of liburdma/interface.h and
      include/urdmad_private.h; the [world] of a call and its monad [M].
    - [TrpRx]: sequence number tracking of process_data_packet.
    - [Cq]: completion queues (interface.c and verbs.c).
    - [Mr]: memory regions and protection domains (interface.c and verbs.c).
    - [Wqe]: work queues, completion and flushing of requests.
    - [Frame]: send_udp_dgram, enqueue_ether_frame, flush_tx_queue.
    - [TrpTx]: send_ddp_segment, resend_ddp_segment, sweep_unacked_packets,
      process_trp_sack and the control packets; [Window] and [Ack] have the
      theorems about them.
    - [Rdmap]: do_rdmap_send, do_rdmap_write, do_rdmap_read_request,
      do_rdmap_terminate, process_send, process_rdma_read_request,
      respond_rdma_read, ddp_place_tagged_data, process_terminate; [Segment],
      [Receive] and [Safe] have the theorems about them.
    - [Progress]: process_data_packet, progress_qp, start_qp, the body of
      kni_loop for a queue pair, usiw_do_destroy_qp; [Conserve] has the
      invariants of the thread.
    - [Loop]: the rounds of kni_loop over all contexts and queue pairs, and
      urdma_alloc_context, urdma_free_context and driver_add_context.
    - [Verbs]: the posting functions, the queue pair verbs and the queries of
      liburdma/verbs.c; [Post] and [Life] have the theorems about them.
    - [Config]: util/config_file.c, do_config of liburdma/driver.c and
      parse_ipv4_address of util/util.c.
    - [Daemon]: the handlers and the event loop of urdmad/main.c; [Dsafe] has
      their invariant.
    - [Dinit]: the start of the daemon (usiw_port_init and do_init_driver of
      main.c, and the set-up of urdmad/kni.c).
    - [Dclient]: what the library sends to the daemon and reads from it
      (do_hello, port_get_next_qp, port_return_qp); [Dprops] has the theorems
      about the daemon as a whole.
    - [Demo] and [Witness]: a concrete queue pair over [list_dpdk], and the
      theorems applied to it.

    ** How the code is modelled

    A function of the library is a function with the same name.  Functions
    that change a queue pair live in the monad [M]: they take and return a
    [world], which holds the queue pair, the completion queues, the regions of
    its protection domain, application memory, the state of DPDK, the frames
    sent so far, the events written to the kernel, and the context.  A failed
    assertion, a null pointer, an access outside an array, a buffer or mapped
    memory, and the use of a stale pointer are faults.  Unsigned fields have
    their width, with the wrap-around written out ([u8], [u16], [u32], [u64]).
    Pointers to entries of arrays are indices; linked lists are sequences.
    Results of calls that the model does not contain, such as allocations and
    the kernel's part of a verb, are arguments.

    The functions of the kernel module live in the monad [KM] over [kstate],
    which maps numbers to endpoints, queue pairs, sockets and the other
    objects.  A number is used once; freeing an object removes it, so that
    every later use is a fault.  The work queue and the datagrams that wait at
    a socket are part of the state, and running a work item or the arrival of
    a datagram is a call like those of the connection manager.  What the rest
    of the kernel returns (allocations, sockets, the event handler) comes from
    the list [k_rets], about which the theorems assume nothing unless they say
    so.  Each call is a step: waiting for an endpoint that is in use at the
    start of a call is a deadlock, and is shown not to happen.

    The functions of the daemon live in the monad [DM] over [dstate].  Its lists
    are the nodes and pointers of [Clist], in one heap: an operation on a node
    that is on no list, or whose list was freed, does what the pointers do.
    What DPDK and the system return comes from the list [d_rets], and what the
    daemon asks of DPDK is recorded.  An exit of the daemon is the result
    [false].

    Loops without a structural measure take fuel.  The fuel is the number of
    rounds the loop can make: the slots of the transmit window for the loops
    that send segments, the size of the heap or of the ring for those that
    drain it, 32 for the powers of two of an int, 2 for folding a checksum,
    one more than the receive queue for the completion loop, the size of the
    heap for a loop over a linked list, the words of a mask for the search for
    a core and the bits of a word for returning cores.  The theorems
    show that the loops end within it, and for the completion loop of
    process_send that it does not when the completion queue is full.
    [w_tx_bound] bounds the calls of the port in one flush; [tx_ready] says
    that it is enough for the frames that can be queued.

    ** What is shown

    Delivery: a message is cut into segments that cover it and fill the
    transmit window in order ([Segment], [Window]); the receiver accepts every
    segment exactly once ([TrpRx]), puts it in its place whatever the order of
    arrival, and reports the message once, when it is complete ([Receive]);
    acknowledgements are credited to the requests exactly ([Ack]).

    Safety: whatever packets arrive, an iteration of the progress thread
    writes only to registered regions and posted buffers ([Safe]), loses and
    duplicates no entry of a queue, and so does a round over all queue pairs
    ([Loop]); a round visits exactly the contexts that are open and uses no
    handle that was freed ([Loop]).  An iteration makes only the transitions of the
    connection state machine and keeps the number of outstanding RDMA READ
    requests within its limit ([Conserve]).

    Components: completion queues refine bounded FIFOs ([Cq]), the table of
    regions maps keys to stacks ([Mr]), the heap refines a priority queue
    ([Binheap]), the copies equal slices and splices ([Iov]), headers round
    trip ([Proto]), checksums verify and frames leave in order ([Frame]).

    Verbs: posting fills exactly the free entries ([Post]), a queue pair is
    created ready, moves only forward and is freed exactly once ([Life]).

    Kernel module: from the loaded module, whatever calls are made and whatever
    the kernel returns to them, no object is used after it was freed, no null
    pointer is followed, no call waits for itself, and every reference count
    is the number of references ([Kprops]); what its callers must guarantee
    for that is [allowed], and [Kdemo] shows that the code faults without it.
    A request is read as it was sent ([Kmsg]), creating a queue pair is
    atomic, and a queue pair follows its table of states ([Kprops]); a
    connection that is set up and torn down leaves nothing behind ([Kdemo]).

    Lists: on pointers, the list functions are operations on sequences
    ([Clist]).

    Daemon: from its start, whatever DPDK and the system return, every queue
    pair is on exactly one list and every core in one mask, and the events that
    [dallowed] admits are handled without a fault ([Dprops]); what the library
    reads from the socket is what the daemon reserved or lent, and what it
    returns is in the pool again ([Dclient]); a connection that the kernel
    module reports is set up and answered with an event that the kernel module
    understands ([Dprops]).  A configuration that is accepted is within its
    limits, and addresses are read as they are printed ([Config]).

    Several theorems pin down what the code does where it does not do what it
    means to: selective acknowledgements have no effect, the bounds check of
    tagged segments wraps, a full completion queue stops the progress thread,
    inline requests that are too long lose their entry, queue pairs that were
    never connected are never freed, a process that ends gives all its queue
    pairs to port 0, a request too many ends the daemon, a port without a
    configured number of queue pairs does not start, and an option of one
    letter loses its value.

    ** Not modelled

    The interleaving of the progress thread with the application inside a
    call: the calls of the application and the rounds of the thread are atomic
    steps here.  Locks, and the semaphore that starts the thread, are therefore
    left out.  Statistics, and the verbs that only return ENOSYS.  Of liburdma/driver.c, the thread that starts DPDK and the probing
    of devices, and of urdmad/kni.c the callbacks of the network interface,
    which consist of calls to DPDK and netlink.  The addresses of the daemon's
    ports are set while its event loop already runs; here they are set before.
    Of the kernel module, the registration of devices with
    the RDMA core, user contexts, the references that the connection manager
    takes on queue pairs of its own (siw_qp_get_ref), and the interleaving of
    calls on different processors.  The example programs (kvstore, pingpong),
    which use the verbs and are not part of them. *)
From Stdlib Require Export Sorting.Sorted.
From stdpp Require Export base list gmap numbers option tactics.
Export stdpp.list_relations.list.
#[global] Set Default Proof Using "Type".
#[global] Open Scope Z_scope.

(** ** Functional record update *)

(** [Settable R] holds an eta-expanded constructor of [R]; the setter of any
    field of [R] is derived from it on demand, so that [r <| f := v |>] is
    the record [r] with its field [f] replaced, as the C assignment
    [r->f = v] does. *)
Class Settable (R : Type) := settable_eta : R -> R.
Class Update {R E : Type} (f : R -> E) := update : (E -> E) -> R -> R.
Arguments update {R E} f {_} _ _ /.

Ltac derive_update :=
  lazymatch goal with
  | |- @Update ?R ?E ?f =>
      let inst := constr:(_ : Settable R) in
      let eta := eval red in inst in
      exact (fun (g : E -> E) (r : R) =>
        ltac:(let body := eval cbv beta in (eta r) in
              match body with
              | context C [f r] => let b := context C [g (f r)] in exact b
              end))
  end.
#[global] Hint Extern 1 (Update _) => derive_update : typeclass_instances.

Declare Scope c_scope.
Notation "r <| f := v |>" := (update f (fun _ => v) r)
  (at level 12, f at next level, left associativity) : c_scope.
Notation "r <| f ::= g |>" := (update f g r)
  (at level 12, f at next level, left associativity) : c_scope.
#[global] Open Scope c_scope.

(** ** Outcomes of a C function *)

(** What a call can end in besides returning: a failed [assert], a
    dereference of NULL, of a pointer that does not designate a live object
    or of memory that is not mapped, an array access out of bounds, a loop that
    the bound given to the model does not cover, and a wait for something that
    only the caller itself could do. *)
Inductive fault :=
| AssertFail
| NullDeref
| BadPointer
| OutOfBounds
| OutOfFuel
| Deadlock.

#[export] Instance fault_eq_dec : EqDecision fault.
Proof. solve_decision. Defined.

Inductive outcome (A : Type) :=
| Ok (a : A)
| Fault (f : fault).
Arguments Ok {A} a.
Arguments Fault {A} f.

#[export] Instance outcome_ret : MRet outcome := fun A a => Ok a.
#[export] Instance outcome_bind : MBind outcome := fun A B f m =>
  match m with Ok a => f a | Fault e => Fault e end.
Arguments outcome_bind _ _ _ !_ /.

(** [assert(b)] as the C macro: the call faults when the test fails. *)
Definition c_assert (b : bool) : outcome unit :=
  if b then Ok tt else Fault AssertFail.

(** Dereference of a pointer that the model represents by an [option]. *)
Definition deref {A} (o : option A) : outcome A :=
  match o with Some a => Ok a | None => Fault BadPointer end.

(** ** Error numbers of <errno.h> that the sources use *)

Definition ENOENT : Z := 2.
Definition EIO : Z := 5.
Definition ENOMEM : Z := 12.
Definition EBUSY : Z := 16.
Definition EEXIST : Z := 17.
Definition ENODEV : Z := 19.
Definition EINVAL : Z := 22.
Definition ENOSPC : Z := 28.
Definition ENOSYS : Z := 38.
Definition EMSGSIZE : Z := 90.
Definition EOPNOTSUPP : Z := 95.
Definition ENOBUFS : Z := 105.

(** ** Unsigned machine integers *)

(** A [w]-bit unsigned integer is a [Z] in [0, 2^w); every operation that can
    leave the range is followed by [wrap w]. *)
Definition wrap (w z : Z) : Z := z mod 2 ^ w.
Abbreviation u8 := (wrap 8).
Abbreviation u16 := (wrap 16).
Abbreviation u32 := (wrap 32).
Abbreviation u64 := (wrap 64).

Definition UINT16_MAX : Z := 65535.
Definition UINT32_MAX : Z := 4294967295.
Definition UINT64_MAX : Z := 18446744073709551615.

Definition in_range (w z : Z) : Prop := 0 <= z < 2 ^ w.

(** [flags & bit] tested as a C condition, [flags |= bit], [flags &= ~bit]. *)
Definition has (flags bit : Z) : bool := negb (Z.land flags bit =? 0).
Definition set_bits (flags bit : Z) : Z := Z.lor flags bit.
Definition clear_bits (flags bit : Z) : Z := Z.ldiff flags bit.

(** ** Byte strings *)

Abbreviation byte := Z (only parsing).
Abbreviation bytes := (list Z) (only parsing).

Definition is_byte (b : byte) : Prop := 0 <= b < 256.

(** [be_encode n z] is the [n]-byte big-endian image of [z], the memory
    layout of [rte_cpu_to_be_16/32/64]; [be_decode] reads one back. *)
Fixpoint be_encode (n : nat) (z : Z) : bytes :=
  match n with
  | O => []
  | S m => (z / 256 ^ Z.of_nat m) mod 256 :: be_encode m z
  end.

Fixpoint be_acc (acc : Z) (bs : bytes) : Z :=
  match bs with [] => acc | b :: r => be_acc (acc * 256 + b) r end.
Definition be_decode (bs : bytes) : Z := be_acc 0 bs.

(** Little-endian images, the layout of an integer in memory on the hosts the
    code runs on. *)
Fixpoint le_encode (n : nat) (z : Z) : bytes :=
  match n with
  | O => []
  | S m => z mod 256 :: le_encode m (z / 256)
  end.

Fixpoint le_decode (bs : bytes) : Z :=
  match bs with [] => 0 | b :: r => b + 256 * le_decode r end.

(** The [n] bytes of [l] from offset [off]. *)
Definition sub {A} (off n : nat) (l : list A) : list A := take n (drop off l).

(** [len l] as a Z, the type of every length in the sources. *)
Abbreviation len l := (Z.of_nat (length l)).

(** ** Lemmas on machine integers *)

Lemma wrap_range w z : 0 <= w -> 0 <= wrap w z < 2 ^ w.
Proof. intros. apply Z.mod_pos_bound. by apply Z.pow_pos_nonneg. Qed.

Lemma wrap_small w z : in_range w z -> wrap w z = z.
Proof. intros []. by apply Z.mod_small. Qed.

Lemma wrap_wrap w z : 0 <= w -> wrap w (wrap w z) = wrap w z.
Proof. intros. apply wrap_small. by apply wrap_range. Qed.

Lemma wrap_add_l w a b : wrap w (wrap w a + b) = wrap w (a + b).
Proof. apply Zplus_mod_idemp_l. Qed.

Lemma wrap_add_r w a b : wrap w (a + wrap w b) = wrap w (a + b).
Proof. apply Zplus_mod_idemp_r. Qed.

Lemma wrap_sub_l w a b : wrap w (wrap w a - b) = wrap w (a - b).
Proof. apply Zminus_mod_idemp_l. Qed.

Lemma wrap_sub_r w a b : wrap w (a - wrap w b) = wrap w (a - b).
Proof. apply Zminus_mod_idemp_r. Qed.

Lemma wrap_in_range w z : 0 <= w -> in_range w (wrap w z).
Proof. apply wrap_range. Qed.

Lemma wrap_inj_window w a b :
  0 <= w -> wrap w a = wrap w b -> Z.abs (a - b) < 2 ^ w -> a = b.
Proof.
  intros Hw Heq Hab. unfold wrap in Heq.
  assert (0 < 2 ^ w) by (by apply Z.pow_pos_nonneg).
  assert ((a - b) mod 2 ^ w = 0) as Hz.
  { rewrite Zminus_mod, Heq, Z.sub_diag. by rewrite Z.mod_0_l by lia. }
  apply Z.mod_divide in Hz; [|lia]. destruct Hz as [k Hk].
  assert (k = 0) as -> by nia. lia.
Qed.

Create HintDb urdma.
#[export] Hint Resolve wrap_range wrap_in_range : urdma.
Create HintDb wrap.
#[export] Hint Rewrite wrap_add_l wrap_add_r wrap_sub_l wrap_sub_r : wrap.

(** [wrap_lia] decides goals on [wrap w e] with constant [w]: it exposes each
    [wrap] as a quotient and a remainder and calls [lia]. *)
Ltac wrap_lia :=
  unfold in_range, wrap in *;
  change (2 ^ 8) with 256 in *; change (2 ^ 16) with 65536 in *;
  change (2 ^ 31) with 2147483648 in *;
  change (2 ^ 32) with 4294967296 in *;
  change (2 ^ 64) with 18446744073709551616 in *;
  Z.to_euclidean_division_equations; lia.

(** ** Lemmas on flags *)

Lemma has_set_bits f b : 0 < b -> has (set_bits f b) b = true.
Proof.
  intros Hb. unfold has, set_bits. rewrite negb_true_iff, Z.eqb_neq.
  rewrite Z.land_comm, Z.land_lor_distr_r, Z.land_diag.
  intros Hz. apply Z.lor_eq_0_iff in Hz. lia.
Qed.

Lemma has_clear_bits f b : has (clear_bits f b) b = false.
Proof.
  unfold has, clear_bits. rewrite negb_false_iff, Z.eqb_eq.
  apply Z.bits_inj'. intros n Hn. rewrite Z.land_spec, Z.ldiff_spec, Z.bits_0.
  by destruct (Z.testbit f n), (Z.testbit b n).
Qed.

Lemma has_set_other f a b : Z.land a b = 0 -> has (set_bits f a) b = has f b.
Proof.
  intros H. unfold has, set_bits. do 2 f_equal.
  by rewrite Z.land_lor_distr_l, H, Z.lor_0_r.
Qed.

Lemma has_clear_other f a b : Z.land a b = 0 -> has (clear_bits f a) b = has f b.
Proof.
  intros H. unfold has, clear_bits. do 2 f_equal.
  apply Z.bits_inj'. intros n Hn. rewrite !Z.land_spec, Z.ldiff_spec.
  assert (Z.testbit (Z.land a b) n = false) as Hab by (by rewrite H, Z.bits_0).
  rewrite Z.land_spec in Hab.
  by destruct (Z.testbit f n), (Z.testbit a n), (Z.testbit b n).
Qed.

Lemma set_bits_lor f a b : set_bits f (Z.lor a b) = set_bits (set_bits f a) b.
Proof. apply Z.lor_assoc. Qed.

Lemma set_bits_comm f a b : set_bits (set_bits f a) b = set_bits (set_bits f b) a.
Proof. unfold set_bits. by rewrite <- !Z.lor_assoc, (Z.lor_comm a). Qed.

(** ** Lemmas on outcomes *)

Lemma bind_ok {A B} (m : outcome A) (f : A -> outcome B) b :
  m ≫= f = Ok b -> exists a, m = Ok a /\ f a = Ok b.
Proof. destruct m as [a|e]; simpl; [eauto|done]. Qed.

Lemma c_assert_ok b u : c_assert b = Ok u -> b = true.
Proof. by destruct b. Qed.

Lemma deref_ok {A} (o : option A) a : deref o = Ok a -> o = Some a.
Proof. destruct o; simpl; congruence. Qed.

(** [inv_ok] takes apart every hypothesis that says a sequence of calls
    returned, naming the intermediate results. *)
Ltac inv_ok_step :=
  match goal with
  | H : mbind _ _ = Ok _ |- _ =>
      let a := fresh "v" in let E := fresh "E" in
      apply bind_ok in H as (a & E & H)
  | H : Ok _ = Ok _ |- _ => injection H as H; subst
  | H : Fault _ = Ok _ |- _ => discriminate H
  | H : mret _ = Ok _ |- _ => injection H as H; subst
  | H : c_assert _ = Ok _ |- _ => apply c_assert_ok in H
  | H : deref _ = Ok _ |- _ => apply deref_ok in H
  | p : (_ * _)%type |- _ => destruct p
  end.
Ltac inv_ok := repeat (inv_ok_step; simpl in * |-).

(** ** Lemmas on byte strings *)

Lemma be_encode_length n z : length (be_encode n z) = n.
Proof. induction n; simpl; congruence. Qed.

Lemma be_encode_is_byte n z : Forall is_byte (be_encode n z).
Proof.
  induction n; simpl; constructor; [|done].
  unfold is_byte. apply Z.mod_pos_bound. lia.
Qed.

Lemma be_acc_app acc a b : be_acc acc (a ++ b) = be_acc (be_acc acc a) b.
Proof. revert acc. induction a; simpl; auto. Qed.

Lemma be_acc_encode n acc z :
  be_acc acc (be_encode n z) = acc * 256 ^ Z.of_nat n + z mod 256 ^ Z.of_nat n.
Proof.
  revert acc. induction n as [|n IH]; intros acc; simpl be_encode; simpl be_acc.
  { rewrite Z.pow_0_r, Z.mod_1_r. lia. }
  rewrite IH. replace (Z.of_nat (S n)) with (Z.of_nat n + 1) by lia.
  set (p := 256 ^ Z.of_nat n). assert (0 < p) by (apply Z.pow_pos_nonneg; lia).
  rewrite Z.pow_add_r by lia. fold p. rewrite Z.pow_1_r.
  rewrite Z.rem_mul_r by lia. lia.
Qed.

(** Decoding what was encoded gives the value modulo the field's width. *)
Lemma be_decode_encode n z : be_decode (be_encode n z) = wrap (8 * Z.of_nat n) z.
Proof.
  unfold be_decode, wrap. rewrite be_acc_encode, Z.mul_0_l, Z.add_0_l.
  f_equal. rewrite Z.pow_mul_r by lia. done.
Qed.

Lemma be_decode_encode_id n z :
  in_range (8 * Z.of_nat n) z -> be_decode (be_encode n z) = z.
Proof. intros. rewrite be_decode_encode. by apply wrap_small. Qed.

Lemma le_encode_length n z : length (le_encode n z) = n.
Proof. revert z. induction n; simpl; auto. Qed.

Lemma le_decode_encode n z : le_decode (le_encode n z) = wrap (8 * Z.of_nat n) z.
Proof.
  unfold wrap. revert z. induction n as [|n IH]; intros z.
  { simpl. by rewrite Z.mod_1_r. }
  simpl le_encode. simpl le_decode. rewrite IH.
  replace (8 * Z.of_nat (S n)) with (8 + 8 * Z.of_nat n) by lia.
  rewrite Z.pow_add_r by lia. change (2 ^ 8) with 256.
  rewrite Z.rem_mul_r; lia.
Qed.

(** ** Lemmas on lists *)

Lemma sub_length {A} off n (l : list A) :
  (off + n <= length l)%nat -> length (sub off n l) = n.
Proof. intros. unfold sub. rewrite length_take, length_drop. lia. Qed.

Lemma sub_app_l {A} n (a b : list A) : n = length a -> sub 0 n (a ++ b) = a.
Proof. intros ->. unfold sub. by rewrite drop_0, take_app_length. Qed.

Lemma sub_app_r {A} off n (a b : list A) :
  (length a <= off)%nat -> sub off n (a ++ b) = sub (off - length a) n b.
Proof. intros. unfold sub. by rewrite drop_app_ge. Qed.

Lemma sub_all {A} n (l : list A) : n = length l -> sub 0 n l = l.
Proof. intros ->. unfold sub. by rewrite drop_0, firstn_all. Qed.

Lemma sub_add {A} off a b (l : list A) :
  sub off (a + b) l = sub off a l ++ sub (off + a) b l.
Proof.
  unfold sub. rewrite <- drop_drop, <- take_take_drop. done.
Qed.

(** A slice that starts inside the first of two lists. *)
Lemma sub_app_split {A} off n (a b : list A) :
  (off <= length a)%nat ->
  sub off n (a ++ b) =
  sub off (Nat.min (length a - off) n) a ++ sub 0 (n - (length a - off)) b.
Proof.
  intros H. unfold sub. rewrite drop_app_le, take_app, drop_0 by done.
  rewrite length_drop. f_equal.
  destruct (decide (n <= length a - off)%nat).
  - by rewrite Nat.min_r.
  - rewrite Nat.min_l by lia. rewrite !take_ge; rewrite ?length_drop; done || lia.
Qed.

Lemma sub_0 {A} off (l : list A) : sub off 0 l = [].
Proof. done. Qed.

(** [l] with the elements from [off] on replaced by [bs]. *)
Definition splice {A} (off : nat) (bs l : list A) : list A :=
  take off l ++ bs ++ drop (off + length bs) l.

Lemma sub_decompose {A} off n (l : list A) :
  l = take off l ++ sub off n l ++ drop (off + n) l.
Proof. unfold sub. rewrite <- drop_drop, take_drop, take_drop. done. Qed.

Lemma splice_length {A} off (bs l : list A) :
  (off + length bs <= length l)%nat -> length (splice off bs l) = length l.
Proof. intros. unfold splice. rewrite !length_app, length_take, length_drop. lia. Qed.

Lemma sub_splice {A} off (bs l : list A) :
  (off <= length l)%nat -> sub off (length bs) (splice off bs l) = bs.
Proof.
  intros H. unfold splice. rewrite sub_app_r by (rewrite length_take; lia).
  rewrite length_take, Nat.min_l, Nat.sub_diag by lia. by apply sub_app_l.
Qed.

Lemma elem_of_sub {A} (x : A) off n l : x ∈ sub off n l -> x ∈ l.
Proof. intros H. rewrite (sub_decompose off n l), !elem_of_app. auto. Qed.

Lemma alter_insert {A} (f : A -> A) i (l : list A) x :
  l !! i = Some x -> alter f i l = <[i := f x]> l.
Proof.
  revert i. induction l as [|y l IH]; intros [|i] H; simplify_eq/=; [done|].
  f_equal. by apply IH.
Qed.
