(* ===== verification/Serial.v ===== *)
(** * Serial number arithmetic (src/liburdma/interface.c)

    TRP packet sequence numbers are 32-bit counters compared with the rules
    of RFC 1982.  This file models the two comparison functions and shows
    that, inside a window of 2^31, they compare the unbounded counters whose
    low 32 bits the packets carry. *)
From S2P Require Import Prelude.

(** [static bool serial_less_32(uint32_t s1, uint32_t s2)] *)
Definition serial_less_32 (s1 s2 : Z) : bool :=
  ((s1 <? s2) && (u32 (s2 - s1) <? 2 ^ 31))
  || ((s1 >? s2) && (u32 (s1 - s2) >? 2 ^ 31)).

(** [static bool serial_greater_32(uint32_t s1, uint32_t s2)] *)
Definition serial_greater_32 (s1 s2 : Z) : bool :=
  ((s1 <? s2) && (u32 (s2 - s1) >? 2 ^ 31))
  || ((s1 >? s2) && (u32 (s1 - s2) <? 2 ^ 31)).

(** The comparison is a comparison of the distance from [s1] to [s2]. *)
Lemma serial_less_dist s1 s2 :
  in_range 32 s1 -> in_range 32 s2 ->
  serial_less_32 s1 s2 = true <-> 0 < u32 (s2 - s1) < 2 ^ 31.
Proof.
  intros H1 H2. unfold serial_less_32.
  rewrite orb_true_iff, !andb_true_iff, !Z.ltb_lt, !Z.gtb_lt. wrap_lia.
Qed.

Lemma serial_greater_less s1 s2 : serial_greater_32 s1 s2 = serial_less_32 s2 s1.
Proof.
  unfold serial_greater_32, serial_less_32. rewrite orb_comm, !Z.gtb_ltb. done.
Qed.

Lemma serial_less_irrefl s : serial_less_32 s s = false.
Proof. unfold serial_less_32. by rewrite Z.gtb_ltb, Z.ltb_irrefl. Qed.

(** Two counters that are less than 2^31 apart compare as their images. *)
Lemma serial_less_wrap a b :
  Z.abs (a - b) < 2 ^ 31 -> serial_less_32 (u32 a) (u32 b) = (a <? b).
Proof.
  intros Hab. apply eq_iff_eq_true. rewrite Z.ltb_lt.
  rewrite serial_less_dist by (by apply wrap_in_range).
  rewrite wrap_sub_l, wrap_sub_r. wrap_lia.
Qed.

Lemma serial_greater_wrap a b :
  Z.abs (a - b) < 2 ^ 31 -> serial_greater_32 (u32 a) (u32 b) = (b <? a).
Proof. intros. rewrite serial_greater_less. apply serial_less_wrap. lia. Qed.

Lemma u32_eqb_wrap a b :
  Z.abs (a - b) < 2 ^ 32 -> (u32 a =? u32 b) = (a =? b).
Proof.
  intros Hab. apply eq_iff_eq_true. rewrite !Z.eqb_eq. split; [|by intros ->].
  intros. by apply (wrap_inj_window 32).
Qed.

(** RFC 1982 leaves the comparison of two numbers at distance 2^31
    undefined; the code answers false both ways. *)
Lemma serial_antipode s :
  serial_less_32 (u32 s) (u32 (s + 2 ^ 31)) = false /\
  serial_greater_32 (u32 s) (u32 (s + 2 ^ 31)) = false.
Proof.
  rewrite serial_greater_less. split; apply not_true_is_false;
    rewrite serial_less_dist by (by apply wrap_in_range);
    rewrite wrap_sub_l, wrap_sub_r; wrap_lia.
Qed.

(** On the 32-bit images of two integers less than 2^31 apart, the serial
    comparisons of RFC 1982 agree with the order of the integers. *)
Theorem serial_less_32_spec (a b : Z) :
  Z.abs (a - b) < 2 ^ 31 ->
  serial_less_32 (u32 a) (u32 b) = (a <? b) /\
  serial_greater_32 (u32 a) (u32 b) = (a >? b) /\
  (u32 a =? u32 b) = (a =? b).
Proof.
  intros. split_and!.
  - by apply serial_less_wrap.
  - rewrite Z.gtb_ltb. by apply serial_greater_wrap.
  - apply u32_eqb_wrap. lia.
Qed.

(** The counter wraps between the two numbers. *)
Lemma serial_less_32_spec_witness :
  Z.abs ((2 ^ 32 - 1) - (2 ^ 32 + 5)) < 2 ^ 31 /\
  serial_less_32 4294967295 5 = true.
Proof.
  split; [lia|].
  exact (proj1 (serial_less_32_spec (2 ^ 32 - 1) (2 ^ 32 + 5) ltac:(lia))).
Defined.
