(* ===== verification/Binheap.v ===== *)
(** * The binary heap (src/util/binheap.c)

    A min-heap of 32-bit numbers in a fixed array.  The TRP receiver keeps
    the sequence numbers of the last segments of RDMA READ responses in it.
    The array accesses are checked: an index outside the array is a [Fault],
    and the theorems show that no call reaches one. *)
From S2P Require Import Prelude.

(** [struct binheap]: [bh_arr] has [bh_capacity] cells, of which the first [bh_size]
    are in use. *)
Record binheap := Binheap {
  bh_size : nat;
  bh_capacity : nat;
  bh_arr : list Z
}.
#[export] Instance binheap_settable : Settable binheap :=
  fun h => Binheap (bh_size h) (bh_capacity h) (bh_arr h).

(** [arr[i]] and [arr[i] = v]. *)
Definition aget (l : list Z) (i : nat) : outcome Z :=
  match l !! i with Some v => Ok v | None => Fault OutOfBounds end.

Definition aset (l : list Z) (i : nat) (v : Z) : outcome (list Z) :=
  if decide (i < length l)%nat then Ok (<[i := v]> l) else Fault OutOfBounds.

Definition array_min (l : list Z) (i j : nat) : outcome nat :=
  vj ← aget l j; vi ← aget l i;
  Ok (if vj <? vi then j else i).

Definition array_swap (l : list Z) (i j : nat) : outcome (list Z) :=
  tmp ← aget l i; vj ← aget l j;
  l1 ← aset l i vj;
  aset l1 j tmp.

(** The loop of [push_down]; the index at least halves in each round, so the
    first index is fuel enough. *)
Fixpoint push_down_loop (fuel : nat) (l : list Z) (index : nat) : outcome (list Z) :=
  match fuel with
  | O => if (index =? 0)%nat then Ok l else Fault OutOfFuel
  | S fuel' =>
      if (index =? 0)%nat then Ok l else
      let next := ((index - 1) / 2)%nat in
      vi ← aget l index; vn ← aget l next;
      if vi <? vn then
        l1 ← array_swap l index next;
        push_down_loop fuel' l1 next
      else Ok l
  end.

Definition push_down (h : binheap) (index : nat) : outcome binheap :=
  l ← push_down_loop index (bh_arr h) index;
  Ok (h <| bh_arr := l |>).

Definition binheap_insert (h : binheap) (v : Z) : outcome (Z * binheap) :=
  _ ← c_assert (bh_size h <=? bh_capacity h)%nat;
  if (bh_size h =? bh_capacity h)%nat then Ok (-1, h) else
  l ← aset (bh_arr h) (bh_size h) v;
  let index := bh_size h in
  h1 ← push_down (h <| bh_arr := l |> <| bh_size ::= S |>) index;
  Ok (0, h1).

Definition binheap_peek (h : binheap) : outcome (Z * option Z) :=
  if (bh_size h =? 0)%nat then Ok (-1, None) else
  v ← aget (bh_arr h) 0;
  Ok (0, Some v).

(** The loop of [binheap_pop]; the index grows in each round and stays below
    the size. *)
Fixpoint pop_loop (fuel : nat) (l : list Z) (n index : nat) : outcome (list Z) :=
  match fuel with
  | O => Fault OutOfFuel
  | S fuel' =>
      let left := (index * 2 + 1)%nat in
      if (left <? n)%nat then
        min1 ← array_min l index left;
        let right := (left + 1)%nat in
        min ← (if (right <? n)%nat then array_min l min1 right else Ok min1);
        if negb (min =? index)%nat then
          l1 ← array_swap l index min;
          pop_loop fuel' l1 n min
        else Ok l
      else Ok l
  end.

Definition binheap_pop (h : binheap) : outcome (Z * binheap) :=
  if (bh_size h =? 0)%nat then Ok (-1, h) else
  let n := (bh_size h - 1)%nat in
  l ← array_swap (bh_arr h) 0 n;
  l1 ← pop_loop (S n) l n 0;
  Ok (0, h <| bh_size := n |> <| bh_arr := l1 |>).

(** [malloc] leaves the cells undefined: [garbage] is what they hold. *)
Definition binheap_new (cap : nat) (garbage : list Z) : outcome binheap :=
  _ ← c_assert (negb (cap =? 0)%nat);
  Ok {| bh_size := 0; bh_capacity := cap; bh_arr := take cap (garbage ++ replicate cap 0) |}.

Definition binheap_empty (h : binheap) : bool := (bh_size h =? 0)%nat.

(** ** Specification: a bounded priority queue *)

(** The elements in use, in array order. *)
Definition elems (h : binheap) : list Z := take (bh_size h) (bh_arr h).

Definition parent (i : nat) : nat := ((i - 1) / 2)%nat.
Arguments parent _ : simpl never.

(** Every cell but the root is at least its parent. *)
Definition heap_ordered (n : nat) (l : list Z) : Prop :=
  forall i, (0 < i < n)%nat -> l !!! parent i <= l !!! i.

Record heap_wf (h : binheap) : Prop := {
  wf_length : length (bh_arr h) = bh_capacity h;
  wf_size : (bh_size h <= bh_capacity h)%nat;
  wf_ordered : heap_ordered (bh_size h) (bh_arr h)
}.

(** The abstract queue: its elements in ascending order. *)
Fixpoint sinsert (v : Z) (s : list Z) : list Z :=
  match s with
  | [] => [v]
  | x :: r => if v <=? x then v :: s else x :: sinsert v r
  end.

Definition abstracts (h : binheap) (s : list Z) : Prop :=
  heap_wf h /\ StronglySorted Z.le s /\ s ≡ₚ elems h.

(** ** Array accesses *)

Section Arrays.
Implicit Types l : list Z.

Definition lswap (l : list Z) (i j : nat) : list Z :=
  <[j := l !!! i]> (<[i := l !!! j]> l).

Lemma aget_total l i : (i < length l)%nat -> aget l i = Ok (l !!! i).
Proof.
  intros H. unfold aget. destruct (lookup_lt_is_Some_2 l i H) as [v E].
  rewrite E. by rewrite (list_lookup_total_correct _ _ _ E).
Qed.

Lemma array_swap_total l i j :
  (i < length l)%nat -> (j < length l)%nat -> array_swap l i j = Ok (lswap l i j).
Proof.
  intros Hi Hj. unfold array_swap, aset. rewrite !aget_total by done. simpl.
  rewrite decide_True by done. simpl.
  by rewrite decide_True by (by rewrite length_insert).
Qed.

Lemma array_min_total l i j :
  (i < length l)%nat -> (j < length l)%nat ->
  array_min l i j = Ok (if l !!! j <? l !!! i then j else i).
Proof. intros. unfold array_min. by rewrite !aget_total. Qed.

Lemma lswap_length l i j : length (lswap l i j) = length l.
Proof. unfold lswap. by rewrite !length_insert. Qed.

Lemma lswap_fst l i j : (i < length l)%nat -> (j < length l)%nat ->
  lswap l i j !!! i = l !!! j.
Proof.
  intros. unfold lswap. destruct (decide (i = j)) as [->|].
  - by rewrite list_lookup_total_insert_eq by (by rewrite length_insert).
  - rewrite list_lookup_total_insert_ne by done.
    by rewrite list_lookup_total_insert_eq.
Qed.

Lemma lswap_snd l i j : (i < length l)%nat -> (j < length l)%nat ->
  lswap l i j !!! j = l !!! i.
Proof.
  intros. unfold lswap.
  by rewrite list_lookup_total_insert_eq by (by rewrite length_insert).
Qed.

Lemma lswap_other l i j k : k <> i -> k <> j -> lswap l i j !!! k = l !!! k.
Proof.
  intros. unfold lswap. by rewrite !list_lookup_total_insert_ne.
Qed.

(** Swapping two cells of a prefix permutes the prefix. *)
Lemma lswap_perm n l i j :
  (i < n)%nat -> (j < n)%nat -> (n <= length l)%nat ->
  take n (lswap l i j) ≡ₚ take n l.
Proof.
  intros Hi Hj Hn.
  unfold lswap. rewrite !take_insert_lt by done.
  apply Permutation_insert_swap; rewrite lookup_take_lt by done;
    apply list_lookup_lookup_total_lt; lia.
Qed.
End Arrays.

(** ** Heap order *)

Section Order.
Implicit Types l : list Z.

Lemma parent_lt i : (0 < i)%nat -> (parent i < i)%nat.
Proof. intros. unfold parent. apply Nat.Div0.div_lt_upper_bound. lia. Qed.

Lemma parent_children i j :
  (0 < j)%nat -> parent j = i <-> (j = i * 2 + 1 \/ j = i * 2 + 2)%nat.
Proof.
  intros Hj. unfold parent. split.
  - intros <-. pose proof (Nat.div_mod_eq (j - 1) 2).
    pose proof (Nat.mod_upper_bound (j - 1) 2). lia.
  - intros [-> | ->].
    + replace (i * 2 + 1 - 1)%nat with (i * 2)%nat by lia. by rewrite Nat.div_mul.
    + replace (i * 2 + 2 - 1)%nat with (1 + i * 2)%nat by lia.
      by rewrite Nat.div_add.
Qed.

(** The order holds but for the cell [i] and its parent; what is below [i]
    is already above the parent of [i]. *)
Definition ordered_up (n : nat) (l : list Z) (i : nat) : Prop :=
  (forall j, (0 < j < n)%nat -> j <> i -> l !!! parent j <= l !!! j) /\
  (forall j, (0 < j < n)%nat -> parent j = i -> (0 < i)%nat -> l !!! parent i <= l !!! j).

(** The order holds but for the cell [i] and its children. *)
Definition ordered_down (n : nat) (l : list Z) (i : nat) : Prop :=
  (forall j, (0 < j < n)%nat -> parent j <> i -> l !!! parent j <= l !!! j) /\
  (forall j, (0 < j < n)%nat -> parent j = i -> (0 < i)%nat -> l !!! parent i <= l !!! j).

(** Moving a cell up past its parent keeps the order elsewhere. *)
Lemma ordered_up_swap n l i :
  (0 < i < n)%nat -> (n <= length l)%nat ->
  ordered_up n l i -> l !!! i < l !!! parent i ->
  ordered_up n (lswap l i (parent i)) (parent i).
Proof.
  intros Hi Hn [Hord Hsub] Hlt. pose proof (parent_lt i ltac:(lia)) as Hp.
  assert (lswap l i (parent i) !!! i = l !!! parent i) as Ei by (apply lswap_fst; lia).
  assert (lswap l i (parent i) !!! parent i = l !!! i) as Ep by (apply lswap_snd; lia).
  assert (forall k, k <> i -> k <> parent i -> lswap l i (parent i) !!! k = l !!! k) as Eo
    by (intros; by apply lswap_other).
  split.
  - intros j Hj Hjp. pose proof (parent_lt j ltac:(lia)).
    destruct (decide (j = i)) as [->|Hji]; [rewrite Ei, Ep; lia|].
    rewrite (Eo j) by done.
    destruct (decide (parent j = i)) as [Ej|Hpi].
    { rewrite Ej, Ei. apply (Hsub j); lia. }
    destruct (decide (parent j = parent i)) as [Ej|Hpp].
    { rewrite Ej, Ep. specialize (Hord j Hj Hji). rewrite Ej in Hord. lia. }
    rewrite (Eo (parent j)) by done. by apply Hord.
  - intros j Hj Hjp Hpos. pose proof (parent_lt (parent i) Hpos).
    rewrite (Eo (parent (parent i))) by lia.
    pose proof (Hord (parent i) ltac:(lia) ltac:(lia)).
    destruct (decide (j = i)) as [->|Hji]; [rewrite Ei; lia|].
    pose proof (parent_lt j ltac:(lia)).
    rewrite (Eo j) by lia. specialize (Hord j Hj Hji). rewrite Hjp in Hord. lia.
Qed.

Lemma ordered_up_done n l i :
  (i = 0)%nat \/ l !!! parent i <= l !!! i ->
  ordered_up n l i -> heap_ordered n l.
Proof.
  intros Hi [Hord _] j Hj. destruct (decide (j = i)) as [->|]; [|by apply Hord].
  destruct Hi; [lia|done].
Qed.

(** Moving a cell down past its smallest child keeps the order elsewhere. *)
Lemma ordered_down_swap n l i c :
  (0 < c < n)%nat -> (n <= length l)%nat -> parent c = i ->
  (forall j, (0 < j < n)%nat -> parent j = i -> l !!! c <= l !!! j) ->
  ordered_down n l i -> l !!! c < l !!! i ->
  ordered_down n (lswap l i c) c.
Proof.
  intros Hc Hn Hpc Hmin [Hord Hsub] Hlt. pose proof (parent_lt c ltac:(lia)) as Hp.
  rewrite Hpc in Hp.
  assert (lswap l i c !!! i = l !!! c) as Ei by (apply lswap_fst; lia).
  assert (lswap l i c !!! c = l !!! i) as Ec by (apply lswap_snd; lia).
  assert (forall k, k <> i -> k <> c -> lswap l i c !!! k = l !!! k) as Eo
    by (intros; by apply lswap_other).
  split.
  - intros j Hj Hjc. pose proof (parent_lt j ltac:(lia)).
    destruct (decide (parent j = i)) as [Ej|Hne].
    + rewrite Ej, Ei. destruct (decide (j = c)) as [->|]; [rewrite Ec; lia|].
      rewrite (Eo j) by lia. by apply Hmin.
    + destruct (decide (j = i)) as [->|Hji].
      * rewrite Ei, (Eo (parent i)) by lia. apply (Hsub c); lia.
      * assert (j <> c) by congruence. rewrite (Eo j), (Eo (parent j)) by done.
        by apply Hord.
  - intros j Hj Hjc _. pose proof (parent_lt j ltac:(lia)).
    rewrite Hpc, Ei, (Eo j) by lia. rewrite <- Hjc. apply Hord; lia.
Qed.

Lemma ordered_down_done n l i :
  (forall j, (0 < j < n)%nat -> parent j = i -> l !!! i <= l !!! j) ->
  ordered_down n l i -> heap_ordered n l.
Proof.
  intros Hi [Hord _] j Hj. destruct (decide (parent j = i)) as [E|]; [|by apply Hord].
  rewrite E. by apply Hi.
Qed.

(** The root of an ordered heap is its least element. *)
Lemma heap_root_least n l i :
  heap_ordered n l -> (i < n)%nat -> l !!! 0%nat <= l !!! i.
Proof.
  intros Hord. induction i as [i IH] using lt_wf_ind. intros Hi.
  destruct (decide (i = 0)%nat) as [->|]; [lia|].
  pose proof (parent_lt i ltac:(lia)).
  transitivity (l !!! parent i); [apply IH; lia | apply Hord; lia].
Qed.
End Order.

(** ** The loops *)

Lemma push_down_loop_spec fuel n l i :
  (i <= fuel)%nat -> (i < n)%nat -> (n <= length l)%nat -> ordered_up n l i ->
  exists l', push_down_loop fuel l i = Ok l' /\ length l' = length l /\
    heap_ordered n l' /\ take n l' ≡ₚ take n l.
Proof.
  revert l i. induction fuel as [|fuel IH]; intros l i Hf Hi Hn Hup;
    cbn [push_down_loop].
  { assert (i = 0)%nat as -> by lia. exists l. split_and!; try done.
    eapply ordered_up_done; eauto. }
  destruct (Nat.eqb_spec i 0) as [->|Hi0].
  { exists l. split_and!; try done. eapply ordered_up_done; eauto. }
  pose proof (parent_lt i ltac:(lia)) as Hp. change ((i - 1) / 2)%nat with (parent i).
  rewrite !aget_total by lia. cbn -[push_down_loop].
  destruct (Z.ltb_spec (l !!! i) (l !!! parent i)) as [Hlt|Hge].
  - rewrite array_swap_total by lia. cbn -[push_down_loop].
    destruct (IH (lswap l i (parent i)) (parent i)) as (l' & E & Hlen & Hord & Hperm);
      rewrite ?lswap_length in *; try lia.
    { apply ordered_up_swap; done || lia. }
    exists l'. split_and!; try done. rewrite Hperm. apply lswap_perm; lia.
  - exists l. split_and!; try done. eapply ordered_up_done; eauto.
Qed.

(** The child the loop of [binheap_pop] selects is a least one. *)
Lemma select_min l n i (left := (i * 2 + 1)%nat) (right := (left + 1)%nat) :
  (left < n)%nat -> (n <= length l)%nat ->
  exists m,
    (min1 ← array_min l i left;
     if (right <? n)%nat then array_min l min1 right else Ok min1) = Ok m /\
    (forall j, (0 < j < n)%nat -> parent j = i -> l !!! m <= l !!! j) /\
    l !!! m <= l !!! i /\
    (m = i \/ ((0 < m < n)%nat /\ parent m = i /\ l !!! m < l !!! i)).
Proof.
  intros Hl Hn. assert (i < n)%nat by lia.
  rewrite array_min_total by lia. simpl.
  assert (forall j, (0 < j < n)%nat -> parent j = i -> j = left \/ j = right) as Hch.
  { intros j Hj Hp. apply parent_children in Hp; lia. }
  assert (parent left = i) as Hpl by (apply parent_children; lia).
  assert (parent right = i) as Hpr by (apply parent_children; lia).
  set (m1 := if l !!! left <? l !!! i then left else i).
  assert (m1 < n)%nat by (unfold m1; case_match; lia).
  destruct (Nat.ltb_spec right n) as [Hr|Hr].
  - rewrite array_min_total by lia. eexists. split; [done|].
    unfold m1. split_and!.
    + intros j Hj Hp. destruct (Hch j Hj Hp) as [-> | ->];
        repeat case_match; lia.
    + repeat case_match; lia.
    + repeat case_match; try (by left); right; split_and!; try done; lia.
  - exists m1. split; [done|]. unfold m1. split_and!.
    + intros j Hj Hp. destruct (Hch j Hj Hp) as [-> | ->]; [case_match; lia|lia].
    + case_match; lia.
    + case_match; [right|by left]. split_and!; try done; lia.
Qed.

Lemma pop_loop_spec fuel n l i :
  (n - i < fuel)%nat -> (n <= length l)%nat -> ordered_down n l i ->
  exists l', pop_loop fuel l n i = Ok l' /\ length l' = length l /\
    heap_ordered n l' /\ take n l' ≡ₚ take n l /\ (forall k, (n <= k)%nat -> l' !!! k = l !!! k).
Proof.
  revert l i. induction fuel as [|fuel IH]; intros l i Hf Hn Hdn; [lia|].
  cbn [pop_loop]. destruct (Nat.ltb_spec (i * 2 + 1) n) as [Hl|Hl].
  - destruct (select_min l n i) as (m & E & Hmin & Hmi & Hm); [done..|].
    apply bind_ok in E as (m1 & E1 & E2). rewrite E1. cbn [mbind outcome_bind negb].
    rewrite E2. cbn [mbind outcome_bind negb].
    destruct (Nat.eqb_spec m i) as [->|Hne]; cbn [mbind outcome_bind negb].
    { exists l. split_and!; try done. by eapply ordered_down_done. }
    destruct Hm as [|(Hm & Hp & Hlt)]; [done|].
    pose proof (parent_lt m ltac:(lia)). rewrite array_swap_total by lia.
    cbn [mbind outcome_bind negb].
    destruct (IH (lswap l i m) m) as (l' & E & Hlen & Hord & Hperm & Hk);
      rewrite ?lswap_length in *; try lia.
    { apply ordered_down_swap; done || lia. }
    exists l'. split_and!; try done.
    + rewrite Hperm. apply lswap_perm; lia.
    + intros k Hkn. rewrite Hk by done. apply lswap_other; lia.
  - exists l. split_and!; try done. eapply ordered_down_done; [|done].
    intros j Hj Hp. apply parent_children in Hp; lia.
Qed.

(** ** The operations *)

Lemma take_S_total (l : list Z) n :
  (n < length l)%nat -> take (S n) l = take n l ++ [l !!! n].
Proof.
  intros. apply take_S_r. by apply list_lookup_lookup_total_lt.
Qed.

Lemma binheap_insert_full h v :
  heap_wf h -> bh_size h = bh_capacity h -> binheap_insert h v = Ok (-1, h).
Proof.
  intros Hwf E. unfold binheap_insert.
  rewrite (proj2 (Nat.leb_le _ _) (wf_size _ Hwf)). simpl.
  by rewrite (proj2 (Nat.eqb_eq _ _) E).
Qed.

Lemma binheap_insert_room h v :
  heap_wf h -> (bh_size h < bh_capacity h)%nat ->
  exists h', binheap_insert h v = Ok (0, h') /\ heap_wf h' /\
    bh_size h' = S (bh_size h) /\ bh_capacity h' = bh_capacity h /\
    elems h' ≡ₚ v :: elems h.
Proof.
  intros [Hlen Hsz Hord] Hlt. unfold binheap_insert.
  rewrite (proj2 (Nat.leb_le _ _) Hsz), (proj2 (Nat.eqb_neq _ _)) by lia.
  unfold aset. rewrite decide_True by lia. simpl. unfold push_down. simpl.
  set (l := <[bh_size h := v]> (bh_arr h)).
  assert (length l = length (bh_arr h)) as Hll by (unfold l; by rewrite length_insert).
  assert (forall k, (k < bh_size h)%nat -> l !!! k = bh_arr h !!! k) as Hk.
  { intros. unfold l. by rewrite list_lookup_total_insert_ne by lia. }
  assert (l !!! bh_size h = v) as Hv.
  { unfold l. by rewrite list_lookup_total_insert_eq by lia. }
  destruct (push_down_loop_spec (bh_size h) (S (bh_size h)) l (bh_size h))
    as (l' & E & Hl' & Hord' & Hperm); try lia.
  { split; intros j Hj Hje; [|intros]; pose proof (parent_lt j ltac:(lia)); [|lia].
    rewrite !Hk by lia. apply Hord. lia. }
  rewrite E. simpl. eexists. split; [done|]. unfold elems. simpl. split_and!; try done.
  - split; simpl; [congruence|lia|done].
  - rewrite Hperm, take_S_total by lia. rewrite Hv. unfold l.
    rewrite take_insert_ge by lia. by rewrite Permutation_app_comm.
Qed.

Lemma binheap_pop_nonempty h :
  heap_wf h -> (0 < bh_size h)%nat ->
  exists h', binheap_pop h = Ok (0, h') /\ heap_wf h' /\
    S (bh_size h') = bh_size h /\ bh_capacity h' = bh_capacity h /\
    elems h ≡ₚ bh_arr h !!! 0%nat :: elems h'.
Proof.
  intros [Hlen Hsz Hord] Hpos. unfold binheap_pop.
  rewrite (proj2 (Nat.eqb_neq _ _)) by lia.
  set (n := (bh_size h - 1)%nat). rewrite array_swap_total by lia.
  set (l := lswap (bh_arr h) 0 n). cbn -[pop_loop].
  assert (length l = length (bh_arr h)) as Hll by apply lswap_length.
  assert (l !!! n = bh_arr h !!! 0%nat) as Hn by (apply lswap_snd; lia).
  destruct (pop_loop_spec (S n) n l 0) as (l' & E & Hl' & Hord' & Hperm & _); try lia.
  { split; [|lia]. intros j Hj Hp. pose proof (parent_lt j ltac:(lia)).
    unfold l. rewrite !lswap_other by lia. apply Hord. lia. }
  rewrite E. cbn -[pop_loop]. eexists. split; [done|]. unfold elems. simpl.
  split_and!; try lia; try done.
  - split; simpl; [congruence|lia|done].
  - rewrite Hperm. replace (bh_size h) with (S n) by lia.
    rewrite <- (lswap_perm (S n) (bh_arr h) 0 n) by lia. fold l.
    rewrite take_S_total by lia. by rewrite Hn, Permutation_app_comm.
Qed.

Lemma binheap_new_wf cap garbage h :
  binheap_new cap garbage = Ok h -> heap_wf h /\ elems h = [].
Proof.
  unfold binheap_new. intros H. inv_ok. split; [|done]. split; simpl; [|lia|].
  - rewrite length_take, length_app, length_replicate. lia.
  - intros i Hi. lia.
Qed.

Lemma elems_length h : heap_wf h -> length (elems h) = bh_size h.
Proof. intros [Hlen Hsz _]. unfold elems. rewrite length_take. lia. Qed.

(** ** Refinement *)

Lemma sinsert_perm v s : sinsert v s ≡ₚ v :: s.
Proof.
  induction s as [|x r IH]; simpl; [done|]. destruct (v <=? x); [done|].
  rewrite IH. apply Permutation_swap.
Qed.

Lemma sinsert_sorted v s : StronglySorted Z.le s -> StronglySorted Z.le (sinsert v s).
Proof.
  induction 1 as [|x r Hr IH Hx]; simpl; [repeat constructor|].
  destruct (Z.leb_spec v x).
  - constructor; [by constructor|]. constructor; [done|].
    eapply Forall_impl; [exact Hx|]. intros y Hy. simpl in Hy. lia.
  - constructor; [done|]. rewrite Forall_forall in Hx |- *. intros y Hy.
    rewrite sinsert_perm in Hy. apply elem_of_cons in Hy as [->|Hy]; [lia|by apply Hx].
Qed.

(** The head of the abstract queue is the root of the array. *)
Lemma abstracts_head h x r :
  abstracts h (x :: r) -> bh_arr h !!! 0%nat = x /\ (0 < bh_size h)%nat.
Proof.
  intros (Hwf & Hs & Hp).
  assert (0 < bh_size h)%nat as Hpos.
  { rewrite <- (elems_length h Hwf), <- Hp. simpl. lia. }
  split; [|done]. destruct Hwf as [Hlen Hsz Hord].
  assert (bh_arr h !!! 0%nat ∈ x :: r) as Hin.
  { rewrite Hp. unfold elems.
    rewrite <- (lookup_total_take_lt _ (bh_size h)) by lia.
    apply list_elem_of_lookup_total_2. rewrite length_take. lia. }
  assert (x ∈ elems h) as Hx by (rewrite <- Hp; left).
  apply list_elem_of_lookup in Hx as [i Hi]. unfold elems in Hi.
  apply lookup_take_Some in Hi as [Hi Hlt].
  apply list_lookup_total_correct in Hi.
  pose proof (heap_root_least _ _ i Hord Hlt).
  inversion Hs as [|? ? _ Hall]; subst. apply elem_of_cons in Hin as [?|Hin]; [done|].
  rewrite Forall_forall in Hall. specialize (Hall _ Hin). lia.
Qed.

Lemma abstracts_insert h s v :
  abstracts h s -> (bh_size h < bh_capacity h)%nat ->
  exists h', binheap_insert h v = Ok (0, h') /\ abstracts h' (sinsert v s) /\
    bh_capacity h' = bh_capacity h.
Proof.
  intros (Hwf & Hs & Hp) Hlt.
  destruct (binheap_insert_room h v Hwf Hlt) as (h' & E & Hwf' & _ & Hc & Hperm).
  exists h'. split_and!; try done. split_and!; [done|by apply sinsert_sorted|].
  by rewrite sinsert_perm, Hperm, Hp.
Qed.

Lemma abstracts_pop h x r :
  abstracts h (x :: r) ->
  exists h', binheap_pop h = Ok (0, h') /\ abstracts h' r /\
    bh_capacity h' = bh_capacity h.
Proof.
  intros Ha. destruct (abstracts_head _ _ _ Ha) as [Hx Hpos].
  destruct Ha as (Hwf & Hs & Hp).
  destruct (binheap_pop_nonempty h Hwf Hpos) as (h' & E & Hwf' & _ & Hc & Hperm).
  exists h'. split_and!; try done. inversion Hs; subst. split_and!; [done..|].
  rewrite Hperm in Hp. by apply Permutation_cons_inv in Hp.
Qed.

Lemma abstracts_size h s : abstracts h s -> length s = bh_size h.
Proof. intros (Hwf & _ & Hp). by rewrite Hp, elems_length. Qed.

Lemma abstracts_peek h s :
  abstracts h s ->
  binheap_peek h = Ok (match s with [] => (-1, None) | x :: _ => (0, Some x) end).
Proof.
  intros Ha. pose proof (abstracts_size _ _ Ha) as Hn. unfold binheap_peek.
  destruct s as [|x r].
  - by rewrite <- Hn.
  - destruct (abstracts_head _ _ _ Ha) as [Hx Hpos].
    rewrite (proj2 (Nat.eqb_neq _ _)) by lia. destruct Ha as ([Hlen Hsz _] & _ & _).
    rewrite aget_total by lia. simpl. by rewrite Hx.
Qed.

(** C17: The binary heap implements a bounded priority queue: insert, peek and
    pop on a heap that represents a sorted list of elements behave as sorted
    insertion, head and tail on the list, insert fails exactly when the heap
    is full, and no call accesses the array out of bounds. *)
Theorem binheap_refines_queue (h : binheap) (s : list Z) :
  abstracts h s ->
  (forall v,
     if decide (length s < bh_capacity h)%nat
     then exists h', binheap_insert h v = Ok (0, h') /\ abstracts h' (sinsert v s)
     else binheap_insert h v = Ok (-1, h)) /\
  binheap_peek h = Ok (match s with [] => (-1, None) | x :: _ => (0, Some x) end) /\
  match s with
  | [] => binheap_pop h = Ok (-1, h)
  | x :: r => exists h', binheap_pop h = Ok (0, h') /\ abstracts h' r
  end.
Proof.
  intros Ha. pose proof (abstracts_size _ _ Ha) as Hn. split_and!.
  - intros v. case_decide.
    + destruct (abstracts_insert h s v Ha) as (h' & ? & ? & _); [lia|eauto].
    + destruct Ha as (Hwf & _ & _). apply binheap_insert_full; [done|].
      pose proof (wf_size _ Hwf). lia.
  - by apply abstracts_peek.
  - destruct s as [|x r].
    + unfold binheap_pop. by rewrite <- Hn.
    + destruct (abstracts_pop _ _ _ Ha) as (h' & ? & ? & _). eauto.
Qed.

(** Insertions in turn, as [process_rdma_read_response] makes them. *)
Fixpoint insert_all (h : binheap) (vs : list Z) : outcome binheap :=
  match vs with
  | [] => Ok h
  | v :: r => '(_, h1) ← binheap_insert h v; insert_all h1 r
  end.

(** The loop of [progress_qp] and of the heap's tests: peek and pop until the
    heap is empty, collecting what was peeked. *)
Fixpoint drain (fuel : nat) (h : binheap) : outcome (list Z) :=
  if binheap_empty h then Ok [] else
  match fuel with
  | O => Fault OutOfFuel
  | S fuel' =>
      '(_, v) ← binheap_peek h; x ← deref v;
      '(_, h1) ← binheap_pop h;
      r ← drain fuel' h1;
      Ok (x :: r)
  end.

Lemma abstracts_insert_all vs : forall h s,
  abstracts h s -> (length s + length vs <= bh_capacity h)%nat ->
  exists h' s', insert_all h vs = Ok h' /\ abstracts h' s' /\ s' ≡ₚ vs ++ s.
Proof.
  induction vs as [|v vs IH]; intros h s Ha Hc; simpl in *; [by exists h, s|].
  pose proof (abstracts_size _ _ Ha).
  destruct (abstracts_insert h s v Ha) as (h1 & E & Ha1 & Hc1); [lia|].
  destruct (IH h1 (sinsert v s) Ha1) as (h' & s' & E' & Ha' & Hp').
  { rewrite (sinsert_perm v s), Hc1. simpl. lia. }
  exists h', s'. rewrite E. simpl. split_and!; try done.
  rewrite Hp', sinsert_perm. by rewrite Permutation_middle.
Qed.

Lemma abstracts_drain s : forall h fuel,
  abstracts h s -> (length s <= fuel)%nat -> drain fuel h = Ok s.
Proof.
  induction s as [|x r IH]; intros h fuel Ha Hf;
    pose proof (abstracts_size _ _ Ha) as Hn; simpl in Hn, Hf.
  - destruct fuel; simpl; unfold binheap_empty; by rewrite <- Hn.
  - destruct fuel as [|fuel]; [lia|]. simpl. unfold binheap_empty. rewrite <- Hn.
    rewrite (abstracts_peek _ _ Ha). simpl.
    destruct (abstracts_pop _ _ _ Ha) as (h' & E & Ha' & _). rewrite E. simpl.
    rewrite (IH h' fuel Ha') by lia. done.
Qed.

(** A new heap, after inserting a list that fits its capacity, pops the
    elements of the list in ascending order. *)
Theorem binheap_drain_sorted (cap : nat) (garbage vs : list Z) (h : binheap) :
  binheap_new cap garbage = Ok h -> (length vs <= cap)%nat ->
  exists h' s, insert_all h vs = Ok h' /\ drain (length vs) h' = Ok s /\
    StronglySorted Z.le s /\ s ≡ₚ vs.
Proof.
  intros Hnew Hlen. destruct (binheap_new_wf _ _ _ Hnew) as [Hwf He].
  assert (abstracts h []) as Ha by (split_and!; [done|constructor|by rewrite He]).
  assert (bh_capacity h = cap) as Hc.
  { unfold binheap_new in Hnew. by inv_ok. }
  destruct (abstracts_insert_all vs h [] Ha) as (h' & s & E & Ha' & Hp); [simpl; lia|].
  rewrite app_nil_r in Hp. exists h', s. split_and!; try done; [|apply Ha'].
  apply abstracts_drain; [done|]. by rewrite Hp.
Qed.

Definition heap_213 : binheap :=
  {| bh_size := 3; bh_capacity := 4; bh_arr := [1; 2; 3; 0] |}.

Lemma heap_213_abstracts : abstracts heap_213 [1; 2; 3].
Proof.
  split_and!; [|repeat constructor; lia|done].
  split; [done|simpl; lia|]. intros i Hi. simpl in Hi.
  assert (i = 1 \/ i = 2)%nat as [->| ->] by lia; vm_compute; discriminate.
Qed.

Lemma binheap_refines_queue_witness :
  exists h', binheap_insert heap_213 0 = Ok (0, h') /\ abstracts h' [0; 1; 2; 3].
Proof.
  exact (proj1 (binheap_refines_queue heap_213 [1; 2; 3] heap_213_abstracts) 0).
Defined.

Lemma binheap_drain_sorted_witness :
  exists h' s, insert_all {| bh_size := 0; bh_capacity := 4; bh_arr := [9; 9; 9; 9] |} [3; 1; 2] = Ok h' /\
    drain 3 h' = Ok s /\ StronglySorted Z.le s /\ s ≡ₚ [3; 1; 2].
Proof.
  apply (binheap_drain_sorted 4 [9; 9; 9; 9] [3; 1; 2]); [reflexivity|simpl; lia].
Defined.
