(* ===== verification/Dpdk.v ===== *)
(** * The DPDK interface

    DPDK is not part of the repository.  Its rings, packet transmission,
    timer and checksum helpers are the fields of the class [Dpdk], over which
    the models of liburdma are parametric; [DpdkLaws] states the documented
    behaviour that the theorems rely on.  [list_dpdk] is an instance of both,
    used to run the models on concrete inputs. *)
From S2P Require Import Prelude.

(** A ring holds pointers; a pointer to an entry of a queue's or a completion
    queue's storage array is the entry's index.  [env] is the state of the
    port, the mbuf pools and the timer. *)
Class Dpdk := {
  ring : Type;
  rte_ring_init : nat -> option ring;
  rte_ring_enqueue : ring -> nat -> Z * ring;
  rte_ring_dequeue : ring -> option (nat * ring);
  rte_ring_dequeue_burst : ring -> nat -> list nat * ring;
  rte_ring_enqueue_burst : ring -> list nat -> nat * ring;
  rte_ring_empty : ring -> bool;

  env : Type;
  rte_eth_tx_burst : env -> list bytes -> nat * env;
  rte_pktmbuf_alloc : env -> option (Z * env);
  rte_get_timer_cycles : env -> Z * env;
  rte_get_timer_hz : Z;

  rte_raw_cksum : bytes -> Z;
  rte_ipv4_cksum : bytes -> Z;
  rte_ipv4_phdr_cksum : bytes -> Z -> Z
}.

(** Sum of the 16-bit words of a buffer in host byte order, an odd last byte
    padded with zero: the sum whose one's complement reduction is the
    Internet checksum. *)
Fixpoint sum16 (bs : bytes) : Z :=
  match bs with
  | [] => 0
  | [a] => a
  | a :: b :: r => a + 256 * b + sum16 r
  end.

(** The UDP pseudo header of RFC 768 as DPDK lays it out: addresses, zero,
    protocol and UDP length taken from the IPv4 header. *)
Definition udp_pseudo_header (ip : bytes) : bytes :=
  sub 12 8 ip ++ [0] ++ sub 9 1 ip ++ be_encode 2 (be_decode (sub 2 2 ip) - 20).

Definition PKT_TX_IP_CKSUM : Z := 2 ^ 54.
Definition PKT_TX_IPV4 : Z := 2 ^ 55.
Definition PKT_TX_UDP_CKSUM : Z := 3 * 2 ^ 52.
Definition PKT_RX_L4_CKSUM_BAD : Z := 2 ^ 3.
Definition PKT_RX_IP_CKSUM_BAD : Z := 2 ^ 4.

(** Documented behaviour: a ring created for [count] entries, a power of two,
    is a FIFO of [count - 1] pointers; [rte_ring_enqueue] fails exactly on a
    full ring and [rte_ring_dequeue] on an empty one; the burst variants
    transfer as many entries as they can; a transmit burst takes a prefix of
    the packets; an allocated mbuf has a non-null 64-bit address; the checksum
    helpers return 16-bit one's complement sums. *)
Class DpdkLaws (D : Dpdk) := {
  ring_elems : ring -> list nat;
  ring_cap : ring -> nat;
  ring_bound r : (length (ring_elems r) <= ring_cap r)%nat;
  ring_init_law n : (exists k, n = 2 ^ k)%nat ->
    exists r, rte_ring_init n = Some r /\ ring_elems r = [] /\ ring_cap r = (n - 1)%nat;
  ring_init_fail n : ~ (exists k, n = 2 ^ k)%nat -> rte_ring_init n = None;
  ring_enqueue_law r x : (length (ring_elems r) < ring_cap r)%nat ->
    exists r', rte_ring_enqueue r x = (0, r') /\
      ring_elems r' = ring_elems r ++ [x] /\ ring_cap r' = ring_cap r;
  ring_enqueue_full r x : length (ring_elems r) = ring_cap r ->
    rte_ring_enqueue r x = (-ENOBUFS, r);
  ring_dequeue_law r x l : ring_elems r = x :: l ->
    exists r', rte_ring_dequeue r = Some (x, r') /\
      ring_elems r' = l /\ ring_cap r' = ring_cap r;
  ring_dequeue_nil r : ring_elems r = [] -> rte_ring_dequeue r = None;
  ring_dequeue_burst_law r n :
    exists r', rte_ring_dequeue_burst r n = (take n (ring_elems r), r') /\
      ring_elems r' = drop n (ring_elems r) /\ ring_cap r' = ring_cap r;
  ring_enqueue_burst_law r xs (k := Nat.min (length xs) (ring_cap r - length (ring_elems r))) :
    exists r', rte_ring_enqueue_burst r xs = (k, r') /\
      ring_elems r' = ring_elems r ++ take k xs /\ ring_cap r' = ring_cap r;
  ring_empty_law r : rte_ring_empty r = true <-> ring_elems r = [];
  tx_burst_law e fs : (fst (rte_eth_tx_burst e fs) <= length fs)%nat;
  pktmbuf_alloc_law e a e' : rte_pktmbuf_alloc e = Some (a, e') -> 0 < a < UINT64_MAX;
  raw_cksum_law bs : 0 <= rte_raw_cksum bs <= UINT16_MAX /\
    rte_raw_cksum bs mod 65535 = sum16 bs mod 65535;
  ipv4_phdr_cksum_law ip : 0 <= rte_ipv4_phdr_cksum ip 0 <= UINT16_MAX /\
    rte_ipv4_phdr_cksum ip 0 mod 65535 = sum16 (udp_pseudo_header ip) mod 65535;
  ipv4_cksum_law ip : 0 <= rte_ipv4_cksum ip <= UINT16_MAX /\
    (rte_ipv4_cksum ip + sum16 (take 20 ip)) mod 65535 = 0
}.

(** A port whose link is up takes at least one packet per transmit call;
    buffer pools sized for the traffic satisfy every allocation. *)
Class LivePort (D : Dpdk) := {
  env_live : env -> Prop;
  live_tx e fs : env_live e -> fs <> [] -> (0 < fst (rte_eth_tx_burst e fs))%nat;
  live_tx_keep e fs : env_live e -> env_live (snd (rte_eth_tx_burst e fs));
  live_timer_keep e : env_live e -> env_live (snd (rte_get_timer_cycles e));
  live_alloc e : env_live e -> exists a e', rte_pktmbuf_alloc e = Some (a, e') /\ env_live e'
}.

(** ** An instance *)

Record lring := LRing { lr_cap : nat; lr_elems : list nat;
  lr_ok : bool_decide (length lr_elems <= lr_cap)%nat }.

(** [le_burst] packets are taken by each transmit call; [le_bufs] mbufs are
    left in the pool, [None] if it does not run out. *)
Record lenv := LEnv { le_burst : nat; le_bufs : option nat; le_next : Z; le_clock : Z }.

Definition le_alloc (e : lenv) : option (Z * lenv) :=
  let next := if le_next e + 2304 <? UINT64_MAX then le_next e + 2304 else 4096 in
  if decide (0 < le_next e < UINT64_MAX) then
    match le_bufs e with
    | Some O => None
    | Some (S n) => Some (le_next e, LEnv (le_burst e) (Some n) next (le_clock e))
    | None => Some (le_next e, LEnv (le_burst e) None next (le_clock e))
    end
  else None.

Definition lring_mk (cap : nat) (l : list nat) : option lring :=
  match decide (bool_decide (length l <= cap)%nat) with
  | left H => Some (LRing cap l H)
  | right _ => None
  end.

Definition lring_upd (r : lring) (l : list nat) : lring := default r (lring_mk (lr_cap r) l).

Definition is_pow2 (n : nat) : bool := (n =? 2 ^ Nat.log2 n)%nat.

(** One's complement reduction of a sum to 16 bits. *)
Definition reduce16 (s : Z) : Z := s mod 65535.

#[export] Instance list_dpdk : Dpdk := {|
  ring := lring;
  rte_ring_init n := if is_pow2 n then lring_mk (n - 1) [] else None;
  rte_ring_enqueue r x :=
    if decide (length (lr_elems r) < lr_cap r)%nat
    then (0, lring_upd r (lr_elems r ++ [x])) else (-ENOBUFS, r);
  rte_ring_dequeue r :=
    match lr_elems r with [] => None | x :: l => Some (x, lring_upd r l) end;
  rte_ring_dequeue_burst r n :=
    (take n (lr_elems r), lring_upd r (drop n (lr_elems r)));
  rte_ring_enqueue_burst r xs :=
    let k := Nat.min (length xs) (lr_cap r - length (lr_elems r)) in
    (k, lring_upd r (lr_elems r ++ take k xs));
  rte_ring_empty r := bool_decide (lr_elems r = []);
  env := lenv;
  rte_eth_tx_burst e fs := (Nat.min (le_burst e) (length fs), e);
  rte_pktmbuf_alloc e := le_alloc e;
  rte_get_timer_cycles e :=
    (le_clock e, LEnv (le_burst e) (le_bufs e) (le_next e) (le_clock e + 1));
  rte_get_timer_hz := 1000;
  rte_raw_cksum bs := reduce16 (sum16 bs);
  rte_ipv4_cksum ip := reduce16 (- sum16 (take 20 ip));
  rte_ipv4_phdr_cksum ip fl := reduce16 (sum16 (udp_pseudo_header ip))
|}.

Lemma lring_upd_elems r l :
  (length l <= lr_cap r)%nat ->
  lr_elems (lring_upd r l) = l /\ lr_cap (lring_upd r l) = lr_cap r.
Proof.
  intros H. unfold lring_upd, lring_mk. case_decide as E; [done|].
  destruct E. by apply bool_decide_pack.
Qed.

Lemma lr_bound r : (length (lr_elems r) <= lr_cap r)%nat.
Proof. destruct r as [c l H]. simpl. by apply bool_decide_unpack in H. Qed.

Lemma is_pow2_spec n : is_pow2 n = true <-> exists k, (n = 2 ^ k)%nat.
Proof.
  unfold is_pow2. rewrite Nat.eqb_eq. split; [eauto|].
  intros [k ->]. by rewrite Nat.log2_pow2 by lia.
Qed.

#[export] Program Instance list_dpdk_laws : DpdkLaws list_dpdk := {|
  ring_elems := lr_elems;
  ring_cap := lr_cap
|}.
Next Obligation. apply lr_bound. Qed.
Next Obligation.
  intros n Hn. simpl. rewrite (proj2 (is_pow2_spec n) Hn). unfold lring_mk.
  case_decide as E; [eexists; split; [done|]; done|].
  destruct E. apply bool_decide_pack. simpl. lia.
Qed.
Next Obligation.
  intros n Hn. simpl. destruct (is_pow2 n) eqn:E; [|done].
  by apply is_pow2_spec in E.
Qed.
Next Obligation.
  intros r x H. simpl. rewrite decide_True by done. eexists. split; [done|].
  apply lring_upd_elems. rewrite length_app. simpl. lia.
Qed.
Next Obligation. intros r x H. simpl. by rewrite decide_False by lia. Qed.
Next Obligation.
  intros r x l H. simpl. rewrite H. eexists. split; [done|].
  apply lring_upd_elems. pose proof (lr_bound r) as Hb. rewrite H in Hb. simpl in Hb. lia.
Qed.
Next Obligation. intros r H. simpl. by rewrite H. Qed.
Next Obligation.
  intros r n. simpl. eexists. split; [done|]. apply lring_upd_elems.
  rewrite length_drop. pose proof (lr_bound r). lia.
Qed.
Next Obligation.
  intros r xs k. simpl. fold k. eexists. split; [done|]. apply lring_upd_elems.
  rewrite length_app, length_take. pose proof (lr_bound r). lia.
Qed.
Next Obligation. intros r. simpl. apply bool_decide_eq_true. Qed.
Next Obligation. intros e fs. simpl. lia. Qed.
Next Obligation.
  intros e a e'. simpl. unfold le_alloc. case_decide; [|done].
  destruct (le_bufs e) as [[|n]|]; [done|..]; by intros [= <- <-].
Qed.
Next Obligation.
  intros bs. simpl. unfold reduce16, UINT16_MAX.
  pose proof (Z.mod_pos_bound (sum16 bs) 65535). rewrite Z.mod_mod by lia. lia.
Qed.
Next Obligation.
  intros ip. simpl. unfold reduce16, UINT16_MAX.
  pose proof (Z.mod_pos_bound (sum16 (udp_pseudo_header ip)) 65535).
  rewrite Z.mod_mod by lia. lia.
Qed.
Next Obligation.
  intros ip. simpl rte_ipv4_cksum. unfold reduce16, UINT16_MAX.
  pose proof (Z.mod_pos_bound (- sum16 (take 20 ip)) 65535).
  rewrite Zplus_mod_idemp_l. split; [lia|].
  by replace (- sum16 (take 20 ip) + sum16 (take 20 ip)) with 0 by lia.
Qed.

#[export] Program Instance list_live : LivePort list_dpdk := {|
  env_live e := (0 < le_burst e)%nat /\ le_bufs e = None /\ 0 < le_next e < UINT64_MAX
|}.
Next Obligation. intros e [|f fs] (He & _) Hfs; [done|]. simpl in *. lia. Qed.
Next Obligation. done. Qed.
Next Obligation. done. Qed.
Next Obligation.
  intros e (He & Hb & Hn). simpl. unfold le_alloc. rewrite decide_True, Hb by done.
  eexists _, _. split; [done|]. split_and!; simpl; [done..| |].
  - destruct (Z.ltb_spec (le_next e + 2304) UINT64_MAX); lia.
  - unfold UINT64_MAX in *. destruct (Z.ltb_spec (le_next e + 2304) 18446744073709551615); lia.
Qed.
