(* ===== verification/Proto.v ===== *)
(** * Wire formats (include/proto.h, include/proto_trp.h)

    The packed header structures of the TRP, DDP and RDMAP layers, as records
    of host-order fields with their big-endian images.  A received packet is
    the buffer it arrived in; the code overlays a structure on it without a
    length check, so reading a field past the end of the buffer is a fault. *)
From S2P Require Import Prelude.

(** ** TRP (include/proto_trp.h) *)

Definition trp_req : Z := 0x1000.
Definition trp_accept : Z := 0x2000.
Definition trp_reject : Z := 0x3000.
Definition trp_fin : Z := 0x4000.
Definition trp_sack : Z := 0x5000.
Definition trp_opcode_mask : Z := 0xf000.

Record trp_hdr := Trp_hdr { trp_psn : Z; trp_ack_psn : Z; trp_opcode : Z }.

Definition sizeof_trp_hdr : nat := 10.

Definition trp_bytes (h : trp_hdr) : bytes :=
  be_encode 4 (trp_psn h) ++ be_encode 4 (trp_ack_psn h) ++ be_encode 2 (trp_opcode h).

(** ** DDP and RDMAP (include/proto.h) *)

Definition DDP_V1_UNTAGGED_DF : Z := 0x01.
Definition DDP_V1_TAGGED_DF : Z := 0x81.
Definition DDP_V1_UNTAGGED_LAST_DF : Z := 0x41.
Definition DDP_V1_TAGGED_LAST_DF : Z := 0xc1.
Definition DDP_GET_T (flags : Z) : Z := Z.land (Z.shiftr flags 7) 0x1.
Definition DDP_GET_L (flags : Z) : Z := Z.land (Z.shiftr flags 6) 0x1.
Definition DDP_GET_DV (flags : Z) : Z := Z.land flags 0x3.

Definition RDMAP_V1 : Z := 0x40.
Definition RDMAP_GET_RV (flags : Z) : Z := Z.land (Z.shiftr flags 6) 0x3.
Definition RDMAP_GET_OPCODE (flags : Z) : Z := Z.land flags 0xf.

Record rdmap_packet := Rdmap_packet {
  ddp_flags : Z;
  rdmap_info : Z;
  sink_stag : Z
}.

Record rdmap_tagged_packet := Rdmap_tagged {
  tagged_head : rdmap_packet;
  tagged_offset : Z
}.

Record rdmap_untagged_packet := Rdmap_untagged {
  untagged_head : rdmap_packet;
  untagged_qn : Z;
  untagged_msn : Z;
  untagged_mo : Z
}.

Record rdmap_readreq_packet := Rdmap_readreq {
  readreq_untagged : rdmap_untagged_packet;
  readreq_sink_offset : Z;
  read_msg_size : Z;
  source_stag : Z;
  source_offset : Z
}.

Record rdmap_terminate_packet := Rdmap_terminate {
  terminate_untagged : rdmap_untagged_packet;
  error_code : Z;
  hdrct : Z;
  reserved : Z
}.

Definition sizeof_rdmap_packet : nat := 6.
Definition sizeof_tagged : nat := 14.
Definition sizeof_untagged : nat := 18.
Definition sizeof_readreq : nat := 42.
Definition sizeof_terminate : nat := 22.

Definition ddp_queue_send : Z := 0.
Definition ddp_queue_read_request : Z := 1.
Definition ddp_queue_terminate : Z := 2.

Definition rdmap_opcode_rdma_write : Z := 0.
Definition rdmap_opcode_rdma_read_request : Z := 1.
Definition rdmap_opcode_rdma_read_response : Z := 2.
Definition rdmap_opcode_send : Z := 3.
Definition rdmap_opcode_send_inv : Z := 4.
Definition rdmap_opcode_send_se : Z := 5.
Definition rdmap_opcode_send_se_inv : Z := 6.
Definition rdmap_opcode_terminate : Z := 7.

Definition rdmap_hdrct_m : Z := 1.
Definition rdmap_hdrct_d : Z := 2.
Definition rdmap_hdrct_r : Z := 4.

Definition rdmap_error_local_catastrophic : Z := 0x0000.
Definition rdmap_error_stag_invalid : Z := 0x0100.
Definition rdmap_error_base_or_bounds_violation : Z := 0x0101.
Definition rdmap_error_version_invalid : Z := 0x0205.
Definition rdmap_error_opcode_unexpected : Z := 0x0206.
Definition rdmap_error_remote_stream_catastrophic : Z := 0x0207.
Definition ddp_error_tagged_stag_invalid : Z := 0x1100.
Definition ddp_error_tagged_base_or_bounds_violation : Z := 0x1101.
Definition ddp_error_tagged_version_invalid : Z := 0x1104.
Definition ddp_error_untagged_no_buffer : Z := 0x1202.
Definition ddp_error_untagged_invalid_msn : Z := 0x1203.
Definition ddp_error_untagged_message_too_long : Z := 0x1205.
Definition ddp_error_untagged_version_invalid : Z := 0x1206.

(** Images of the structures: single bytes, then network byte order. *)
Definition rdmap_bytes (p : rdmap_packet) : bytes :=
  [u8 (ddp_flags p); u8 (rdmap_info p)] ++ be_encode 4 (sink_stag p).

Definition tagged_bytes (p : rdmap_tagged_packet) : bytes :=
  rdmap_bytes (tagged_head p) ++ be_encode 8 (tagged_offset p).

Definition untagged_bytes (p : rdmap_untagged_packet) : bytes :=
  rdmap_bytes (untagged_head p) ++ be_encode 4 (untagged_qn p)
  ++ be_encode 4 (untagged_msn p) ++ be_encode 4 (untagged_mo p).

Definition readreq_bytes (p : rdmap_readreq_packet) : bytes :=
  untagged_bytes (readreq_untagged p) ++ be_encode 8 (readreq_sink_offset p)
  ++ be_encode 4 (read_msg_size p) ++ be_encode 4 (source_stag p)
  ++ be_encode 8 (source_offset p).

Definition terminate_bytes (p : rdmap_terminate_packet) : bytes :=
  untagged_bytes (terminate_untagged p) ++ be_encode 2 (error_code p)
  ++ [u8 (hdrct p); u8 (reserved p)].

(** ** Reading a structure overlaid on a buffer *)

(** An integer of [n] bytes, in network byte order. *)
Definition get_be (buf : bytes) (off n : nat) : outcome Z :=
  if decide (off + n <= length buf)%nat
  then Ok (wrap (8 * Z.of_nat n) (be_decode (sub off n buf)))
  else Fault OutOfBounds.

Definition get_trp (buf : bytes) : outcome trp_hdr :=
  psn ← get_be buf 0 4; ack ← get_be buf 4 4; op ← get_be buf 8 2;
  Ok {| trp_psn := psn; trp_ack_psn := ack; trp_opcode := op |}.

Definition get_rdmap (buf : bytes) : outcome rdmap_packet :=
  f ← get_be buf 0 1; i ← get_be buf 1 1; s ← get_be buf 2 4;
  Ok {| ddp_flags := f; rdmap_info := i; sink_stag := s |}.

Definition get_tagged (buf : bytes) : outcome rdmap_tagged_packet :=
  h ← get_rdmap buf; o ← get_be buf 6 8;
  Ok {| tagged_head := h; tagged_offset := o |}.

Definition get_untagged (buf : bytes) : outcome rdmap_untagged_packet :=
  h ← get_rdmap buf; q ← get_be buf 6 4; m ← get_be buf 10 4; o ← get_be buf 14 4;
  Ok {| untagged_head := h; untagged_qn := q; untagged_msn := m; untagged_mo := o |}.

Definition get_readreq (buf : bytes) : outcome rdmap_readreq_packet :=
  u ← get_untagged buf; so ← get_be buf 18 8; sz ← get_be buf 26 4;
  st ← get_be buf 30 4; ro ← get_be buf 34 8;
  Ok {| readreq_untagged := u; readreq_sink_offset := so; read_msg_size := sz;
        source_stag := st; source_offset := ro |}.

Definition get_terminate (buf : bytes) : outcome rdmap_terminate_packet :=
  u ← get_untagged buf; e ← get_be buf 18 2; h ← get_be buf 20 1; r ← get_be buf 21 1;
  Ok {| terminate_untagged := u; error_code := e; hdrct := h; reserved := r |}.

(** Fields that fit their width. *)
Definition trp_wf (h : trp_hdr) : Prop :=
  in_range 32 (trp_psn h) /\ in_range 32 (trp_ack_psn h) /\ in_range 16 (trp_opcode h).
Definition rdmap_wf (p : rdmap_packet) : Prop :=
  in_range 8 (ddp_flags p) /\ in_range 8 (rdmap_info p) /\ in_range 32 (sink_stag p).
Definition tagged_wf (p : rdmap_tagged_packet) : Prop :=
  rdmap_wf (tagged_head p) /\ in_range 64 (tagged_offset p).
Definition untagged_wf (p : rdmap_untagged_packet) : Prop :=
  rdmap_wf (untagged_head p) /\ in_range 32 (untagged_qn p) /\
  in_range 32 (untagged_msn p) /\ in_range 32 (untagged_mo p).
Definition readreq_wf (p : rdmap_readreq_packet) : Prop :=
  untagged_wf (readreq_untagged p) /\ in_range 64 (readreq_sink_offset p) /\
  in_range 32 (read_msg_size p) /\ in_range 32 (source_stag p) /\
  in_range 64 (source_offset p).
Definition terminate_wf (p : rdmap_terminate_packet) : Prop :=
  untagged_wf (terminate_untagged p) /\ in_range 16 (error_code p) /\
  in_range 8 (hdrct p) /\ in_range 8 (reserved p).

(** ** Round trips *)

Lemma get_be_skip a b off n :
  (length a <= off)%nat -> get_be (a ++ b) off n = get_be b (off - length a) n.
Proof.
  intros H. unfold get_be. rewrite length_app, sub_app_r by done.
  repeat case_decide; done || lia.
Qed.

Lemma get_be_cons b bs off n : get_be (b :: bs) (S off) n = get_be bs off n.
Proof.
  change (b :: bs) with ([b] ++ bs). rewrite get_be_skip by (simpl; lia).
  simpl. by rewrite Nat.sub_0_r.
Qed.

Lemma get_be_enc_skip m z b off n :
  (m <= off)%nat -> get_be (be_encode m z ++ b) off n = get_be b (off - m) n.
Proof. intros. by rewrite get_be_skip, be_encode_length by (by rewrite be_encode_length). Qed.

Lemma get_be_head n z b :
  in_range (8 * Z.of_nat n) z -> get_be (be_encode n z ++ b) 0 n = Ok z.
Proof.
  intros Hz. unfold get_be.
  rewrite decide_True by (rewrite length_app, be_encode_length; lia).
  rewrite sub_app_l by (by rewrite be_encode_length). by rewrite be_decode_encode_id, wrap_small.
Qed.

Lemma get_be_byte z b : in_range 8 z -> get_be (u8 z :: b) 0 1 = Ok z.
Proof.
  intros Hz. replace (u8 z :: b) with (be_encode 1 z ++ b).
  - by apply get_be_head.
  - simpl. by rewrite Z.div_1_r.
Qed.

(** [read_fields] evaluates the accesses of a structure to an image of it,
    one field after the other. *)
Ltac read_field :=
  repeat (first
    [ rewrite get_be_cons
    | rewrite get_be_enc_skip by lia; cbn [Nat.sub] ]);
  first
    [ rewrite get_be_byte by assumption
    | rewrite get_be_head by assumption
    | rewrite <- (app_nil_r (be_encode _ _)), get_be_head by assumption ];
  cbn [mbind outcome_bind].
Ltac read_fields := rewrite <- ?app_assoc; cbn [app]; repeat read_field.

Lemma get_trp_bytes h rest : trp_wf h -> get_trp (trp_bytes h ++ rest) = Ok h.
Proof.
  intros (? & ? & ?). unfold get_trp, trp_bytes. read_fields. by destruct h.
Qed.

Lemma get_rdmap_bytes p rest : rdmap_wf p -> get_rdmap (rdmap_bytes p ++ rest) = Ok p.
Proof.
  intros (? & ? & ?). unfold get_rdmap, rdmap_bytes. read_fields. by destruct p.
Qed.

Lemma rdmap_bytes_length p : length (rdmap_bytes p) = 6%nat.
Proof. done. Qed.

Lemma get_be_rdmap_skip p b off n :
  (6 <= off)%nat -> get_be (rdmap_bytes p ++ b) off n = get_be b (off - 6) n.
Proof. intros. by rewrite get_be_skip by (by rewrite rdmap_bytes_length). Qed.

Lemma get_tagged_bytes p rest :
  tagged_wf p -> get_tagged (tagged_bytes p ++ rest) = Ok p.
Proof.
  intros (? & ?). unfold get_tagged, tagged_bytes. rewrite <- !app_assoc.
  rewrite get_rdmap_bytes by done. cbn [mbind outcome_bind].
  rewrite get_be_rdmap_skip by lia. read_fields. by destruct p.
Qed.

Lemma get_untagged_bytes p rest :
  untagged_wf p -> get_untagged (untagged_bytes p ++ rest) = Ok p.
Proof.
  intros (? & ? & ? & ?). unfold get_untagged, untagged_bytes. rewrite <- !app_assoc.
  rewrite get_rdmap_bytes by done. cbn [mbind outcome_bind].
  do 3 (rewrite get_be_rdmap_skip by lia; cbn [Nat.sub]; read_field). by destruct p.
Qed.

Lemma untagged_bytes_length p : length (untagged_bytes p) = 18%nat.
Proof. done. Qed.

Lemma get_be_untagged_skip p b off n :
  (18 <= off)%nat -> get_be (untagged_bytes p ++ b) off n = get_be b (off - 18) n.
Proof. intros. by rewrite get_be_skip by (by rewrite untagged_bytes_length). Qed.

Lemma get_readreq_bytes p rest :
  readreq_wf p -> get_readreq (readreq_bytes p ++ rest) = Ok p.
Proof.
  intros (? & ? & ? & ? & ?). unfold get_readreq, readreq_bytes. rewrite <- !app_assoc.
  rewrite get_untagged_bytes by done. cbn [mbind outcome_bind].
  do 4 (rewrite get_be_untagged_skip by lia; cbn [Nat.sub]; read_field). by destruct p.
Qed.

Lemma get_terminate_bytes p rest :
  terminate_wf p -> get_terminate (terminate_bytes p ++ rest) = Ok p.
Proof.
  intros (? & ? & ? & ?). unfold get_terminate, terminate_bytes. rewrite <- !app_assoc.
  rewrite get_untagged_bytes by done. cbn [mbind outcome_bind].
  do 3 (rewrite get_be_untagged_skip by lia; cbn [Nat.sub app]; read_field).
  by destruct p.
Qed.

(** A field read from a buffer fits its width. *)
Lemma get_be_range buf off n v : get_be buf off n = Ok v -> in_range (8 * Z.of_nat n) v.
Proof. unfold get_be. case_decide; [|done]. intros [= <-]. apply wrap_in_range. lia. Qed.

Lemma get_tagged_range buf t : get_tagged buf = Ok t -> in_range 64 (tagged_offset t).
Proof. unfold get_tagged. intros H. inv_ok. by eapply (get_be_range _ _ 8). Qed.


(** ** The flag octets *)

(** The octets the senders write carry the version the receivers require. *)
Lemma ddp_flags_decoded f :
  f ∈ [DDP_V1_UNTAGGED_DF; DDP_V1_TAGGED_DF; DDP_V1_UNTAGGED_LAST_DF; DDP_V1_TAGGED_LAST_DF] ->
  DDP_GET_DV f = 1.
Proof. intros H. repeat (apply elem_of_cons in H as [->|H]; [done|]). by apply not_elem_of_nil in H. Qed.

Lemma rdmap_info_decoded op :
  0 <= op < 16 ->
  RDMAP_GET_RV (Z.lor op RDMAP_V1) = 1 /\ RDMAP_GET_OPCODE (Z.lor op RDMAP_V1) = op /\
  in_range 8 (Z.lor op RDMAP_V1).
Proof.
  intros H. assert (op ∈ seqZ 0 16) as Hin by (apply elem_of_seqZ; lia).
  revert Hin. clear H. revert op. apply Forall_forall. repeat constructor; done.
Qed.
