(* ===== verification/Clist.v ===== *)
(** Doubly linked lists of ccan/list, at the level of pointers.

    A heap maps the address of a [struct list_node] to its two fields; the
    address of a list is that of the node in its head.  Every function of
    ccan/list/list.h and ccan/list/list.c is translated with its reads and
    writes in the order of the source, and faults when it follows NULL or an
    address that holds no node.  [lists m L] says that the heap [m] holds the
    lists [L], a map from heads to sequences; the rules of [lspec] say what
    each function does to the sequences, and the theorems at the end say that
    the pointer code does it, whatever other lists share the heap. *)
From S2P Require Import Prelude.
Open Scope Z_scope.

(** ** Heaps of nodes *)

(** The null pointer of a type of addresses. *)
Class NullPtr (loc : Type) := nullptr : loc.

Record list_node (loc : Type) := Node { n_next : loc; n_prev : loc }.
Arguments Node {loc} n_next n_prev.
Arguments n_next {loc} _.
Arguments n_prev {loc} _.

Section clist.
Context {loc : Type} `{Countable loc} `{NullPtr loc}.

Abbreviation heap := (gmap loc (list_node loc)).

Definition LM (A : Type) : Type := heap -> outcome (A * heap).
#[export] Instance LM_ret : MRet LM := fun A a m => Ok (a, m).
#[export] Instance LM_bind : MBind LM := fun A B f c m =>
  match c m with Ok (a, m') => f a m' | Fault e => Fault e end.
Definition lfail {A} (f : fault) : LM A := fun _ => Fault f.

(** [n->next] and [n->prev], and the assignments to them. *)
Definition get_node (n : loc) : LM (list_node loc) := fun m =>
  match m !! n with
  | Some v => Ok (v, m)
  | None => Fault (if decide (n = nullptr) then NullDeref else BadPointer)
  end.
Definition get_next (n : loc) : LM loc := v ← get_node n; mret (n_next v).
Definition get_prev (n : loc) : LM loc := v ← get_node n; mret (n_prev v).
Definition put_node (n : loc) (v : list_node loc) : LM unit := fun m =>
  match get_node n m with Ok _ => Ok (tt, <[n := v]> m) | Fault e => Fault e end.
Definition set_next (n v : loc) : LM unit :=
  o ← get_node n; put_node n (Node v (n_prev o)).
Definition set_prev (n v : loc) : LM unit :=
  o ← get_node n; put_node n (Node (n_next o) v).

(** ** The functions of list.h *)

Definition list_node_init (n : loc) : LM unit := set_prev n n;; set_next n n.
Definition list_head_init (h : loc) : LM unit := set_prev h h;; set_next h h.

Definition list_add_after (p n : loc) : LM unit :=
  x ← get_next p; set_next n x;;
  set_prev n p;;
  y ← get_next p; set_prev y n;;
  set_next p n.

Definition list_add (h n : loc) : LM unit := list_add_after h n.

Definition list_add_before (p n : loc) : LM unit :=
  set_next n p;;
  x ← get_prev p; set_prev n x;;
  y ← get_prev p; set_next y n;;
  set_prev p n.

Definition list_add_tail (h n : loc) : LM unit := list_add_before h n.

Definition list_empty (h : loc) : LM bool :=
  x ← get_next h; mret (bool_decide (x = h)).

Definition list_del (n : loc) : LM unit :=
  x ← get_next n; y ← get_prev n; set_prev x y;;
  y ← get_prev n; x ← get_next n; set_next y x.

Definition list_del_init (n : loc) : LM unit := list_del n;; list_node_init n.

Definition list_del_from (h n : loc) : LM unit :=
  e ← list_empty h;
  if e : bool then lfail AssertFail else list_del n.

Definition list_swap (o n : loc) : LM unit :=
  v ← get_node o; put_node n v;;
  x ← get_next n; set_prev x n;;
  y ← get_prev n; set_next y n.

(** The entries that the macros return are the addresses of their nodes;
    NULL is [None]. *)
Definition list_top (h : loc) : LM (option loc) :=
  e ← list_empty h;
  if e : bool then mret None else x ← get_next h; mret (Some x).

Definition list_pop (h : loc) : LM (option loc) :=
  e ← list_empty h;
  if e : bool then mret None else
  n ← get_next h;
  list_del n;;
  mret (Some n).

Definition list_tail (h : loc) : LM (option loc) :=
  e ← list_empty h;
  if e : bool then mret None else x ← get_prev h; mret (Some x).

Definition list_entry_or_null (h n : loc) : option loc :=
  if decide (n = h) then None else Some n.

Definition list_next (h i : loc) : LM (option loc) :=
  x ← get_next i; mret (list_entry_or_null h x).

Definition list_prev (h i : loc) : LM (option loc) :=
  x ← get_prev i; mret (list_entry_or_null h x).

Definition list_append_list (to from : loc) : LM unit :=
  from_tail ← get_prev from;
  to_tail ← get_prev to;
  set_prev to from_tail;;
  set_next from_tail to;;
  set_next to_tail from;;
  set_prev from to_tail;;
  list_del from;;
  list_head_init from.

Definition list_prepend_list (to from : loc) : LM unit :=
  from_tail ← get_prev from;
  to_head ← get_next to;
  set_next to from;;
  set_prev from to;;
  set_prev to_head from_tail;;
  set_next from_tail to_head;;
  list_del from;;
  list_head_init from.

(** The loops of the iteration macros, for a body of any monad that can read
    the heap: [dir] reads [next] or [prev], [oof] is the result when the
    bound on the number of iterations does not cover the list. *)
Section loops.
Context {M : Type -> Type} `{MRet M, MBind M}.
Context (oof : M unit) (dir : loc -> M loc) (body : loc -> M unit) (h : loc).

Fixpoint for_each_loop (fuel : nat) (i : loc) : M unit :=
  if decide (i = h) then mret tt else
  match fuel with
  | O => oof
  | S fuel => body i;; i' ← dir i; for_each_loop fuel i'
  end.

Definition list_for_each_off_dir (fuel : nat) : M unit :=
  i ← dir h; for_each_loop fuel i.

Fixpoint for_each_safe_loop (fuel : nat) (i nxt : loc) : M unit :=
  if decide (i = h) then mret tt else
  match fuel with
  | O => oof
  | S fuel => body i;; nxt' ← dir nxt; for_each_safe_loop fuel nxt nxt'
  end.

Definition list_for_each_safe_off_dir (fuel : nat) : M unit :=
  i ← dir h; nxt ← dir i; for_each_safe_loop fuel i nxt.
End loops.

(** list_check_node of list.c: true is the list it was given, false NULL
    (the callers pass no string to abort with). *)
Fixpoint check_loop (fuel : nat) (node p n : loc) : LM bool :=
  if decide (n = node) then q ← get_prev node; mret (bool_decide (q = p)) else
  match fuel with
  | O => lfail OutOfFuel
  | S fuel =>
      q ← get_prev n;
      if decide (q = p) then n' ← get_next n; check_loop fuel node n n' else mret false
  end.

Definition list_check_node (fuel : nat) (node : loc) : LM bool :=
  n ← get_next node; check_loop fuel node node n.

Definition list_check (fuel : nat) (h : loc) : LM bool := list_check_node fuel h.

(** ** Lists in the heap *)

Definition nxt (m : heap) (x : loc) : option loc := n_next <$> m !! x.
Definition prv (m : heap) (x : loc) : option loc := n_prev <$> m !! x.

(** [y] follows [x]. *)
Definition link (m : heap) (x y : loc) : Prop := nxt m x = Some y /\ prv m y = Some x.

(** The head [h] and the nodes [l] form a ring. *)
Definition is_list (m : heap) (h : loc) (l : list loc) : Prop :=
  NoDup (h :: l) /\ Forall2 (link m) (h :: l) (l ++ [h]).

(** The heap holds the lists [L], which share no node. *)
Definition lists (m : heap) (L : gmap loc (list loc)) : Prop :=
  (forall h l, L !! h = Some l -> is_list m h l) /\
  (forall h1 h2 l1 l2 x, L !! h1 = Some l1 -> L !! h2 = Some l2 ->
     x ∈ h1 :: l1 -> x ∈ h2 :: l2 -> h1 = h2).

Definition unused (L : gmap loc (list loc)) (x : loc) : Prop :=
  forall h l, L !! h = Some l -> x ∉ h :: l.

(** *** Runs of the reads and writes *)

(** The heap with one field of a node replaced. *)
Definition setn (x v : loc) (m : heap) : heap := alter (fun o => Node v (n_prev o)) x m.
Definition setp (x v : loc) (m : heap) : heap := alter (fun o => Node (n_next o) v) x m.

Lemma dom_setn x v m : dom (setn x v m) = dom m.
Proof. apply dom_alter_L. Qed.
Lemma dom_setp x v m : dom (setp x v m) = dom m.
Proof. apply dom_alter_L. Qed.

Lemma nxt_setn y v m x : y ∈ dom m ->
  nxt (setn y v m) x = if decide (x = y) then Some v else nxt m x.
Proof.
  intros [o Ho]%elem_of_dom. unfold nxt, setn. case_decide as E.
  - subst. by rewrite lookup_alter_eq, Ho.
  - by rewrite lookup_alter_ne.
Qed.
Lemma prv_setn y v m x : prv (setn y v m) x = prv m x.
Proof.
  unfold prv, setn. destruct (decide (x = y)) as [->|E].
  - rewrite lookup_alter_eq. by destruct (m !! y).
  - by rewrite lookup_alter_ne.
Qed.
Lemma nxt_setp y v m x : nxt (setp y v m) x = nxt m x.
Proof.
  unfold nxt, setp. destruct (decide (x = y)) as [->|E].
  - rewrite lookup_alter_eq. by destruct (m !! y).
  - by rewrite lookup_alter_ne.
Qed.
Lemma prv_setp y v m x : y ∈ dom m ->
  prv (setp y v m) x = if decide (x = y) then Some v else prv m x.
Proof.
  intros [o Ho]%elem_of_dom. unfold prv, setp. case_decide as E.
  - subst. by rewrite lookup_alter_eq, Ho.
  - by rewrite lookup_alter_ne.
Qed.

Lemma nxt_dom m x y : nxt m x = Some y -> x ∈ dom m.
Proof. unfold nxt. intros (o & ? & _)%fmap_Some. by apply elem_of_dom_2 in H1. Qed.
Lemma prv_dom m x y : prv m x = Some y -> x ∈ dom m.
Proof. unfold prv. intros (o & ? & _)%fmap_Some. by apply elem_of_dom_2 in H1. Qed.

Lemma run_get_next {B} (f : loc -> LM B) x y m : nxt m x = Some y -> (get_next x ≫= f) m = f y m.
Proof.
  unfold nxt. intros (o & E & ->)%fmap_Some.
  unfold get_next, get_node, mbind, LM_bind, mret, LM_ret. by rewrite E.
Qed.
Lemma run_get_prev {B} (f : loc -> LM B) x y m : prv m x = Some y -> (get_prev x ≫= f) m = f y m.
Proof.
  unfold prv. intros (o & E & ->)%fmap_Some.
  unfold get_prev, get_node, mbind, LM_bind, mret, LM_ret. by rewrite E.
Qed.
Lemma run_bind {A B} (c : LM A) (f : A -> LM B) m a m' :
  c m = Ok (a, m') -> (c ≫= f) m = f a m'.
Proof. intros E. unfold mbind, LM_bind. by rewrite E. Qed.

Lemma run_set_next x v m : x ∈ dom m -> set_next x v m = Ok (tt, setn x v m).
Proof.
  intros [o E]%elem_of_dom. unfold set_next, put_node, get_node, mbind, LM_bind. rewrite !E. do 2 f_equal.
  apply map_eq. intros i. unfold setn.
  destruct (decide (i = x)) as [->|]; by simplify_map_eq.
Qed.
Lemma run_set_prev x v m : x ∈ dom m -> set_prev x v m = Ok (tt, setp x v m).
Proof.
  intros [o E]%elem_of_dom. unfold set_prev, put_node, get_node, mbind, LM_bind. rewrite !E. do 2 f_equal.
  apply map_eq. intros i. unfold setp.
  destruct (decide (i = x)) as [->|]; by simplify_map_eq.
Qed.
Lemma run_copy {B} (f : unit -> LM B) o n x y m :
  n ∈ dom m -> nxt m o = Some x -> prv m o = Some y ->
  (v ← get_node o; put_node n v ≫= f) m = f tt (setn n x (setp n y m)).
Proof.
  unfold nxt, prv. intros [w Hw]%elem_of_dom Hx Hy.
  destruct (m !! o) as [v|] eqn:E; simplify_eq/=.
  unfold put_node, get_node, mbind, LM_bind. rewrite E, Hw. f_equal.
  apply map_eq. intros i. unfold setn, setp.
  destruct (decide (i = n)) as [->|]; simplify_map_eq; [by destruct v|done].
Qed.
End clist.
Arguments LM loc {_ _} A.

(** [heap_simpl] computes the fields of a heap after a sequence of
    assignments; [lrun] runs reads and assignments of nodes that are known to
    be in the heap. *)
#[global] Hint Rewrite @dom_setn @dom_setp : heap.
Ltac in_dom := autorewrite with heap; eauto using nxt_dom, prv_dom.
Ltac heap_simpl :=
  repeat first
    [ rewrite prv_setn | rewrite nxt_setp
    | rewrite nxt_setn by in_dom | rewrite prv_setp by in_dom ];
  repeat case_decide; simplify_eq; try done.
Ltac lrun :=
  repeat first
    [ erewrite run_get_next by (heap_simpl; eassumption)
    | erewrite run_get_prev by (heap_simpl; eassumption)
    | erewrite run_bind by (apply run_set_next; in_dom)
    | erewrite run_bind by (apply run_set_prev; in_dom)
    | rewrite run_set_next by in_dom
    | rewrite run_set_prev by in_dom ].

(** ** Rings *)

Section rings.
Context {loc : Type} `{Countable loc} `{NullPtr loc}.
Implicit Types (m : gmap loc (list_node loc)) (L : gmap loc (list loc)) (l A B F R G : list loc).

Lemma front_back (h : loc) A : exists F p, h :: A = F ++ [p].
Proof. induction A as [|p F] using rev_ind; [by exists [], h | by exists (h :: F), p]. Qed.

Lemma first_rest B (h : loc) : exists q R, B ++ [h] = q :: R.
Proof. destruct B; simpl; eauto. Qed.

Lemma front_length (h : loc) A F p : h :: A = F ++ [p] -> length F = length A.
Proof. intros E%(f_equal length). rewrite length_app in E. simpl in E. lia. Qed.

Lemma links_frame m m' xs ys : Forall2 (link m) xs ys ->
  (forall x, x ∈ xs -> nxt m' x = nxt m x) -> (forall y, y ∈ ys -> prv m' y = prv m y) ->
  Forall2 (link m') xs ys.
Proof.
  induction 1 as [|x y xs ys [Hx Hy] _ IH]; intros Hn Hp; constructor.
  - split; [rewrite Hn by left | rewrite Hp by left]; done.
  - apply IH; intros z Hz; [apply Hn | apply Hp]; by right.
Qed.

(** The nodes of a ring around a place in it, where [p] is before the place
    and [q] after it. *)
Record around (h : loc) A B F p q R : Prop := Around {
  ar_front : h :: A = F ++ [p];
  ar_back : B ++ [h] = q :: R
}.

Lemma around_ex (h : loc) A B : exists F p q R, around h A B F p q R.
Proof.
  destruct (front_back h A) as (F & p & E1), (first_rest B h) as (q & R & E2).
  by exists F, p, q, R.
Qed.

Section around.
Context {h : loc} {A B F : list loc} {p q : loc} {R : list loc} (HA : around h A B F p q R).

Lemma around_heads C : h :: A ++ C ++ B = F ++ p :: C ++ B.
Proof using HA. change (h :: A ++ C ++ B) with ((h :: A) ++ C ++ B). by rewrite (ar_front _ _ _ _ _ _ _ HA), <- app_assoc. Qed.

Lemma around_tails C : (A ++ C ++ B) ++ [h] = A ++ C ++ q :: R.
Proof using HA. by rewrite <- !app_assoc, (ar_back _ _ _ _ _ _ _ HA). Qed.

Lemma around_nodup : NoDup (h :: A ++ B) -> NoDup (F ++ p :: B) /\ NoDup (A ++ q :: R).
Proof using HA.
  intros ND. pose proof (around_heads []) as E1. pose proof (around_tails []) as E2.
  simpl in *. split; [by rewrite <- E1|]. rewrite <- E2.
  by rewrite (Permutation_app_comm _ [h]).
Qed.

Lemma around_in x : x ∈ F \/ x = p \/ x ∈ B \/ x ∈ A \/ x = q \/ x ∈ R -> x ∈ h :: A ++ B.
Proof using HA.
  intros Hx. assert (x ∈ F ++ p :: B \/ x ∈ A ++ q :: R) as [Hx'|Hx'] by set_solver.
  - pose proof (around_heads []) as E. simpl in E. by rewrite E.
  - pose proof (around_tails []) as E. simpl in E. rewrite <- E in Hx'. set_solver.
Qed.

(** A ring is the links before the place, the link over it and those after. *)
Lemma around_links m : is_list m h (A ++ B) ->
  Forall2 (link m) F A /\ link m p q /\ Forall2 (link m) B R.
Proof using HA.
  intros [_ E]. pose proof (around_heads []) as E1. pose proof (around_tails []) as E2.
  simpl in *. rewrite E1, E2 in E.
  apply Forall2_app_inv in E as [E3 E4]; [|by eapply front_length, ar_front].
  by apply Forall2_cons in E4 as [? ?].
Qed.

(** Sewing a chain from [f] to [z] into the place. *)
Lemma splice m m' f l G z :
  is_list m h (A ++ B) -> NoDup (f :: l) -> (forall x, x ∈ f :: l -> x ∉ h :: A ++ B) ->
  f :: l = G ++ [z] -> Forall2 (link m) G l -> link m' p f -> link m' z q ->
  (forall x, x ≠ p -> x ≠ z -> nxt m' x = nxt m x) ->
  (forall y, y ≠ q -> y ≠ f -> prv m' y = prv m y) ->
  is_list m' h (A ++ (f :: l) ++ B).
Proof using HA.
  intros Hl NDf Hdis Efl HG Hpf Hzq Hn Hp. destruct (around_links m Hl) as (HF & _ & HB).
  destruct Hl as [ND _]. destruct (around_nodup ND) as [ND1 ND2].
  apply NoDup_app in ND1 as (_ & HFp & ND1). apply NoDup_app in ND2 as (_ & HAq & ND2).
  apply NoDup_cons in ND1 as [HpB _], ND2 as [HqR _].
  assert (Hz : z ∈ f :: l) by (rewrite Efl; set_solver).
  assert (Hout : forall x, x ∈ f :: l -> x ∉ F /\ x ∉ B /\ x ∉ A /\ x ∉ R /\ x ≠ p /\ x ≠ q).
  { intros x Hx%Hdis. pose proof (around_in x). naive_solver. }
  assert (NDG : NoDup (G ++ [z])) by congruence.
  apply NoDup_app in NDG as (_ & HGz & _). apply NoDup_cons in NDf as [Hfl NDl].
  assert (HGin : forall x, x ∈ G -> x ∈ f :: l) by (intros; rewrite Efl; set_solver).
  split.
  - change (h :: A ++ (f :: l) ++ B) with ((h :: A) ++ (f :: l) ++ B).
    rewrite (Permutation_app_comm (f :: l)), app_assoc. apply NoDup_app. split_and!; [done| |by constructor].
    intros x Hx Hx2. by apply (Hdis x).
  - rewrite around_tails, around_heads. rewrite Efl at 1. rewrite <- (app_assoc G). simpl.
    apply Forall2_app; [|constructor; [done|]; apply Forall2_app; [|constructor; [done|]]].
    + eapply links_frame; [done|intros x Hx; apply Hn|intros y Hy; apply Hp]; set_solver.
    + eapply links_frame; [done|intros x Hx; apply Hn|intros y Hy; apply Hp]; set_solver.
    + eapply links_frame; [done|intros x Hx; apply Hn|intros y Hy; apply Hp]; set_solver.
Qed.

(** Taking the node at the place out of the ring. *)
Lemma unlink m m' n :
  is_list m h (A ++ n :: B) -> link m' p q ->
  (forall x, x ≠ p -> nxt m' x = nxt m x) -> (forall y, y ≠ q -> prv m' y = prv m y) ->
  is_list m' h (A ++ B).
Proof using HA.
  intros [ND E] Hpq Hn Hp.
  pose proof (around_heads [n]) as E1. pose proof (around_tails [n]) as E2. simpl in E1, E2.
  rewrite E1, E2 in E. apply Forall2_app_inv in E as [HF E]; [|by eapply front_length, ar_front].
  apply Forall2_cons in E as [_ E]. apply Forall2_cons in E as [_ HB].
  assert (NDh : NoDup (h :: A ++ B)).
  { change (NoDup ((h :: A) ++ B)). change (NoDup ((h :: A) ++ [n] ++ B)) in ND.
    rewrite (Permutation_app_comm [n]), app_assoc in ND. by apply NoDup_app in ND as [? _]. }
  split; [done|]. destruct (around_nodup NDh) as [ND1 ND2].
  apply NoDup_app in ND1 as (_ & HFp & ND1). apply NoDup_app in ND2 as (_ & HAq & ND2).
  apply NoDup_cons in ND1 as [HpB _], ND2 as [HqR _].
  pose proof (around_heads []) as E3. pose proof (around_tails []) as E4. simpl in E3, E4.
  rewrite E3, E4. apply Forall2_app; [|constructor; [done|]].
  - eapply links_frame; [done|intros x Hx; apply Hn|intros y Hy; apply Hp]; set_solver.
  - eapply links_frame; [done|intros x Hx; apply Hn|intros y Hy; apply Hp]; set_solver.
Qed.

(** The node at the place, between its neighbours. *)
Lemma around_node m n : is_list m h (A ++ n :: B) -> link m p n /\ link m n q.
Proof using HA.
  intros [ND E].
  pose proof (around_heads [n]) as E1. pose proof (around_tails [n]) as E2. simpl in E1, E2.
  rewrite E1, E2 in E. apply Forall2_app_inv in E as [HF E]; [|by eapply front_length, ar_front].
  apply Forall2_cons in E as [? E]. by apply Forall2_cons in E as [? _].
Qed.

Lemma around_fresh n : n ∉ h :: A ++ B -> n ≠ p /\ n ≠ q.
Proof using HA. intros Hn. pose proof (around_in n). naive_solver. Qed.
End around.

Lemma is_list_dom m h l x : is_list m h l -> x ∈ h :: l -> x ∈ dom m.
Proof.
  intros [_ E] [i Hi]%list_elem_of_lookup. destruct (Forall2_lookup_l _ _ _ _ _ E Hi) as (y & _ & Hy & _).
  by eapply nxt_dom.
Qed.

Lemma is_list_frame m m' h l : is_list m h l ->
  (forall x, x ∈ h :: l -> nxt m' x = nxt m x /\ prv m' x = prv m x) -> is_list m' h l.
Proof.
  intros [ND E] Hx. split; [done|]. eapply links_frame; [done|naive_solver|].
  intros y Hy. apply Hx. set_solver.
Qed.

(** Replacing the sequence of one list, when the nodes of the others keep
    their fields. *)
Lemma lists_update m m' L h l' : lists m L -> is_list m' h l' ->
  (forall h2 l2 x, L !! h2 = Some l2 -> h2 ≠ h -> x ∈ h2 :: l2 ->
     x ∉ h :: l' /\ nxt m' x = nxt m x /\ prv m' x = prv m x) ->
  lists m' (<[h := l']> L).
Proof.
  intros [HL HD] Hl' Hx. split.
  - intros h2 l2. rewrite lookup_insert_Some. intros [[<- <-]|[Hne E]]; [done|].
    eapply is_list_frame; [by apply HL|]. intros x Hin. by apply (Hx h2 l2 x).
  - intros h1 h2 l1 l2 x. rewrite !lookup_insert_Some.
    intros [[<- <-]|[? ?]] [[<- <-]|[? ?]] ? ?; eauto; naive_solver.
Qed.

Lemma lists_is m L h l : lists m L -> L !! h = Some l -> is_list m h l.
Proof. intros [HL _]. apply HL. Qed.

Lemma lists_unused m L h l x : lists m L -> L !! h = Some l -> x ∈ h :: l ->
  forall h2 l2 y, L !! h2 = Some l2 -> h2 ≠ h -> y ∈ h2 :: l2 -> y ≠ x.
Proof. intros [_ HD] E Hx h2 l2 y E2 Hne Hy ->. by apply Hne, (HD h2 h l2 l x). Qed.

(** *** The functions on rings *)

Lemma list_head_init_lists m L h : lists m L -> h ∈ dom m -> unused L h ->
  exists m', list_head_init h m = Ok (tt, m') /\ dom m' = dom m /\ lists m' (<[h := []]> L).
Proof.
  intros HL Hd Hu. eexists. split; [unfold list_head_init; lrun; done|]. split; [by autorewrite with heap|].
  apply (lists_update m); [done| |].
  - split; [apply NoDup_singleton|]. repeat constructor; heap_simpl.
  - intros h2 l2 x E Hne Hx. assert (x ≠ h) by (intros ->; by apply (Hu h2 l2)).
    split; [set_solver|]. split; heap_simpl.
Qed.

(** Both ways to insert write the same four fields. *)
Lemma insert_lists m m' L h A B F p q R n :
  around h A B F p q R -> lists m L -> L !! h = Some (A ++ B) -> unused L n ->
  link m' p n -> link m' n q ->
  (forall x, x ≠ p -> x ≠ n -> nxt m' x = nxt m x) -> (forall y, y ≠ q -> y ≠ n -> prv m' y = prv m y) ->
  lists m' (<[h := A ++ n :: B]> L).
Proof.
  intros HA HL E Hu Hpn Hnq Hn Hp. pose proof (lists_is _ _ _ _ HL E) as Hl.
  apply (lists_update m); [done| |].
  - apply (splice HA m m' n [] [] n); try done; [apply NoDup_singleton|].
    intros x ->%list_elem_of_singleton. by apply (Hu h).
  - intros h2 l2 x E2 Hne Hx.
    assert (x ≠ n) by (intros ->; by apply (Hu h2 l2)).
    pose proof (lists_unused m L h (A ++ B)) as Ho.
    assert (x ≠ p) by (eapply Ho; eauto; apply (around_in HA); naive_solver).
    assert (x ≠ q) by (eapply Ho; eauto; apply (around_in HA); naive_solver).
    split; [|split; auto].
    assert (x ∉ h :: A ++ B) by (intros Hin; by apply (Ho x HL E Hin h2 l2 x)). set_solver.
Qed.

Lemma list_add_after_lists m L h A B F p q R n :
  around h A B F p q R -> lists m L -> L !! h = Some (A ++ B) -> n ∈ dom m -> unused L n ->
  exists m', list_add_after p n m = Ok (tt, m') /\ dom m' = dom m /\ lists m' (<[h := A ++ n :: B]> L).
Proof.
  intros HA HL E Hd Hu. destruct (around_links HA m (lists_is _ _ _ _ HL E)) as (_ & [Hpq Hqp] & _).
  destruct (around_fresh HA n (Hu _ _ E)) as [Hnp Hnq].
  eexists. split; [unfold list_add_after; lrun; done|]. split; [by autorewrite with heap|].
  apply (insert_lists m _ L h A B F p q R n); try done; try split; intros; heap_simpl.
Qed.

Lemma list_add_before_lists m L h A B F p q R n :
  around h A B F p q R -> lists m L -> L !! h = Some (A ++ B) -> n ∈ dom m -> unused L n ->
  exists m', list_add_before q n m = Ok (tt, m') /\ dom m' = dom m /\ lists m' (<[h := A ++ n :: B]> L).
Proof.
  intros HA HL E Hd Hu. destruct (around_links HA m (lists_is _ _ _ _ HL E)) as (_ & [Hpq Hqp] & _).
  destruct (around_fresh HA n (Hu _ _ E)) as [Hnp Hnq].
  eexists. split; [unfold list_add_before; lrun; done|]. split; [by autorewrite with heap|].
  apply (insert_lists m _ L h A B F p q R n); try done; try split; intros; heap_simpl.
Qed.

(** The nodes that a change of the ring of [h] leaves alone. *)
Lemma others m L h l h2 l2 x : lists m L -> L !! h = Some l -> L !! h2 = Some l2 -> h2 ≠ h ->
  x ∈ h2 :: l2 -> forall y, y ∈ h :: l -> x ≠ y.
Proof. intros HL E E2 Hne Hx y Hy. exact (lists_unused m L h l y HL E Hy h2 l2 x E2 Hne Hx). Qed.

Lemma unlink_lists m m' L h A B F p q R n :
  around h A B F p q R -> lists m L -> L !! h = Some (A ++ n :: B) -> link m' p q ->
  (forall x, x ≠ p -> nxt m' x = nxt m x) -> (forall y, y ≠ q -> prv m' y = prv m y) ->
  lists m' (<[h := A ++ B]> L).
Proof.
  intros HA HL E Hpq Hn Hp. pose proof (lists_is _ _ _ _ HL E) as Hl.
  apply (lists_update m); [done|by apply (unlink HA m m' n)|].
  intros h2 l2 x E2 Hne Hx.
  assert (Ho : forall y, y ∈ h :: A ++ B -> x ≠ y).
  { intros y Hy. apply (others m L h (A ++ n :: B) h2 l2 x); try done. set_solver. }
  split; [by intros Hin%Ho|].
  split; [apply Hn, Ho|apply Hp, Ho]; apply (around_in HA); naive_solver.
Qed.

Lemma around_node_ne m h A B F p q R n :
  around h A B F p q R -> is_list m h (A ++ n :: B) -> n ≠ p /\ n ≠ q.
Proof.
  intros HA [ND _]. apply (around_fresh HA).
  change (h :: A ++ n :: B) with ((h :: A) ++ n :: B) in ND. apply NoDup_app in ND as (_ & H1 & H2).
  apply NoDup_cons in H2 as [? _]. set_solver.
Qed.

Lemma list_del_lists m L h A B n : lists m L -> L !! h = Some (A ++ n :: B) ->
  exists m', list_del n m = Ok (tt, m') /\ dom m' = dom m /\ lists m' (<[h := A ++ B]> L).
Proof.
  intros HL E. destruct (around_ex h A B) as (F & p & q & R & HA).
  pose proof (lists_is _ _ _ _ HL E) as Hl.
  destruct (around_node HA m n Hl) as [[Hpn Hnp] [Hnq Hqn]], (around_node_ne m h A B F p q R n HA Hl).
  eexists. split; [unfold list_del; lrun; done|]. split; [by autorewrite with heap|].
  apply (unlink_lists m _ L h A B F p q R n); try done; try split; intros; heap_simpl.
Qed.

Lemma removed_unused m L h A B n : lists m L -> L !! h = Some (A ++ n :: B) ->
  unused (<[h := A ++ B]> L) n.
Proof.
  intros HL E h2 l2. pose proof (lists_is _ _ _ _ HL E) as [ND _].
  rewrite lookup_insert_Some. intros [[<- <-]|[Hne E2]].
  - change (h :: A ++ n :: B) with ((h :: A) ++ n :: B) in ND. apply NoDup_app in ND as (_ & H1 & H2).
    apply NoDup_cons in H2 as [? _]. set_solver.
  - intros Hn. destruct (others m L h (A ++ n :: B) h2 l2 n HL E E2 (not_eq_sym Hne) Hn n); set_solver.
Qed.

Lemma list_node_init_lists m L n : lists m L -> n ∈ dom m -> unused L n ->
  exists m', list_node_init n m = Ok (tt, m') /\ dom m' = dom m /\ lists m' L.
Proof.
  intros HL Hd Hu. eexists. split; [unfold list_node_init; lrun; done|]. split; [by autorewrite with heap|].
  destruct HL as [HL HD]. split; [|done]. intros h l E. eapply is_list_frame; [by apply HL|].
  intros x Hx. assert (x ≠ n) by (intros ->; by apply (Hu h l)). split; heap_simpl.
Qed.

Lemma list_swap_lists m L h A B o n : lists m L -> L !! h = Some (A ++ o :: B) -> n ∈ dom m ->
  unused L n ->
  exists m', list_swap o n m = Ok (tt, m') /\ dom m' = dom m /\ lists m' (<[h := A ++ n :: B]> L).
Proof.
  intros HL E Hd Hu. destruct (around_ex h A B) as (F & p & q & R & HA).
  pose proof (lists_is _ _ _ _ HL E) as Hl.
  destruct (around_node HA m o Hl) as [[Hpo Hop] [Hoq Hqo]], (around_node_ne m h A B F p q R o HA Hl).
  assert (Hu' : unused (<[h := A ++ B]> L) n).
  { intros h2 l2. rewrite lookup_insert_Some. intros [[<- <-]|[Hne E2]]; [|by apply Hu].
    specialize (Hu h _ E). set_solver. }
  destruct (around_fresh HA n) as [Hnp Hnq]; [by eapply (Hu' h), lookup_insert_eq|].
  eexists. split; [unfold list_swap; erewrite run_copy by eauto; lrun; done|].
  split; [by autorewrite with heap|].
  rewrite <- (insert_insert_eq L h (A ++ n :: B) (A ++ B)).
  apply (insert_lists (setn p q (setp q p m)) _ _ h A B F p q R n HA); try done.
  - apply (unlink_lists m _ L h A B F p q R o); try done; try split; intros; heap_simpl.
  - apply lookup_insert_eq.
  - split; heap_simpl.
  - split; heap_simpl.
  - intros; heap_simpl.
  - intros; heap_simpl.
Qed.

Lemma lists_delete m L h : lists m L -> lists m (delete h L).
Proof.
  intros [HL HD]. split.
  - intros h2 l2 [_ E]%lookup_delete_Some. by apply HL.
  - intros h1 h2 l1 l2 x [_ E1]%lookup_delete_Some [_ E2]%lookup_delete_Some. by apply HD.
Qed.

(** Nodes that are on no list may be allocated, changed and freed. *)
Lemma lists_frame m m' L : lists m L -> (forall x, ~ unused L x -> m' !! x = m !! x) -> lists m' L.
Proof.
  intros [HL HD] Hx. split; [|done]. intros h l E. eapply is_list_frame; [by apply HL|].
  intros x Hin. unfold nxt, prv. rewrite Hx; [done|]. intros Hu. by apply (Hu h l).
Qed.

(** Sewing a whole list, its head included, into a place of another. *)
Lemma sew_lists m m' L t A B F p q R f l G z Rf :
  around t A B F p q R -> around f l [] G z f Rf -> lists m L ->
  L !! t = Some (A ++ B) -> L !! f = Some l -> t ≠ f -> link m' p f -> link m' z q ->
  (forall x, x ≠ p -> x ≠ z -> nxt m' x = nxt m x) -> (forall y, y ≠ q -> y ≠ f -> prv m' y = prv m y) ->
  lists m' (<[t := A ++ f :: l ++ B]> (delete f L)).
Proof.
  intros HA HAf HL Et Ef Htf Hpf Hzq Hn Hp.
  pose proof (lists_is _ _ _ _ HL Et) as Ht. pose proof (lists_is _ _ _ _ HL Ef) as Hf.
  assert (Hfl : is_list m f (l ++ [])) by by rewrite app_nil_r.
  assert (Hz : z ∈ f :: l).
  { replace (f :: l) with (f :: l ++ []) by by rewrite app_nil_r. apply (around_in HAf). naive_solver. }
  apply (lists_update m); [by apply lists_delete| |].
  - apply (splice HA m m' f l G z); try done.
    + apply Hf.
    + intros x Hx Hin. by apply (others m L t (A ++ B) f l x HL Et Ef (not_eq_sym Htf) Hx x).
    + apply HAf.
    + apply (around_links HAf m Hfl).
  - intros h2 l2 x [Hne2 E2]%lookup_delete_Some Hne Hx.
    pose proof (others m L t (A ++ B) h2 l2 x HL Et E2 Hne Hx) as H1.
    pose proof (others m L f l h2 l2 x HL Ef E2 (not_eq_sym Hne2) Hx) as H2.
    assert (x ≠ p /\ x ≠ q) as [? ?] by (split; apply H1, (around_in HA); naive_solver).
    assert (x ≠ z /\ x ≠ f) as [? ?] by (split; apply H2; [done|left]).
    split; [|split; auto].
    assert (x ∉ t :: A ++ B) by (intros Hin; by apply (H1 x)).
    assert (x ∉ f :: l) by (intros Hin; by apply (H2 x)). set_solver.
Qed.

(** The end of both functions: the head that was sewn in is taken out. *)
Lemma unsew m L t f A l B : lists m (<[t := A ++ f :: l ++ B]> (delete f L)) -> t ≠ f ->
  exists m', (list_del f;; list_head_init f) m = Ok (tt, m') /\ dom m' = dom m /\
    lists m' (<[f := []]> (<[t := A ++ l ++ B]> L)).
Proof.
  intros HL Htf.
  destruct (list_del_lists _ _ t A (l ++ B) f HL) as (m1 & E1 & D1 & HL1); [apply lookup_insert_eq|].
  pose proof (removed_unused _ _ t A (l ++ B) f HL (lookup_insert_eq _ _ _)) as Hu.
  assert (Hd : f ∈ dom m).
  { eapply is_list_dom; [apply (lists_is _ _ t _ HL), lookup_insert_eq|set_solver]. }
  destruct (list_head_init_lists _ _ f HL1) as (m2 & E2 & D2 & HL2); [by rewrite D1|done|].
  exists m2. split; [by erewrite run_bind|]. split; [congruence|].
  rewrite insert_insert_eq, (insert_insert_ne _ f t), insert_delete_eq in HL2 by done.
  by rewrite (insert_insert_ne _ f t) by done.
Qed.

Lemma list_append_list_lists m L t f lt lf : lists m L -> L !! t = Some lt -> L !! f = Some lf -> t ≠ f ->
  exists m', list_append_list t f m = Ok (tt, m') /\ dom m' = dom m /\
    lists m' (<[f := []]> (<[t := lt ++ lf]> L)).
Proof.
  intros HL Et Ef Htf.
  destruct (front_back t lt) as (F & p & HF), (front_back f lf) as (G & z & HG).
  assert (HA : around t lt [] F p t []) by done. assert (HAf : around f lf [] G z f []) by done.
  assert (Et' : L !! t = Some (lt ++ [])) by by rewrite app_nil_r.
  assert (Ef' : L !! f = Some (lf ++ [])) by by rewrite app_nil_r.
  destruct (around_links HA m (lists_is _ _ _ _ HL Et')) as (_ & [Hpt Htp] & _).
  destruct (around_links HAf m (lists_is _ _ _ _ HL Ef')) as (_ & [Hzf Hfz] & _).
  assert (Hzp : z ≠ p).
  { apply (others m L t (lt ++ []) f (lf ++ []) z HL Et' Ef' (not_eq_sym Htf)).
    - apply (around_in HAf). naive_solver.
    - apply (around_in HA). naive_solver. }
  set (m1 := setp f p (setn p f (setn z t (setp t z m)))).
  assert (HL1 : lists m1 (<[t := lt ++ f :: lf ++ []]> (delete f L))).
  { apply (sew_lists m _ L t lt [] F p t [] f lf G z []); try done; try split; intros; unfold m1; heap_simpl. }
  destruct (unsew _ _ _ _ _ _ _ HL1 Htf) as (m2 & E2 & D2 & HL2).
  exists m2. unfold list_append_list. lrun. fold m1. split; [done|]. rewrite app_nil_r in HL2.
  split; [rewrite D2; unfold m1; by autorewrite with heap|done].
Qed.

Lemma list_prepend_list_lists m L t f lt lf : lists m L -> L !! t = Some lt -> L !! f = Some lf -> t ≠ f ->
  exists m', list_prepend_list t f m = Ok (tt, m') /\ dom m' = dom m /\
    lists m' (<[f := []]> (<[t := lf ++ lt]> L)).
Proof.
  intros HL Et Ef Htf.
  destruct (first_rest lt t) as (q & R & HR), (front_back f lf) as (G & z & HG).
  assert (HA : around t [] lt [] t q R) by done. assert (HAf : around f lf [] G z f []) by done.
  assert (Ef' : L !! f = Some (lf ++ [])) by by rewrite app_nil_r.
  destruct (around_links HA m (lists_is _ _ _ _ HL Et)) as (_ & [Htq Hqt] & _).
  destruct (around_links HAf m (lists_is _ _ _ _ HL Ef')) as (_ & [Hzf Hfz] & _).
  assert (Hz : z ∈ f :: lf ++ []) by (apply (around_in HAf); naive_solver).
  assert (Hq : q ∈ t :: lt) by (apply (around_in HA); naive_solver).
  assert (Hzt : z ≠ t) by (apply (others m L t lt f (lf ++ []) z); try done; left).
  assert (Hfq : f ≠ q) by (apply (others m L t lt f lf f); try done; left).
  set (m1 := setn z q (setp q z (setp f t (setn t f m)))).
  assert (HL1 : lists m1 (<[t := [] ++ f :: lf ++ lt]> (delete f L))).
  { apply (sew_lists m _ L t [] lt [] t q R f lf G z []); try done; try split; intros; unfold m1; heap_simpl. }
  destruct (unsew _ _ _ _ _ _ _ HL1 Htf) as (m2 & E2 & D2 & HL2).
  exists m2. unfold list_prepend_list. lrun. fold m1. split; [done|].
  split; [rewrite D2; unfold m1; by autorewrite with heap|done].
Qed.
End rings.

(** ** What each function promises *)

Section spec.
Context {loc : Type} `{Countable loc} `{NullPtr loc}.
Implicit Types (m : gmap loc (list_node loc)) (L : gmap loc (list loc)) (l A B : list loc).

(** *** Reads of a ring *)

Lemma ring_next m h l : is_list m h l -> nxt m h = head (l ++ [h]).
Proof.
  intros Hl. destruct (first_rest l h) as (q & R & E).
  assert (HA : around h [] l [] h q R) by done.
  destruct (around_links HA m Hl) as (_ & [Hq _] & _). by rewrite E.
Qed.

Lemma ring_next_at m h A i B : is_list m h (A ++ i :: B) -> nxt m i = head (B ++ [h]).
Proof.
  intros Hl. destruct (first_rest B h) as (q & R & E).
  assert (HA : around h (A ++ [i]) B (h :: A) i q R) by done.
  rewrite cons_middle, app_assoc in Hl.
  destruct (around_links HA m Hl) as (_ & [Hq _] & _). by rewrite E.
Qed.

Lemma ring_prev m h l : is_list m h l -> prv m h = list.last (h :: l).
Proof.
  intros Hl. destruct (front_back h l) as (F & p & E).
  assert (HA : around h l [] F p h []) by done. rewrite <- (app_nil_r l) in Hl.
  destruct (around_links HA m Hl) as (_ & [_ Hq] & _). by rewrite E, last_snoc.
Qed.

Lemma ring_prev_at m h A i B : is_list m h (A ++ i :: B) -> prv m i = list.last (h :: A).
Proof.
  intros Hl. destruct (front_back h A) as (F & p & E).
  assert (HA : around h A (i :: B) F p i (B ++ [h])) by done.
  destruct (around_links HA m Hl) as (_ & [_ Hq] & _). by rewrite E, last_snoc.
Qed.

Lemma list_empty_run m h l : is_list m h l -> list_empty h m = Ok (bool_decide (l = []), m).
Proof.
  intros Hl. pose proof (ring_next m h l Hl) as Hn. unfold list_empty.
  destruct l as [|x l]; simpl in Hn; erewrite run_get_next by done; unfold mret, LM_ret; do 2 f_equal.
  - by rewrite !bool_decide_true.
  - destruct Hl as [[Hx _]%NoDup_cons _]. rewrite !bool_decide_false; [done|done|set_solver].
Qed.

Lemma list_top_run m h l : is_list m h l -> list_top h m = Ok (head l, m).
Proof.
  intros Hl. unfold list_top. erewrite run_bind by by apply list_empty_run.
  pose proof (ring_next m h l Hl) as Hn. destruct l; [done|]. simpl. by erewrite run_get_next.
Qed.

Lemma list_tail_run m h l : is_list m h l -> list_tail h m = Ok (list.last l, m).
Proof.
  intros Hl. unfold list_tail. erewrite run_bind by by apply list_empty_run.
  pose proof (ring_prev m h l Hl) as Hn. destruct l as [|x l]; [done|]. simpl.
  rewrite last_cons in Hn. destruct (list.last (x :: l)) eqn:E; [by erewrite run_get_prev|].
  by apply last_None in E.
Qed.

Lemma entry_or_null_head h l : h ∉ l ->
  exists y, head (l ++ [h]) = Some y /\ list_entry_or_null h y = head l.
Proof.
  intros Hh. unfold list_entry_or_null. destruct l as [|x l]; simpl; eexists; (split; [done|]).
  - by rewrite decide_True.
  - rewrite decide_False; [done|set_solver].
Qed.

Lemma entry_or_null_last h l : h ∉ l ->
  exists y, list.last (h :: l) = Some y /\ list_entry_or_null h y = list.last l.
Proof.
  intros Hh. unfold list_entry_or_null. rewrite last_cons. destruct (list.last l) as [y|] eqn:E; simpl.
  - exists y. split; [done|]. rewrite decide_False; [done|].
    intros ->. by apply last_Some_elem_of in E.
  - exists h. by rewrite decide_True.
Qed.

Lemma check_loop_run m h B : forall A p n fuel, is_list m h (A ++ B) ->
  list.last (h :: A) = Some p -> head (B ++ [h]) = Some n -> (length B <= fuel)%nat ->
  check_loop fuel h p n m = Ok (true, m).
Proof.
  induction B as [|x B IH]; intros A p n fuel Hl Hp Hn Hf; simpl in Hn; injection Hn as <-.
  - rewrite app_nil_r in Hl. rewrite <- (ring_prev m h A Hl) in Hp.
    destruct fuel; simpl; rewrite decide_True by done; erewrite run_get_prev by done;
      unfold mret, LM_ret; by rewrite bool_decide_true.
  - simpl in Hf. destruct fuel as [|fuel]; [lia|]. simpl. rewrite decide_False.
    2: { intros ->. destruct Hl as [[Hx _]%NoDup_cons _]. set_solver. }
    pose proof (ring_prev_at m h A x B Hl) as Hx. rewrite Hp in Hx.
    erewrite run_get_prev by done. rewrite decide_True by done.
    pose proof (ring_next_at m h A x B Hl) as Hy. destruct (first_rest B h) as (q & R & E).
    rewrite E in Hy. erewrite run_get_next by done.
    apply (IH (A ++ [x])); [by rewrite <- app_assoc|by rewrite app_comm_cons, last_snoc|by rewrite E|lia].
Qed.

Lemma list_check_run m h l fuel : is_list m h l -> (length l <= fuel)%nat ->
  list_check fuel h m = Ok (true, m).
Proof.
  intros Hl Hf. unfold list_check, list_check_node. pose proof (ring_next m h l Hl) as Hn.
  destruct (first_rest l h) as (q & R & E). rewrite E in Hn. erewrite run_get_next by done.
  by apply (check_loop_run m h l []); [|..|rewrite E|].
Qed.

(** *** Calls, and their effect on the sequences *)

Inductive lop :=
| OHeadInit (h : loc) | ONodeInit (n : loc)
| OAdd (h n : loc) | OAddTail (h n : loc) | OAddAfter (p n : loc) | OAddBefore (p n : loc)
| OEmpty (h : loc) | ODel (n : loc) | ODelInit (n : loc) | ODelFrom (h n : loc) | OSwap (o n : loc)
| OTop (h : loc) | OPop (h : loc) | OTail (h : loc) | ONext (h i : loc) | OPrev (h i : loc)
| OAppend (t f : loc) | OPrepend (t f : loc) | OCheck (h : loc).

Inductive lres := RUnit | RBool (b : bool) | RNode (o : option loc).

Definition runit (c : LM loc unit) : LM loc lres := _ ← c; mret RUnit.

Definition lexec (o : lop) : LM loc lres :=
  match o with
  | OHeadInit h => runit (list_head_init h)
  | ONodeInit n => runit (list_node_init n)
  | OAdd h n => runit (list_add h n)
  | OAddTail h n => runit (list_add_tail h n)
  | OAddAfter p n => runit (list_add_after p n)
  | OAddBefore p n => runit (list_add_before p n)
  | OEmpty h => b ← list_empty h; mret (RBool b)
  | ODel n => runit (list_del n)
  | ODelInit n => runit (list_del_init n)
  | ODelFrom h n => runit (list_del_from h n)
  | OSwap o n => runit (list_swap o n)
  | OTop h => r ← list_top h; mret (RNode r)
  | OPop h => r ← list_pop h; mret (RNode r)
  | OTail h => r ← list_tail h; mret (RNode r)
  | ONext h i => r ← list_next h i; mret (RNode r)
  | OPrev h i => r ← list_prev h i; mret (RNode r)
  | OAppend t f => runit (list_append_list t f)
  | OPrepend t f => runit (list_prepend_list t f)
  | OCheck h => fun m => (b ← list_check (size m) h; mret (RBool b)) m
  end.

(** [lspec D o L r L'] : with nodes [D] allocated and lists [L], the call [o]
    may be made, returns [r] and leaves the lists [L']. *)
Inductive lspec (D : gset loc) : lop -> gmap loc (list loc) -> lres -> gmap loc (list loc) -> Prop :=
| sp_head_init L h : h ∈ D -> unused L h -> lspec D (OHeadInit h) L RUnit (<[h := []]> L)
| sp_node_init L n : n ∈ D -> unused L n -> lspec D (ONodeInit n) L RUnit L
| sp_add L h l n : L !! h = Some l -> n ∈ D -> unused L n ->
    lspec D (OAdd h n) L RUnit (<[h := n :: l]> L)
| sp_add_tail L h l n : L !! h = Some l -> n ∈ D -> unused L n ->
    lspec D (OAddTail h n) L RUnit (<[h := l ++ [n]]> L)
| sp_add_after L h A p B n : L !! h = Some (A ++ p :: B) -> n ∈ D -> unused L n ->
    lspec D (OAddAfter p n) L RUnit (<[h := A ++ p :: n :: B]> L)
| sp_add_before L h A p B n : L !! h = Some (A ++ p :: B) -> n ∈ D -> unused L n ->
    lspec D (OAddBefore p n) L RUnit (<[h := A ++ n :: p :: B]> L)
| sp_empty L h l : L !! h = Some l -> lspec D (OEmpty h) L (RBool (bool_decide (l = []))) L
| sp_del L h A n B : L !! h = Some (A ++ n :: B) -> lspec D (ODel n) L RUnit (<[h := A ++ B]> L)
| sp_del_init L h A n B : L !! h = Some (A ++ n :: B) -> lspec D (ODelInit n) L RUnit (<[h := A ++ B]> L)
| sp_del_from L h A n B : L !! h = Some (A ++ n :: B) -> lspec D (ODelFrom h n) L RUnit (<[h := A ++ B]> L)
| sp_swap L h A o B n : L !! h = Some (A ++ o :: B) -> n ∈ D -> unused L n ->
    lspec D (OSwap o n) L RUnit (<[h := A ++ n :: B]> L)
| sp_top L h l : L !! h = Some l -> lspec D (OTop h) L (RNode (head l)) L
| sp_pop L h l : L !! h = Some l -> lspec D (OPop h) L (RNode (head l)) (<[h := tail l]> L)
| sp_tail L h l : L !! h = Some l -> lspec D (OTail h) L (RNode (list.last l)) L
| sp_next L h A i B : L !! h = Some (A ++ i :: B) -> lspec D (ONext h i) L (RNode (head B)) L
| sp_prev L h A i B : L !! h = Some (A ++ i :: B) -> lspec D (OPrev h i) L (RNode (list.last A)) L
| sp_append L t f lt lf : L !! t = Some lt -> L !! f = Some lf -> t ≠ f ->
    lspec D (OAppend t f) L RUnit (<[f := []]> (<[t := lt ++ lf]> L))
| sp_prepend L t f lt lf : L !! t = Some lt -> L !! f = Some lf -> t ≠ f ->
    lspec D (OPrepend t f) L RUnit (<[f := []]> (<[t := lf ++ lt]> L))
| sp_check L h l : L !! h = Some l -> lspec D (OCheck h) L (RBool true) L.

Inductive lsteps (D : gset loc) : list lop -> gmap loc (list loc) -> list lres -> gmap loc (list loc) -> Prop :=
| sp_nil L : lsteps D [] L [] L
| sp_cons o os L r L1 rs L2 : lspec D o L r L1 -> lsteps D os L1 rs L2 -> lsteps D (o :: os) L (r :: rs) L2.

Fixpoint lexecs (os : list lop) : LM loc (list lres) :=
  match os with
  | [] => mret []
  | o :: os => r ← lexec o; rs ← lexecs os; mret (r :: rs)
  end.

Lemma ring_length m h l : is_list m h l -> (length l <= size m)%nat.
Proof.
  intros Hl. rewrite <- size_dom. etrans; [|apply (subseteq_size (list_to_set l))].
  - rewrite size_list_to_set; [done|]. by destruct Hl as [[_ ?]%NoDup_cons _].
  - intros x Hx%elem_of_list_to_set. eapply is_list_dom; [done|by right].
Qed.

Lemma list_add_lists m L h l n : lists m L -> L !! h = Some l -> n ∈ dom m -> unused L n ->
  exists m', list_add h n m = Ok (tt, m') /\ dom m' = dom m /\ lists m' (<[h := n :: l]> L).
Proof.
  intros. destruct (first_rest l h) as (q & R & ER).
  by apply (list_add_after_lists m L h [] l [] h q R n).
Qed.

Lemma list_add_tail_lists m L h l n : lists m L -> L !! h = Some l -> n ∈ dom m -> unused L n ->
  exists m', list_add_tail h n m = Ok (tt, m') /\ dom m' = dom m /\ lists m' (<[h := l ++ [n]]> L).
Proof.
  intros. destruct (front_back h l) as (F & p & EF).
  apply (list_add_before_lists m L h l [] F p h [] n); try done. by rewrite app_nil_r.
Qed.

Lemma list_del_init_lists m L h A B n : lists m L -> L !! h = Some (A ++ n :: B) ->
  exists m', list_del_init n m = Ok (tt, m') /\ dom m' = dom m /\ lists m' (<[h := A ++ B]> L).
Proof.
  intros HL E. destruct (list_del_lists m L h A B n HL E) as (m1 & E1 & D1 & HL1).
  destruct (list_node_init_lists m1 _ n HL1) as (m2 & E2 & D2 & HL2).
  - rewrite D1. eapply is_list_dom; [by apply (lists_is m L)|set_solver].
  - by apply (removed_unused m).
  - exists m2. unfold list_del_init. erewrite run_bind by done. split_and!; [done|congruence|done].
Qed.

Lemma list_del_from_lists m L h A B n : lists m L -> L !! h = Some (A ++ n :: B) ->
  exists m', list_del_from h n m = Ok (tt, m') /\ dom m' = dom m /\ lists m' (<[h := A ++ B]> L).
Proof.
  intros HL E. unfold list_del_from. erewrite run_bind by by apply list_empty_run, (lists_is m L).
  rewrite bool_decide_false by by destruct A. by apply (list_del_lists m L h).
Qed.

Lemma list_pop_lists m L h l : lists m L -> L !! h = Some l ->
  exists m', list_pop h m = Ok (head l, m') /\ dom m' = dom m /\ lists m' (<[h := tail l]> L).
Proof.
  intros HL E. unfold list_pop. pose proof (lists_is _ _ _ _ HL E) as Hl.
  pose proof (ring_next _ _ _ Hl) as Hn. destruct l as [|x l].
  - exists m. erewrite run_bind by by apply list_empty_run. split_and!; [done..|by rewrite insert_id].
  - simpl in Hn. destruct (list_del_lists m L h [] l x HL E) as (m1 & E1 & D1 & HL1). exists m1.
    erewrite run_bind by by apply list_empty_run. simpl. erewrite run_get_next by done.
    by erewrite run_bind.
Qed.

Lemma ring_head_out m h l : is_list m h l -> h ∉ l.
Proof. by intros [[? _]%NoDup_cons _]. Qed.

Lemma list_next_run m h A i B : is_list m h (A ++ i :: B) -> list_next h i m = Ok (head B, m).
Proof.
  intros Hl. pose proof (ring_next_at _ _ _ _ _ Hl) as Hn. pose proof (ring_head_out _ _ _ Hl).
  destruct (entry_or_null_head h B) as (y & Hy & Hr); [set_solver|].
  rewrite Hy in Hn. unfold list_next. erewrite run_get_next by done. by rewrite Hr.
Qed.

Lemma list_prev_run m h A i B : is_list m h (A ++ i :: B) -> list_prev h i m = Ok (list.last A, m).
Proof.
  intros Hl. pose proof (ring_prev_at _ _ _ _ _ Hl) as Hn. pose proof (ring_head_out _ _ _ Hl).
  destruct (entry_or_null_last h A) as (y & Hy & Hr); [set_solver|].
  rewrite Hy in Hn. unfold list_prev. erewrite run_get_prev by done. by rewrite Hr.
Qed.

(** Every function does to the heap what its rule says of the sequences. *)
Lemma lspec_update m L o r L' : lists m L -> lspec (dom m) o L r L' ->
  exists m', lexec o m = Ok (r, m') /\ dom m' = dom m /\ lists m' L'.
Proof.
  intros HL S.
  assert (Hw : forall T (f : T -> lres) (c : LM loc T) a L1,
    (exists m', c m = Ok (a, m') /\ dom m' = dom m /\ lists m' L1) ->
    exists m', (x ← c; mret (f x)) m = Ok (f a, m') /\ dom m' = dom m /\ lists m' L1).
  { intros T f c a L1 (m' & E & ?). exists m'. by erewrite run_bind. }
  assert (Hr : forall T (f : T -> lres) (c : LM loc T) a, c m = Ok (a, m) ->
    exists m', (x ← c; mret (f x)) m = Ok (f a, m') /\ dom m' = dom m /\ lists m' L) by (intros; by apply Hw; exists m).
  assert (Hi : forall h l, L !! h = Some l -> is_list m h l) by apply HL.
  destruct S as [| | | |L h A p B n E|L h A p B n E| | | | | | | | | | | | |L h l E]; simpl; unfold runit.
  - by apply (Hw _ (fun _ => RUnit) _ tt), list_head_init_lists.
  - by apply (Hw _ (fun _ => RUnit) _ tt), list_node_init_lists.
  - by apply (Hw _ (fun _ => RUnit) _ tt), list_add_lists.
  - by apply (Hw _ (fun _ => RUnit) _ tt), list_add_tail_lists.
  - apply (Hw _ (fun _ => RUnit) _ tt). destruct (first_rest B h) as (q & R & ER).
    rewrite cons_middle, (app_assoc A).
    apply (list_add_after_lists m L h (A ++ [p]) B (h :: A) p q R n); try done. by rewrite <- app_assoc.
  - apply (Hw _ (fun _ => RUnit) _ tt). destruct (front_back h A) as (F & p' & EF).
    by apply (list_add_before_lists m L h A (p :: B) F p' p (B ++ [h]) n).
  - by apply (Hr _ RBool), list_empty_run, Hi.
  - by eapply (Hw _ (fun _ => RUnit) _ tt), list_del_lists.
  - by eapply (Hw _ (fun _ => RUnit) _ tt), list_del_init_lists.
  - by apply (Hw _ (fun _ => RUnit) _ tt), list_del_from_lists.
  - by eapply (Hw _ (fun _ => RUnit) _ tt), list_swap_lists.
  - by apply (Hr _ RNode), list_top_run, Hi.
  - by apply (Hw _ RNode), list_pop_lists.
  - by apply (Hr _ RNode), list_tail_run, Hi.
  - by eapply (Hr _ RNode), list_next_run, Hi.
  - by eapply (Hr _ RNode), list_prev_run, Hi.
  - by apply (Hw _ (fun _ => RUnit) _ tt), list_append_list_lists.
  - by apply (Hw _ (fun _ => RUnit) _ tt), list_prepend_list_lists.
  - apply Hi in E. apply (Hr _ RBool). by eapply list_check_run, ring_length.
Qed.

(** C9: The functions of the doubly linked list, executed on a heap of nodes
    with their pointers, implement operations on sequences: from a heap that
    holds a set of disjoint lists, every sequence of operations whose
    arguments meet the preconditions of the documentation runs without a
    fault, returns what the operations on sequences return, and leaves a heap
    that holds exactly the resulting lists. *)
Theorem clist_refines m L os rs L' : lists m L -> lsteps (dom m) os L rs L' ->
  exists m', lexecs os m = Ok (rs, m') /\ dom m' = dom m /\ lists m' L'.
Proof.
  intros HL S. remember (dom m) as D eqn:HD. revert m HL HD.
  induction S as [L|o os L r L1 rs L2 S1 _ IH]; intros m HL ->; [by exists m|].
  destruct (lspec_update _ _ _ _ _ HL S1) as (m1 & E1 & D1 & HL1).
  destruct (IH m1 HL1 (eq_sym D1)) as (m2 & E2 & D2 & HL2).
  exists m2. simpl. erewrite run_bind by done. erewrite run_bind by done. split_and!; [done|congruence|done].
Qed.
End spec.

(** ** Loops over a list *)

Section loop_rules.
Context {loc : Type} `{Countable loc} `{NullPtr loc}.
Context {St : Type} (hp : St -> gmap loc (list_node loc)).
Context {M : Type -> Type} `{MRet M, MBind M} (run : forall A, M A -> St -> outcome (A * St)).
Context (oof : M unit) (dir : loc -> M loc) (body : loc -> M unit) (h : loc).
Implicit Types (l done rest : list loc).

(** The monad passes the state on, and [dir] reads [next]. *)
Hypothesis run_ret : forall s, run _ (mret tt) s = Ok (tt, s).
Hypothesis run_seq : forall A B (c : M A) (f : A -> M B) s a s',
  run _ c s = Ok (a, s') -> run _ (c ≫= f) s = run _ (f a) s'.
Hypothesis run_dir : forall i j s, nxt (hp s) i = Some j -> run _ (dir i) s = Ok (j, s).

(** list_for_each, for a body that leaves the list as it is: it visits
    every entry once, in order. *)
Lemma list_for_each_rule l (I : list loc -> St -> Prop) fuel s :
  (forall done s, I done s -> is_list (hp s) h l) ->
  (forall done i rest s, l = done ++ i :: rest -> I done s ->
     exists s', run _ (body i) s = Ok (tt, s') /\ I (done ++ [i]) s') ->
  I [] s -> (length l <= fuel)%nat ->
  exists s', run _ (list_for_each_off_dir oof dir body h fuel) s = Ok (tt, s') /\ I l s'.
Proof using run_ret run_seq run_dir.
  intros HI Hbody Hs Hf. unfold list_for_each_off_dir.
  pose proof (ring_next _ _ _ (HI _ _ Hs)) as Hn.
  destruct (first_rest l h) as (i & R & Ei). rewrite Ei in Hn. erewrite run_seq by by apply run_dir.
  assert (Hloop : forall rest done fuel i s, l = done ++ rest -> I done s -> head (rest ++ [h]) = Some i ->
    (length rest <= fuel)%nat ->
    exists s', run _ (for_each_loop oof dir body h fuel i) s = Ok (tt, s') /\ I l s').
  { clear Hn Ei R i Hf fuel Hs s.
    induction rest as [|x rest IH]; intros done fuel i s -> Hs Hi Hf; simpl in Hi; injection Hi as <-.
    - rewrite app_nil_r in *. exists s. destruct fuel; simpl; by rewrite decide_True.
    - simpl in Hf. destruct fuel as [|fuel]; [lia|]. simpl.
      pose proof (ring_head_out _ _ _ (HI _ _ Hs)). rewrite decide_False by set_solver.
      destruct (Hbody _ _ _ _ eq_refl Hs) as (s1 & E1 & Hs1). erewrite run_seq by done.
      pose proof (ring_next_at _ _ _ _ _ (HI _ _ Hs1)) as Hn.
      destruct (first_rest rest h) as (j & R & Ej). rewrite Ej in Hn. erewrite run_seq by by apply run_dir.
      apply (IH (done ++ [x])); [by rewrite <- app_assoc|done|by rewrite Ej|lia]. }
  by apply (Hloop l []); [| |rewrite Ei|].
Qed.

(** list_for_each_safe: the body may take its entry out of the list and
    change the part of the list that was visited. *)
Lemma list_for_each_safe_rule l (I : list loc -> list loc -> St -> Prop) fuel s :
  (forall done rest s, I done rest s -> exists kept, is_list (hp s) h (kept ++ rest)) ->
  (forall done i rest s, I done (i :: rest) s ->
     exists s', run _ (body i) s = Ok (tt, s') /\ I (done ++ [i]) rest s') ->
  I [] l s -> is_list (hp s) h l -> (length l <= fuel)%nat ->
  exists s', run _ (list_for_each_safe_off_dir oof dir body h fuel) s = Ok (tt, s') /\ I l [] s'.
Proof using run_ret run_seq run_dir.
  intros HI Hbody Hs Hl Hf. unfold list_for_each_safe_off_dir.
  assert (Hstep : forall done rest s i, I done rest s -> head (rest ++ [h]) = Some i ->
    exists j, nxt (hp s) i = Some j /\ (rest ≠ [] -> i ≠ h /\ head (tail rest ++ [h]) = Some j)).
  { intros done rest s' i Hs' Hi. destruct (HI _ _ _ Hs') as [kept Hk].
    destruct rest as [|x rest]; simpl in Hi; injection Hi as <-.
    - rewrite app_nil_r in Hk. destruct (first_rest kept h) as (j & R & Ej). exists j.
      rewrite (ring_next _ _ _ Hk), Ej. done.
    - destruct (first_rest rest h) as (j & R & Ej). exists j.
      rewrite (ring_next_at _ _ _ _ _ Hk). simpl. rewrite Ej. split; [done|].
      pose proof (ring_head_out _ _ _ Hk). set_solver. }
  pose proof (ring_next _ _ _ Hl) as Hn. destruct (first_rest l h) as (i & R & Ei).
  assert (Hi : head (l ++ [h]) = Some i) by by rewrite Ei.
  rewrite Hi in Hn. erewrite run_seq by by apply run_dir.
  destruct (Hstep [] l s i Hs Hi) as (j & Hj & Hrest). erewrite run_seq by by apply run_dir.
  assert (Hloop : forall rest done fuel i j s, I done rest s -> head (rest ++ [h]) = Some i ->
    (rest ≠ [] -> i ≠ h /\ head (tail rest ++ [h]) = Some j) -> (length rest <= fuel)%nat ->
    exists s', run _ (for_each_safe_loop oof dir body h fuel i j) s = Ok (tt, s') /\ I (done ++ rest) [] s').
  { clear - run_ret run_seq run_dir Hbody Hstep.
    induction rest as [|x rest IH]; intros done fuel i j s Hs Hi Hj Hf; simpl in Hi; injection Hi as <-.
    - rewrite app_nil_r. exists s. destruct fuel; simpl; by rewrite decide_True.
    - destruct Hj as [Hx Hj]; [done|]. simpl in Hf, Hj. destruct fuel as [|fuel]; [lia|]. simpl.
      rewrite decide_False by done. destruct (Hbody _ _ _ _ Hs) as (s1 & E1 & Hs1).
      erewrite run_seq by done. destruct (Hstep _ _ _ _ Hs1 Hj) as (k & Hk & Hrest).
      erewrite run_seq by by apply run_dir. rewrite cons_middle, app_assoc. apply IH; auto with lia. }
  by apply (Hloop l []).
Qed.
End loop_rules.

(** ** An example *)

#[local] Instance nat_null : NullPtr nat := 0%nat.

(** Two lists with heads 1 and 2 over the nodes 3 to 6. *)
Definition ex_heap : gmap nat (list_node nat) :=
  list_to_map ((fun i => (i, Node 0%nat 0%nat)) <$> seq 1 6).
Definition ex_ops : list (lop (loc := nat)) :=
  [OHeadInit 1; OHeadInit 2; OAddTail 1 3; OAddTail 1 4; OAdd 2 5; OAddAfter 3 6; ODel 4;
   OAppend 2 1; OPop 2; OTail 2; OCheck 2; OEmpty 1]%nat.
Definition ex_results : list (lres (loc := nat)) :=
  [RUnit; RUnit; RUnit; RUnit; RUnit; RUnit; RUnit; RUnit; RNode (Some 5); RNode (Some 6);
   RBool true; RBool true]%nat.

Lemma lists_empty m : lists m (∅ : gmap nat (list nat)).
Proof. split; intros *; by rewrite lookup_empty. Qed.

(** [unused] of a concrete map of lists. *)
Lemma unused_map_Forall (L : gmap nat (list nat)) x :
  bool_decide (map_Forall (fun h l => x ∉ h :: l) L) = true -> unused L x.
Proof. intros HL%bool_decide_eq_true h l E. by apply (HL h l). Qed.

Ltac ex_side :=
  first [ by apply unused_map_Forall | by apply (bool_decide_unpack _) | done ].

Lemma ex_steps : lsteps (dom ex_heap) ex_ops ∅ ex_results
  (<[2%nat := [3; 6]%nat]> (<[1%nat := []]> (<[2%nat := [5; 3; 6]%nat]>
    (<[1%nat := [3; 6]%nat]> (<[1%nat := [3; 6; 4]%nat]> (<[2%nat := [5]%nat]>
    (<[1%nat := [3; 4]%nat]> (<[1%nat := [3]%nat]> (<[2%nat := []]> (<[1%nat := []]> ∅)))))))))).
Proof.
  eapply sp_cons; [apply sp_head_init; ex_side|].
  eapply sp_cons; [apply sp_head_init; ex_side|].
  eapply sp_cons; [apply (sp_add_tail _ _ 1%nat []); ex_side|].
  eapply sp_cons; [apply (sp_add_tail _ _ 1%nat [3%nat]); ex_side|].
  eapply sp_cons; [apply (sp_add _ _ 2%nat []); ex_side|].
  eapply sp_cons; [apply (sp_add_after _ _ 1%nat [] 3%nat [4%nat]); ex_side|].
  eapply sp_cons; [apply (sp_del _ _ 1%nat [3; 6]%nat 4%nat []); ex_side|].
  eapply sp_cons; [apply (sp_append _ _ 2%nat 1%nat [5]%nat [3; 6]%nat); ex_side|].
  eapply sp_cons; [apply (sp_pop _ _ 2%nat [5; 3; 6]%nat); ex_side|].
  eapply sp_cons; [apply (sp_tail _ _ 2%nat [3; 6]%nat); ex_side|].
  eapply sp_cons; [apply (sp_check _ _ 2%nat [3; 6]%nat); ex_side|].
  eapply sp_cons; [apply (sp_empty _ _ 1%nat []); ex_side|].
  apply sp_nil.
Qed.

Lemma clist_refines_witness :
  exists m' L', lexecs ex_ops ex_heap = Ok (ex_results, m') /\ lists m' L' /\
    L' !! 1%nat = Some [] /\ L' !! 2%nat = Some [3; 6]%nat.
Proof.
  destruct (clist_refines ex_heap ∅ ex_ops ex_results _ (lists_empty _) ex_steps) as (m' & E & _ & HL).
  eexists m', _. split; [exact E|]. split; [exact HL|]. by split.
Defined.
