(* ===== verification/Cores.v ===== *)
(** Processor cores of the daemon (src/urdmad/main.c): the bit mask of the
    cores that DPDK has not taken, from which every process reserves the cores
    of its progress threads.  A mask is an array of RTE_MAX_LCORE / 32 words;
    [cores] is the set of cores that it stands for, and the functions are
    shown to be operations on these sets. *)
From S2P Require Import Prelude.

(** ** The masks *)

(** [rte_bsf32] of DPDK, the index of the least significant bit that is set. *)
Class Bsf := rte_bsf32 : Z -> Z.
Class BsfLaws (B : Bsf) := {
  bsf_range w : 0 < w < 2 ^ 32 -> 0 <= rte_bsf32 w < 32;
  bsf_set w : 0 < w < 2 ^ 32 -> Z.testbit w (rte_bsf32 w) = true;
  bsf_least w i : 0 < w < 2 ^ 32 -> 0 <= i < rte_bsf32 w -> Z.testbit w i = false
}.

(** Read and write of an array of 32-bit words. *)
Definition word (m : list Z) (j : nat) : outcome Z :=
  match m !! j with Some w => Ok w | None => Fault OutOfBounds end.
Definition set_word (m : list Z) (j : nat) (w : Z) : outcome (list Z) :=
  _ ← word m j; Ok (<[j := w]> m).

Section masks.
Context `{Bsf}.

Definition core_mask_shift : Z := 5.
Definition core_mask_mask : Z := 31.

(** [static unsigned int core_avail] and [static uint32_t core_mask[]]. *)
Record core_pool := CorePool { core_mask : list Z; core_avail : Z }.

(** The loop of [init_core_mask] from core [i] on: [lcores] says for each
    core whether it is detected and whether its role is ROLE_OFF. *)
Fixpoint init_core_loop (i : nat) (lcores : list (bool * bool)) (p : core_pool) : outcome core_pool :=
  match lcores with
  | [] => Ok p
  | (detected, off) :: lcores =>
      if negb detected then Ok p else
      if off then
        let j := Z.to_nat (Z.shiftr (Z.of_nat i) core_mask_shift) in
        w ← word (core_mask p) j;
        cm ← set_word (core_mask p) j
               (Z.lor w (u32 (Z.shiftl 1 (Z.land (Z.of_nat i) core_mask_mask))));
        init_core_loop (S i) lcores (CorePool cm (u32 (core_avail p + 1)))
      else init_core_loop (S i) lcores p
  end.

Definition init_core_mask (lcores : list (bool * bool)) (p : core_pool) : outcome core_pool :=
  init_core_loop 0 lcores p.

(** The inner loop of [reserve_cores]: the first word from [j] on that is not
    zero. *)
Fixpoint next_word (fuel : nat) (cm : list Z) (j : nat) : outcome nat :=
  w ← word cm j;
  if negb (w =? 0) then Ok j else
  match fuel with
  | O => Fault OutOfFuel
  | S fuel => c_assert (S j <? length cm)%nat;; next_word fuel cm (S j)
  end.

(** The outer loop: [count] cores move from the mask [cm] to [out]. *)
Fixpoint reserve_loop (count : nat) (j : nat) (cm out : list Z) : outcome (list Z * list Z) :=
  match count with
  | O => Ok (cm, out)
  | S count =>
      j ← next_word (length cm) cm j;
      w ← word cm j;
      let bit := u32 (Z.shiftl 1 (rte_bsf32 w)) in
      cm ← set_word cm j (Z.ldiff w bit);
      o ← word out j;
      out ← set_word out j (Z.lor o bit);
      reserve_loop count j cm out
  end.

Definition reserve_cores (count : Z) (p : core_pool) (out_mask : list Z) :
    outcome (bool * core_pool * list Z) :=
  if core_avail p <? count then Ok (false, p, out_mask) else
  '(cm, out) ← reserve_loop (Z.to_nat count) 0 (core_mask p) out_mask;
  Ok (true, CorePool cm (u32 (core_avail p - count)), out).

(** The inner loop of [return_lcores]: the bits of [tmp] are added to word
    [i]; a word has at most 32 of them. *)
Fixpoint return_word (fuel : nat) (i : nat) (tmp : Z) (p : core_pool) : outcome core_pool :=
  if tmp =? 0 then Ok p else
  match fuel with
  | O => Fault OutOfFuel
  | S fuel =>
      let bit := u32 (Z.shiftl 1 (rte_bsf32 tmp)) in
      w ← word (core_mask p) i;
      cm ← set_word (core_mask p) i (Z.lor w bit);
      return_word fuel i (Z.ldiff tmp bit) (CorePool cm (u32 (core_avail p + 1)))
  end.

Fixpoint return_loop (i : nat) (in_mask : list Z) (p : core_pool) : outcome core_pool :=
  match in_mask with
  | [] => Ok p
  | tmp :: in_mask => p ← return_word 32 i tmp p; return_loop (S i) in_mask p
  end.

Definition return_lcores (in_mask : list Z) (p : core_pool) : outcome core_pool :=
  return_loop 0 in_mask p.
End masks.

(** ** The sets they stand for *)

Definition has_core (m : list Z) (c : nat) : bool :=
  match m !! (c / 32)%nat with
  | Some w => Z.testbit w (Z.of_nat (c mod 32))
  | None => false
  end.
Definition cores (m : list Z) : gset nat :=
  list_to_set (filter (fun c => has_core m c = true) (seq 0 (32 * length m))).

Definition mask_wf (m : list Z) : Prop := Forall (in_range 32) m.

Lemma mask_word m j w : mask_wf m -> m !! j = Some w -> in_range 32 w.
Proof. apply Forall_lookup_1. Qed.

Lemma elem_of_cores m c : c ∈ cores m <-> has_core m c = true.
Proof.
  unfold cores. rewrite elem_of_list_to_set, list_elem_of_filter, elem_of_seq.
  split; [naive_solver|]. intros Hc. split; [done|]. unfold has_core in Hc.
  destruct (m !! (c / 32)%nat) eqn:E; [|done]. apply lookup_lt_Some in E.
  pose proof (Nat.div_mod_eq c 32). pose proof (Nat.mod_upper_bound c 32). lia.
Qed.

Lemma core_split j (b : Z) : 0 <= b < 32 ->
  ((32 * j + Z.to_nat b) / 32 = j)%nat /\ Z.of_nat ((32 * j + Z.to_nat b) mod 32) = b.
Proof.
  intros Hb. assert (Z.to_nat b < 32)%nat by lia.
  rewrite (Nat.mul_comm 32), Nat.div_add_l, Nat.div_small, Nat.add_0_r by lia.
  rewrite Nat.add_comm, Nat.Div0.mod_add, Nat.mod_small by lia. lia.
Qed.

(** A core is its word and its bit. *)
Lemma core_eq c j b : 0 <= b < 32 ->
  (c / 32 = j)%nat /\ Z.of_nat (c mod 32) = b <-> c = (32 * j + Z.to_nat b)%nat.
Proof.
  intros Hb. split; [|intros ->; by apply core_split].
  intros [<- <-]. pose proof (Nat.div_mod_eq c 32). lia.
Qed.

(** Assigning a word that differs in one bit. *)
Lemma cores_set_bit m j w w' b v : m !! j = Some w -> 0 <= b < 32 ->
  (forall i, 0 <= i < 32 -> Z.testbit w' i = if decide (i = b) then v else Z.testbit w i) ->
  cores (<[j := w']> m) =
    if v then cores m ∪ {[(32 * j + Z.to_nat b)%nat]} else cores m ∖ {[(32 * j + Z.to_nat b)%nat]}.
Proof.
  intros Hj Hb Hw. apply set_eq. intros c. rewrite elem_of_cores.
  assert (Hc : has_core (<[j := w']> m) c =
    if decide (c = 32 * j + Z.to_nat b)%nat then v else has_core m c).
  { unfold has_core. destruct (decide (j = c / 32)%nat) as [E|E].
    - rewrite <- E, list_lookup_insert_eq, Hj by by eapply lookup_lt_Some.
      rewrite Hw by (pose proof (Nat.mod_upper_bound c 32); lia).
      pose proof (core_eq c j b Hb) as Hc. rewrite <- E in Hc.
      rewrite (decide_ext _ (c = 32 * j + Z.to_nat b)%nat); [done|]. rewrite <- Hc. by split; [|intros [_ ?]].
    - rewrite list_lookup_insert_ne by done. rewrite decide_False; [done|].
      intros ->. by destruct (core_split j b Hb). }
  rewrite Hc. pose proof (elem_of_cores m c).
  destruct v; case_decide; set_solver.
Qed.

Lemma bit_value b : 0 <= b < 32 -> u32 (Z.shiftl 1 b) = 2 ^ b.
Proof.
  intros Hb. rewrite Z.shiftl_1_l. apply wrap_small.
  split; [lia|]. apply Z.pow_lt_mono_r; lia.
Qed.

Lemma lor_bit w b i : 0 <= b -> 0 <= i ->
  Z.testbit (Z.lor w (2 ^ b)) i = if decide (i = b) then true else Z.testbit w i.
Proof.
  intros Hb Hi. rewrite Z.lor_spec. case_decide; subst.
  - rewrite Z.pow2_bits_true by lia. apply orb_true_r.
  - rewrite Z.pow2_bits_false by lia. apply orb_false_r.
Qed.

Lemma ldiff_bit w b i : 0 <= b -> 0 <= i ->
  Z.testbit (Z.ldiff w (2 ^ b)) i = if decide (i = b) then false else Z.testbit w i.
Proof.
  intros Hb Hi. rewrite Z.ldiff_spec. case_decide; subst.
  - rewrite Z.pow2_bits_true by lia. apply andb_false_r.
  - rewrite Z.pow2_bits_false by lia. apply andb_true_r.
Qed.

Lemma in_range_bits w n : 0 <= n -> 0 <= w -> (forall i, n <= i -> Z.testbit w i = false) -> w < 2 ^ n.
Proof.
  intros Hn Hw Hi. destruct (decide (w = 0)) as [->|Hne]; [lia|].
  apply Z.log2_lt_pow2; [lia|]. apply Z.nle_gt. intros Hle.
  specialize (Hi (Z.log2 w) Hle). by rewrite Z.bit_log2 in Hi by lia.
Qed.

Lemma in_range_high w i : in_range 32 w -> 32 <= i -> Z.testbit w i = false.
Proof.
  intros [H1 H2] Hi. destruct (decide (w = 0)) as [->|]; [apply Z.bits_0|].
  apply Z.bits_above_log2; [done|]. assert (Z.log2 w < 32) by (apply Z.log2_lt_pow2; lia). lia.
Qed.

Lemma lor_range w b : in_range 32 w -> 0 <= b < 32 -> in_range 32 (Z.lor w (2 ^ b)).
Proof.
  intros Hw Hb. assert (0 <= Z.lor w (2 ^ b)) by (apply Z.lor_nonneg; destruct Hw; split; lia).
  split; [done|]. apply in_range_bits; [lia|done|]. intros i Hi.
  rewrite lor_bit by lia. rewrite decide_False by lia. by apply in_range_high.
Qed.

Lemma ldiff_range w b : in_range 32 w -> 0 <= b < 32 -> in_range 32 (Z.ldiff w (2 ^ b)).
Proof.
  intros Hw Hb. assert (0 <= Z.ldiff w (2 ^ b)) by (apply Z.ldiff_nonneg; destruct Hw; left; lia).
  split; [done|]. apply in_range_bits; [lia|done|]. intros i Hi.
  rewrite ldiff_bit by lia. rewrite decide_False by lia. by apply in_range_high.
Qed.

(** ** What the functions do to the sets *)

Section spec.
Context {Bs : Bsf} {BL : BsfLaws Bs}.

(** The core that the code takes from a word that is not zero. *)
Definition low_core (j : nat) (w : Z) : nat := (32 * j + Z.to_nat (rte_bsf32 w))%nat.

Lemma bsf_bit w : in_range 32 w -> w ≠ 0 ->
  0 <= rte_bsf32 w < 32 /\ Z.testbit w (rte_bsf32 w) = true /\
  u32 (Z.shiftl 1 (rte_bsf32 w)) = 2 ^ rte_bsf32 w.
Proof using BL.
  intros [H1 H2] Hne. assert (Hw : 0 < w < 2 ^ 32) by lia.
  split; [by apply bsf_range|]. split; [by apply bsf_set|by apply bit_value, bsf_range].
Qed.

Lemma clear_low m j w : mask_wf m -> m !! j = Some w -> w ≠ 0 ->
  let m' := <[j := Z.ldiff w (2 ^ rte_bsf32 w)]> m in
  low_core j w ∈ cores m /\ cores m' = cores m ∖ {[low_core j w]} /\ mask_wf m' /\ length m' = length m.
Proof using BL.
  intros Hm Hj Hne m'. pose proof (mask_word _ _ _ Hm Hj) as Hw.
  destruct (bsf_bit w Hw Hne) as (Hr & Ht & _). split_and!.
  - rewrite elem_of_cores. unfold has_core, low_core. destruct (core_split j _ Hr) as [-> ->]. by rewrite Hj.
  - apply (cores_set_bit m j w _ (rte_bsf32 w) false); [done|done|].
    intros i Hi. apply ldiff_bit; lia.
  - apply Forall_insert; [done|by apply ldiff_range].
  - apply length_insert.
Qed.

Lemma set_low m j o b : mask_wf m -> m !! j = Some o -> 0 <= b < 32 ->
  let m' := <[j := Z.lor o (2 ^ b)]> m in
  cores m' = cores m ∪ {[(32 * j + Z.to_nat b)%nat]} /\ mask_wf m' /\ length m' = length m.
Proof using BL.
  intros Hm Hj Hb m'. pose proof (mask_word _ _ _ Hm Hj) as Ho. split_and!.
  - apply (cores_set_bit m j o _ b true); [done|done|]. intros i Hi. apply lor_bit; lia.
  - apply Forall_insert; [done|by apply lor_range].
  - apply length_insert.
Qed.

(** *** Reserving *)

Definition zero_below (m : list Z) (j : nat) : Prop := forall k, (k < j)%nat -> m !! k = Some 0 \/ m !! k = None.

Lemma next_word_spec cm fuel j : cores cm ≠ ∅ -> zero_below cm j -> (j < length cm)%nat ->
  (length cm <= j + fuel)%nat ->
  exists j' w, next_word fuel cm j = Ok j' /\ cm !! j' = Some w /\ w ≠ 0 /\ zero_below cm j'.
Proof.
  intros Hne. revert j. induction fuel as [|fuel IH]; intros j Hz Hj Hf; [lia|].
  apply lookup_lt_is_Some in Hj as [w Hw]. cbn [next_word]. unfold word. rewrite Hw. simpl.
  destruct (Z.eqb_spec w 0) as [->|Hw0]; simpl; [|by exists j, w].
  assert (Hz' : zero_below cm (S j)).
  { intros k Hk. destruct (decide (k = j)) as [->|]; [by left|]. apply Hz. lia. }
  assert (Hlt : (S j < length cm)%nat).
  { apply set_choose_L in Hne as [c Hc%elem_of_cores]. unfold has_core in Hc.
    destruct (cm !! (c / 32)%nat) as [v|] eqn:E; [|done]. pose proof (lookup_lt_Some _ _ _ E).
    destruct (decide (c / 32 < S j)%nat) as [Hlt|]; [|lia].
    destruct (Hz' _ Hlt); simplify_eq. by rewrite Z.bits_0 in Hc. }
  apply Nat.ltb_lt in Hlt as E. rewrite E. simpl. apply IH; [done|done|lia].
Qed.

(** The core that is taken is the lowest one. *)
Lemma low_core_least cm j w c : mask_wf cm -> cm !! j = Some w -> w ≠ 0 -> zero_below cm j ->
  c ∈ cores cm -> (low_core j w <= c)%nat.
Proof using BL.
  intros Hm Hj Hne Hz Hc%elem_of_cores. unfold has_core in Hc.
  pose proof (mask_word _ _ _ Hm Hj) as Hw.
  destruct (bsf_bit w Hw Hne) as (Hr & _). unfold low_core.
  destruct (cm !! (c / 32)%nat) as [v|] eqn:E; [|done].
  pose proof (Nat.div_mod_eq c 32) as Hd. pose proof (Nat.mod_upper_bound c 32).
  destruct (decide (c / 32 < j)%nat) as [Hlt|Hge].
  { destruct (Hz _ Hlt); simplify_eq. by rewrite Z.bits_0 in Hc. }
  destruct (decide (c / 32 = j)%nat) as [Ej|]; [|lia]. rewrite Ej in *. simplify_eq.
  destruct (decide (Z.of_nat (c mod 32) < rte_bsf32 w)) as [Hlt|]; [|lia].
  rewrite bsf_least in Hc by (unfold in_range in Hw; lia). done.
Qed.

(** [count] cores move from one mask to the other, the lowest ones first. *)
Record moved (count : nat) (cm out cm' out' : list Z) (S : gset nat) : Prop := Moved {
  mv_sub : S ⊆ cores cm;
  mv_size : size S = count;
  mv_from : cores cm' = cores cm ∖ S;
  mv_to : cores out' = cores out ∪ S;
  mv_low : forall c d, c ∈ S -> d ∈ cores cm' -> (c < d)%nat;
  mv_wf : mask_wf cm' /\ mask_wf out';
  mv_len : length cm' = length cm /\ length out' = length out
}.

Lemma reserve_loop_spec count : forall j cm out,
  mask_wf cm -> mask_wf out -> length out = length cm -> zero_below cm j ->
  (count <= size (cores cm))%nat ->
  exists cm' out' S, reserve_loop count j cm out = Ok (cm', out') /\ moved count cm out cm' out' S.
Proof using BL.
  induction count as [|count IH]; intros j cm out Hcm Hout Hlen Hz Hc.
  { exists cm, out, ∅. split; [done|]. split; set_solver. }
  assert (Hne : cores cm ≠ ∅) by (intros E; rewrite E, size_empty in Hc; lia).
  assert (Hj : (j < length cm)%nat).
  { apply Nat.nle_gt. intros Hge. apply set_choose_L in Hne as [c Hc'%elem_of_cores]. unfold has_core in Hc'.
    destruct (cm !! (c / 32)%nat) as [v|] eqn:E; [|done]. pose proof (lookup_lt_Some _ _ _ E).
    destruct (Hz (c / 32)%nat); [lia| |]; simplify_eq. by rewrite Z.bits_0 in Hc'. }
  destruct (next_word_spec cm (length cm) j) as (j' & w & Ej & Hw & Hw0 & Hz'); [done|done|done|lia|].
  assert (Hwr : in_range 32 w) by by apply (mask_word cm j').
  destruct (bsf_bit w Hwr Hw0) as (Hr & _ & Hbit).
  destruct (lookup_lt_is_Some_2 out j') as [o Ho]; [rewrite Hlen; by eapply lookup_lt_Some|].
  destruct (clear_low cm j' w) as (Hin & Hcm1 & Hwf1 & Hl1); [done..|].
  destruct (set_low out j' o (rte_bsf32 w)) as (Hout1 & Hwf2 & Hl2); [done..|].
  destruct (IH j' (<[j' := Z.ldiff w (2 ^ rte_bsf32 w)]> cm) (<[j' := Z.lor o (2 ^ rte_bsf32 w)]> out))
    as (cm' & out' & S & E & [M1 M2 M3 M4 M5 M6 M7]); [done|done|congruence| | |].
  { intros k Hk. rewrite list_lookup_insert_ne by lia. by apply Hz'. }
  { rewrite Hcm1, size_difference, size_singleton; [lia|set_solver]. }
  exists cm', out', ({[low_core j' w]} ∪ S). split.
  { cbn [reserve_loop]. rewrite Ej. simpl. unfold set_word, word. rewrite Hw. simpl. rewrite Hbit, Ho. simpl. by rewrite E. }
  rewrite Hcm1 in *. split.
  - clear - M1 Hin. set_solver.
  - rewrite size_union, size_singleton; [lia|]. clear - M1. set_solver.
  - rewrite M3. clear. set_solver.
  - rewrite M4, Hout1. unfold low_core. clear. set_solver.
  - intros c d Hcin Hd. apply elem_of_union in Hcin as [->%elem_of_singleton|Hcin]; [|by eapply M5].
    assert (d ∈ cores cm /\ d ≠ low_core j' w) as [Hd1 Hd2] by (clear - Hd M3; set_solver).
    pose proof (low_core_least cm j' w d Hcm Hw Hw0 Hz' Hd1). lia.
  - done.
  - lia.
Qed.

(** The number of available cores is that of the mask. *)
Definition pool_ok (p : core_pool) : Prop :=
  mask_wf (core_mask p) /\ core_avail p = Z.of_nat (size (cores (core_mask p))) /\
  (32 * length (core_mask p) < Z.to_nat (2 ^ 32))%nat.

Lemma cores_size m : (size (cores m) <= 32 * length m)%nat.
Proof.
  unfold cores. rewrite size_list_to_set.
  - etrans; [apply length_filter|]. by rewrite length_seq.
  - apply NoDup_filter, NoDup_seq.
Qed.

Lemma reserve_cores_spec count p out : pool_ok p -> mask_wf out -> length out = length (core_mask p) -> 0 <= count ->
  if core_avail p <? count then reserve_cores count p out = Ok (false, p, out)
  else exists p' out' S, reserve_cores count p out = Ok (true, p', out') /\ pool_ok p' /\
    moved (Z.to_nat count) (core_mask p) out (core_mask p') out' S.
Proof using BL.
  intros (Hwf & Hav & Hlen) Hout Hl Hc. unfold reserve_cores. destruct (Z.ltb_spec (core_avail p) count); [done|].
  pose proof (cores_size (core_mask p)) as Hs.
  destruct (reserve_loop_spec (Z.to_nat count) 0 (core_mask p) out) as (cm' & out' & S & E & M);
    [done|done|done|intros k; lia|lia|].
  rewrite E. simpl. exists (CorePool cm' (u32 (core_avail p - count))), out', S. split; [done|].
  split; [|done]. destruct M as [M1 M2 M3 M4 M5 [M6 _] [M7 _]]. split; [done|]. simpl. rewrite M7. split; [|done].
  rewrite M3, size_difference, M2 by done. rewrite wrap_small; [lia|]. unfold in_range. lia.
Qed.

(** *** Returning *)

(** The cores that are still to be returned when the loop is at word [i]. *)
Definition remaining (i : nat) (rest : list Z) : list Z := replicate i 0 ++ rest.

Lemma remaining_lookup i t rest : remaining i (t :: rest) !! i = Some t.
Proof. unfold remaining. by rewrite lookup_app_r, length_replicate, Nat.sub_diag by by rewrite length_replicate. Qed.
Lemma remaining_insert i t t' rest : <[i := t']> (remaining i (t :: rest)) = remaining i (t' :: rest).
Proof.
  unfold remaining. rewrite insert_app_r_alt, length_replicate, Nat.sub_diag by by rewrite length_replicate. done.
Qed.
Lemma remaining_next i rest : remaining i (0 :: rest) = remaining (S i) rest.
Proof. unfold remaining. by rewrite replicate_S_end, <- app_assoc. Qed.
Lemma remaining_wf i rest : mask_wf rest -> mask_wf (remaining i rest).
Proof. intros. apply Forall_app. split; [|done]. by apply Forall_replicate. Qed.
Lemma remaining_none i : cores (remaining i []) = ∅.
Proof.
  apply set_eq. intros c. rewrite elem_of_cores. split; [|by intros ?%elem_of_empty]. unfold has_core, remaining.
  rewrite app_nil_r. destruct (_ !! _) as [v|] eqn:E; [|done].
  apply lookup_replicate in E as [-> _]. by rewrite Z.bits_0.
Qed.

(** What is in the pool together with what is still to come does not change. *)
Definition same_total (p p' : core_pool) (m m' : list Z) : Prop :=
  cores (core_mask p') ∪ cores m' = cores (core_mask p) ∪ cores m /\
  u32 (core_avail p' + Z.of_nat (size (cores m'))) = u32 (core_avail p + Z.of_nat (size (cores m))) /\
  mask_wf (core_mask p') /\ length (core_mask p') = length (core_mask p) /\
  (in_range 32 (core_avail p) -> in_range 32 (core_avail p')).

Lemma same_total_refl p m : mask_wf (core_mask p) -> same_total p p m m.
Proof. by unfold same_total. Qed.

Lemma same_total_trans p p1 p2 m m1 m2 :
  same_total p p1 m m1 -> same_total p1 p2 m1 m2 -> same_total p p2 m m2.
Proof. unfold same_total. intuition congruence. Qed.

Lemma return_bit i tmp rest p :
  mask_wf (core_mask p) -> (i < length (core_mask p))%nat -> mask_wf (tmp :: rest) -> tmp ≠ 0 ->
  exists w, core_mask p !! i = Some w /\
    same_total p (CorePool (<[i := Z.lor w (2 ^ rte_bsf32 tmp)]> (core_mask p)) (u32 (core_avail p + 1)))
      (remaining i (tmp :: rest)) (remaining i (Z.ldiff tmp (2 ^ rte_bsf32 tmp) :: rest)).
Proof using BL.
  intros Hp [w Hw]%lookup_lt_is_Some Ht Hne. exists w. split; [done|].
  assert (Htr : in_range 32 tmp) by by apply Forall_cons in Ht as [? _].
  destruct (bsf_bit tmp Htr Hne) as (Hr & _).
  destruct (set_low (core_mask p) i w (rte_bsf32 tmp)) as (H1 & H2 & H3); [done..|].
  destruct (clear_low (remaining i (tmp :: rest)) i tmp) as (H4 & H5 & _);
    [by apply remaining_wf|apply remaining_lookup|done|].
  rewrite remaining_insert in H5. unfold same_total. simpl.
  split; [rewrite H1, H5; unfold low_core in *; apply set_eq; intros c;
    destruct (decide (c = (32 * i + Z.to_nat (rte_bsf32 tmp))%nat)); set_solver|].
  split; [|split_and!; [done|done|intros _; by apply wrap_range]].
  rewrite wrap_add_l, H5, size_difference, size_singleton by set_solver.
  assert (0 < size (cores (remaining i (tmp :: rest))))%nat.
  { destruct (size _) eqn:E; [|lia]. apply size_empty_inv in E. set_solver. }
  f_equal. lia.
Qed.

Lemma return_word_spec i rest fuel : forall tmp p,
  mask_wf (core_mask p) -> (i < length (core_mask p))%nat -> mask_wf (tmp :: rest) ->
  (size (cores [tmp]) <= fuel)%nat ->
  exists p', return_word fuel i tmp p = Ok p' /\
    same_total p p' (remaining i (tmp :: rest)) (remaining (S i) rest).
Proof using BL.
  induction fuel as [|fuel IH]; intros tmp p Hp Hi Ht Hf; simpl;
    (destruct (Z.eqb_spec tmp 0) as [->|Hne];
      [exists p; rewrite remaining_next; split; [done|by apply same_total_refl]|]);
    pose proof (proj1 (Forall_cons _ _ _) Ht) as [Htr Hrest];
    (destruct (clear_low [tmp] 0 tmp) as (H1 & H2 & H3 & _); [by constructor|done|done|]).
  { assert (size (cores [tmp]) = 0)%nat as E by lia. apply size_empty_inv in E. set_solver. }
  destruct (bsf_bit tmp Htr Hne) as (_ & _ & Hbit).
  destruct (return_bit i tmp rest p Hp Hi Ht Hne) as (w & Hw & Hs).
  destruct (IH (Z.ldiff tmp (2 ^ rte_bsf32 tmp))
    (CorePool (<[i := Z.lor w (2 ^ rte_bsf32 tmp)]> (core_mask p)) (u32 (core_avail p + 1)))) as (p' & E & Hs').
  - apply Hs.
  - simpl. by rewrite length_insert.
  - constructor; [|done]. by apply Forall_cons in H3 as [? _].
  - simpl in H2. rewrite H2, size_difference, size_singleton by set_solver. lia.
  - exists p'. split; [|by eapply same_total_trans].
    rewrite Hbit. unfold set_word, word. rewrite Hw. simpl. exact E.
Qed.

Lemma return_loop_spec rest : forall i p,
  mask_wf (core_mask p) -> (i + length rest <= length (core_mask p))%nat -> mask_wf rest ->
  exists p', return_loop i rest p = Ok p' /\ same_total p p' (remaining i rest) (remaining (i + length rest) []).
Proof using BL.
  induction rest as [|tmp rest IH]; intros i p Hp Hi Ht; cbn [return_loop length].
  { exists p. rewrite Nat.add_0_r. split; [done|by apply same_total_refl]. }
  cbn [length] in Hi. destruct (return_word_spec i rest 32 tmp p) as (p1 & E1 & Hs1); [done|lia|done| |].
  { etrans; [apply cores_size|done]. }
  pose proof Hs1 as (_ & _ & Hwf1 & Hl1 & _).
  destruct (IH (S i) p1) as (p' & E' & Hs'); [done|lia|by apply Forall_cons in Ht as [_ ?]|].
  exists p'. rewrite E1. split; [exact E'|]. rewrite Nat.add_succ_r. by eapply same_total_trans.
Qed.

(** The cores of a process go back to the pool. *)
Lemma return_lcores_spec p m : pool_ok p -> mask_wf m -> length m = length (core_mask p) ->
  cores m ## cores (core_mask p) ->
  exists p', return_lcores m p = Ok p' /\ pool_ok p' /\
    cores (core_mask p') = cores (core_mask p) ∪ cores m /\ length (core_mask p') = length (core_mask p).
Proof using BL.
  intros (Hwf & Hav & Hlen) Hm Hl Hd.
  destruct (return_loop_spec m 0 p) as (p' & E & Hc & Ha & Hwf' & Hl' & Hr); [done|lia|done|].
  rewrite remaining_none in Hc, Ha. change (remaining 0 m) with m in Hc, Ha.
  rewrite (right_id_L ∅ (∪)) in Hc. rewrite size_empty, Z.add_0_r in Ha.
  exists p'. split; [done|]. split; [|done]. split; [done|]. rewrite Hl'. split; [|done].
  pose proof (cores_size (core_mask p')) as Hs. pose proof (cores_size (core_mask p)) as Hs2.
  rewrite Hl' in Hs. rewrite Hc in Hs |- *. rewrite size_union in Hs |- * by set_solver.
  rewrite wrap_small in Ha by (apply Hr; unfold in_range; lia). rewrite Ha, wrap_small; [lia|]. unfold in_range. lia.
Qed.

(** *** The cores at the start *)

Lemma core_bit i : (i / 32)%nat = Z.to_nat (Z.shiftr (Z.of_nat i) core_mask_shift) /\
  Z.land (Z.of_nat i) core_mask_mask = Z.of_nat (i mod 32).
Proof.
  split.
  - unfold core_mask_shift. rewrite Z.shiftr_div_pow2 by lia.
    change (2 ^ 5) with (Z.of_nat 32). by rewrite <- Nat2Z.inj_div, Nat2Z.id.
  - unfold core_mask_mask. change 31 with (Z.ones 5). rewrite Z.land_ones by lia.
    change (2 ^ 5) with (Z.of_nat 32). by rewrite Nat2Z.inj_mod.
Qed.

(** A core is available when DPDK does not use it and it and all cores
    before it were detected. *)
Definition usable (lcores : list (bool * bool)) (c : nat) : Prop :=
  lcores !! c = Some (true, true) /\ forall d, (d < c)%nat -> exists off, lcores !! d = Some (true, off).

Definition all_detected (lcores : list (bool * bool)) : Prop := Forall (fun l => l.1 = true) lcores.

Lemma usable_detected pre : all_detected pre -> forall c, usable pre c <-> pre !! c = Some (true, true).
Proof.
  intros Hd c. split; [by intros [? _]|]. intros Hc. split; [done|]. intros d Hlt.
  destruct (lookup_lt_is_Some_2 pre d) as [[b off] Hb]; [apply lookup_lt_Some in Hc; lia|].
  pose proof (Forall_lookup_1 _ _ _ _ Hd Hb) as E. simpl in E. subst. eauto.
Qed.

Lemma usable_stop pre off rest : all_detected pre ->
  forall c, usable (pre ++ (false, off) :: rest) c <-> pre !! c = Some (true, true).
Proof.
  intros Hd c. rewrite <- usable_detected by done. unfold usable. split.
  - intros [Hc Hl]. assert (Hlt : (c < length pre)%nat).
    { apply Nat.nle_gt. intros Hge. destruct (decide (c = length pre)) as [->|].
      - by rewrite list_lookup_middle in Hc.
      - destruct (Hl (length pre)) as [o Ho]; [lia|]. by rewrite list_lookup_middle in Ho. }
    rewrite lookup_app_l in Hc by done. split; [done|]. intros d Hd'.
    destruct (Hl d Hd') as [o Ho]. rewrite lookup_app_l in Ho by lia. eauto.
  - intros [Hc Hl]. pose proof (lookup_lt_Some _ _ _ Hc). rewrite lookup_app_l by done. split; [done|].
    intros d Hd'. rewrite lookup_app_l by lia. eauto.
Qed.

Lemma add_core i p w : pool_ok p -> core_mask p !! (i / 32)%nat = Some w -> i ∉ cores (core_mask p) ->
  let p' := CorePool (<[(i / 32)%nat := Z.lor w (2 ^ Z.of_nat (i mod 32))]> (core_mask p)) (u32 (core_avail p + 1)) in
  pool_ok p' /\ cores (core_mask p') = cores (core_mask p) ∪ {[i]} /\
  length (core_mask p') = length (core_mask p).
Proof using BL.
  intros (Hwf & Hav & Hlen) Hw Hi p'. pose proof (Nat.mod_upper_bound i 32).
  destruct (set_low (core_mask p) (i / 32) w (Z.of_nat (i mod 32))) as (H1 & H2 & H3); [done|done|lia|].
  rewrite Nat2Z.id, <- Nat.div_mod_eq in H1. split; [|done]. split; [done|]. unfold p'. cbn [core_mask core_avail]. rewrite H3. split; [|done].
  pose proof (cores_size (core_mask p)). rewrite H1, size_union, size_singleton by set_solver.
  rewrite Hav, wrap_small; [lia|]. unfold in_range. lia.
Qed.

Lemma init_core_loop_spec rest : forall pre p,
  all_detected pre -> pool_ok p -> (length pre + length rest <= 32 * length (core_mask p))%nat ->
  (forall c, c ∈ cores (core_mask p) <-> pre !! c = Some (true, true)) ->
  exists p', init_core_loop (length pre) rest p = Ok p' /\ pool_ok p' /\
    length (core_mask p') = length (core_mask p) /\
    forall c, c ∈ cores (core_mask p') <-> usable (pre ++ rest) c.
Proof using BL.
  induction rest as [|[[] off] rest IH]; intros pre p Hd Hp Hl Hc; cbn [init_core_loop length] in *.
  - exists p. split; [done|]. split; [done|]. split; [done|]. intros c. by rewrite app_nil_r, usable_detected, Hc.
  - assert (Hd' : all_detected (pre ++ [(true, off)])) by (apply Forall_app; by split; [|constructor]).
    replace (S (length pre)) with (length (pre ++ [(true, off)])) by by rewrite length_app, Nat.add_comm.
    rewrite (cons_middle (true, off) pre rest), (app_assoc pre). destruct off; cbn [negb].
    + destruct (core_bit (length pre)) as [E1 E2]. rewrite <- E1, E2.
      destruct (lookup_lt_is_Some_2 (core_mask p) (length pre / 32)) as [w Hw];
        [apply Nat.Div0.div_lt_upper_bound; lia|].
      pose proof (Nat.mod_upper_bound (length pre) 32).
      rewrite bit_value by lia. unfold set_word, word. rewrite Hw. cbn [mbind outcome_bind].
      destruct (add_core (length pre) p w) as (H1 & H2 & H3); [done|done| |].
      { rewrite Hc. by rewrite lookup_ge_None_2. }
      destruct (IH (pre ++ [(true, true)]) _ Hd' H1) as (p' & E & Hp' & Hl' & Hc').
      * rewrite H3, length_app. simpl. lia.
      * intros c. rewrite H2, elem_of_union, Hc, elem_of_singleton, lookup_snoc_Some.
        pose proof (lookup_lt_Some pre c (true, true)). naive_solver.
      * exists p'. split; [done|]. split; [done|]. split; [congruence|done].
    + apply IH; [done|done|rewrite length_app; simpl; lia|].
      intros c. rewrite Hc, lookup_snoc_Some. pose proof (lookup_lt_Some pre c (true, true)). naive_solver.
  - exists p. split; [done|]. split; [done|]. split; [done|]. intros c. by rewrite usable_stop, Hc.
Qed.

(** From a cleared mask, exactly the usable cores become available. *)
Lemma init_core_mask_spec lcores n : (length lcores <= 32 * n)%nat -> (32 * n < Z.to_nat (2 ^ 32))%nat ->
  exists p, init_core_mask lcores (CorePool (replicate n 0) 0) = Ok p /\ pool_ok p /\
    length (core_mask p) = n /\ forall c, c ∈ cores (core_mask p) <-> usable lcores c.
Proof using BL.
  intros Hl Hn.
  assert (E0 : cores (replicate n 0) = ∅).
  { pose proof (remaining_none n) as E. unfold remaining in E. by rewrite app_nil_r in E. }
  destruct (init_core_loop_spec lcores [] (CorePool (replicate n 0) 0)) as (p & E & Hp & Hlen & Hc).
  - constructor.
  - split; [by apply Forall_replicate|]. simpl. rewrite E0, size_empty, length_replicate. done.
  - simpl. by rewrite length_replicate.
  - intros c. cbn [core_mask]. rewrite E0. set_solver.
  - exists p. split; [done|]. split; [done|]. split; [|done]. rewrite Hlen. apply length_replicate.
Qed.
End spec.

(** ** An instance of [rte_bsf32] *)

Fixpoint first_bit (n : nat) (i w : Z) : Z :=
  match n with O => i | S n => if Z.testbit w i then i else first_bit n (i + 1) w end.
#[export] Instance low_bit : Bsf := first_bit 32 0.

Lemma first_bit_spec w n i k : i <= k < i + Z.of_nat n -> Z.testbit w k = true ->
  i <= first_bit n i w <= k /\ Z.testbit w (first_bit n i w) = true /\
  forall j, i <= j < first_bit n i w -> Z.testbit w j = false.
Proof.
  revert i. induction n as [|n IH]; intros i Hk Ht; [lia|]. cbn [first_bit].
  destruct (Z.testbit w i) eqn:E; [split; [lia|]; split; [done|lia]|].
  assert (k <> i) by congruence. destruct (IH (i + 1)) as (H1 & H2 & H3); [lia|done|].
  split; [lia|]. split; [done|]. intros j Hj. destruct (decide (j = i)) as [->|]; [done|]. apply H3. lia.
Qed.

#[export] Instance low_bit_laws : BsfLaws low_bit.
Proof.
  assert (Hs : forall w, 0 < w < 2 ^ 32 ->
    0 <= first_bit 32 0 w <= Z.log2 w /\ Z.testbit w (first_bit 32 0 w) = true /\
    (forall j, 0 <= j < first_bit 32 0 w -> Z.testbit w j = false) /\ Z.log2 w < 32).
  { intros w Hw. assert (Hl : Z.log2 w < 32) by (apply Z.log2_lt_pow2; lia).
    destruct (first_bit_spec w 32 0 (Z.log2 w)) as (H1 & H2 & H3); [pose proof (Z.log2_nonneg w); lia|apply Z.bit_log2; lia|].
    done. }
  split.
  - intros w Hw. destruct (Hs w Hw) as (? & _ & _ & ?). unfold rte_bsf32, low_bit. lia.
  - intros w Hw. apply (Hs w Hw).
  - intros w i Hw Hi. by apply (Hs w Hw).
Qed.
