(* ===== verification/Kern.v ===== *)
(** * Data of the kernel module (src/kmod/urdma.h, src/kmod/cm.h, src/kmod/obj.c)

    Connection endpoints, queue pairs and the other reference counted objects
    of the kernel module, and the monad of its functions.  An object is
    addressed by a number; freeing it removes it from its map, so that a use
    after free is a fault.  What a call of another part of the kernel returns
    (allocation, sockets, the connection manager's event handler) comes from a
    list of results in the state. *)
From S2P Require Import Prelude Proto.

Definition EAGAIN : Z := 11.
Definition EFAULT : Z := 14.
Definition ENXIO : Z := 6.
Definition EPROTO : Z := 71.
Definition EAFNOSUPPORT : Z := 97.
Definition ECONNABORTED : Z := 103.
Definition ECONNRESET : Z := 104.
Definition ETIMEDOUT : Z := 110.

(** ** Connection requests and replies (include/proto_trp.h) *)

(** [struct trp_rr]: a TRP header and the connection parameters, in host byte
    order. *)
Record trp_rr := TrpRr { rr_hdr : trp_hdr; rr_pd_len : Z; rr_ird : Z; rr_ord : Z }.
#[export] Instance trp_hdr_settable : Settable trp_hdr := fun h =>
  Trp_hdr (trp_psn h) (trp_ack_psn h) (trp_opcode h).
#[export] Instance trp_rr_settable : Settable trp_rr := fun r =>
  TrpRr (rr_hdr r) (rr_pd_len r) (rr_ird r) (rr_ord r).

Definition sizeof_trp_rr : nat := 16.

Definition trp_rr_bytes (r : trp_rr) : bytes :=
  trp_bytes (rr_hdr r) ++ be_encode 2 (rr_pd_len r) ++ be_encode 2 (rr_ird r) ++ be_encode 2 (rr_ord r).

Definition get_trp_rr (buf : bytes) : outcome trp_rr :=
  h ← get_trp buf; pd ← get_be buf 10 2; ird ← get_be buf 12 2; ord ← get_be buf 14 2;
  Ok {| rr_hdr := h; rr_pd_len := pd; rr_ird := ird; rr_ord := ord |}.

(** ** Enumerations *)

(** [enum siw_cep_state] *)
Inductive siw_cep_state :=
| SIW_EPSTATE_IDLE
| SIW_EPSTATE_LISTENING
| SIW_EPSTATE_CONNECTING
| SIW_EPSTATE_AWAIT_MPAREQ
| SIW_EPSTATE_RECVD_MPAREQ
| SIW_EPSTATE_AWAIT_MPAREP
| SIW_EPSTATE_RECVD_MPAREP
| SIW_EPSTATE_ACCEPTING
| SIW_EPSTATE_RDMA_MODE
| SIW_EPSTATE_CLOSED.
#[export] Instance siw_cep_state_eq_dec : EqDecision siw_cep_state.
Proof. solve_decision. Defined.

(** [enum siw_qp_state], with the values the code compares. *)
Inductive siw_qp_state :=
| SIW_QP_STATE_IDLE
| SIW_QP_STATE_RTR
| SIW_QP_STATE_RTS
| SIW_QP_STATE_CLOSING
| SIW_QP_STATE_TERMINATE
| SIW_QP_STATE_ERROR
| SIW_QP_STATE_MORIBUND
| SIW_QP_STATE_UNDEF.
#[export] Instance siw_qp_state_eq_dec : EqDecision siw_qp_state.
Proof. solve_decision. Defined.

Definition siw_qp_state_val (s : siw_qp_state) : Z :=
  match s with
  | SIW_QP_STATE_IDLE => 0 | SIW_QP_STATE_RTR => 1 | SIW_QP_STATE_RTS => 2
  | SIW_QP_STATE_CLOSING => 3 | SIW_QP_STATE_TERMINATE => 4 | SIW_QP_STATE_ERROR => 5
  | SIW_QP_STATE_MORIBUND => 6 | SIW_QP_STATE_UNDEF => 7
  end.

(** [enum siw_work_type] *)
Inductive siw_work_type :=
| SIW_CM_WORK_ACCEPT
| SIW_CM_WORK_READ_MPAHDR
| SIW_CM_WORK_CLOSE_LLP
| SIW_CM_WORK_PEER_CLOSE
| SIW_CM_WORK_TIMEOUT.
#[export] Instance siw_work_type_eq_dec : EqDecision siw_work_type.
Proof. solve_decision. Defined.

(** The events of the kernel's connection manager that the module raises. *)
Inductive iw_cm_event_type :=
| IW_CM_EVENT_CONNECT_REQUEST
| IW_CM_EVENT_CONNECT_REPLY
| IW_CM_EVENT_ESTABLISHED
| IW_CM_EVENT_DISCONNECT
| IW_CM_EVENT_CLOSE.
#[export] Instance iw_cm_event_type_eq_dec : EqDecision iw_cm_event_type.
Proof. solve_decision. Defined.

Definition SIW_RDMA_BIND_ENABLED : Z := 1.
Definition SIW_RDMA_WRITE_ENABLED : Z := 2.
Definition SIW_RDMA_READ_ENABLED : Z := 4.
Definition SIW_QP_IN_DESTROY : Z := 256.

Definition SIW_QP_ATTR_STATE : Z := 1.
Definition SIW_QP_ATTR_ACCESS_FLAGS : Z := 2.
Definition SIW_QP_ATTR_LLP_HANDLE : Z := 4.
Definition SIW_QP_ATTR_ORD : Z := 8.
Definition SIW_QP_ATTR_IRD : Z := 16.

Definition SIW_MAX_QP : Z := 1024 * 100.
Definition SIW_MAX_ORD : Z := 128.
Definition SIW_MAX_IRD : Z := 128.
Definition URDMA_PDATA_LEN_MAX : Z := 512.

(** ** Objects *)

Record sockaddr_in := SockAddr { sin_addr : Z; sin_port : Z }.
#[export] Instance sockaddr_settable : Settable sockaddr_in := fun a => SockAddr (sin_addr a) (sin_port a).

(** A UDP socket: the endpoint in its user data, whether the callbacks of the
    module are installed, the datagrams waiting with their senders, and its
    local address. *)
Record ksock := KSock {
  ks_user : option nat; ks_upcalls : bool; ks_inbox : list (sockaddr_in * bytes); ks_local : sockaddr_in
}.
#[export] Instance ksock_settable : Settable ksock := fun s =>
  KSock (ks_user s) (ks_upcalls s) (ks_inbox s) (ks_local s).

(** [struct siw_cep]; [cep_freelist] is the number of free work items. *)
Record siw_cep := Cep {
  cep_cm_id : option nat;
  cep_listen_cep : option nat;
  cep_qp : option nat;
  cep_ref : Z;
  cep_state : siw_cep_state;
  cep_in_use : bool;
  cep_timer : option nat;
  cep_freelist : nat;
  cep_sock : option nat;
  cep_laddr : sockaddr_in;
  cep_raddr : sockaddr_in;
  cep_hdr : trp_rr;
  cep_pdata : bytes;
  cep_send_pdata : bytes;
  cep_ord : Z;
  cep_ird : Z
}.
#[export] Instance cep_settable : Settable siw_cep := fun c =>
  Cep (cep_cm_id c) (cep_listen_cep c) (cep_qp c) (cep_ref c) (cep_state c) (cep_in_use c)
    (cep_timer c) (cep_freelist c) (cep_sock c) (cep_laddr c) (cep_raddr c) (cep_hdr c)
    (cep_pdata c) (cep_send_pdata c) (cep_ord c) (cep_ird c).

(** [struct siw_qp] with its [struct siw_qp_attrs]. *)
Record siw_qp := SiwQp {
  kq_ref : Z;
  kq_cep : option nat;
  kq_state : siw_qp_state;
  kq_flags : Z;
  kq_orq_size : Z;
  kq_irq_size : Z;
  kq_urdma_devid : Z;
  kq_urdma_qp_id : Z;
  kq_urdma_rxq : Z;
  kq_urdma_txq : Z;
  kq_scq : option nat;
  kq_rcq : option nat;
  kq_pd : nat
}.
#[export] Instance siw_qp_settable : Settable siw_qp := fun q =>
  SiwQp (kq_ref q) (kq_cep q) (kq_state q) (kq_flags q) (kq_orq_size q) (kq_irq_size q)
    (kq_urdma_devid q) (kq_urdma_qp_id q) (kq_urdma_rxq q) (kq_urdma_txq q) (kq_scq q) (kq_rcq q)
    (kq_pd q).

(** What [provider_data] of a connection manager id points to. *)
Inductive provider := PNone | PListen (l : list nat) | PCep (c : nat).

(** [struct iw_cm_id]; [id_ref] counts the references the module holds. *)
Record iw_cm_id := CmId {
  id_ref : Z; id_provider : provider; id_local : sockaddr_in; id_remote : sockaddr_in; id_inet : bool
}.
#[export] Instance iw_cm_id_settable : Settable iw_cm_id := fun i =>
  CmId (id_ref i) (id_provider i) (id_local i) (id_remote i) (id_inet i).

(** A queued work item: its number, its endpoint and its type. *)
Record siw_cm_work := Work { wk_id : nat; wk_cep : nat; wk_type : siw_work_type }.

(** [struct iw_cm_event], as given to the event handler of [ev_id]. *)
Record iw_cm_event := CmEvent {
  ev_id : nat; ev_event : iw_cm_event_type; ev_status : Z; ev_private_data : bytes; ev_ird : Z;
  ev_ord : Z; ev_provider_data : option nat
}.

(** [struct iw_cm_conn_param]; the length of the private data is that of the
    list. *)
Record iw_cm_conn_param := ConnParam { cp_private_data : bytes; cp_ord : Z; cp_ird : Z; cp_qpn : nat }.

(** [struct urdma_chardev_data]: whether it has a device, and the endpoints on
    its two lists. *)
Record urdma_chardev_data := Chardev {
  cd_dev : bool; established_list : list nat; rtr_wait_list : list nat
}.
#[export] Instance chardev_settable : Settable urdma_chardev_data := fun f =>
  Chardev (cd_dev f) (established_list f) (rtr_wait_list f).

(** [struct siw_dev], the part the functions use: whether it has a network
    device, the addresses of the latter, and the counts of objects. *)
Record siw_dev := SiwDev {
  sd_netdev : bool; sd_in_dev : option (list Z); sd_max_ird : Z; sd_max_ord : Z; num_qp : Z; num_cq : Z;
  num_pd : Z; num_cep : Z
}.
#[export] Instance siw_dev_settable : Settable siw_dev := fun d =>
  SiwDev (sd_netdev d) (sd_in_dev d) (sd_max_ird d) (sd_max_ord d) (num_qp d) (num_cq d)
    (num_pd d) (num_cep d).

(** The state of the module.  [k_cqs] and [k_pds] are the references of the
    completion queues and protection domains; [k_cq_idr] are the completion
    queues that can be found by their number.  [k_file] is the data of the character device;
    [k_sent] are the datagrams sent, with their destinations; [k_rets] are the
    results of the calls to come, 0 beyond the list. *)
Record kstate := KState {
  k_ceps : gmap nat siw_cep;
  k_qps : gmap nat siw_qp;
  k_cqs : gmap nat Z;
  k_cq_idr : gset nat;
  k_pds : gmap nat Z;
  k_ids : gmap nat iw_cm_id;
  k_socks : gmap nat ksock;
  k_works : list siw_cm_work;
  k_events : list iw_cm_event;
  k_sent : list (sockaddr_in * bytes);
  k_file : option urdma_chardev_data;
  k_dev : siw_dev;
  k_next : nat;
  k_rets : list Z
}.
#[export] Instance kstate_settable : Settable kstate := fun k =>
  KState (k_ceps k) (k_qps k) (k_cqs k) (k_cq_idr k) (k_pds k) (k_ids k) (k_socks k) (k_works k)
    (k_events k) (k_sent k) (k_file k) (k_dev k) (k_next k) (k_rets k).

(** ** The monad *)

Definition KM (A : Type) : Type := kstate -> outcome (A * kstate).
#[export] Instance KM_ret : MRet KM := fun A a k => Ok (a, k).
#[export] Instance KM_bind : MBind KM := fun A B f m k =>
  match m k with Ok (a, k') => f a k' | Fault e => Fault e end.

Definition kgets {A} (f : kstate -> A) : KM A := fun k => Ok (f k, k).
Definition kmodify (f : kstate -> kstate) : KM unit := fun k => Ok (tt, f k).
Definition klift {A} (o : outcome A) : KM A := fun k =>
  match o with Ok a => Ok (a, k) | Fault e => Fault e end.
Definition kfail {A} (f : fault) : KM A := fun _ => Fault f.

(** A pointer that is NULL, or the object it points to. *)
Definition nonnull {A} (o : option A) : KM A := fun k =>
  match o with Some a => Ok (a, k) | None => Fault NullDeref end.

(** The result of a call outside the module. *)
Definition kcall : KM Z := fun k =>
  match k_rets k with
  | [] => Ok (0, k)
  | r :: rs => Ok (r, k <| k_rets := rs |>)
  end.

(** The result of a call that returns 0 or a negative error number; an
    allocation fails when it is negative. *)
Definition kerr : KM Z := r ← kcall; mret (Z.min r 0).

Definition fresh : KM nat := fun k => Ok (k_next k, k <| k_next ::= S |>).

Definition get_cep (c : nat) : KM siw_cep := fun k => v ← deref (k_ceps k !! c); Ok (v, k).
Definition upd_cep (c : nat) (f : siw_cep -> siw_cep) : KM unit := fun k =>
  v ← deref (k_ceps k !! c); Ok (tt, k <| k_ceps ::= <[c := f v]> |>).
Definition get_kqp (q : nat) : KM siw_qp := fun k => v ← deref (k_qps k !! q); Ok (v, k).
Definition upd_kqp (q : nat) (f : siw_qp -> siw_qp) : KM unit := fun k =>
  v ← deref (k_qps k !! q); Ok (tt, k <| k_qps ::= <[q := f v]> |>).
Definition get_id (i : nat) : KM iw_cm_id := fun k => v ← deref (k_ids k !! i); Ok (v, k).
Definition upd_id (i : nat) (f : iw_cm_id -> iw_cm_id) : KM unit := fun k =>
  v ← deref (k_ids k !! i); Ok (tt, k <| k_ids ::= <[i := f v]> |>).
Definition get_sock (s : nat) : KM ksock := fun k => v ← deref (k_socks k !! s); Ok (v, k).
Definition upd_sock (s : nat) (f : ksock -> ksock) : KM unit := fun k =>
  v ← deref (k_socks k !! s); Ok (tt, k <| k_socks ::= <[s := f v]> |>).

(** [when b m]: [if (b) m;] *)
Definition when (b : bool) (m : KM unit) : KM unit := if b then m else mret tt.

(** ** References (src/kmod/obj.c, src/kmod/cm.c) *)

Definition siw_cep_get (c : nat) : KM unit := upd_cep c (fun v => v <| cep_ref ::= fun r => r + 1 |>).

(** [__siw_cep_dealloc] *)
Definition siw_cep_dealloc (c : nat) : KM unit :=
  kmodify (fun k => k <| k_ceps ::= delete c |> <| k_dev ::= update num_cep (fun n => n - 1) |>).

Definition siw_cep_put (c : nat) : KM unit :=
  v ← get_cep c;
  if cep_ref v <? 1 then mret tt else
  if cep_ref v =? 1 then siw_cep_dealloc c
  else upd_cep c (fun v => v <| cep_ref ::= fun r => r - 1 |>).

Definition id_add_ref (i : nat) : KM unit := upd_id i (fun v => v <| id_ref ::= fun r => r + 1 |>).
Definition id_rem_ref (i : nat) : KM unit := upd_id i (fun v => v <| id_ref ::= fun r => r - 1 |>).

(** [siw_cq_put] and [siw_pd_put]; the last reference frees the object. *)
Definition siw_cq_put (c : nat) : KM unit := fun k =>
  r ← deref (k_cqs k !! c);
  Ok (tt, if r =? 1
          then k <| k_cqs ::= delete c |> <| k_dev ::= update num_cq (fun n => n - 1) |>
          else k <| k_cqs ::= <[c := r - 1]> |>).
Definition siw_pd_put (p : nat) : KM unit := fun k =>
  r ← deref (k_pds k !! p);
  Ok (tt, if r =? 1
          then k <| k_pds ::= delete p |> <| k_dev ::= update num_pd (fun n => n - 1) |>
          else k <| k_pds ::= <[p := r - 1]> |>).
Definition siw_pd_get (p : nat) : KM unit := fun k =>
  r ← deref (k_pds k !! p); Ok (tt, k <| k_pds ::= <[p := r + 1]> |>).

(** [siw_cq_id2obj]: the completion queue with a new reference, or NULL. *)
Definition siw_cq_id2obj (c : nat) : KM (option nat) := fun k =>
  if decide (c ∈ k_cq_idr k) then
    r ← deref (k_cqs k !! c); Ok (Some c, k <| k_cqs ::= <[c := r + 1]> |>)
  else Ok (None, k).

Definition siw_qp_get (q : nat) : KM unit := upd_kqp q (fun v => v <| kq_ref ::= fun r => r + 1 |>).

(** [siw_qp_id2obj]: the queue pair with a new reference, or NULL. *)
Definition siw_qp_id2obj (q : nat) : KM (option nat) :=
  o ← kgets (fun k => k_qps k !! q);
  match o with
  | None => mret None
  | Some _ => siw_qp_get q;; mret (Some q)
  end.

(** [siw_free_qp] *)
Definition siw_free_qp (q : nat) : KM unit :=
  v ← get_kqp q;
  (match kq_cep v with Some c => siw_cep_put c | None => mret tt end);;
  kmodify (fun k => k <| k_qps ::= delete q |> <| k_dev ::= update num_qp (fun n => n - 1) |>).

Definition siw_qp_put (q : nat) : KM unit :=
  v ← get_kqp q;
  if kq_ref v =? 1 then siw_free_qp q
  else upd_kqp q (fun v => v <| kq_ref ::= fun r => r - 1 |>).
