(* ===== verification/Cm.v ===== *)
(** * The kernel's connection manager (src/kmod/cm.c, src/kmod/qp.c)

    A connection is set up by a request and a reply in UDP datagrams.  The
    active side sends the request ([siw_connect]) and reads the reply in a work
    item ([siw_proc_trpreply]); the passive side reads the request from its
    listening socket ([siw_proc_trpreq]), is accepted ([siw_accept]), and sends
    its reply when the daemon has set up the queue pair ([siw_qp_rtr]).

    Each function is a step of its own, so that the flag [in_use] of an
    endpoint is set at the start of a call only when an earlier call did not
    clear it; waiting for it is then a deadlock. *)
From S2P Require Import Prelude Proto Kern.

(** ** Sockets *)

Definition AF_INET_ANY : sockaddr_in := SockAddr 0 0.

Definition sock_create : KM (Z * option nat) :=
  rv ← kerr;
  if rv <? 0 then mret (rv, None) else
  s ← fresh;
  kmodify (fun k => k <| k_socks ::= <[s := KSock None false [] AF_INET_ANY]> |>);;
  mret (0, Some s).

Definition sock_release (s : nat) : KM unit :=
  _ ← get_sock s; kmodify (fun k => k <| k_socks ::= delete s |>).

(** [bind]: port 0 lets the kernel choose one. *)
Definition udp_bind_local (s : nat) (laddr : sockaddr_in) : KM Z :=
  rv ← kerr;
  if rv <? 0 then mret rv else
  port ← (if sin_port laddr =? 0 then kcall else mret (sin_port laddr));
  upd_sock s (fun v => v <| ks_local := laddr <| sin_port := u16 port |> |>);; mret 0.

Definition kernel_localname (s : nat) : KM (Z * option sockaddr_in) :=
  rv ← kerr;
  if rv <? 0 then mret (rv, None) else
  v ← get_sock s; mret (0, Some (ks_local v)).

(** [kernel_recvmsg] without waiting: at most [cap] bytes of the next
    datagram, the rest of which is lost. *)
Definition kernel_recvmsg (s cap : nat) : KM (Z * option (sockaddr_in * bytes)) :=
  rv ← kerr;
  if rv <? 0 then mret (rv, None) else
  v ← get_sock s;
  match ks_inbox v with
  | [] => mret (- EAGAIN, None)
  | (from, data) :: rest =>
      upd_sock s (fun v => v <| ks_inbox := rest |>);;
      mret (len (take cap data), Some (from, take cap data))
  end.

Definition siw_socket_disassoc (s : nat) : KM unit :=
  v ← get_sock s;
  match ks_user v with Some c => siw_cep_put c | None => mret tt end.

Definition siw_cep_socket_assoc (c s : nat) : KM unit :=
  upd_cep c (fun v => v <| cep_sock := Some s |>);;
  siw_cep_get c;;
  upd_sock s (fun v => v <| ks_user := Some c |> <| ks_upcalls := true |>).

(** [siw_socket_disassoc(s); sock_release(s); cep->llp.sock = NULL;] for the
    socket of an endpoint. *)
Definition release_sock (c : nat) : KM unit :=
  v ← get_cep c;
  s ← nonnull (cep_sock v);
  siw_socket_disassoc s;; sock_release s;;
  upd_cep c (fun v => v <| cep_sock := None |>).

(** ** Endpoints and their work items *)

Definition zero_rr : trp_rr := TrpRr (Trp_hdr 0 0 0) 0 0 0.

Definition new_cep (d : siw_dev) : siw_cep := {|
  cep_cm_id := None; cep_listen_cep := None; cep_qp := None; cep_ref := 1;
  cep_state := SIW_EPSTATE_IDLE; cep_in_use := false; cep_timer := None; cep_freelist := 0;
  cep_sock := None; cep_laddr := AF_INET_ANY; cep_raddr := AF_INET_ANY; cep_hdr := zero_rr;
  cep_pdata := replicate (Z.to_nat URDMA_PDATA_LEN_MAX) 0; cep_send_pdata := [];
  cep_ord := sd_max_ord d; cep_ird := sd_max_ird d |}.

Definition siw_cep_alloc : KM (option nat) :=
  r ← kerr;
  if r <? 0 then mret None else
  c ← fresh;
  kmodify (fun k => k <| k_ceps ::= <[c := new_cep (k_dev k)]> |>
                      <| k_dev ::= update num_cep (fun n => n + 1) |>);;
  mret (Some c).

Definition set_state (c : nat) (st : siw_cep_state) : KM unit := upd_cep c (fun v => v <| cep_state := st |>).

(** [siw_cancel_timer]; a work item that is no longer queued runs. *)
Definition siw_cancel_timer (c : nat) : KM unit :=
  v ← get_cep c;
  match cep_timer v with
  | None => mret tt
  | Some w =>
      works ← kgets k_works;
      when (existsb (fun x => (wk_id x =? w)%nat) works)
        (kmodify (fun k => k <| k_works ::= List.filter (fun x => negb (wk_id x =? w)%nat) |>);;
         siw_cep_put c);;
      upd_cep c (fun v => v <| cep_timer := None |>)
  end.

Definition siw_put_work (c : nat) : KM unit := upd_cep c (fun v => v <| cep_freelist ::= S |>).

Definition siw_cep_set_inuse (c : nat) : KM unit :=
  v ← get_cep c;
  if cep_in_use v then kfail Deadlock else upd_cep c (fun v => v <| cep_in_use := true |>).

Definition siw_cep_set_free (c : nat) : KM unit := upd_cep c (fun v => v <| cep_in_use := false |>).

(** [siw_get_work]: whether there was a free work item. *)
Definition siw_get_work (c : nat) : KM bool :=
  v ← get_cep c;
  match cep_freelist v with
  | O => mret false
  | S n => upd_cep c (fun v => v <| cep_freelist := n |>);; mret true
  end.

Fixpoint siw_cm_alloc_work (c num : nat) : KM Z :=
  match num with
  | O => mret 0
  | S n =>
      r ← kerr;
      if r <? 0 then upd_cep c (fun v => v <| cep_freelist := O |>);; mret (- ENOMEM)
      else upd_cep c (fun v => v <| cep_freelist ::= S |>);; siw_cm_alloc_work c n
  end.

Definition siw_cm_queue_work (c : nat) (type : siw_work_type) : KM Z :=
  ok ← siw_get_work c;
  if negb ok then mret (- ENOMEM) else
  siw_cep_get c;;
  w ← fresh;
  when (bool_decide (type = SIW_CM_WORK_TIMEOUT)) (upd_cep c (fun v => v <| cep_timer := Some w |>));;
  kmodify (fun k => k <| k_works ::= fun l => l ++ [Work w c type] |>);;
  mret 0.

(** ** Events *)

(** [siw_cm_upcall].  The length of the private data and the read limits of an
    event are 8 bits wide. *)
Definition siw_cm_upcall (c : nat) (reason : iw_cm_event_type) (status : Z) : KM Z :=
  v ← get_cep c;
  let req := bool_decide (reason = IW_CM_EVENT_CONNECT_REQUEST) in
  let rep := bool_decide (reason = IW_CM_EVENT_CONNECT_REPLY) in
  let pd_len := if req || rep then u8 (rr_pd_len (cep_hdr v)) else 0 in
  i ← (if req then l ← nonnull (cep_listen_cep v); lv ← get_cep l; nonnull (cep_cm_id lv)
       else nonnull (cep_cm_id v));
  _ ← get_id i;
  kmodify (fun k => k <| k_events ::= fun l => l ++
    [{| ev_id := i; ev_event := reason; ev_status := status;
        ev_private_data := take (Z.to_nat pd_len) (cep_pdata v);
        ev_ird := (if req then u8 (cep_ord v) else 0); ev_ord := (if req then u8 (cep_ird v) else 0);
        ev_provider_data := (if req then Some c else None) |}] |>);;
  kerr.

(** ** Messages *)

Definition set_hdr (c : nat) (f : trp_rr -> trp_rr) : KM unit := upd_cep c (fun v => v <| cep_hdr ::= f |>).

(** The assignments of psn, ack_psn and opcode before a message is sent. *)
Definition set_trp_hdr (c : nat) (op : Z) : KM unit :=
  set_hdr c (fun r => r <| rr_hdr := Trp_hdr 0 0 op |>).

(** [siw_send_trpreqrep]; its length argument is 8 bits wide. *)
Definition siw_send_trpreqrep (c : nat) (pdata : bytes) (pd_len : Z) : KM Z :=
  let pd_len := u8 pd_len in
  v ← get_cep c;
  s ← nonnull (cep_sock v);
  _ ← get_sock s;
  set_hdr c (fun r => r <| rr_pd_len := pd_len |>);;
  v ← get_cep c;
  rv ← kerr;
  when (negb (rv <? 0)) (kmodify (fun k => k <| k_sent ::= fun l => l ++
    [(cep_raddr v, trp_rr_bytes (cep_hdr v) ++ take (Z.to_nat pd_len) pdata)] |>));;
  mret (if rv <? 0 then rv else 0).

(** [siw_recv_trp_rr]: the comparison of [rv] with a size is unsigned. *)
Definition siw_recv_trp_rr (c : nat) : KM Z :=
  v ← get_cep c;
  s ← nonnull (cep_sock v);
  res ← kernel_recvmsg s (sizeof_trp_rr + Z.to_nat URDMA_PDATA_LEN_MAX);
  let '(rv, dgram) := res in
  (match dgram with
   | None => mret tt
   | Some (_, data) =>
       hdr ← klift (get_trp_rr (splice 0 (take sizeof_trp_rr data) (trp_rr_bytes (cep_hdr v))));
       upd_cep c (fun v => v <| cep_hdr := hdr |> <| cep_pdata ::= splice 0 (drop sizeof_trp_rr data) |>)
   end);;
  if u64 rv <? Z.of_nat sizeof_trp_rr then mret (- EPROTO) else
  v ← get_cep c;
  let pd_len := rr_pd_len (cep_hdr v) in
  if (URDMA_PDATA_LEN_MAX <? pd_len) || negb (u64 rv =? Z.of_nat sizeof_trp_rr + pd_len)
  then mret (- EPROTO) else
  upd_cep c (fun v => v <| cep_raddr := match dgram with Some (from, _) => from | None => AF_INET_ANY end |>);;
  mret 0.

(** ** Queue pairs (src/kmod/qp.c) *)

(** [struct siw_qp_attrs], the part that [siw_qp_modify] reads. *)
Record siw_qp_attrs := QpAttrs { at_state : siw_qp_state; at_flags : Z; at_orq_size : Z; at_irq_size : Z }.

Definition set_qp_state (q : nat) (st : siw_qp_state) : KM unit := upd_kqp q (fun v => v <| kq_state := st |>).

(** [if (cep->cm_id) { rem_ref; cep->cm_id = NULL; }] *)
Definition drop_cm_id (c : nat) : KM bool :=
  v ← get_cep c;
  match cep_cm_id v with
  | None => mret false
  | Some i => id_rem_ref i;; upd_cep c (fun v => v <| cep_cm_id := None |>);; mret true
  end.

(** [if (qp->cep) { siw_cep_put(qp->cep); qp->cep = NULL; }] *)
Definition drop_qp_cep (q : nat) : KM unit :=
  v ← get_kqp q;
  match kq_cep v with
  | None => mret tt
  | Some c => siw_cep_put c;; upd_kqp q (fun v => v <| kq_cep := None |>)
  end.

Definition siw_qp_cm_drop (q : nat) (schedule : bool) : KM unit :=
  qv ← get_kqp q;
  match kq_cep qv with
  | None => mret tt
  | Some c =>
      if schedule then _ ← siw_cm_queue_work c SIW_CM_WORK_CLOSE_LLP; mret tt else
      siw_cep_set_inuse c;;
      v ← get_cep c;
      (if bool_decide (cep_state v = SIW_EPSTATE_CLOSED) then mret tt else
       (match cep_cm_id v with
        | None => mret tt
        | Some _ =>
            (match cep_state v with
             | SIW_EPSTATE_AWAIT_MPAREP => _ ← siw_cm_upcall c IW_CM_EVENT_CONNECT_REPLY (- EINVAL); mret tt
             | SIW_EPSTATE_RDMA_MODE => _ ← siw_cm_upcall c IW_CM_EVENT_CLOSE 0; mret tt
             | _ => mret tt
             end);;
            _ ← drop_cm_id c; siw_cep_put c
        end);;
       set_state c SIW_EPSTATE_CLOSED;;
       v ← get_cep c;
       (match cep_sock v with None => mret tt | Some _ => release_sock c end);;
       v ← get_cep c;
       (match cep_qp v with
        | None => mret tt
        | Some _ => upd_cep c (fun v => v <| cep_qp := None |>);; siw_qp_put q
        end));;
      siw_cep_set_free c
  end.

(** [siw_qp_rtr_fail]; the result is set in one branch only. *)
Definition siw_qp_rtr_fail (c : nat) : KM (option Z) :=
  siw_cep_set_inuse c;;
  siw_cancel_timer c;;
  v ← get_cep c;
  rv ← (match cep_state v with
        | SIW_EPSTATE_ACCEPTING =>
            _ ← siw_cm_upcall c IW_CM_EVENT_ESTABLISHED (- ECONNABORTED); mret None
        | SIW_EPSTATE_RECVD_MPAREP =>
            _ ← siw_cm_upcall c IW_CM_EVENT_CONNECT_REPLY (- ECONNABORTED); mret None
        | _ => mret (Some (- EINVAL))
        end);
  set_state c SIW_EPSTATE_CLOSED;;
  siw_cep_set_free c;;
  mret rv.

Definition notify_established (q : nat) : KM unit :=
  qv ← get_kqp q;
  c ← nonnull (kq_cep qv);
  file ← kgets k_file;
  match file with
  | None => _ ← siw_qp_rtr_fail c; mret tt
  | Some f =>
      siw_cep_get c;;
      kmodify (fun k => k <| k_file := Some (f <| established_list ::= fun l => l ++ [c] |>) |>)
  end.

Definition assign_flag (attrs b flags : Z) : Z := if has attrs b then set_bits flags b else clear_bits flags b.

Definition init_to_rts_mask : Z :=
  Z.lor SIW_QP_ATTR_LLP_HANDLE (Z.lor SIW_QP_ATTR_ORD SIW_QP_ATTR_IRD).

(** The state changes of [siw_qp_modify]. *)
Definition qp_change_state (q : nat) (attrs : siw_qp_attrs) (mask : Z) : KM Z :=
  v ← get_kqp q;
  match kq_state v, at_state attrs with
  | (SIW_QP_STATE_IDLE | SIW_QP_STATE_RTR), SIW_QP_STATE_RTS =>
      if negb (Z.land mask init_to_rts_mask =? init_to_rts_mask) then mret (- EINVAL) else
      upd_kqp q (fun v => v <| kq_state := SIW_QP_STATE_RTS |>
        <| kq_irq_size := if at_irq_size attrs =? 0 then 1 else at_irq_size attrs |>
        <| kq_orq_size := if at_orq_size attrs =? 0 then 1 else at_orq_size attrs |>);;
      notify_established q;; mret 0
  | (SIW_QP_STATE_IDLE | SIW_QP_STATE_RTR), SIW_QP_STATE_ERROR =>
      set_qp_state q SIW_QP_STATE_ERROR;; drop_qp_cep q;; mret 0
  | (SIW_QP_STATE_IDLE | SIW_QP_STATE_RTR), SIW_QP_STATE_RTR =>
      set_qp_state q SIW_QP_STATE_RTR;; mret 0
  | SIW_QP_STATE_RTS, (SIW_QP_STATE_CLOSING | SIW_QP_STATE_TERMINATE | SIW_QP_STATE_ERROR) =>
      set_qp_state q (at_state attrs);; siw_qp_cm_drop q false;; mret 0
  | SIW_QP_STATE_TERMINATE, SIW_QP_STATE_ERROR => set_qp_state q SIW_QP_STATE_ERROR;; mret 0
  | SIW_QP_STATE_CLOSING, SIW_QP_STATE_IDLE => set_qp_state q SIW_QP_STATE_IDLE;; mret 0
  | SIW_QP_STATE_CLOSING, SIW_QP_STATE_CLOSING => mret 0
  | SIW_QP_STATE_CLOSING, SIW_QP_STATE_ERROR => set_qp_state q SIW_QP_STATE_ERROR;; mret 0
  | SIW_QP_STATE_CLOSING, _ => mret (- ECONNABORTED)
  | _, _ => mret 0
  end.

Definition siw_qp_modify (q : nat) (attrs : siw_qp_attrs) (mask : Z) : KM Z :=
  if mask =? 0 then mret 0 else
  when (negb (mask =? SIW_QP_ATTR_STATE) && has mask SIW_QP_ATTR_ACCESS_FLAGS)
    (upd_kqp q (fun v => v <| kq_flags ::= fun f =>
       assign_flag (at_flags attrs) SIW_RDMA_READ_ENABLED
         (assign_flag (at_flags attrs) SIW_RDMA_WRITE_ENABLED
            (assign_flag (at_flags attrs) SIW_RDMA_BIND_ENABLED f)) |>));;
  if negb (has mask SIW_QP_ATTR_STATE) then mret 0 else qp_change_state q attrs mask.

(** The state [siw_qp_llp_close] leaves a queue pair in. *)
Definition llp_close_state (s : siw_qp_state) : siw_qp_state :=
  match s with
  | SIW_QP_STATE_RTS | SIW_QP_STATE_RTR | SIW_QP_STATE_IDLE | SIW_QP_STATE_TERMINATE => SIW_QP_STATE_ERROR
  | SIW_QP_STATE_CLOSING => SIW_QP_STATE_IDLE
  | s => s
  end.

Definition siw_qp_llp_close (q : nat) : KM unit :=
  upd_kqp q (fun v => v <| kq_state ::= llp_close_state |>);; drop_qp_cep q.

(** ** Requests and replies *)

(** [htons] of a host with the low byte first. *)
Definition htons (x : Z) : Z := le_decode (be_encode 2 x).

Definition siw_proc_trpreq (c : nat) : KM Z :=
  let reject rv :=
    set_trp_hdr c trp_reject;; _ ← siw_send_trpreqrep c [] 0; mret rv in
  rv ← siw_recv_trp_rr c;
  siw_cancel_timer c;;
  if rv =? - EPROTO then reject rv else
  if negb (rv =? 0) then mret rv else
  v ← get_cep c;
  let req := cep_hdr v in
  if negb (trp_opcode (rr_hdr req) =? trp_req) then reject (- EPROTO) else
  upd_cep c (fun v => v <| cep_state := SIW_EPSTATE_RECVD_MPAREQ |>
                        <| cep_ird := rr_ord req |> <| cep_ord := rr_ird req |>);;
  d ← kgets k_dev;
  if (sd_max_ird d <? rr_ord req) || (sd_max_ord d <? rr_ird req) then
    upd_cep c (fun v => v <| cep_ird ::= fun x => htons (Z.min x (sd_max_ird d)) |>
                          <| cep_ord ::= fun x => htons (Z.min x (sd_max_ord d)) |>);;
    reject (- EPROTO)
  else
  siw_cep_get c;;
  rv ← siw_cm_upcall c IW_CM_EVENT_CONNECT_REQUEST 0;
  when (negb (rv =? 0)) (siw_cep_put c);;
  mret rv.

Definition rts_mask : Z :=
  Z.lor (Z.lor SIW_QP_ATTR_STATE SIW_QP_ATTR_LLP_HANDLE) (Z.lor SIW_QP_ATTR_ORD SIW_QP_ATTR_IRD).

Definition siw_proc_trpreply (c : nat) : KM Z :=
  let out_err rv := _ ← siw_cm_upcall c IW_CM_EVENT_CONNECT_REPLY (- EINVAL); mret rv in
  v0 ← get_cep c;
  rv ← siw_recv_trp_rr c;
  siw_cancel_timer c;;
  if negb (rv =? 0) then out_err rv else
  v ← get_cep c;
  let rep := cep_hdr v in
  if negb (trp_opcode (rr_hdr rep) =? trp_accept) then
    _ ← siw_cm_upcall c IW_CM_EVENT_CONNECT_REPLY (- ECONNRESET); mret (- ECONNRESET)
  else
  d ← kgets k_dev;
  if (sd_max_ird d <? rr_ord rep) || (sd_max_ord d <? rr_ird rep) then mret (- ECONNRESET) else
  let attrs := {| at_state := SIW_QP_STATE_RTS; at_flags := 0;
                  at_irq_size := Z.max (rr_ord rep) (cep_ird v);
                  at_orq_size := Z.min (rr_ird rep) (cep_ord v) |} in
  _ ← nonnull (cep_sock v0);
  rv ← kerr;
  if negb (rv =? 0) then out_err rv else
  q ← nonnull (cep_qp v0);
  qv ← get_kqp q;
  if siw_qp_state_val SIW_QP_STATE_RTR <? siw_qp_state_val (kq_state qv) then out_err (- EINVAL) else
  rv ← siw_qp_modify q attrs rts_mask;
  if negb (rv =? 0) then out_err rv else
  set_state c SIW_EPSTATE_RECVD_MPAREP;;
  v ← get_cep c;
  (match cep_timer v with
   | Some _ => mret tt
   | None => _ ← siw_cm_queue_work c SIW_CM_WORK_TIMEOUT; mret tt
   end);;
  mret rv.

Definition siw_accept_newconn (c : nat) : KM unit :=
  let error (n : option nat) (new_s : option nat) :=
    (match n with Some n => siw_cep_put n | None => mret tt end);;
    (match new_s with Some s => siw_socket_disassoc s;; sock_release s | None => mret tt end) in
  v ← get_cep c;
  if negb (bool_decide (cep_state v = SIW_EPSTATE_LISTENING)) then mret tt else
  o ← siw_cep_alloc;
  match o with
  | None => mret tt
  | Some n =>
      rv ← siw_cm_alloc_work n 5;
      if negb (rv =? 0) then error (Some n) None else
      upd_cep n (fun w => w <| cep_laddr := cep_laddr v |>);;
      res ← sock_create;
      match res with
      | (_, None) => error (Some n) None
      | (_, Some new_s) =>
          set_state n SIW_EPSTATE_AWAIT_MPAREQ;;
          rv ← siw_cm_queue_work n SIW_CM_WORK_TIMEOUT;
          if negb (rv =? 0) then error (Some n) (Some new_s) else
          upd_cep n (fun w => w <| cep_listen_cep := Some c |>);;
          siw_cep_get c;;
          upd_cep n (fun w => w <| cep_sock := cep_sock v |>);;
          siw_cep_set_inuse n;;
          rv ← siw_proc_trpreq n;
          siw_cep_set_free n;;
          upd_cep n (fun w => w <| cep_listen_cep := None |>);;
          siw_cep_put c;;
          if negb (rv =? 0) then error (Some n) (Some new_s) else
          v ← get_cep c;
          _ ← udp_bind_local new_s (cep_laddr v <| sin_port := 0 |>);
          upd_cep n (fun w => w <| cep_sock := Some new_s |>);;
          siw_cep_get n;;
          upd_sock new_s (fun w => w <| ks_user := Some n |>);;
          a ← kernel_localname new_s;
          match a with
          | (_, Some a) => upd_cep n (fun w => w <| cep_laddr := a |>)
          | (_, None) => mret tt
          end
      end
  end.

(** ** Work items *)

(** The work of [SIW_CM_WORK_PEER_CLOSE]. *)
Definition work_peer_close (c : nat) : KM unit :=
  v ← get_cep c;
  match cep_cm_id v with
  | Some _ =>
      match cep_state v with
      | SIW_EPSTATE_AWAIT_MPAREP => _ ← siw_cm_upcall c IW_CM_EVENT_CONNECT_REPLY (- ECONNRESET); mret tt
      | SIW_EPSTATE_RDMA_MODE =>
          _ ← siw_cm_upcall c IW_CM_EVENT_DISCONNECT 0; _ ← siw_cm_upcall c IW_CM_EVENT_CLOSE 0; mret tt
      | _ => mret tt
      end
  | None =>
      match cep_state v with
      | SIW_EPSTATE_AWAIT_MPAREQ =>
          l ← nonnull (cep_listen_cep v);
          siw_cep_put l;; upd_cep c (fun v => v <| cep_listen_cep := None |>)
      | _ => mret tt
      end
  end.

(** The work of [SIW_CM_WORK_TIMEOUT]. *)
Definition work_timeout (c : nat) : KM unit :=
  upd_cep c (fun v => v <| cep_timer := None |>);;
  v ← get_cep c;
  match cep_state v with
  | SIW_EPSTATE_AWAIT_MPAREP =>
      set_hdr c (fun r => r <| rr_pd_len := 0 |>);;
      match cep_cm_id v with
      | Some _ => _ ← siw_cm_upcall c IW_CM_EVENT_CONNECT_REPLY (- ETIMEDOUT); mret tt
      | None => mret tt
      end
  | SIW_EPSTATE_AWAIT_MPAREQ =>
      l ← nonnull (cep_listen_cep v);
      siw_cep_put l;; upd_cep c (fun v => v <| cep_listen_cep := None |>)
  | SIW_EPSTATE_RECVD_MPAREP => _ ← siw_cm_upcall c IW_CM_EVENT_CONNECT_REPLY (- ETIMEDOUT); mret tt
  | SIW_EPSTATE_ACCEPTING => _ ← siw_cm_upcall c IW_CM_EVENT_ESTABLISHED (- ETIMEDOUT); mret tt
  | _ => mret tt
  end.

(** The work of an item, and whether the endpoint is to be released. *)
Definition do_work (c : nat) (type : siw_work_type) : KM bool :=
  match type with
  | SIW_CM_WORK_ACCEPT => siw_accept_newconn c;; mret false
  | SIW_CM_WORK_READ_MPAHDR =>
      v ← get_cep c;
      rv ← (match cep_state v with SIW_EPSTATE_AWAIT_MPAREP => siw_proc_trpreply c | _ => mret 0 end);
      mret (negb (rv =? 0) && negb (rv =? EAGAIN))
  | SIW_CM_WORK_CLOSE_LLP =>
      v ← get_cep c;
      (match cep_cm_id v with
       | Some _ => _ ← siw_cm_upcall c IW_CM_EVENT_CLOSE 0; mret tt
       | None => mret tt
       end);;
      mret true
  | SIW_CM_WORK_PEER_CLOSE => work_peer_close c;; mret true
  | SIW_CM_WORK_TIMEOUT => work_timeout c;; mret true
  end.

(** The part of [siw_cm_work_handler] under [if (cep->qp)]. *)
Definition release_qp (c q : nat) : KM unit :=
  siw_qp_get q;;
  siw_cep_set_free c;;
  siw_qp_llp_close q;;
  siw_qp_put q;;
  siw_cep_set_inuse c;;
  upd_cep c (fun v => v <| cep_qp := None |>);;
  siw_qp_put q.

(** The part of [siw_cm_work_handler] under [if (release_cep)]. *)
Definition release_cep (c : nat) : KM unit :=
  siw_cancel_timer c;;
  set_state c SIW_EPSTATE_CLOSED;;
  v ← get_cep c;
  (match cep_qp v with
   | None => mret tt
   | Some q => release_qp c q
   end);;
  v ← get_cep c;
  (match cep_sock v with None => mret tt | Some _ => release_sock c end);;
  b ← drop_cm_id c;
  when b (siw_cep_put c).

Definition siw_cm_work_handler (w : siw_cm_work) : KM unit :=
  let c := wk_cep w in
  siw_cep_set_inuse c;;
  release ← do_work c (wk_type w);
  when release (release_cep c);;
  siw_cep_set_free c;;
  siw_put_work c;;
  siw_cep_put c.

(** The work queue runs the [n]th item. *)
Definition run_work (n : nat) : KM unit :=
  works ← kgets k_works;
  match works !! n with
  | None => mret tt
  | Some w =>
      kmodify (fun k => k <| k_works := take n works ++ drop (S n) works |>);;
      siw_cm_work_handler w
  end.

Definition siw_cm_llp_data_ready (s : nat) : KM unit :=
  sv ← get_sock s;
  match ks_user sv with
  | None => mret tt
  | Some c =>
      v ← get_cep c;
      match cep_state v with
      | SIW_EPSTATE_LISTENING => _ ← siw_cm_queue_work c SIW_CM_WORK_ACCEPT; mret tt
      | SIW_EPSTATE_AWAIT_MPAREQ | SIW_EPSTATE_AWAIT_MPAREP =>
          _ ← siw_cm_queue_work c SIW_CM_WORK_READ_MPAHDR; mret tt
      | _ => mret tt
      end
  end.

(** A datagram arrives at a socket. *)
Definition deliver (s : nat) (from : sockaddr_in) (data : bytes) : KM unit :=
  upd_sock s (fun v => v <| ks_inbox ::= fun l => l ++ [(from, data)] |>);;
  v ← get_sock s;
  when (ks_upcalls v) (siw_cm_llp_data_ready s).

(** ** The calls of the kernel's connection manager *)

(** The label [error] of [siw_connect], once there is an endpoint. *)
Definition connect_error (i q c s : nat) (rv : Z) : KM Z :=
  siw_socket_disassoc s;; sock_release s;;
  upd_cep c (fun v => v <| cep_sock := None |>);;
  upd_cep c (fun v => v <| cep_qp := None |>);;
  upd_cep c (fun v => v <| cep_cm_id := None |>);;
  id_rem_ref i;;
  siw_cep_put c;;
  upd_kqp q (fun v => v <| kq_cep := None |>);;
  siw_cep_put c;;
  set_state c SIW_EPSTATE_CLOSED;;
  siw_cep_set_free c;;
  siw_cep_put c;;
  siw_qp_put q;;
  mret rv.

(** [siw_connect] from the allocation of the endpoint on. *)
Definition connect_cep (i q c s : nat) (raddr : sockaddr_in) (params : iw_cm_conn_param) : KM Z :=
  siw_cep_set_inuse c;;
  siw_cep_get c;;
  upd_kqp q (fun v => v <| kq_cep := Some c |>);;
  upd_cep c (fun v => v <| cep_qp := Some q |>);;
  id_add_ref i;;
  upd_cep c (fun v => v <| cep_cm_id := Some i |>);;
  rv ← siw_cm_alloc_work c 5;
  if negb (rv =? 0) then connect_error i q c s (- ENOMEM) else
  upd_cep c (fun v => v <| cep_ird := u16 (cp_ird params) |> <| cep_ord := u16 (cp_ord params) |>
                        <| cep_state := SIW_EPSTATE_CONNECTING |>);;
  a ← kernel_localname s;
  match a with
  | (rv, None) => connect_error i q c s rv
  | (_, Some laddr) =>
      upd_cep c (fun v => v <| cep_laddr := laddr |> <| cep_raddr := raddr |>);;
      siw_cep_socket_assoc c s;;
      set_state c SIW_EPSTATE_AWAIT_MPAREP;;
      set_trp_hdr c trp_req;;
      upd_cep c (fun v => v <| cep_hdr ::= fun r => r <| rr_ird := cep_ird v |> <| rr_ord := cep_ord v |> |>);;
      rv ← siw_send_trpreqrep c (cp_private_data params) (len (cp_private_data params));
      set_hdr c (fun r => r <| rr_pd_len := 0 |>);;
      if negb (0 <=? rv) then connect_error i q c s rv else
      rv ← siw_cm_queue_work c SIW_CM_WORK_TIMEOUT;
      if negb (rv =? 0) then connect_error i q c s rv else
      siw_cep_set_free c;; mret 0
  end.

Definition siw_connect (i : nat) (params : iw_cm_conn_param) : KM Z :=
  iv ← get_id i;
  d ← kgets k_dev;
  if negb (sd_netdev d) then mret (- ENODEV) else
  if URDMA_PDATA_LEN_MAX <? len (cp_private_data params) then mret (- EINVAL) else
  o ← siw_qp_id2obj (cp_qpn params);
  match o with
  | None => mret (- EINVAL)
  | Some q =>
      res ← sock_create;
      match res with
      | (rv, None) => siw_qp_put q;; mret rv
      | (_, Some s) =>
          rv ← udp_bind_local s (id_local iv);
          if negb (rv =? 0) then sock_release s;; siw_qp_put q;; mret rv else
          o ← siw_cep_alloc;
          match o with
          | None => sock_release s;; siw_qp_put q;; mret (- ENOMEM)
          | Some c => connect_cep i q c s (id_remote iv) params
          end
      end
  end.

(** The label [accept_error] of [siw_qp_rtr]. *)
Definition rtr_accept_error (c : nat) : KM unit :=
  release_sock c;;
  set_state c SIW_EPSTATE_CLOSED;;
  _ ← drop_cm_id c;
  siw_cep_put c;;
  v ← get_cep c;
  q ← nonnull (cep_qp v);
  upd_kqp q (fun v => v <| kq_cep := None |>);;
  siw_qp_put q;;
  upd_cep c (fun v => v <| cep_qp := None |>);;
  siw_cep_set_free c;;
  siw_cep_put c.

Definition siw_qp_rtr (c : nat) : KM Z :=
  siw_cep_set_inuse c;;
  siw_cancel_timer c;;
  v ← get_cep c;
  rv ← (match cep_state v with
        | SIW_EPSTATE_ACCEPTING =>
            q ← nonnull (cep_qp v);
            qv ← get_kqp q;
            set_trp_hdr c trp_accept;;
            set_hdr c (fun r => r <| rr_ird := kq_irq_size qv |> <| rr_ord := kq_orq_size qv |>);;
            rv ← siw_send_trpreqrep c (cep_send_pdata v) (len (cep_send_pdata v));
            if negb (rv =? 0) then siw_cep_set_free c;; mret rv else
            rv ← siw_cm_upcall c IW_CM_EVENT_ESTABLISHED 0;
            if negb (rv =? 0) then rtr_accept_error c;; mret rv else
            set_state c SIW_EPSTATE_RDMA_MODE;; siw_cep_set_free c;; mret rv
        | SIW_EPSTATE_RECVD_MPAREP =>
            rv ← siw_cm_upcall c IW_CM_EVENT_CONNECT_REPLY 0;
            when (rv =? 0) (set_state c SIW_EPSTATE_RDMA_MODE);; siw_cep_set_free c;; mret rv
        | _ => siw_cep_set_free c;; mret (- EINVAL)
        end);
  siw_cep_put c;;
  mret rv.

(** The label [error] of [siw_accept]; [qp] is NULL when it was not found. *)
Definition accept_error (i c : nat) (o : option nat) (rv : Z) : KM Z :=
  release_sock c;;
  set_state c SIW_EPSTATE_CLOSED;;
  v ← get_cep c;
  (match cep_cm_id v with
   | Some _ => id_rem_ref i;; upd_cep c (fun v => v <| cep_cm_id := None |>)
   | None => mret tt
   end);;
  q ← nonnull o;
  qv ← get_kqp q;
  (match kq_cep qv with
   | Some _ => siw_cep_put c;; upd_kqp q (fun v => v <| kq_cep := None |>)
   | None => mret tt
   end);;
  upd_cep c (fun v => v <| cep_qp := None |>);;
  siw_qp_put q;;
  siw_cep_set_free c;;
  siw_cep_put c;;
  mret rv.

(** [siw_accept] from the association of the queue pair on. *)
Definition accept_qp (i c q : nat) (s : option nat) (params : iw_cm_conn_param) : KM Z :=
  upd_cep c (fun v => v <| cep_cm_id := Some i |>);;
  id_add_ref i;;
  let attrs := {| at_state := SIW_QP_STATE_RTS; at_flags := 0;
                  at_orq_size := u16 (cp_ord params); at_irq_size := u16 (cp_ird params) |} in
  siw_cep_get c;;
  upd_kqp q (fun v => v <| kq_cep := Some c |>);;
  upd_cep c (fun v => v <| cep_qp := Some q |>);;
  set_state c SIW_EPSTATE_RDMA_MODE;;
  _ ← nonnull s;
  rv ← kerr;
  if negb (rv =? 0) then accept_error i c (Some q) rv else
  rv ← siw_qp_modify q attrs rts_mask;
  if negb (rv =? 0) then accept_error i c (Some q) rv else
  rv ← kerr;
  if rv <? 0 then accept_error i c (Some q) (- ENOMEM) else
  upd_cep c (fun v => v <| cep_send_pdata := cp_private_data params |>
                        <| cep_state := SIW_EPSTATE_ACCEPTING |>);;
  v ← get_cep c;
  (match cep_timer v with
   | Some _ => mret tt
   | None => _ ← siw_cm_queue_work c SIW_CM_WORK_TIMEOUT; mret tt
   end);;
  siw_cep_set_free c;;
  mret 0.

(** The endpoint that [provider_data] of an id points to. *)
Definition id_cep (i : nat) : KM nat :=
  iv ← get_id i;
  match id_provider iv with
  | PCep c => mret c
  | PNone => kfail NullDeref
  | PListen _ => kfail BadPointer
  end.

Definition siw_accept (i : nat) (params : iw_cm_conn_param) : KM Z :=
  c ← id_cep i;
  v ← get_cep c;
  let s := cep_sock v in
  siw_cep_set_inuse c;;
  siw_cep_put c;;
  set_hdr c (fun r => r <| rr_pd_len := 0 |>);;
  v ← get_cep c;
  if bool_decide (cep_state v = SIW_EPSTATE_CLOSED) then
    siw_cep_set_free c;; siw_cep_put c;; mret (- ECONNRESET)
  else
  o ← siw_qp_id2obj (cp_qpn params);
  match o with
  | None => accept_error i c None (- EINVAL)
  | Some q =>
      qv ← get_kqp q;
      if siw_qp_state_val SIW_QP_STATE_RTR <? siw_qp_state_val (kq_state qv)
      then accept_error i c o (- EINVAL) else
      d ← kgets k_dev;
      if (cep_ord v <? cp_ord params) || (sd_max_ird d <? cp_ird params)
      then accept_error i c o (- EINVAL) else
      if URDMA_PDATA_LEN_MAX <? len (cp_private_data params)
      then accept_error i c o (- EINVAL) else
      accept_qp i c q s params
  end.

Definition siw_reject (i : nat) (pdata : bytes) : KM Z :=
  c ← id_cep i;
  siw_cep_set_inuse c;;
  siw_cep_put c;;
  v ← get_cep c;
  if bool_decide (cep_state v = SIW_EPSTATE_CLOSED) then
    siw_cep_set_free c;; siw_cep_put c;; mret (- ECONNRESET)
  else
  set_trp_hdr c trp_reject;;
  _ ← siw_send_trpreqrep c pdata (len pdata);
  release_sock c;;
  set_state c SIW_EPSTATE_CLOSED;;
  siw_cep_set_free c;;
  siw_cep_put c;;
  mret 0.

(** ** Listeners *)

(** The label [error] of [siw_listen_address], once there is an endpoint. *)
Definition listen_error (c s : nat) (rv : Z) : KM Z :=
  siw_cep_set_inuse c;;
  _ ← drop_cm_id c;
  upd_cep c (fun v => v <| cep_sock := None |>);;
  siw_socket_disassoc s;;
  set_state c SIW_EPSTATE_CLOSED;;
  siw_cep_set_free c;;
  siw_cep_put c;;
  sock_release s;;
  mret rv.

Definition siw_listen_address (i backlog : nat) (laddr : sockaddr_in) : KM Z :=
  d ← kgets k_dev;
  if negb (sd_netdev d) then mret (- ENODEV) else
  res ← sock_create;
  match res with
  | (rv, None) => mret rv
  | (_, Some s) =>
      rv ← kerr;
      if negb (rv =? 0) then sock_release s;; mret rv else
      rv ← udp_bind_local s laddr;
      if negb (rv =? 0) then sock_release s;; mret rv else
      o ← siw_cep_alloc;
      match o with
      | None => sock_release s;; mret (- ENOMEM)
      | Some c =>
          siw_cep_socket_assoc c s;;
          rv ← siw_cm_alloc_work c backlog;
          if negb (rv =? 0) then listen_error c s rv else
          iv ← get_id i;
          upd_cep c (fun v => v <| cep_laddr := laddr |> <| cep_raddr := id_remote iv |>
                                <| cep_cm_id := Some i |>);;
          id_add_ref i;;
          let add l :=
            upd_id i (fun v => v <| id_provider := PListen (l ++ [c]) |>);;
            set_state c SIW_EPSTATE_LISTENING;; mret 0 in
          match id_provider iv with
          | PNone =>
              rv ← kerr;
              if rv <? 0 then listen_error c s (- ENOMEM) else add []
          | PListen l => add l
          | PCep _ => kfail BadPointer
          end
      end
  end.

(** One round of the loop of [siw_drop_listeners]. *)
Definition drop_listener (c : nat) : KM unit :=
  siw_cep_set_inuse c;;
  _ ← drop_cm_id c;
  v ← get_cep c;
  (match cep_sock v with None => mret tt | Some _ => release_sock c end);;
  set_state c SIW_EPSTATE_CLOSED;;
  siw_cep_set_free c;;
  siw_cep_put c.

Fixpoint drop_listeners (i : nat) (l : list nat) : KM unit :=
  match l with
  | [] => mret tt
  | c :: l =>
      upd_id i (fun v => v <| id_provider := PListen l |>);; drop_listener c;; drop_listeners i l
  end.

Definition siw_drop_listeners (i : nat) : KM unit :=
  iv ← get_id i;
  match id_provider iv with
  | PListen l => drop_listeners i l
  | PNone => kfail NullDeref
  | PCep _ => kfail BadPointer
  end.

(** [ipv4_is_zeronet] *)
Definition ipv4_is_zeronet (a : Z) : bool := Z.land a 0xff000000 =? 0.

(** The loop of [siw_create_listen] over the addresses of the device. *)
Fixpoint listen_addresses (i backlog : nat) (laddr : sockaddr_in) (l : list Z) : KM Z :=
  match l with
  | [] => mret 0
  | a :: l =>
      if ipv4_is_zeronet (sin_addr laddr) || (sin_addr laddr =? a) then
        rv ← siw_listen_address i backlog (laddr <| sin_addr := a |>);
        if negb (rv =? 0) then mret rv else listen_addresses i backlog laddr l
      else listen_addresses i backlog laddr l
  end.

Definition siw_create_listen (i backlog : nat) : KM Z :=
  d ← kgets k_dev;
  if negb (sd_netdev d) then mret (- ENODEV) else
  iv ← get_id i;
  if negb (id_inet iv) then mret (- EAFNOSUPPORT) else
  match sd_in_dev d with
  | None => mret (- ENODEV)
  | Some l =>
      rv ← listen_addresses i backlog (id_local iv) l;
      iv ← get_id i;
      when (negb (rv =? 0)) (match id_provider iv with PNone => mret tt | _ => siw_drop_listeners i end);;
      mret rv
  end.

Definition siw_destroy_listen (i : nat) : KM Z :=
  iv ← get_id i;
  match id_provider iv with
  | PNone => mret 0
  | _ => siw_drop_listeners i;; upd_id i (fun v => v <| id_provider := PNone |>);; mret 0
  end.
