(* ===== verification/Kverbs.v ===== *)
(** * Verbs and character device of the kernel module (src/kmod/verbs.c, src/kmod/main.c)

    The queue pairs, completion queues and protection domains of the module
    only count references; a queue pair also has the connection state.  The
    daemon reads established connections from a character device and writes
    back the queue pairs that are ready. *)
From S2P Require Import Prelude Proto Kern Cm.

Definition ENODATA : Z := 61.
Definition SIW_MAX_CQ : Z := 1024 * 100.
Definition SIW_MAX_PD : Z := SIW_MAX_QP.

(** ** Protection domains and completion queues *)

Definition count (f : siw_dev -> siw_dev) : KM unit := kmodify (fun k => k <| k_dev ::= f |>).

(** [siw_add_obj]: the number of a new object, or the error. *)
Definition siw_add_obj : KM (Z * option nat) :=
  rv ← kerr;
  if rv <? 0 then mret (rv, None) else n ← fresh; mret (0, Some n).

Definition siw_alloc_pd (context : bool) : KM (Z + nat) :=
  let err_out rv := count (update num_pd (fun n => n - 1));; mret (inl rv) in
  count (update num_pd (fun n => n + 1));;
  d ← kgets k_dev;
  if SIW_MAX_PD <? num_pd d then err_out (- ENOMEM) else
  m ← kerr;
  if m <? 0 then err_out (- ENOMEM) else
  o ← siw_add_obj;
  match o with
  | (_, None) => err_out (- ENOMEM)
  | (_, Some p) =>
      cp ← (if context then kerr else mret 0);
      if negb (cp =? 0) then err_out (- EFAULT) else
      kmodify (fun k => k <| k_pds ::= <[p := 1]> |>);; mret (inr p)
  end.

Definition siw_dealloc_pd (p : nat) : KM Z := siw_pd_put p;; mret 0.

Definition do_siw_create_cq (cqe : Z) (context : bool) : KM (Z + nat) :=
  let err_out rv := count (update num_cq (fun n => n - 1));; mret (inl rv) in
  count (update num_cq (fun n => n + 1));;
  d ← kgets k_dev;
  if SIW_MAX_CQ <? num_cq d then err_out (- ENOMEM) else
  if cqe <? 1 then err_out (- EINVAL) else
  m ← kerr;
  if m <? 0 then err_out (- ENOMEM) else
  if negb context then err_out (- EINVAL) else
  o ← siw_add_obj;
  match o with
  | (rv, None) => err_out rv
  | (_, Some c) =>
      rv ← kerr;
      if negb (rv =? 0) then err_out rv else
      kmodify (fun k => k <| k_cqs ::= <[c := 1]> |> <| k_cq_idr ::= union {[c]} |>);; mret (inr c)
  end.

Definition siw_destroy_cq (c : nat) : KM Z :=
  kmodify (fun k => k <| k_cq_idr ::= fun s => s ∖ {[c]} |>);; siw_cq_put c;; mret 0.

(** ** Queue pairs *)

(** [struct urdma_udata_create_qp] (include/urdma_kabi.h) *)
Record urdma_udata_create_qp := UdataQp {
  ureq_ord_max : Z; ureq_ird_max : Z; ureq_dev_id : Z; ureq_qp_id : Z; ureq_rxq : Z; ureq_txq : Z
}.

(** The fields of [struct ib_qp_init_attr] that [siw_create_qp] reads. *)
Record ib_qp_init_attr := QpInit { qi_rc : bool; qi_srq : bool; qi_send_cq : nat; qi_recv_cq : nat }.

Definition put_cq_opt (o : option nat) : KM unit := match o with Some c => siw_cq_put c | None => mret tt end.

Definition siw_create_qp (user : bool) (pd : nat) (attrs : ib_qp_init_attr)
    (udata : option urdma_udata_create_qp) : KM (Z + nat) :=
  let err_out scq rcq rv :=
    put_cq_opt scq;; put_cq_opt rcq;; count (update num_qp (fun n => n - 1));; mret (inl rv) in
  if negb user then mret (inl (- EINVAL)) else
  count (update num_qp (fun n => n + 1));;
  d ← kgets k_dev;
  if SIW_MAX_QP <? num_qp d then err_out None None (- ENOMEM) else
  if negb (qi_rc attrs) then err_out None None (- EINVAL) else
  if qi_srq attrs then err_out None None (- EINVAL) else
  scq ← siw_cq_id2obj (qi_send_cq attrs);
  rcq ← siw_cq_id2obj (qi_recv_cq attrs);
  match scq, rcq with
  | Some _, Some _ =>
      m ← kerr;
      if m <? 0 then err_out scq rcq (- ENOMEM) else
      o ← siw_add_obj;
      match o with
      | (rv, None) => err_out scq rcq rv
      | (_, Some q) =>
          let qp := {| kq_ref := 1; kq_cep := None; kq_state := SIW_QP_STATE_IDLE; kq_flags := 0;
            kq_orq_size := 0; kq_irq_size := 0; kq_urdma_devid := 0; kq_urdma_qp_id := 0;
            kq_urdma_rxq := 0; kq_urdma_txq := 0; kq_scq := scq; kq_rcq := rcq; kq_pd := pd |} in
          let done qp := kmodify (fun k => k <| k_qps ::= <[q := qp]> |>);; siw_pd_get pd;; mret (inr q) in
          match udata with
          | None => done qp
          | Some u =>
              rv ← kerr;
              if negb (rv =? 0) then err_out scq rcq rv else
              rv ← kerr;
              if negb (rv =? 0) then err_out scq rcq rv else
              done (qp <| kq_irq_size := u16 (ureq_ird_max u) |> <| kq_orq_size := u16 (ureq_ord_max u) |>
                       <| kq_urdma_devid := ureq_dev_id u |> <| kq_urdma_qp_id := ureq_qp_id u |>
                       <| kq_urdma_rxq := ureq_rxq u |> <| kq_urdma_txq := ureq_txq u |>)
          end
      end
  | _, _ => err_out scq rcq (- EINVAL)
  end.

Definition ib_qp_state_to_siw_qp_state : list siw_qp_state :=
  [SIW_QP_STATE_IDLE; SIW_QP_STATE_IDLE; SIW_QP_STATE_RTR; SIW_QP_STATE_RTS;
   SIW_QP_STATE_CLOSING; SIW_QP_STATE_TERMINATE; SIW_QP_STATE_ERROR].

Definition IB_QP_STATE : Z := 1.
Definition IB_QP_ACCESS_FLAGS : Z := 8.
Definition IB_ACCESS_REMOTE_WRITE : Z := 2.
Definition IB_ACCESS_REMOTE_READ : Z := 4.
Definition IB_ACCESS_MW_BIND : Z := 16.

(** The flags of the new attributes in [siw_ofed_modify_qp]. *)
Definition siw_access_flags (access : Z) : Z :=
  Z.lor (if has access IB_ACCESS_REMOTE_READ then SIW_RDMA_READ_ENABLED else 0)
    (Z.lor (if has access IB_ACCESS_REMOTE_WRITE then SIW_RDMA_WRITE_ENABLED else 0)
       (if has access IB_ACCESS_MW_BIND then SIW_RDMA_BIND_ENABLED else 0)).

Definition siw_ofed_modify_qp (q : nat) (access : Z) (qp_state : nat) (attr_mask : Z) : KM Z :=
  let acc := has attr_mask IB_QP_ACCESS_FLAGS in
  let flags := if acc then siw_access_flags access else 0 in
  let mask := if acc then SIW_QP_ATTR_ACCESS_FLAGS else 0 in
  if has attr_mask IB_QP_STATE then
    match ib_qp_state_to_siw_qp_state !! qp_state with
    | None => kfail OutOfBounds
    | Some st =>
        if bool_decide (st = SIW_QP_STATE_UNDEF) then mret (- EINVAL) else
        siw_qp_modify q {| at_state := st; at_flags := flags; at_orq_size := 0; at_irq_size := 0 |}
          (Z.lor mask SIW_QP_ATTR_STATE)
    end
  else
    siw_qp_modify q {| at_state := SIW_QP_STATE_IDLE; at_flags := flags; at_orq_size := 0; at_irq_size := 0 |}
      mask.

Definition siw_destroy_qp (q : nat) : KM Z :=
  upd_kqp q (fun v => v <| kq_flags ::= fun f => set_bits f SIW_QP_IN_DESTROY |>);;
  _ ← siw_qp_modify q {| at_state := SIW_QP_STATE_ERROR; at_flags := 0; at_orq_size := 0; at_irq_size := 0 |}
        SIW_QP_ATTR_STATE;
  drop_qp_cep q;;
  v ← get_kqp q;
  scq ← nonnull (kq_scq v);
  siw_cq_put scq;;
  rcq ← nonnull (kq_rcq v);
  siw_cq_put rcq;;
  siw_pd_put (kq_pd v);;
  upd_kqp q (fun v => v <| kq_scq := None |> <| kq_rcq := None |>);;
  siw_qp_put q;;
  mret 0.

(** [siw_get_ofaqp] *)
Definition siw_get_ofaqp (q : nat) : KM (option nat) :=
  o ← siw_qp_id2obj q;
  match o with
  | None => mret None
  | Some q => siw_qp_put q;; mret (Some q)
  end.

(** ** The event file of a user context *)

Definition SIW_EVENT_COMP_POSTED : Z := 0.
Definition SIW_EVENT_QP_CONNECTED : Z := 1.
Definition SIW_EVENT_QP_RTR : Z := 2.
Definition sizeof_event_storage : nat := 40.
Definition sizeof_cq_event : nat := 8.
Definition sizeof_rtr_event : nat := 8.

(** A field of 4 bytes of an event. *)
Definition event_u32 (buf : bytes) (off : nat) : Z := le_decode (sub off 4 buf).

(** [copy_from_user(&event, buf, count)] into the storage [stk] on the stack. *)
Definition copy_event (stk buf : bytes) : bytes := splice 0 buf stk.

(** [siw_event_file_write]: the result, and the completion queue whose handler
    is called.  [ctx] says whether the context of the file is alive. *)
Definition siw_event_file_write (ctx : bool) (stk buf : bytes) : KM (Z * option nat) :=
  if (sizeof_event_storage <? length buf)%nat then mret (- EINVAL, None) else
  r ← kerr;
  if r <? 0 then mret (- EFAULT, None) else
  let event := copy_event stk buf in
  if negb ctx then mret (- EINVAL, None) else
  if event_u32 event 0 =? SIW_EVENT_COMP_POSTED then
    if negb (length buf =? sizeof_cq_event)%nat then mret (- EINVAL, None) else
    o ← siw_cq_id2obj (Z.to_nat (event_u32 event 4));
    match o with
    | None => mret (- EINVAL, None)
    | Some c => siw_cq_put c;; mret (len buf, Some c)
    end
  else mret (- EINVAL, None).

(** ** The character device (src/kmod/main.c) *)

(** [struct urdma_qp_connected_event] *)
Record urdma_qp_connected_event := ConnectedEvent {
  ce_kmod_qp_id : nat; ce_dev_id : Z; ce_qp_id : Z; ce_src : sockaddr_in; ce_dst : sockaddr_in;
  ce_dst_ether : bytes; ce_ord_max : Z; ce_ird_max : Z; ce_rxq : Z; ce_txq : Z
}.
Definition sizeof_connected_event : nat := 40.

(** [fetch_dest_hwaddr]: its result, the address, and the references to the
    neighbour entry it still holds.  The arguments are the result of the
    routing lookup, and the entry with whether it is valid. *)
Definition fetch_dest_hwaddr (route : Z) (n : option (bool * bytes)) : Z * bytes * Z :=
  if route <? 0 then (route, replicate 6 0, 0) else
  match n with
  | None => (- ENODATA, replicate 6 0, 0)
  | Some (false, _) => (- ENODATA, replicate 6 0, 1)
  | Some (true, ha) => (0, take 6 ha, 0)
  end.

Definition urdma_chardev_poll : KM (Z + bool) :=
  file ← kgets k_file; f ← nonnull file;
  if negb (cd_dev f) then mret (inl (- EINVAL)) else
  mret (inr (negb (bool_decide (established_list f = [])))).

Definition do_read_established_event (f : urdma_chardev_data) (c : nat) (cnt : nat)
    (route : Z) (n : option (bool * bytes)) : KM (Z * option urdma_qp_connected_event) :=
  if (cnt <? sizeof_connected_event)%nat then mret (- EINVAL, None) else
  v ← get_cep c;
  q ← nonnull (cep_qp v);
  qv ← get_kqp q;
  let '(rv, ether, _) := fetch_dest_hwaddr route n in
  let event := {| ce_kmod_qp_id := q; ce_dev_id := kq_urdma_devid qv; ce_qp_id := kq_urdma_qp_id qv;
    ce_src := cep_laddr v; ce_dst := cep_raddr v; ce_dst_ether := ether;
    ce_ord_max := u8 (kq_orq_size qv); ce_ird_max := u8 (kq_irq_size qv);
    ce_rxq := kq_urdma_rxq qv; ce_txq := kq_urdma_txq qv |} in
  kmodify (fun k => k <| k_file := Some (f <| established_list ::= tail |>
                                            <| rtr_wait_list ::= fun l => l ++ [c] |>) |>);;
  cp ← kerr;
  if cp <? 0 then mret (- EFAULT, None) else
  mret (if 0 <=? rv then Z.of_nat sizeof_connected_event else rv, Some event).

(** [urdma_chardev_read].  A wait that is not interrupted ends when another
    call adds a connection, which is not part of this one. *)
Definition urdma_chardev_read (nonblock : bool) (cnt : nat) (route : Z) (n : option (bool * bytes)) :
    KM (Z * option urdma_qp_connected_event) :=
  file ← kgets k_file; f ← nonnull file;
  if negb (cd_dev f) then mret (- EINVAL, None) else
  match established_list f with
  | [] =>
      if nonblock then mret (- EAGAIN, None) else
      rv ← kerr;
      if rv <? 0 then mret (rv, None) else kfail Deadlock
  | c :: _ => do_read_established_event f c cnt route n
  end.

(** [list_del] of the entry of an endpoint. *)
Fixpoint list_del_cep (c : nat) (l : list nat) : list nat :=
  match l with [] => [] | x :: l => if (x =? c)%nat then l else x :: list_del_cep c l end.

(** The loop of [urdma_chardev_write]: the queue pair with number [id]. *)
Fixpoint find_rtr (l : list nat) (id : nat) : KM (option nat) :=
  match l with
  | [] => mret None
  | c :: l =>
      v ← get_cep c;
      q ← nonnull (cep_qp v);
      _ ← get_kqp q;
      if (q =? id)%nat then mret (Some q) else find_rtr l id
  end.

Definition urdma_chardev_write (stk buf : bytes) : KM Z :=
  if (sizeof_event_storage <? length buf)%nat then mret (- EINVAL) else
  r ← kerr;
  if r <? 0 then mret (- EFAULT) else
  let event := copy_event stk buf in
  file ← kgets k_file; f ← nonnull file;
  if negb (cd_dev f) then mret (- EINVAL) else
  if event_u32 event 0 =? SIW_EVENT_QP_RTR then
    if negb (length buf =? sizeof_rtr_event)%nat then mret (- EINVAL) else
    o ← find_rtr (rtr_wait_list f) (Z.to_nat (event_u32 event 4));
    match o with
    | None => mret (- EINVAL)
    | Some q =>
        siw_qp_get q;;
        qv ← get_kqp q;
        c ← nonnull (kq_cep qv);
        kmodify (fun k => k <| k_file := Some (f <| rtr_wait_list ::= list_del_cep c |>) |>);;
        rv ← siw_qp_rtr c;
        siw_qp_put q;;
        mret (if rv <? 0 then rv else len buf)
    end
  else mret (- EINVAL).

(** The loops of [urdma_chardev_release]. *)
Fixpoint put_ceps (l : list nat) : KM unit :=
  match l with [] => mret tt | c :: l => siw_cep_put c;; put_ceps l end.

Definition urdma_chardev_release : KM Z :=
  file ← kgets k_file; f ← nonnull file;
  put_ceps (rtr_wait_list f);;
  put_ceps (established_list f);;
  kmodify (fun k => k <| k_file := Some (f <| established_list := [] |> <| rtr_wait_list := [] |>) |>);;
  mret 0.
