(* ===== verification/Kref.v ===== *)
(** * Reference counting of the kernel module

    The endpoints and queue pairs of the kernel module are freed when their
    last reference is dropped.  [kinv] states that every reference count is
    the number of places that refer to the object: sockets, queue pairs, work
    items, the lists of the character device, and the references that the
    state of an endpoint stands for.  Inside a call some endpoints are open:
    [X] gives the references that the call itself holds on them.  The rules
    of this file say how each operation moves references between those
    places. *)
From S2P Require Import Prelude Proto Kern Cm Kverbs.

(** ** Counting references *)

Section refs.
Context {A : Type} (f : A -> option nat).

Definition ind (o : option nat) (c : nat) : Z := if decide (o = Some c) then 1 else 0.

(** The number of objects of [m] that refer to [c]. *)
Definition nrefs (m : gmap nat A) (c : nat) : Z := Z.of_nat (size (filter (fun p => f p.2 = Some c) m)).

Lemma nrefs_nonneg m c : 0 <= nrefs m c.
Proof. unfold nrefs. lia. Qed.

Lemma nrefs_fresh m i v c : m !! i = None -> nrefs (<[i := v]> m) c = nrefs m c + ind (f v) c.
Proof.
  intros Hi. unfold nrefs, ind. case_decide as Hf.
  - rewrite map_filter_insert_True by done. rewrite map_size_insert_None; [lia|].
    apply map_lookup_filter_None. by left.
  - rewrite map_filter_insert_False by done. rewrite delete_id; [lia|done].
Qed.

Lemma nrefs_delete m i v c : m !! i = Some v -> nrefs (delete i m) c + ind (f v) c = nrefs m c.
Proof.
  intros Hi. rewrite <- (insert_delete_id m i v Hi) at 2.
  rewrite nrefs_fresh; [done|apply lookup_delete_eq].
Qed.

Lemma nrefs_insert m i v w c :
  m !! i = Some v -> nrefs (<[i := w]> m) c = nrefs m c - ind (f v) c + ind (f w) c.
Proof.
  intros Hi. rewrite <- (nrefs_delete m i v c Hi), <- insert_delete_eq.
  rewrite nrefs_fresh; [lia|apply lookup_delete_eq].
Qed.

Lemma nrefs_pos m i v c : m !! i = Some v -> f v = Some c -> 0 < nrefs m c.
Proof.
  intros Hi Hf. rewrite <- (nrefs_delete m i v c Hi). pose proof (nrefs_nonneg (delete i m) c).
  unfold ind. rewrite decide_True by done. lia.
Qed.
End refs.

Lemma ind_None c : ind None c = 0.
Proof. done. Qed.

Lemma ind_eq c : ind (Some c) c = 1.
Proof. unfold ind. by rewrite decide_True. Qed.

Lemma ind_ne c d : c <> d -> ind (Some c) d = 0.
Proof. intros. unfold ind. rewrite decide_False; congruence. Qed.

Lemma ind_nonneg o c : 0 <= ind o c.
Proof. unfold ind. case_decide; lia. Qed.

(** Occurrences in a list. *)
Definition occ (l : list nat) (c : nat) : Z := Z.of_nat (length (filter (fun x => x = c) l)).

Lemma occ_nonneg l c : 0 <= occ l c.
Proof. unfold occ. lia. Qed.

Lemma occ_nil c : occ [] c = 0.
Proof. done. Qed.

Lemma occ_cons x l c : occ (x :: l) c = ind (Some x) c + occ l c.
Proof.
  unfold occ, ind. rewrite filter_cons. repeat case_decide; simplify_eq; simpl; lia.
Qed.

Lemma occ_app l l' c : occ (l ++ l') c = occ l c + occ l' c.
Proof. induction l as [|x l IH]; simpl; rewrite ?occ_cons, ?occ_nil; lia. Qed.

Lemma occ_elem l c : c ∈ l -> 0 < occ l c.
Proof.
  induction 1; rewrite occ_cons; [rewrite ind_eq; pose proof (occ_nonneg l x)|pose proof (ind_nonneg (Some y) x)]; lia.
Qed.

(** ** The invariant *)

(** The references that the state of an endpoint stands for: that of its
    connection manager id, or those kept until a request is accepted or
    rejected. *)
Definition held (v : siw_cep) : Z :=
  match cep_cm_id v with
  | Some _ => 1
  | None => if decide (cep_state v = SIW_EPSTATE_RECVD_MPAREQ) then 2 else 0
  end.

(** The reference of the user of a queue pair, until it is destroyed. *)
Definition qheld (v : siw_qp) : Z := match kq_scq v with Some _ => 1 | None => 0 end.

Definition toks (X : gmap nat Z) (o : option siw_cep) (c : nat) : Z :=
  match X !! c with Some n => n | None => match o with Some v => held v | None => 0 end end.
Definition qtoks (Y : gmap nat Z) (o : option siw_qp) (q : nat) : Z :=
  match Y !! q with Some n => n | None => match o with Some v => qheld v | None => 0 end end.

Definition refof (o : option siw_cep) : Z := match o with Some v => cep_ref v | None => 0 end.
Definition qrefof (o : option siw_qp) : Z := match o with Some v => kq_ref v | None => 0 end.

Definition file_ceps (k : kstate) : list nat :=
  match k_file k with Some f => established_list f ++ rtr_wait_list f | None => [] end.

(** The places that refer to an endpoint. *)
Definition uses (k : kstate) (c : nat) : Z :=
  nrefs ks_user (k_socks k) c + nrefs kq_cep (k_qps k) c + occ (wk_cep <$> k_works k) c + occ (file_ceps k) c.

(** What an endpoint has in each of its states. *)
Definition cep_fields (v : siw_cep) : Prop :=
  match cep_state v with
  | SIW_EPSTATE_LISTENING => is_Some (cep_cm_id v) /\ is_Some (cep_sock v) /\ cep_qp v = None /\ cep_timer v = None
  | SIW_EPSTATE_RECVD_MPAREQ => cep_cm_id v = None /\ is_Some (cep_sock v) /\ cep_qp v = None /\ cep_timer v = None
  | SIW_EPSTATE_AWAIT_MPAREP | SIW_EPSTATE_RECVD_MPAREP | SIW_EPSTATE_ACCEPTING | SIW_EPSTATE_RDMA_MODE =>
      is_Some (cep_cm_id v) /\ is_Some (cep_sock v) /\ is_Some (cep_qp v)
  | SIW_EPSTATE_CLOSED => cep_cm_id v = None /\ cep_sock v = None /\ cep_qp v = None
  | _ => False
  end.

Definition sock_ok (k : kstate) (c : nat) (o : option nat) : Prop :=
  forall s, o = Some s -> exists sv, k_socks k !! s = Some sv /\ ks_user sv = Some c.

(** A socket that no endpoint uses. *)
Definition sock_free (k : kstate) (s : nat) : Prop := exists sv, k_socks k !! s = Some sv /\ ks_user sv = None.

(** The timer of an endpoint is its only queued time-out. *)
Definition timer_ok (k : kstate) (c : nat) (o : option nat) : Prop :=
  (forall w, o = Some w -> Work w c SIW_CM_WORK_TIMEOUT ∈ k_works k) /\
  (forall w, w ∈ k_works k -> wk_cep w = c -> wk_type w = SIW_CM_WORK_TIMEOUT -> o = Some (wk_id w)).

(** The states in which a queue pair refers to its endpoint. *)
Definition qp_live (s : siw_qp_state) : bool :=
  match s with
  | SIW_QP_STATE_IDLE | SIW_QP_STATE_RTR | SIW_QP_STATE_RTS | SIW_QP_STATE_CLOSING => true
  | _ => false
  end.

(** The queue pair of a connection refers back to it while it is live, and is
    established when the connection is on the lists of the character device. *)
Definition listed_ok (k : kstate) (c : nat) (o : option nat) : Prop :=
  forall q qv, o = Some q -> k_qps k !! q = Some qv ->
  (qp_live (kq_state qv) = true -> kq_cep qv = Some c) /\ (c ∈ file_ceps k -> kq_state qv = SIW_QP_STATE_RTS).

(** No queue pair, or only the queue pair [q], refers to an endpoint. *)
Definition unlinked (k : kstate) (c : nat) : Prop := forall p pv, k_qps k !! p = Some pv -> kq_cep pv <> Some c.
(** No queue pair refers to a listener, or to the endpoint of a request that is
    not accepted. *)
Definition new_ok (k : kstate) (c : nat) (st : siw_cep_state) : Prop :=
  st = SIW_EPSTATE_RECVD_MPAREQ \/ st = SIW_EPSTATE_LISTENING -> unlinked k c.
Definition linkonly (k : kstate) (c q : nat) : Prop :=
  forall p pv, k_qps k !! p = Some pv -> kq_cep pv = Some c -> p = q.

(** The listening endpoints of the connection manager ids. *)
Definition listeners (k : kstate) (i : nat) : list nat :=
  match k_ids k !! i with
  | Some v => match id_provider v with PListen l => l | _ => [] end
  | None => []
  end.
Definition unlisted (k : kstate) (c : nat) : Prop := forall i, c ∉ listeners k i.
Definition prov_ok (k : kstate) (c : nat) (st : siw_cep_state) (o : option nat) : Prop :=
  forall i, c ∈ listeners k i -> st = SIW_EPSTATE_LISTENING /\ o = Some i.

Record cep_ok (k : kstate) (c : nat) (v : siw_cep) : Prop := {
  co_fields : cep_fields v;
  co_in_use : cep_in_use v = false;
  co_listen : cep_listen_cep v = None;
  co_sock : sock_ok k c (cep_sock v);
  co_timer : timer_ok k c (cep_timer v);
  co_listed : listed_ok k c (cep_qp v);
  co_prov : prov_ok k c (cep_state v) (cep_cm_id v);
  co_new : new_ok k c (cep_state v)
}.

(** The objects of a queue pair. *)
Definition qp_objs (v : siw_qp) : option nat * option nat * nat := (kq_scq v, kq_rcq v, kq_pd v).
Definition qp_pd (v : siw_qp) : option nat := match kq_scq v with Some _ => Some (kq_pd v) | None => None end.

(** The references of completion queues and protection domains are those of
    the queue pairs and of their user, and the device counts its objects. *)
Record objs_ok (qps : gmap nat siw_qp) (cqs : gmap nat Z) (idr : gset nat) (pds : gmap nat Z)
    (nq nc np : Z) : Prop := {
  ob_cq : forall c, default 0 (cqs !! c) =
    nrefs kq_scq qps c + nrefs kq_rcq qps c + (if decide (c ∈ idr) then 1 else 0);
  ob_cqpos : forall c r, cqs !! c = Some r -> 0 < r;
  ob_pd : forall p r, pds !! p = Some r -> r = 1 + nrefs qp_pd qps p;
  ob_qp : forall q v, qps !! q = Some v ->
    (is_Some (kq_scq v) /\ is_Some (kq_rcq v) /\ is_Some (pds !! kq_pd v)) \/ (kq_scq v = None /\ kq_rcq v = None);
  ob_nq : nq = Z.of_nat (size qps);
  ob_nc : nc = Z.of_nat (size cqs);
  ob_np : np = Z.of_nat (size pds)
}.

Record kinv (X Y : gmap nat Z) (k : kstate) : Prop := {
  ki_ref : forall c, refof (k_ceps k !! c) = uses k c + toks X (k_ceps k !! c) c;
  ki_pos : forall c v, k_ceps k !! c = Some v -> 0 < cep_ref v;
  ki_qref : forall q, qrefof (k_qps k !! q) = nrefs cep_qp (k_ceps k) q + qtoks Y (k_qps k !! q) q;
  ki_qpos : forall q v, k_qps k !! q = Some v -> 0 < kq_ref v;
  ki_idref : forall i v, k_ids k !! i = Some v -> id_ref v = nrefs cep_cm_id (k_ceps k) i;
  ki_id : forall c v i, k_ceps k !! c = Some v -> cep_cm_id v = Some i -> is_Some (k_ids k !! i);
  ki_toks : forall c n, X !! c = Some n -> 0 <= n;
  ki_qtoks : forall q n, Y !! q = Some n -> 0 <= n;
  ki_ok : forall c v, X !! c = None -> k_ceps k !! c = Some v -> cep_ok k c v;
  ki_types : forall w, w ∈ k_works k -> wk_type w <> SIW_CM_WORK_CLOSE_LLP /\ wk_type w <> SIW_CM_WORK_PEER_CLOSE;
  ki_wids : NoDup (wk_id <$> k_works k);
  ki_wfresh : forall w, w ∈ k_works k -> (wk_id w < k_next k)%nat;
  ki_cfresh : forall c, is_Some (k_ceps k !! c) -> (c < k_next k)%nat;
  ki_sfresh : forall s, is_Some (k_socks k !! s) -> (s < k_next k)%nat;
  ki_qfresh : forall q, is_Some (k_qps k !! q) -> (q < k_next k)%nat;
  ki_file : is_Some (k_file k);
  ki_listen : forall i c, c ∈ listeners k i -> is_Some (k_ceps k !! c);
  ki_listnd : forall i, NoDup (listeners k i);
  ki_num : num_cep (k_dev k) = Z.of_nat (size (k_ceps k));
  ki_back : forall p pv c v, k_qps k !! p = Some pv -> kq_cep pv = Some c -> k_ceps k !! c = Some v ->
    cep_qp v = Some p \/ cep_qp v = None;
  ki_objs : objs_ok (k_qps k) (k_cqs k) (k_cq_idr k) (k_pds k) (num_qp (k_dev k)) (num_cq (k_dev k)) (num_pd (k_dev k));
  ki_ofresh : forall n, is_Some (k_cqs k !! n) \/ is_Some (k_pds k !! n) -> (n < k_next k)%nat
}.

Lemma nrefs_insert_same {A} (f : A -> option nat) (m : gmap nat A) i v w c :
  m !! i = Some v -> f w = f v -> nrefs f (<[i := w]> m) c = nrefs f m c.
Proof. intros Hi Hf. rewrite (nrefs_insert f _ _ v) by done. rewrite Hf. lia. Qed.

Lemma objs_set_qp qps cqs idr pds nq nc np q v w :
  objs_ok qps cqs idr pds nq nc np -> qps !! q = Some v -> qp_objs w = qp_objs v ->
  objs_ok (<[q := w]> qps) cqs idr pds nq nc np.
Proof.
  intros [H1 H2 H3 H4 H5 H6 H7] Hq [= E1 E2 E3]. split; auto.
  - intros c. rewrite !(nrefs_insert_same _ _ _ v) by done. apply H1.
  - intros p r Hp. rewrite (nrefs_insert_same _ _ _ v); auto. unfold qp_pd. by rewrite E1, E3.
  - intros p u. destruct (decide (q = p)) as [<-|]; [rewrite lookup_insert_eq|rewrite lookup_insert_ne by done; apply H4].
    intros [= <-]. rewrite E1, E2, E3. by apply (H4 q).
  - rewrite H5, map_size_insert_Some; done.
Qed.

Lemma size_delete_Z {A} (m : gmap nat A) i v : m !! i = Some v -> Z.of_nat (size (delete i m)) = Z.of_nat (size m) - 1.
Proof.
  intros Hi. rewrite map_size_delete_Some by (by eexists). assert (0 < size m)%nat; [|lia].
  destruct (size m) eqn:E; [|lia]. apply map_size_empty_inv in E. by rewrite E in Hi.
Qed.

Lemma objs_del_qp qps cqs idr pds nq nc np q v :
  objs_ok qps cqs idr pds nq nc np -> qps !! q = Some v -> kq_scq v = None ->
  objs_ok (delete q qps) cqs idr pds (nq - 1) nc np.
Proof.
  intros [H1 H2 H3 H4 H5 H6 H7] Hq E1. assert (kq_rcq v = None) as E2.
  { destruct (H4 q v Hq) as [[[? ?] _]|[_ ?]]; [congruence|done]. }
  split; auto.
  - intros c. pose proof (nrefs_delete kq_scq _ _ _ c Hq) as R1. pose proof (nrefs_delete kq_rcq _ _ _ c Hq) as R2.
    rewrite E1, ind_None in R1. rewrite E2, ind_None in R2. rewrite H1. lia.
  - intros p r Hp. pose proof (nrefs_delete qp_pd _ _ _ p Hq) as R. unfold qp_pd at 2 in R. rewrite E1, ind_None in R.
    rewrite (H3 p r Hp). lia.
  - intros p u Hp. apply lookup_delete_Some in Hp as [_ Hp]. eauto.
  - rewrite H5. symmetry. by eapply size_delete_Z.
Qed.

(** ** Total correctness of a call *)

(** The call returns, and its result and final state satisfy [Q]. *)
Definition kwp {A} (m : KM A) (Q : A -> kstate -> Prop) (k : kstate) : Prop :=
  match m k with Ok (a, k') => Q a k' | Fault _ => False end.

Lemma kwp_ret {A} (a : A) (Q : A -> kstate -> Prop) k : Q a k -> kwp (mret a) Q k.
Proof. done. Qed.

Lemma kwp_bind {A B} (m : KM A) (f : A -> KM B) (Q : B -> kstate -> Prop) k :
  kwp m (fun a => kwp (f a) Q) k -> kwp (m ≫= f) Q k.
Proof. unfold kwp, mbind, KM_bind. by destruct (m k) as [[a k']|]. Qed.

Lemma kwp_mono {A} (m : KM A) (Q Q' : A -> kstate -> Prop) k :
  kwp m Q k -> (forall a k', Q a k' -> Q' a k') -> kwp m Q' k.
Proof. unfold kwp. destruct (m k) as [[a k']|]; auto. Qed.

Lemma kwp_ok {A} (m : KM A) (Q : A -> kstate -> Prop) k :
  kwp m Q k -> exists a k', m k = Ok (a, k') /\ Q a k'.
Proof. unfold kwp. destruct (m k) as [[a k']|]; [eauto|done]. Qed.

Lemma kwp_gets {A} (g : kstate -> A) (Q : A -> kstate -> Prop) k : Q (g k) k -> kwp (kgets g) Q k.
Proof. done. Qed.

Lemma kwp_nonnull {A} (o : option A) a (Q : A -> kstate -> Prop) k : o = Some a -> Q a k -> kwp (nonnull o) Q k.
Proof. by intros ->. Qed.

Lemma kwp_get_cep c v (Q : siw_cep -> kstate -> Prop) k : k_ceps k !! c = Some v -> Q v k -> kwp (get_cep c) Q k.
Proof. unfold kwp, get_cep. by intros ->. Qed.

Lemma kwp_get_kqp q v (Q : siw_qp -> kstate -> Prop) k : k_qps k !! q = Some v -> Q v k -> kwp (get_kqp q) Q k.
Proof. unfold kwp, get_kqp. by intros ->. Qed.

Lemma kwp_get_id i v (Q : iw_cm_id -> kstate -> Prop) k : k_ids k !! i = Some v -> Q v k -> kwp (get_id i) Q k.
Proof. unfold kwp, get_id. by intros ->. Qed.

Lemma kwp_get_sock s v (Q : ksock -> kstate -> Prop) k : k_socks k !! s = Some v -> Q v k -> kwp (get_sock s) Q k.
Proof. unfold kwp, get_sock. by intros ->. Qed.

Lemma kwp_kmodify f (Q : unit -> kstate -> Prop) k : Q tt (f k) -> kwp (kmodify f) Q k.
Proof. done. Qed.

Lemma kwp_upd c f v (Q : unit -> kstate -> Prop) k :
  k_ceps k !! c = Some v -> Q tt (k <| k_ceps ::= <[c := f v]> |>) -> kwp (upd_cep c f) Q k.
Proof. unfold kwp, upd_cep. by intros ->. Qed.

(** ** Changes of an endpoint *)

Lemma cep_ok_ext k k' c v :
  k_socks k' = k_socks k -> k_works k' = k_works k -> k_qps k' = k_qps k -> k_file k' = k_file k ->
  k_ids k' = k_ids k -> cep_ok k c v -> cep_ok k' c v.
Proof.
  intros Es Ew Eq Ef Ei [? ? ? Hs Ht Hl Hp Hn].
  unfold sock_ok, timer_ok, listed_ok, file_ceps, prov_ok, listeners, new_ok, unlinked in *.
  split; unfold sock_ok, timer_ok, listed_ok, file_ceps, prov_ok, listeners, new_ok, unlinked;
    try rewrite ?Es, ?Ew, ?Eq, ?Ef, ?Ei; done.
Qed.

Lemma uses_ext k k' c :
  k_socks k' = k_socks k -> k_works k' = k_works k -> k_qps k' = k_qps k -> k_file k' = k_file k ->
  uses k' c = uses k c.
Proof. unfold uses, file_ceps. by intros -> -> -> ->. Qed.

Lemma uses_nonneg k c : 0 <= uses k c.
Proof.
  unfold uses. pose proof (nrefs_nonneg ks_user (k_socks k) c). pose proof (nrefs_nonneg kq_cep (k_qps k) c).
  pose proof (occ_nonneg (wk_cep <$> k_works k) c). pose proof (occ_nonneg (file_ceps k) c). lia.
Qed.

Lemma held_nonneg v : 0 <= held v.
Proof. unfold held. repeat case_match; lia. Qed.

(** An open endpoint is replaced; [n' - n] references move to the call. *)
Lemma kinv_set_cep X Y Y' k c v w n n' :
  kinv X Y k -> X !! c = Some n -> k_ceps k !! c = Some v ->
  cep_ref w = cep_ref v + n' - n -> 0 < cep_ref w -> 0 <= n' -> cep_cm_id w = cep_cm_id v ->
  (forall q, qtoks Y' (k_qps k !! q) q = qtoks Y (k_qps k !! q) q + ind (cep_qp v) q - ind (cep_qp w) q) ->
  (forall q m, Y' !! q = Some m -> 0 <= m) ->
  (forall q, cep_qp w = Some q -> cep_qp v = Some q \/ linkonly k c q) ->
  kinv (<[c := n']> X) Y' (k <| k_ceps ::= <[c := w]> |>).
Proof.
  intros I HX Hc Href Hpos Hn Hid HY HY' Hback. destruct I. split; simpl; try done.
  - intros d. rewrite (uses_ext k) by done. specialize (ki_ref0 d). unfold toks in *.
    destruct (decide (c = d)) as [<-|Hd].
    + rewrite !lookup_insert_eq. rewrite HX, Hc in ki_ref0. simpl in *. lia.
    + by rewrite !lookup_insert_ne.
  - intros d u. destruct (decide (c = d)) as [<-|]; [rewrite lookup_insert_eq|rewrite lookup_insert_ne by done];
      [by intros [= <-]|apply ki_pos0].
  - intros q. rewrite (nrefs_insert cep_qp _ _ v), HY, ki_qref0 by done. lia.
  - intros i u Hi. rewrite (nrefs_insert cep_cm_id _ _ v), Hid by done. rewrite (ki_idref0 i u Hi). lia.
  - intros d u i. destruct (decide (c = d)) as [<-|]; [rewrite lookup_insert_eq|rewrite lookup_insert_ne by done];
      [intros [= <-]; rewrite Hid|]; eauto.
  - intros d m. destruct (decide (c = d)) as [<-|]; [rewrite lookup_insert_eq|rewrite lookup_insert_ne by done];
      [by intros [= <-]|apply ki_toks0].
  - intros d u. destruct (decide (c = d)) as [<-|]; [by rewrite lookup_insert_eq|rewrite !lookup_insert_ne by done].
    intros H1 H2. by apply (cep_ok_ext k), ki_ok0.
  - intros d [u Hu]. apply ki_cfresh0. destruct (decide (c = d)) as [<-|]; [by eexists|].
    rewrite lookup_insert_ne in Hu by done. by eexists.
  - intros i d Hd. specialize (ki_listen0 i d Hd). destruct (decide (c = d)) as [<-|].
    + rewrite lookup_insert_eq. by eexists.
    + by rewrite lookup_insert_ne.
  - rewrite ki_num0, map_size_insert_Some; done.
  - intros p pv d u Hp Hpc. destruct (decide (c = d)) as [<-|];
      [rewrite lookup_insert_eq|rewrite lookup_insert_ne by done; eauto]. intros [= <-].
    destruct (cep_qp w) as [q|] eqn:E; [left|by right]. destruct (Hback q eq_refl) as [E'|Hl].
    + destruct (ki_back0 p pv c v Hp Hpc Hc); congruence.
    + by rewrite (Hl p pv Hp Hpc).
Qed.

(** The last reference to an open endpoint goes, and it is freed. *)
Lemma kinv_del_cep X Y k c v :
  kinv X Y k -> X !! c = Some 1 -> k_ceps k !! c = Some v -> cep_ref v = 1 ->
  cep_cm_id v = None -> cep_qp v = None -> unlisted k c ->
  kinv (<[c := 0]> X) Y (k <| k_ceps ::= delete c |> <| k_dev ::= update num_cep (fun n => n - 1) |>).
Proof.
  intros I HX Hc Href Hid Hqp Hun. destruct I. split; simpl; try done.
  - intros d. rewrite (uses_ext k) by done. specialize (ki_ref0 d). unfold toks in *.
    destruct (decide (c = d)) as [<-|Hd].
    + rewrite lookup_delete_eq, lookup_insert_eq. rewrite HX, Hc in ki_ref0. simpl in *. lia.
    + by rewrite lookup_delete_ne, lookup_insert_ne.
  - intros d u Hd. apply lookup_delete_Some in Hd as [_ Hd]. by eapply ki_pos0.
  - intros q. pose proof (nrefs_delete cep_qp _ _ _ q Hc) as E. rewrite Hqp, ind_None in E.
    rewrite ki_qref0. lia.
  - intros i u Hi. pose proof (nrefs_delete cep_cm_id _ _ _ i Hc) as E. rewrite Hid, ind_None in E.
    rewrite (ki_idref0 i u Hi). lia.
  - intros d u i Hd. apply lookup_delete_Some in Hd as [_ Hd]. eauto.
  - intros d m. destruct (decide (c = d)) as [<-|]; [rewrite lookup_insert_eq|rewrite lookup_insert_ne by done];
      [intros [= <-]; lia|apply ki_toks0].
  - intros d u. destruct (decide (c = d)) as [<-|]; [by rewrite lookup_insert_eq|rewrite lookup_insert_ne by done].
    intros H1 H2. apply lookup_delete_Some in H2 as [_ H2]. by apply (cep_ok_ext k), ki_ok0.
  - intros d [u Hu]. apply lookup_delete_Some in Hu as [_ Hu]. apply ki_cfresh0. by eexists.
  - intros i d Hd. rewrite lookup_delete_ne; [eauto|]. intros <-. by eapply Hun.
  - rewrite ki_num0. symmetry. by eapply size_delete_Z.
  - intros p pv d u Hp Hpc Hd. apply lookup_delete_Some in Hd as [_ Hd]. eauto.
Qed.

Lemma kinv_open X Y k c v :
  kinv X Y k -> X !! c = None -> k_ceps k !! c = Some v -> kinv (<[c := held v]> X) Y k.
Proof.
  intros I HX Hc. destruct I. split; try done.
  - intros d. rewrite ki_ref0. unfold toks. destruct (decide (c = d)) as [<-|].
    + by rewrite HX, lookup_insert_eq, Hc.
    + by rewrite lookup_insert_ne.
  - intros d m. destruct (decide (c = d)) as [<-|]; [rewrite lookup_insert_eq|rewrite lookup_insert_ne by done];
      [intros [= <-]; apply held_nonneg|apply ki_toks0].
  - intros d u. destruct (decide (c = d)) as [<-|]; [by rewrite lookup_insert_eq|rewrite lookup_insert_ne by done].
    apply ki_ok0.
Qed.

Lemma kinv_close X Y k c n :
  kinv (<[c := n]> X) Y k -> X !! c = None ->
  (forall v, k_ceps k !! c = Some v -> cep_ok k c v /\ n = held v) -> kinv X Y k.
Proof.
  intros I HX Hc. destruct I. split; try done.
  - intros d. rewrite ki_ref0. unfold toks. destruct (decide (c = d)) as [<-|].
    + rewrite HX, lookup_insert_eq. destruct (k_ceps k !! c) as [v|] eqn:E; [by rewrite (proj2 (Hc v eq_refl))|].
      specialize (ki_ref0 c). unfold toks in ki_ref0. rewrite lookup_insert_eq, E in ki_ref0. simpl in ki_ref0.
      pose proof (uses_nonneg k c). assert (0 <= n) by (apply (ki_toks0 c); by rewrite lookup_insert_eq). lia.
    + by rewrite lookup_insert_ne.
  - intros d m Hd. apply (ki_toks0 d). rewrite lookup_insert_ne; [done|congruence].
  - intros d u Hd Hu. destruct (decide (c = d)) as [<-|]; [by apply Hc|].
    apply ki_ok0; [by rewrite lookup_insert_ne|done].
Qed.

(** A state that differs in nothing the invariant reads. *)
Record kframe (k k' : kstate) : Prop := {
  kf_ceps : k_ceps k' = k_ceps k; kf_qps : k_qps k' = k_qps k; kf_ids : k_ids k' = k_ids k;
  kf_socks : k_socks k' = k_socks k; kf_works : k_works k' = k_works k; kf_file : k_file k' = k_file k;
  kf_dev : k_dev k' = k_dev k; kf_next : (k_next k <= k_next k')%nat;
  kf_cqs : k_cqs k' = k_cqs k; kf_idr : k_cq_idr k' = k_cq_idr k; kf_pds : k_pds k' = k_pds k
}.

Lemma kinv_frame X Y k k' : kinv X Y k -> kframe k k' -> kinv X Y k'.
Proof.
  intros I [Ec Eq Ei Es Ew Ef Ed En E1 E2 E3]. destruct I.
  split; rewrite ?Ec, ?Eq, ?Ei, ?Es, ?Ew, ?Ef, ?Ed, ?E1, ?E2, ?E3; try done.
  - intros c. by rewrite (uses_ext k).
  - intros c v ? ?. apply (cep_ok_ext k); auto.
  - intros w Hw. specialize (ki_wfresh0 w Hw). lia.
  - intros w Hw. specialize (ki_cfresh0 w Hw). lia.
  - intros w Hw. specialize (ki_sfresh0 w Hw). lia.
  - intros w Hw. specialize (ki_qfresh0 w Hw). lia.
  - intros i c. unfold listeners. rewrite Ei. apply (ki_listen0 i).
  - intros i. unfold listeners. rewrite Ei. apply (ki_listnd0 i).
  - intros w Hw. specialize (ki_ofresh0 w Hw). lia.
Qed.

(** ** What an operation on one endpoint leaves alone *)

(** Everything but the endpoint [c], its socket and its work items. *)
Record keepb (c : nat) (k k' : kstate) : Prop := {
  kp_ceps : forall d, d <> c -> k_ceps k' !! d = k_ceps k !! d;
  kp_qps : k_qps k' = k_qps k;
  kp_ids : forall i, id_provider <$> k_ids k' !! i = id_provider <$> k_ids k !! i;
  kp_file : k_file k' = k_file k;
  kp_cqs : k_cqs k' = k_cqs k;
  kp_idr : k_cq_idr k' = k_cq_idr k;
  kp_pds : k_pds k' = k_pds k;
  kp_socks : forall d o, d <> c -> sock_ok k d o -> sock_ok k' d o;
  kp_free : forall s, sock_free k s -> sock_free k' s;
  kp_timers : forall d o, d <> c -> timer_ok k d o -> timer_ok k' d o;
  kp_rets : Forall (Z.le 0) (k_rets k) -> Forall (Z.le 0) (k_rets k')
}.

(** Also its socket. *)
Record keepw (c : nat) (k k' : kstate) : Prop := {
  kp_b : keepb c k k';
  kp_sock : forall o, sock_ok k c o -> sock_ok k' c o
}.

(** Also its work items. *)
Record keep (c : nat) (k k' : kstate) : Prop := {
  kp_w : keepw c k k';
  kp_timer : forall o, timer_ok k c o -> timer_ok k' c o
}.

Lemma keepb_trans c k k' k'' : keepb c k k' -> keepb c k' k'' -> keepb c k k''.
Proof.
  intros [C1 Q1 I1 F1 A1 B1 P1 S1 G1 T1 R1] [C2 Q2 I2 F2 A2 B2 P2 S2 G2 T2 R2].
  split; try congruence; auto. intros d Hd. by rewrite C2, C1.
Qed.

Lemma keepw_trans c k k' k'' : keepw c k k' -> keepw c k' k'' -> keepw c k k''.
Proof. intros [W1 E1] [W2 E2]. split; [by eapply keepb_trans|auto]. Qed.

Lemma keep_trans c k k' k'' : keep c k k' -> keep c k' k'' -> keep c k k''.
Proof. intros [W1 E1] [W2 E2]. split; [by eapply keepw_trans|auto]. Qed.

Lemma keep_refl c k : keep c k k.
Proof. split; [split; [split|]|]; auto. Qed.

Lemma keepb_listed c k k' d o : keepb c k k' -> listed_ok k d o -> listed_ok k' d o.
Proof. intros [_ Q _ F _ _ _ _ _ _ _]. unfold listed_ok, file_ceps. by rewrite Q, F. Qed.

Lemma listeners_ext k k' i :
  id_provider <$> k_ids k' !! i = id_provider <$> k_ids k !! i -> listeners k' i = listeners k i.
Proof.
  unfold listeners. destruct (k_ids k' !! i), (k_ids k !! i); simpl; intros H; simplify_eq; [|done].
  by rewrite H.
Qed.

Lemma keepb_listeners c k k' i : keepb c k k' -> listeners k' i = listeners k i.
Proof. intros E. by apply listeners_ext, (kp_ids c). Qed.

Lemma keepb_unlisted c k k' d : keepb c k k' -> unlisted k d -> unlisted k' d.
Proof. intros E H i. rewrite (keepb_listeners c k); auto. Qed.

Lemma unlinked_ext k k' c : k_qps k' = k_qps k -> unlinked k c -> unlinked k' c.
Proof. unfold unlinked. by intros ->. Qed.
Lemma new_ok_ext k k' c st : k_qps k' = k_qps k -> new_ok k c st -> new_ok k' c st.
Proof. unfold new_ok, unlinked. by intros ->. Qed.
Lemma keepb_prov c k k' d st o : keepb c k k' -> prov_ok k d st o -> prov_ok k' d st o.
Proof. intros E H i. rewrite (keepb_listeners c k); auto. Qed.

Lemma keepb_id c k k' i : keepb c k k' -> is_Some (k_ids k !! i) -> is_Some (k_ids k' !! i).
Proof.
  intros E [v Hv]. pose proof (kp_ids c k k' E i) as H. rewrite Hv in H.
  destruct (k_ids k' !! i); [by eexists|done].
Qed.

Lemma prov_unlisted k c st o : prov_ok k c st o -> st <> SIW_EPSTATE_LISTENING -> unlisted k c.
Proof. intros H Hst i Hi. by destruct (H i Hi). Qed.

Lemma unlisted_prov k c st o : unlisted k c -> prov_ok k c st o.
Proof. intros H i Hi. by apply H in Hi. Qed.

Lemma keepw_b c k k' : keepw c k k' -> keepb c k k'.
Proof. apply kp_b. Qed.
Lemma keep_b c k k' : keep c k k' -> keepb c k k'.
Proof. intros [[? _] _]. done. Qed.
Lemma keep_w c k k' : keep c k k' -> keepw c k k'.
Proof. apply kp_w. Qed.

(** [kmove E] carries what is known of a state over an operation. *)
Ltac kmove_b E :=
  lazymatch type of E with keepb ?c ?k ?k' =>
    repeat match goal with
    | H : listed_ok k ?d ?o |- _ => apply (keepb_listed c k k' d o E) in H
    | H : sock_ok k ?d ?o |- _ =>
        first [apply (kp_socks c k k' E d o ltac:(done || congruence)) in H | clear H]
    | H : sock_free k ?s |- _ => apply (kp_free c k k' E) in H
    | H : timer_ok k ?d ?o |- _ =>
        first [apply (kp_timers c k k' E d o ltac:(done || congruence)) in H | clear H]
    | H : Forall (Z.le 0) (k_rets k) |- _ => apply (kp_rets c k k' E) in H
    | H : k_ceps k !! ?d = _ |- _ =>
        first [rewrite <- (kp_ceps c k k' E d) in H by (done || congruence) | clear H]
    | H : context [k_qps k] |- _ => rewrite <- (kp_qps c k k' E) in H
    | H : is_Some (k_ids k !! ?i) |- _ => apply (keepb_id c k k' i E) in H
    | H : unlisted k ?d |- _ => apply (keepb_unlisted c k k' d E) in H
    | H : unlinked k ?d |- _ => apply (unlinked_ext k k' d (kp_qps c k k' E)) in H
    | H : new_ok k ?d ?st |- _ => apply (new_ok_ext k k' d st (kp_qps c k k' E)) in H
    | H : prov_ok k ?d ?st ?o |- _ => apply (keepb_prov c k k' d st o E) in H
    | H : context [k_file k] |- _ => rewrite <- (kp_file c k k' E) in H
    | H : context [k_cqs k] |- _ => rewrite <- (kp_cqs c k k' E) in H
    | H : context [k_pds k] |- _ => rewrite <- (kp_pds c k k' E) in H
    | H : kinv _ _ k |- _ => clear H
    end
  end.
Ltac kmove_w E :=
  lazymatch type of E with keepw ?c ?k ?k' =>
    repeat match goal with H : sock_ok k c ?o |- _ => apply (kp_sock c k k' E) in H end;
    let B := fresh in pose proof (kp_b c k k' E) as B; kmove_b B; clear B
  end.
Ltac kmove E :=
  lazymatch type of E with
  | keepb _ _ _ => kmove_b E
  | keepw _ _ _ => kmove_w E
  | keep ?c ?k ?k' =>
      repeat match goal with H : timer_ok k c ?o |- _ => apply (kp_timer c k k' E) in H end;
      let W := fresh in pose proof (kp_w c k k' E) as W; kmove_w W; clear W
  end.

(** ** Rules for endpoints *)

Section cep_rules.
Context (X Y : gmap nat Z) (c : nat).

Lemma keep_set_cep k w : keep c k (k <| k_ceps ::= <[c := w]> |>).
Proof. split; [split; [split|]|]; auto. intros d Hd. simpl. by rewrite lookup_insert_ne. Qed.

Lemma kwp_upd_cep f n v (Q : unit -> kstate -> Prop) k :
  kinv (<[c := n]> X) Y k -> k_ceps k !! c = Some v ->
  cep_ref (f v) = cep_ref v -> cep_cm_id (f v) = cep_cm_id v -> cep_qp (f v) = cep_qp v ->
  (forall k', kinv (<[c := n]> X) Y k' -> keep c k k' -> k_ceps k' !! c = Some (f v) -> Q tt k') ->
  kwp (upd_cep c f) Q k.
Proof.
  intros I Hc Hr Hi Hq HQ. unfold kwp, upd_cep. rewrite Hc. simpl. apply HQ.
  - rewrite <- (insert_insert_eq X c n n). eapply kinv_set_cep; eauto; rewrite ?lookup_insert_eq; rewrite ?Hq; eauto.
    + lia.
    + rewrite Hr. by eapply ki_pos.
    + eapply (ki_toks _ _ _ I c). by rewrite lookup_insert_eq.
    + intros. lia.
    + apply (ki_qtoks _ _ _ I).
  - apply keep_set_cep.
  - simpl. by rewrite lookup_insert_eq.
Qed.

Lemma kwp_cep_get n v (Q : unit -> kstate -> Prop) k :
  kinv (<[c := n]> X) Y k -> k_ceps k !! c = Some v ->
  (forall k', kinv (<[c := n + 1]> X) Y k' -> keep c k k' ->
     k_ceps k' !! c = Some (v <| cep_ref ::= fun r => r + 1 |>) -> Q tt k') ->
  kwp (siw_cep_get c) Q k.
Proof.
  intros I Hc HQ. unfold kwp, siw_cep_get, upd_cep. rewrite Hc. simpl.
  pose proof (ki_pos _ _ _ I c v Hc). assert (0 <= n) by (apply (ki_toks _ _ _ I c); by rewrite lookup_insert_eq).
  apply HQ.
  - rewrite <- (insert_insert_eq X c _ n). eapply kinv_set_cep; eauto; rewrite ?lookup_insert_eq; eauto; simpl; try lia.
    apply (ki_qtoks _ _ _ I).
  - apply keep_set_cep.
  - simpl. by rewrite lookup_insert_eq.
Qed.

(** The references of an open endpoint are at least those of the call. *)
Lemma kinv_ref_ge n v k : kinv (<[c := n]> X) Y k -> k_ceps k !! c = Some v -> n <= cep_ref v.
Proof.
  intros I Hc. pose proof (ki_ref _ _ _ I c) as E. unfold toks in E. rewrite lookup_insert_eq, Hc in E.
  simpl in E. pose proof (uses_nonneg k c). lia.
Qed.

Lemma kwp_cep_put_keep n v (Q : unit -> kstate -> Prop) k :
  kinv (<[c := n]> X) Y k -> k_ceps k !! c = Some v -> 1 <= n -> 2 <= cep_ref v ->
  (forall k', kinv (<[c := n - 1]> X) Y k' -> keep c k k' ->
     k_ceps k' !! c = Some (v <| cep_ref ::= fun r => r - 1 |>) -> Q tt k') ->
  kwp (siw_cep_put c) Q k.
Proof.
  intros I Hc Hn Hr HQ. unfold siw_cep_put. apply kwp_bind. eapply kwp_get_cep; [done|].
  destruct (Z.ltb_spec (cep_ref v) 1); [lia|]. destruct (Z.eqb_spec (cep_ref v) 1); [lia|].
  unfold kwp, upd_cep. rewrite Hc. simpl. apply HQ.
  - rewrite <- (insert_insert_eq X c _ n). eapply kinv_set_cep; eauto; rewrite ?lookup_insert_eq; eauto; simpl; try lia.
    apply (ki_qtoks _ _ _ I).
  - apply keep_set_cep.
  - simpl. by rewrite lookup_insert_eq.
Qed.

(** The reference may be the last one. *)
Lemma kwp_cep_put n v (Q : unit -> kstate -> Prop) k :
  kinv (<[c := n]> X) Y k -> k_ceps k !! c = Some v -> 1 <= n ->
  (cep_ref v = 1 -> cep_cm_id v = None /\ cep_qp v = None /\ unlisted k c) ->
  (forall k', kinv (<[c := n - 1]> X) Y k' -> keep c k k' ->
     (cep_ref v = 1 /\ k_ceps k' !! c = None) \/
     (2 <= cep_ref v /\ k_ceps k' !! c = Some (v <| cep_ref ::= fun r => r - 1 |>)) -> Q tt k') ->
  kwp (siw_cep_put c) Q k.
Proof.
  intros I Hc Hn Hlast HQ. pose proof (ki_pos _ _ _ I c v Hc). pose proof (kinv_ref_ge _ _ _ I Hc).
  destruct (decide (cep_ref v = 1)) as [Hr|].
  - destruct (Hlast Hr) as (Hid & Hqp & Hun). unfold siw_cep_put. apply kwp_bind. eapply kwp_get_cep; [done|].
    rewrite Hr. simpl. unfold kwp, siw_cep_dealloc, kmodify. assert (n = 1) as -> by lia. apply HQ.
    + rewrite <- (insert_insert_eq X c _ 1). eapply kinv_del_cep; eauto. by rewrite lookup_insert_eq.
    + split; [split; [split|]|]; auto. intros d Hd. simpl. by rewrite lookup_delete_ne.
    + left. split; [done|]. simpl. by rewrite lookup_delete_eq.
  - eapply kwp_cep_put_keep; eauto; [lia|]. intros. apply HQ; auto. right. split; [lia|done].
Qed.
End cep_rules.

(** ** Rules for calls outside the module *)

Lemma kframe_rets k rs : kframe k (k <| k_rets := rs |>).
Proof. by split. Qed.

Lemma keep_rets c k rs : (Forall (Z.le 0) (k_rets k) -> Forall (Z.le 0) rs) -> keep c k (k <| k_rets := rs |>).
Proof. intros. split; [split; [split|]|]; auto. Qed.

Lemma kwp_kcall X Y c (Q : Z -> kstate -> Prop) k :
  kinv X Y k ->
  (forall r k', kinv X Y k' -> keep c k k' -> k_ceps k' !! c = k_ceps k !! c ->
     (Forall (Z.le 0) (k_rets k) -> 0 <= r) -> Q r k') -> kwp kcall Q k.
Proof.
  intros I HQ. unfold kwp, kcall. destruct (k_rets k) as [|r rs] eqn:E.
  { apply HQ; auto using keep_refl. done. }
  apply HQ; [eapply kinv_frame; [done|apply kframe_rets]|apply keep_rets; rewrite E; by inversion 1|done|].
  rewrite ?E. by inversion 1.
Qed.

Lemma kwp_kerr X Y c (Q : Z -> kstate -> Prop) k :
  kinv X Y k ->
  (forall r k', kinv X Y k' -> keep c k k' -> k_ceps k' !! c = k_ceps k !! c -> r <= 0 ->
     (Forall (Z.le 0) (k_rets k) -> r = 0) -> Q r k') -> kwp kerr Q k.
Proof.
  intros I HQ. unfold kerr. apply kwp_bind. apply (kwp_kcall X Y c); [done|]. intros r k' I' E Ec Hr.
  apply kwp_ret, HQ; auto; [lia|]. intros H. specialize (Hr H). lia.
Qed.

Lemma kwp_fresh X Y c (Q : nat -> kstate -> Prop) k :
  kinv X Y k ->
  (forall k', kinv X Y k' -> keep c k k' -> k_ceps k' !! c = k_ceps k !! c -> k_next k' = S (k_next k) ->
     k_works k' = k_works k -> Q (k_next k) k') -> kwp fresh Q k.
Proof.
  intros I HQ. unfold kwp, fresh. apply HQ; auto.
  - eapply kinv_frame; [done|]. split; simpl; auto.
  - split; [split; [split|]|]; auto.
Qed.

(** ** Rules for work items *)

Lemma occ_works_ge k w c : w ∈ k_works k -> wk_cep w = c -> 0 < occ (wk_cep <$> k_works k) c.
Proof. intros Hw <-. apply occ_elem. by apply list_elem_of_fmap_2. Qed.

(** The work items of an open endpoint change, and the endpoint with them. *)
Lemma kinv_set_works X Y k c v w n n' l :
  kinv (<[c := n]> X) Y k -> k_ceps k !! c = Some v -> 0 < cep_ref w -> 0 <= n' ->
  cep_ref w - n' - occ (wk_cep <$> l) c = cep_ref v - n - occ (wk_cep <$> k_works k) c ->
  cep_cm_id w = cep_cm_id v -> cep_qp w = cep_qp v ->
  (forall d, d <> c -> occ (wk_cep <$> l) d = occ (wk_cep <$> k_works k) d) ->
  (forall x, wk_cep x <> c -> x ∈ l <-> x ∈ k_works k) ->
  (forall x, x ∈ l -> wk_type x <> SIW_CM_WORK_CLOSE_LLP /\ wk_type x <> SIW_CM_WORK_PEER_CLOSE /\
     (wk_id x < k_next k)%nat) ->
  NoDup (wk_id <$> l) ->
  kinv (<[c := n']> X) Y (k <| k_ceps ::= <[c := w]> |> <| k_works := l |>).
Proof.
  intros I Hc Hpos Hn Href Hid Hqp Hocc Hin Hl Hnd.
  destruct I. split; simpl; try done.
  - intros d. specialize (ki_ref0 d). unfold uses, file_ceps, toks in *. simpl.
    destruct (decide (c = d)) as [<-|Hd].
    + rewrite !lookup_insert_eq in *. rewrite Hc in ki_ref0. simpl in *. lia.
    + rewrite !lookup_insert_ne in * by done. by rewrite Hocc.
  - intros d u. destruct (decide (c = d)) as [<-|]; [rewrite lookup_insert_eq|rewrite lookup_insert_ne by done];
      [by intros [= <-]|apply ki_pos0].
  - intros q. rewrite (nrefs_insert cep_qp _ _ v), ki_qref0, Hqp by done. lia.
  - intros i u Hi. rewrite (nrefs_insert cep_cm_id _ _ v), Hid by done. rewrite (ki_idref0 i u Hi). lia.
  - intros d u i. destruct (decide (c = d)) as [<-|]; [rewrite lookup_insert_eq|rewrite lookup_insert_ne by done];
      [intros [= <-]; rewrite Hid|]; eauto.
  - intros d m. destruct (decide (c = d)) as [<-|]; [rewrite lookup_insert_eq|rewrite lookup_insert_ne by done];
      [by intros [= <-]|]. intros Hd. apply (ki_toks0 d). by rewrite lookup_insert_ne.
  - intros d u. destruct (decide (c = d)) as [<-|]; [by rewrite lookup_insert_eq|rewrite !lookup_insert_ne by done].
    intros H1 H2. destruct (ki_ok0 d u) as [? ? ? ? [T1 T2] ? ? ?]; [by rewrite lookup_insert_ne|done|].
    split; try done. split.
    + intros x Hx. apply Hin; [simpl; congruence|auto].
    + intros x Hx <- Ht. apply T2; auto. by apply Hin.
  - intros x Hx. destruct (Hl x Hx) as (? & ? & ?). done.
  - intros x Hx. apply Hl. done.
  - intros d [u Hu]. apply ki_cfresh0. destruct (decide (c = d)) as [<-|]; [by eexists|].
    rewrite lookup_insert_ne in Hu by done. by eexists.
  - intros i d Hd. specialize (ki_listen0 i d Hd). destruct (decide (c = d)) as [<-|].
    + rewrite lookup_insert_eq. by eexists.
    + by rewrite lookup_insert_ne.
  - rewrite ki_num0, map_size_insert_Some; done.
  - intros p pv d u Hp Hpc. destruct (decide (c = d)) as [<-|];
      [rewrite lookup_insert_eq|rewrite lookup_insert_ne by done; eauto]. intros [= <-]. rewrite Hqp. eauto.
Qed.

Lemma timer_ok_app k c o w type works :
  timer_ok k c o -> works = k_works k ++ [Work w c type] -> (type = SIW_CM_WORK_TIMEOUT -> o = None) ->
  forall k', k_works k' = works -> timer_ok k' c (if decide (type = SIW_CM_WORK_TIMEOUT) then Some w else o).
Proof.
  intros [T1 T2] -> Ho k' E. unfold timer_ok. rewrite E. split.
  - intros x. case_decide as Ht; [intros [= <-]; rewrite Ht|intros Hx]; apply elem_of_app; [right|left; auto].
    apply list_elem_of_singleton. done.
  - intros x Hx Hc Ht. apply elem_of_app in Hx as [Hx| ->%list_elem_of_singleton].
    + case_decide as Hty; [|auto]. specialize (T2 x Hx Hc Ht). rewrite (Ho Hty) in T2. done.
    + simpl in *. by rewrite decide_True.
Qed.

Lemma timer_ok_other k k' c d o :
  (forall x, wk_cep x <> c -> x ∈ k_works k' <-> x ∈ k_works k) -> d <> c -> timer_ok k d o -> timer_ok k' d o.
Proof.
  intros Hin Hd [T1 T2]. split.
  - intros w Hw. apply Hin; [simpl; congruence|auto].
  - intros w Hw <- Ht. apply T2; auto. by apply Hin.
Qed.

Lemma elem_works_app c x l w type : wk_cep x <> c -> x ∈ l ++ [Work w c type] <-> x ∈ l.
Proof.
  intros Hx. rewrite elem_of_app, list_elem_of_singleton. split; [|auto].
  intros [?| ->]; [done|]. by simpl in Hx.
Qed.

Lemma kinv_push X Y k c v u n w type :
  kinv (<[c := n + 1]> X) Y k -> k_ceps k !! c = Some v -> 0 <= n ->
  cep_ref u = cep_ref v -> cep_cm_id u = cep_cm_id v -> cep_qp u = cep_qp v ->
  type <> SIW_CM_WORK_CLOSE_LLP -> type <> SIW_CM_WORK_PEER_CLOSE ->
  (w < k_next k)%nat -> (forall x, x ∈ k_works k -> wk_id x <> w) ->
  kinv (<[c := n]> X) Y (k <| k_ceps ::= <[c := u]> |> <| k_works ::= fun l => l ++ [Work w c type] |>).
Proof.
  intros I Hc Hn Hr Hi Hq Ht1 Ht2 Hw Hfr. pose proof (ki_pos _ _ _ I c v Hc).
  apply (kinv_set_works X Y k c v u (n + 1) n); auto; try lia.
  - rewrite fmap_app, occ_app. simpl. rewrite occ_cons, occ_nil, ind_eq. lia.
  - intros d Hd. rewrite fmap_app, occ_app. simpl. rewrite occ_cons, occ_nil, ind_ne by done. lia.
  - intros x Hx. by apply elem_works_app.
  - intros x [Hx| ->%list_elem_of_singleton]%elem_of_app; simpl; [|done].
    destruct (ki_types _ _ _ I x Hx). split_and!; auto. by apply (ki_wfresh _ _ _ I).
  - rewrite fmap_app. apply NoDup_app. split_and!; [apply (ki_wids _ _ _ I)| |apply NoDup_singleton].
    intros x (y & -> & Hy)%list_elem_of_fmap. simpl. rewrite list_elem_of_singleton. by apply Hfr.
Qed.

(** A work item is queued, unless there is none left. *)
Lemma kwp_queue_work X Y c n v type (Q : Z -> kstate -> Prop) k :
  kinv (<[c := n]> X) Y k -> k_ceps k !! c = Some v -> timer_ok k c (cep_timer v) ->
  type <> SIW_CM_WORK_CLOSE_LLP -> type <> SIW_CM_WORK_PEER_CLOSE ->
  (type = SIW_CM_WORK_TIMEOUT -> cep_timer v = None) ->
  (forall r k' rf fl t, kinv (<[c := n]> X) Y k' -> keepw c k k' -> timer_ok k' c t ->
     (type <> SIW_CM_WORK_TIMEOUT -> t = cep_timer v) -> (cep_freelist v <> O -> r = 0) ->
     (r = 0 /\ rf = cep_ref v + 1 /\ (type = SIW_CM_WORK_TIMEOUT -> is_Some t) \/
      r <> 0 /\ rf = cep_ref v /\ t = cep_timer v) ->
     k_ceps k' !! c = Some (v <| cep_ref := rf |> <| cep_freelist := fl |> <| cep_timer := t |>) -> Q r k') ->
  kwp (siw_cm_queue_work c type) Q k.
Proof.
  intros I Hc HT Hty1 Hty2 Htm HQ. unfold siw_cm_queue_work, siw_get_work.
  do 2 apply kwp_bind. eapply kwp_get_cep; [done|].
  destruct (cep_freelist v) as [|fl] eqn:Efl.
  { apply kwp_ret. simpl. apply kwp_ret.
    apply (HQ _ _ (cep_ref v) (cep_freelist v) (cep_timer v)); auto; try done.
    rewrite Hc, Efl. destruct v; simpl in *; by subst. }
  apply kwp_bind. eapply kwp_upd_cep; [done..|]. intros k1 I1 E1 Hc1. apply kwp_ret. simpl.
  apply kwp_bind. eapply kwp_cep_get; [done..|]. intros k2 I2 E2 Hc2.
  apply kwp_bind. apply (kwp_fresh _ _ c _ _ I2). intros k3 I3 E3 Hc3 Hn3 Hw3. rewrite Hc2 in Hc3.
  assert (E : keep c k k3) by eauto using keep_trans. set (w := k_next k2) in *.
  set (t := if decide (type = SIW_CM_WORK_TIMEOUT) then Some w else cep_timer v).
  set (u := v <| cep_ref := cep_ref v + 1 |> <| cep_freelist := fl |> <| cep_timer := t |>).
  set (k4 := k3 <| k_ceps ::= <[c := u]> |> <| k_works ::= fun l => l ++ [Work w c type] |>).
  assert (kwp (when (bool_decide (type = SIW_CM_WORK_TIMEOUT)) (upd_cep c (fun v => v <| cep_timer := Some w |>));;
     kmodify (fun k => k <| k_works ::= fun l => l ++ [Work w c type] |>);; mret 0)
     (fun r k' => r = 0 /\ k' = k4) k3) as Hend.
  { unfold kwp, when, k4, u, t. case_bool_decide as Hb; simpl.
    - unfold mbind, KM_bind, upd_cep. rewrite Hc3. simpl. by rewrite decide_True.
    - split; [done|]. rewrite decide_False by done. destruct k3; simpl in *. f_equal.
      symmetry. apply insert_id. rewrite Hc3. by destruct v. }
  eapply kwp_mono; [exact Hend|]. intros r k' [-> ->].
  apply (HQ _ _ (cep_ref v + 1) fl t); auto.
  - eapply kinv_push; [exact I3|exact Hc3|..]; auto; [|lia|].
    + apply (ki_toks _ _ _ I c). by rewrite lookup_insert_eq.
    + intros x. rewrite Hw3. intros Hx%(ki_wfresh _ _ _ I2). lia.
  - eapply keepw_trans; [apply keep_w, E|]. split; [split|]; auto.
    + intros d Hd. simpl. by rewrite lookup_insert_ne.
    + intros d o Hd. apply (timer_ok_other _ _ c); [|done]. intros x. apply elem_works_app.
  - apply (timer_ok_app k3 c _ w type (k_works k3 ++ [Work w c type])); auto. by apply (kp_timer _ _ _ E).
  - intros Hne. unfold t. by rewrite decide_False.
  - left. split_and!; auto. intros Hty. unfold t. rewrite decide_True by done. by eexists.
  - simpl. by rewrite lookup_insert_eq.
Qed.

Lemma elem_works_remove c x l1 l2 w : wk_cep w = c -> wk_cep x <> c -> x ∈ l1 ++ l2 <-> x ∈ l1 ++ w :: l2.
Proof.
  intros Hw Hx. rewrite !elem_of_app, elem_of_cons. split; [tauto|].
  intros [?|[->|?]]; [tauto|done|tauto].
Qed.

(** A work item of an open endpoint leaves the queue. *)
Lemma kinv_pop X Y k c v u n n' w l1 l2 :
  kinv (<[c := n]> X) Y k -> k_ceps k !! c = Some v -> k_works k = l1 ++ w :: l2 -> wk_cep w = c ->
  0 < cep_ref u -> 0 <= n' -> cep_ref u = cep_ref v + n' - n - 1 ->
  cep_cm_id u = cep_cm_id v -> cep_qp u = cep_qp v ->
  kinv (<[c := n']> X) Y (k <| k_ceps ::= <[c := u]> |> <| k_works := l1 ++ l2 |>).
Proof.
  intros I Hc Hl Hw Hpos Hn Hr Hi Hq.
  apply (kinv_set_works X Y k c v u n n'); auto; try rewrite Hl.
  - rewrite !fmap_app, fmap_cons, !occ_app, occ_cons, Hw, ind_eq. lia.
  - intros d Hd. rewrite !fmap_app, fmap_cons, !occ_app, occ_cons, Hw, ind_ne by done. lia.
  - intros x Hx. by apply (elem_works_remove c).
  - intros x Hx. assert (x ∈ k_works k) as Hx'.
    { rewrite Hl. apply elem_of_app in Hx as [?|?]; apply elem_of_app; [by left|right; by apply elem_of_cons; right]. }
    destruct (ki_types _ _ _ I x Hx'). split_and!; auto. by apply (ki_wfresh _ _ _ I).
  - pose proof (ki_wids _ _ _ I) as Hnd. rewrite Hl, fmap_app, fmap_cons in Hnd.
    rewrite fmap_app. eapply NoDup_app in Hnd as (N1 & N2 & N3). apply NoDup_cons in N3 as [_ N3].
    apply NoDup_app. split_and!; auto. intros x Hx Hx2. eapply N2; [done|]. apply elem_of_cons. by right.
Qed.

Lemma remove_work l w :
  NoDup (wk_id <$> l) -> w ∈ l ->
  exists l1 l2, l = l1 ++ w :: l2 /\ List.filter (fun x => negb (wk_id x =? wk_id w)%nat) l = l1 ++ l2.
Proof.
  intros Hnd (l1 & l2 & ->)%list_elem_of_split. exists l1, l2. split; [done|].
  rewrite fmap_app, fmap_cons in Hnd. apply NoDup_app in Hnd as (_ & N2 & N3).
  apply NoDup_cons in N3 as [N3 _]. rewrite List.filter_app. simpl. rewrite Nat.eqb_refl. simpl.
  assert (forall l, wk_id w ∉ wk_id <$> l -> List.filter (fun x => negb (wk_id x =? wk_id w)%nat) l = l) as Hid.
  { clear. induction l as [|x l IH]; simpl; [done|]. intros Hx. apply not_elem_of_cons in Hx as [Hx1 Hx2].
    destruct (Nat.eqb_spec (wk_id x) (wk_id w)); [congruence|]. simpl. by rewrite IH. }
  rewrite !Hid; [done|done|]. intros Hw. eapply N2; [exact Hw|]. by left.
Qed.

Lemma kwp_cancel_timer X Y c n v (Q : unit -> kstate -> Prop) k :
  kinv (<[c := n]> X) Y k -> k_ceps k !! c = Some v -> timer_ok k c (cep_timer v) -> 1 <= n ->
  (forall k' rf, kinv (<[c := n]> X) Y k' -> keepw c k k' -> timer_ok k' c None ->
     rf = cep_ref v - (if decide (is_Some (cep_timer v)) then 1 else 0) ->
     k_ceps k' !! c = Some (v <| cep_ref := rf |> <| cep_timer := None |>) -> Q tt k') ->
  kwp (siw_cancel_timer c) Q k.
Proof.
  intros I Hc [T1 T2] Hn HQ. unfold siw_cancel_timer. apply kwp_bind. eapply kwp_get_cep; [done|].
  destruct (cep_timer v) as [w|] eqn:Et.
  2:{ apply kwp_ret. apply (HQ _ (cep_ref v)); auto; try done; [rewrite decide_False by (by intros []); lia|].
      rewrite Hc. destruct v; simpl in *; by subst. }
  specialize (T1 w eq_refl). destruct (remove_work _ _ (ki_wids _ _ _ I) T1) as (l1 & l2 & Hl & Hf).
  simpl in Hf. pose proof (kinv_ref_ge _ _ _ _ _ _ I Hc) as Hge.
  assert (2 <= cep_ref v) as Hr.
  { pose proof (ki_ref _ _ _ I c) as E. unfold toks in E. rewrite lookup_insert_eq, Hc in E. simpl in E.
    unfold uses in E. pose proof (occ_works_ge k _ c T1 eq_refl). pose proof (nrefs_nonneg ks_user (k_socks k) c).
    pose proof (nrefs_nonneg kq_cep (k_qps k) c). pose proof (occ_nonneg (file_ceps k) c). lia. }
  unfold when. apply kwp_bind, kwp_gets.
  rewrite (proj2 (existsb_exists _ _)).
  2:{ exists (Work w c SIW_CM_WORK_TIMEOUT). split; [by apply list_elem_of_In|]. apply Nat.eqb_refl. }
  set (u := v <| cep_ref := cep_ref v - 1 |> <| cep_timer := None |>).
  set (k1 := k <| k_ceps ::= <[c := u]> |> <| k_works := l1 ++ l2 |>).
  assert (timer_ok k1 c None) as Ht1.
  { split; [done|]. intros x Hx Hxc Hxt. exfalso. simpl in Hx.
    assert (x ∈ k_works k) as Hx'.
    { rewrite Hl. apply elem_of_app in Hx as [?|?]; apply elem_of_app; [by left|right; by apply elem_of_cons; right]. }
    specialize (T2 x Hx' Hxc Hxt) as [= Hid]. pose proof (ki_wids _ _ _ I) as Hnd.
    rewrite <- Hf in Hx. apply list_elem_of_In, filter_In in Hx as [_ Hx]. by rewrite Hid, Nat.eqb_refl in Hx. }
  eapply (kwp_mono _ (fun _ k' => k' = k1)).
  { do 2 apply kwp_bind. apply kwp_kmodify. apply kwp_bind. eapply kwp_get_cep; [done|].
    destruct (Z.ltb_spec (cep_ref v) 1); [lia|]. destruct (Z.eqb_spec (cep_ref v) 1); [lia|].
    eapply kwp_upd; [done|]. eapply kwp_upd; [apply lookup_insert_eq|].
    unfold k1. destruct k; simpl in *. by rewrite Hf, insert_insert_eq. }
  intros [] k' ->. apply (HQ _ (cep_ref v - 1)); auto.
  - eapply kinv_pop; eauto; simpl; lia.
  - split; [split|]; auto.
    + intros d Hd. simpl. by rewrite lookup_insert_ne.
    + intros d o Hd. apply (timer_ok_other _ _ c); [|done]. intros x Hx. simpl. rewrite Hl.
      by apply (elem_works_remove c).
  - simpl. by rewrite lookup_insert_eq.
Qed.

(** ** Rules for sockets *)

Lemma kinv_set_socks X X' Y k m :
  kinv X Y k ->
  (forall d, nrefs ks_user m d + toks X' (k_ceps k !! d) d =
             nrefs ks_user (k_socks k) d + toks X (k_ceps k !! d) d) ->
  (forall d, X' !! d = None -> X !! d = None) -> (forall d n, X' !! d = Some n -> 0 <= n) ->
  (forall d o, X' !! d = None -> sock_ok k d o -> sock_ok (k <| k_socks := m |>) d o) ->
  (forall s, is_Some (m !! s) -> (s < k_next k)%nat) ->
  kinv X' Y (k <| k_socks := m |>).
Proof.
  intros I Hn HX Hpos Hok Hfr. destruct I. split; simpl; try done.
  - intros d. specialize (ki_ref0 d). specialize (Hn d). unfold uses, file_ceps in *. simpl. lia.
  - intros d v Hd Hv. destruct (ki_ok0 d v (HX d Hd) Hv) as [? ? ? Hs ? ? ? ?]. split; try done. by apply Hok.
Qed.

(** A socket is changed, but not the endpoint it works for. *)
Lemma kinv_upd_sock X Y k s sv f :
  kinv X Y k -> k_socks k !! s = Some sv -> ks_user (f sv) = ks_user sv ->
  kinv X Y (k <| k_socks ::= <[s := f sv]> |>) /\
  (forall d o, sock_ok k d o -> sock_ok (k <| k_socks ::= <[s := f sv]> |>) d o) /\
  (forall s', sock_free k s' -> sock_free (k <| k_socks ::= <[s := f sv]> |>) s').
Proof.
  intros I Hs Hu.
  assert (forall d o, sock_ok k d o -> sock_ok (k <| k_socks ::= <[s := f sv]> |>) d o) as Hok.
  { intros d o Hd s' ->. destruct (Hd s' eq_refl) as (sv' & Hs' & Hu'). simpl.
    destruct (decide (s = s')) as [<-|]; [rewrite lookup_insert_eq|rewrite lookup_insert_ne by done]; [|eauto].
    eexists. split; [done|]. rewrite Hu. congruence. }
  split_and!; [|done|].
  2:{ intros s' (sv' & Hs' & Hu'). unfold sock_free. simpl.
    destruct (decide (s = s')) as [<-|]; [rewrite lookup_insert_eq|rewrite lookup_insert_ne by done]; [|eauto].
    eexists. split; [done|]. rewrite Hu. congruence. }
  apply (kinv_set_socks X); auto.
  - intros d. rewrite (nrefs_insert ks_user _ _ sv), Hu by done. lia.
  - intros d. apply (ki_toks _ _ _ I).
  - intros s' Hs'. apply (ki_sfresh _ _ _ I). destruct (decide (s = s')) as [<-|]; [by eexists|].
    by rewrite lookup_insert_ne in Hs'.
Qed.

Lemma kwp_upd_sock X Y c s sv f (Q : unit -> kstate -> Prop) k :
  kinv X Y k -> k_socks k !! s = Some sv -> ks_user (f sv) = ks_user sv ->
  (forall k', kinv X Y k' -> keep c k k' -> k_ceps k' !! c = k_ceps k !! c -> k_socks k' !! s = Some (f sv) ->
     Q tt k') ->
  kwp (upd_sock s f) Q k.
Proof.
  intros I Hs Hu HQ. unfold kwp, upd_sock. rewrite Hs. simpl.
  destruct (kinv_upd_sock X Y k s sv f I Hs Hu) as (I' & Hok & Hfr). apply HQ; auto.
  - split; [split; [split|]|]; auto.
  - simpl. by rewrite lookup_insert_eq.
Qed.

Lemma cep_put_socks c g k :
  siw_cep_put c (k <| k_socks ::= g |>) =
  match siw_cep_put c k with Ok (a, k') => Ok (a, k' <| k_socks ::= g |>) | Fault e => Fault e end.
Proof.
  unfold siw_cep_put, get_cep, upd_cep, siw_cep_dealloc, mbind, KM_bind. simpl.
  destruct (k_ceps k !! c) as [u|] eqn:E; [|done]. simpl.
  destruct (cep_ref u <? 1); [done|]. destruct (cep_ref u =? 1); [done|]. simpl. by rewrite E.
Qed.

(** The socket of an open endpoint is released. *)
Lemma kwp_release_sock X Y c n v (Q : unit -> kstate -> Prop) k :
  kinv (<[c := n]> X) Y k -> k_ceps k !! c = Some v -> is_Some (cep_sock v) -> sock_ok k c (cep_sock v) ->
  2 <= cep_ref v ->
  (forall k', kinv (<[c := n]> X) Y k' -> keepb c k k' ->
     (forall o, timer_ok k c o -> timer_ok k' c o) ->
     k_ceps k' !! c = Some (v <| cep_ref := cep_ref v - 1 |> <| cep_sock := None |>) -> Q tt k') ->
  kwp (release_sock c) Q k.
Proof.
  intros I Hc [s Es] Hs Hr HQ. destruct (Hs s Es) as (sv & Hsv & Hu). set (g := delete s : gmap nat ksock -> _).
  assert (0 <= n) by (apply (ki_toks _ _ _ I c); by rewrite lookup_insert_eq).
  assert (forall d o, d <> c -> sock_ok k d o -> sock_ok (k <| k_socks ::= g |>) d o) as Hok.
  { intros d o Hd Ho s' ->. destruct (Ho s' eq_refl) as (sv' & Hs' & Hu'). exists sv'. split; [|done].
    simpl. unfold g. rewrite lookup_delete_ne; [done|congruence]. }
  assert (I2 : kinv (<[c := n + 1]> X) Y (k <| k_socks ::= g |>)).
  { apply (kinv_set_socks (<[c := n]> X)); auto.
    - intros d. pose proof (nrefs_delete ks_user _ _ _ d Hsv) as E. rewrite Hu in E. unfold toks, g.
      destruct (decide (c = d)) as [<-|]; [rewrite !lookup_insert_eq, ind_eq in *|
        rewrite !lookup_insert_ne, ind_ne in * by done]; lia.
    - intros d. destruct (decide (c = d)) as [<-|]; [by rewrite lookup_insert_eq|by rewrite !lookup_insert_ne].
    - intros d m. destruct (decide (c = d)) as [<-|]; [rewrite lookup_insert_eq; intros [= <-]; lia|].
      rewrite lookup_insert_ne by done. intros Hd. apply (ki_toks _ _ _ I d). by rewrite lookup_insert_ne.
    - intros d o Hd. apply Hok. intros ->. by rewrite lookup_insert_eq in Hd.
    - intros s' [u Hs']. unfold g in Hs'. apply lookup_delete_Some in Hs' as [_ Hs']. apply (ki_sfresh _ _ _ I). by eexists. }
  assert (Hput : kwp (siw_cep_put c;; upd_cep c (fun v => v <| cep_sock := None |>)) Q (k <| k_socks ::= g |>)).
  { apply kwp_bind. eapply (kwp_cep_put_keep X Y c); [exact I2|exact Hc|lia|done|]. intros k1 I1 E1 Hc1.
    replace (n + 1 - 1) with n in I1 by lia.
    eapply kwp_upd_cep; [exact I1|exact Hc1|done..|]. intros k3 I3 E3 Hc3.
    pose proof (keep_trans _ _ _ _ E1 E3) as E. apply HQ; [done| | |done].
    - eapply keepb_trans; [|apply keep_b, E]. split; auto.
      intros s' (sv' & Hs' & Hu'). exists sv'. split; [|done]. simpl. unfold g. rewrite lookup_delete_ne; [done|congruence].
    - intros o Ho. by apply (kp_timer _ _ _ E). }
  revert Hput. unfold release_sock, siw_socket_disassoc, sock_release, kwp, mbind, KM_bind, get_cep, get_sock, kmodify, nonnull.
  rewrite cep_put_socks, Hc. simpl. rewrite Es, Hsv. simpl. rewrite Hu.
  destruct (siw_cep_put c k) as [[[] k']|] eqn:Ep; [|done].
  assert (k_socks k' = k_socks k) as Eks.
  { revert Ep. unfold siw_cep_put, get_cep, upd_cep, siw_cep_dealloc, mbind, KM_bind, kmodify. simpl.
    rewrite Hc. simpl. destruct (cep_ref v <? 1); [by intros [= <-]|].
    destruct (cep_ref v =? 1); [by intros [= <-]|]. simpl. rewrite Hc. by intros [= <-]. }
  replace (k_socks k' !! s) with (Some sv) by (by rewrite Eks). done.
Qed.

(** ** Rules for events and messages *)

Lemma keep_same c k k' :
  k_ceps k' = k_ceps k -> k_qps k' = k_qps k -> k_ids k' = k_ids k -> k_file k' = k_file k ->
  k_cqs k' = k_cqs k -> k_cq_idr k' = k_cq_idr k -> k_pds k' = k_pds k -> k_socks k' = k_socks k ->
  k_works k' = k_works k -> k_rets k' = k_rets k -> keep c k k'.
Proof.
  intros E1 E2 E3 E4 E5 E6 E7 E8 E9 E10. split; [split; [split|]|]; auto;
    unfold sock_ok, sock_free, timer_ok; rewrite ?E1, ?E3, ?E8, ?E9, ?E10; auto.
Qed.

(** The connection manager id that an event goes to. *)
Definition upcall_id (k : kstate) (v : siw_cep) (reason : iw_cm_event_type) : Prop :=
  if decide (reason = IW_CM_EVENT_CONNECT_REQUEST)
  then exists l lv, cep_listen_cep v = Some l /\ k_ceps k !! l = Some lv /\ is_Some (cep_cm_id lv)
  else is_Some (cep_cm_id v).

Lemma kwp_upcall X Y c v reason status (Q : Z -> kstate -> Prop) k :
  kinv X Y k -> k_ceps k !! c = Some v -> upcall_id k v reason ->
  (forall r k', kinv X Y k' -> keep c k k' -> k_ceps k' !! c = Some v -> r <= 0 ->
     (Forall (Z.le 0) (k_rets k) -> r = 0) -> Q r k') ->
  kwp (siw_cm_upcall c reason status) Q k.
Proof.
  intros I Hc Hid HQ. unfold siw_cm_upcall. apply kwp_bind. eapply kwp_get_cep; [done|].
  assert (exists i iv, k_ids k !! i = Some iv /\
    kwp (if bool_decide (reason = IW_CM_EVENT_CONNECT_REQUEST)
         then l ← nonnull (cep_listen_cep v); lv ← get_cep l; nonnull (cep_cm_id lv) else nonnull (cep_cm_id v))
      (fun j k' => j = i /\ k' = k) k) as (i & iv & Hi & Hw).
  { unfold upcall_id in Hid. case_decide as Hr.
    - destruct Hid as (l & lv & Hl & Hlv & i & Hi). destruct (ki_id _ _ _ I l lv i Hlv Hi) as [iv Hiv].
      exists i, iv. split; [done|]. rewrite bool_decide_true by done. apply kwp_bind. eapply kwp_nonnull; [done|].
      apply kwp_bind. eapply kwp_get_cep; [done|]. by eapply kwp_nonnull.
    - destruct Hid as [i Hi]. destruct (ki_id _ _ _ I c v i Hc Hi) as [iv Hiv]. exists i, iv. split; [done|].
      rewrite bool_decide_false by done. by eapply kwp_nonnull. }
  apply kwp_bind. eapply kwp_mono; [exact Hw|]. intros j k' [-> ->].
  apply kwp_bind. eapply kwp_get_id; [done|]. apply kwp_bind, kwp_kmodify.
  apply (kwp_kerr X Y c); [eapply kinv_frame; [done|by split]|]. intros r k' I' E Ec Hr0 Hr. simpl in *.
  apply HQ; auto; [|by rewrite Ec]. eapply keep_trans; [|exact E]. by apply keep_same.
Qed.

Lemma kwp_send X Y c d n v pdata pd_len (Q : Z -> kstate -> Prop) k :
  kinv (<[c := n]> X) Y k -> k_ceps k !! c = Some v -> is_Some (cep_sock v) -> sock_ok k d (cep_sock v) ->
  (forall r k' h, kinv (<[c := n]> X) Y k' -> keep c k k' -> k_ceps k' !! c = Some (v <| cep_hdr := h |>) -> r <= 0 ->
     (Forall (Z.le 0) (k_rets k) -> r = 0) -> Q r k') ->
  kwp (siw_send_trpreqrep c pdata pd_len) Q k.
Proof.
  intros I Hc [s Es] Hs HQ. destruct (Hs s Es) as (sv & Hsv & _). unfold siw_send_trpreqrep, set_hdr.
  apply kwp_bind. eapply kwp_get_cep; [done|]. apply kwp_bind. eapply kwp_nonnull; [done|].
  apply kwp_bind. eapply kwp_get_sock; [done|].
  apply kwp_bind. eapply kwp_upd_cep; [done..|]. intros k1 I1 E1 Hc1.
  apply kwp_bind. eapply kwp_get_cep; [done|].
  apply kwp_bind. apply (kwp_kerr _ _ c _ _ I1). intros r k2 I2 E2 Hc2 Hr0 Hr. rewrite Hc1 in Hc2.
  apply kwp_bind. unfold when.
  match goal with |- kwp (if _ then kmodify ?f else _) _ _ => set (g := f) end.
  set (h := cep_hdr v <| rr_pd_len := u8 pd_len |>).
  assert (forall k3, kinv (<[c := n]> X) Y k3 -> keep c k2 k3 -> k_ceps k3 !! c = k_ceps k2 !! c ->
    kwp (mret (if r <? 0 then r else 0)) Q k3) as Hend.
  { intros k3 I3 E3 Hc3. apply kwp_ret. apply (HQ _ _ h); auto.
    - eauto using keep_trans.
    - rewrite Hc3, Hc2. by destruct v.
    - destruct (Z.ltb_spec r 0); lia.
    - intros H. rewrite Hr; [done|]. by apply (kp_rets _ _ _ (keep_b _ _ _ E1)). }
  destruct (r <? 0); simpl; [apply kwp_ret|apply kwp_kmodify]; apply Hend; auto using keep_refl.
  - eapply kinv_frame; [done|by split].
  - by apply keep_same.
Qed.

Lemma get_trp_rr_ok buf : length buf = sizeof_trp_rr -> exists r, get_trp_rr buf = Ok r.
Proof.
  intros Hl. unfold get_trp_rr, get_trp, get_be. rewrite Hl. simpl. eauto.
Qed.

Lemma trp_rr_bytes_length r : length (trp_rr_bytes r) = sizeof_trp_rr.
Proof. unfold trp_rr_bytes, trp_bytes. rewrite !length_app, !be_encode_length. done. Qed.

Lemma kwp_recvmsg X Y c d s cap (Q : Z * option (sockaddr_in * bytes) -> kstate -> Prop) k :
  kinv X Y k -> sock_ok k d (Some s) ->
  (forall res k', kinv X Y k' -> keep c k k' -> k_ceps k' !! c = k_ceps k !! c -> Q res k') ->
  kwp (kernel_recvmsg s cap) Q k.
Proof.
  intros I Hs HQ. unfold kernel_recvmsg. apply kwp_bind. apply (kwp_kerr X Y c _ _ I).
  intros r k1 I1 E1 Hc1 _ _. destruct (r <? 0); [apply kwp_ret, HQ; auto|].
  assert (exists sv, k_socks k1 !! s = Some sv) as [sv Hsv].
  { destruct (decide (d = c)) as [->|Hd].
    - apply (kp_sock _ _ _ (keep_w _ _ _ E1)) in Hs. destruct (Hs s eq_refl) as (sv & ? & _). eauto.
    - apply (kp_socks _ _ _ (keep_b _ _ _ E1)) in Hs; [|done]. destruct (Hs s eq_refl) as (sv & ? & _). eauto. }
  apply kwp_bind. eapply kwp_get_sock; [done|]. destruct (ks_inbox sv) as [|[from data] rest]; [apply kwp_ret, HQ; auto|].
  apply kwp_bind. eapply (kwp_upd_sock X Y c); [done..|]. intros k2 I2 E2 Hc2 _. apply kwp_ret, HQ; auto.
  - eauto using keep_trans.
  - congruence.
Qed.

Lemma kwp_recv X Y c d n v (Q : Z -> kstate -> Prop) k :
  kinv (<[c := n]> X) Y k -> k_ceps k !! c = Some v -> is_Some (cep_sock v) -> sock_ok k d (cep_sock v) ->
  (forall r k' h p a, kinv (<[c := n]> X) Y k' -> keep c k k' ->
     k_ceps k' !! c = Some (v <| cep_hdr := h |> <| cep_pdata := p |> <| cep_raddr := a |>) ->
     r = 0 \/ r = - EPROTO -> Q r k') ->
  kwp (siw_recv_trp_rr c) Q k.
Proof.
  intros I Hc [s Es] Hs HQ. unfold siw_recv_trp_rr.
  apply kwp_bind. eapply kwp_get_cep; [done|]. apply kwp_bind. eapply kwp_nonnull; [done|].
  rewrite Es in Hs. apply kwp_bind. eapply (kwp_recvmsg _ _ c d); [done..|].
  intros [rv dgram] k1 I1 E1 Hc1. rewrite Hc in Hc1. apply kwp_bind.
  assert (forall h p k2, kinv (<[c := n]> X) Y k2 -> keep c k k2 ->
    k_ceps k2 !! c = Some (v <| cep_hdr := h |> <| cep_pdata := p |>) ->
    kwp (if u64 rv <? Z.of_nat sizeof_trp_rr then mret (- EPROTO) else
         v ← get_cep c;
         let pd_len := rr_pd_len (cep_hdr v) in
         if (URDMA_PDATA_LEN_MAX <? pd_len) || negb (u64 rv =? Z.of_nat sizeof_trp_rr + pd_len)
         then mret (- EPROTO) else
         upd_cep c (fun v => v <| cep_raddr := match dgram with Some (from, _) => from | None => AF_INET_ANY end |>);;
         mret 0) Q k2) as Hend.
  { intros h p k2 I2 E2 Hc2.
    assert (Hfail : kwp (mret (- EPROTO)) Q k2).
    { apply kwp_ret. apply (HQ _ _ h p (cep_raddr v)); auto. }
    destruct (_ <? _); [done|]. apply kwp_bind. eapply kwp_get_cep; [done|]. simpl. destruct (_ || _); [done|].
    apply kwp_bind. eapply kwp_upd_cep; [done..|]. intros k3 I3 E3 Hc3. apply kwp_ret.
    eapply HQ; [done|eauto using keep_trans|exact Hc3|auto]. }
  destruct dgram as [[from data]|].
  - destruct (get_trp_rr_ok (splice 0 (take sizeof_trp_rr data) (trp_rr_bytes (cep_hdr v)))) as [h Hh].
    { rewrite splice_length; rewrite trp_rr_bytes_length; [done|]. rewrite length_take. lia. }
    rewrite Hh. apply kwp_bind. apply kwp_ret. eapply kwp_upd_cep; [done..|]. intros k2 I2 E2 Hc2.
    eapply Hend; [done|eauto using keep_trans|exact Hc2].
  - apply kwp_ret. apply (Hend (cep_hdr v) (cep_pdata v)); auto. rewrite Hc1. by destruct v.
Qed.

(** ** Rules for connection manager ids *)

(** The id of an open endpoint changes, and the references of the id with it. *)
Lemma kinv_set_cm_id X Y k c v w n i iv r :
  kinv (<[c := n]> X) Y k -> k_ceps k !! c = Some v -> k_ids k !! i = Some iv ->
  cep_ref w = cep_ref v -> cep_qp w = cep_qp v -> (forall j, cep_cm_id w = Some j -> j = i) ->
  (forall j, j <> i -> ind (cep_cm_id v) j = 0) -> r = id_ref iv - ind (cep_cm_id v) i + ind (cep_cm_id w) i ->
  kinv (<[c := n]> X) Y (k <| k_ceps ::= <[c := w]> |> <| k_ids ::= <[i := iv <| id_ref := r |>]> |>).
Proof.
  intros I Hc Hi Hr Hq Hj Hv Hrr.
  assert (forall j, listeners (k <| k_ceps ::= <[c := w]> |> <| k_ids ::= <[i := iv <| id_ref := r |>]> |>) j
    = listeners k j) as HL.
  { intros j. apply listeners_ext. simpl. destruct (decide (i = j)) as [<-|].
    - by rewrite lookup_insert_eq, Hi.
    - by rewrite lookup_insert_ne. }
  destruct I. split; simpl; try done.
  - intros d. rewrite (uses_ext k) by done. specialize (ki_ref0 d). unfold toks in *.
    destruct (decide (c = d)) as [<-|Hd].
    + rewrite !lookup_insert_eq in *. rewrite Hc in ki_ref0. simpl in *. lia.
    + by rewrite !lookup_insert_ne in * by done.
  - intros d u. destruct (decide (c = d)) as [<-|]; [rewrite lookup_insert_eq|rewrite lookup_insert_ne by done];
      [intros [= <-]; rewrite Hr; eauto|apply ki_pos0].
  - intros q. rewrite (nrefs_insert cep_qp _ _ v), ki_qref0, Hq by done. lia.
  - intros j u. rewrite (nrefs_insert cep_cm_id _ _ v) by done. destruct (decide (i = j)) as [<-|Hne].
    + rewrite lookup_insert_eq. intros [= <-]. simpl. rewrite Hrr, (ki_idref0 i iv Hi). done.
    + rewrite lookup_insert_ne by done. intros Hu. rewrite Hv by done. rewrite (ki_idref0 j u Hu).
      unfold ind. rewrite decide_False; [lia|]. intros Hw. apply Hj in Hw. congruence.
  - intros d u j Hd Hu. destruct (decide (i = j)) as [<-|Hne]; [rewrite lookup_insert_eq; by eexists|].
    rewrite lookup_insert_ne by done. destruct (decide (c = d)) as [<-|].
    + rewrite lookup_insert_eq in Hd. injection Hd as <-. apply Hj in Hu. congruence.
    + rewrite lookup_insert_ne in Hd by done. eauto.
  - intros d u. destruct (decide (c = d)) as [<-|]; [by rewrite lookup_insert_eq|rewrite !lookup_insert_ne by done].
    intros H1 H2. destruct (ki_ok0 d u) as [? ? ? ? ? ? Hp ?]; [by rewrite lookup_insert_ne|done|].
    split; try done. intros j. rewrite HL. apply Hp.
  - intros d [u Hu]. apply ki_cfresh0. destruct (decide (c = d)) as [<-|]; [by eexists|].
    rewrite lookup_insert_ne in Hu by done. by eexists.
  - intros j d. rewrite HL. intros Hd. specialize (ki_listen0 j d Hd). destruct (decide (c = d)) as [<-|].
    + rewrite lookup_insert_eq. by eexists.
    + by rewrite lookup_insert_ne.
  - intros j. by rewrite HL.
  - rewrite ki_num0, map_size_insert_Some; done.
  - intros p pv d u Hp Hpc. destruct (decide (c = d)) as [<-|];
      [rewrite lookup_insert_eq|rewrite lookup_insert_ne by done; eauto]. intros [= <-]. rewrite Hq. eauto.
Qed.

Lemma keep_set_cm_id k c w i iv r :
  k_ids k !! i = Some iv ->
  keep c k (k <| k_ceps ::= <[c := w]> |> <| k_ids ::= <[i := iv <| id_ref := r |>]> |>).
Proof.
  intros Hi. split; [split; [split|]|]; auto; simpl.
  - intros d Hd. by rewrite lookup_insert_ne.
  - intros j. destruct (decide (i = j)) as [<-|]; [by rewrite lookup_insert_eq, Hi|by rewrite lookup_insert_ne].
Qed.

Lemma kwp_drop_cm_id X Y c n v (Q : bool -> kstate -> Prop) k :
  kinv (<[c := n]> X) Y k -> k_ceps k !! c = Some v ->
  (forall k', kinv (<[c := n]> X) Y k' -> keep c k k' -> k_ceps k' !! c = Some (v <| cep_cm_id := None |>) ->
     Q (bool_decide (is_Some (cep_cm_id v))) k') ->
  kwp (drop_cm_id c) Q k.
Proof.
  intros I Hc HQ. unfold drop_cm_id. apply kwp_bind. eapply kwp_get_cep; [done|].
  destruct (cep_cm_id v) as [i|] eqn:Ei.
  - rewrite bool_decide_true in HQ by (by eexists). destruct (ki_id _ _ _ I c v i Hc Ei) as [iv Hi].
    unfold id_rem_ref, upd_id, kwp, mbind, KM_bind, upd_cep. rewrite Hi. simpl. rewrite Hc. simpl.
    apply HQ.
    + refine (kinv_set_cm_id X Y k c v (v <| cep_cm_id := None |>) n i iv _ I Hc Hi _ _ _ _ _); auto.
      * done.
      * intros j Hj. rewrite Ei. by apply ind_ne.
      * simpl. rewrite Ei, ind_eq, ind_None. lia.
    + by apply (keep_set_cm_id k c).
    + simpl. by rewrite lookup_insert_eq.
  - apply kwp_ret. apply HQ; auto using keep_refl. rewrite Hc. destruct v; simpl in *; by subst.
Qed.

Section set_cm_id.
Context (X Y : gmap nat Z) (c i : nat) (n : Z) (v : siw_cep) (f : siw_cep -> siw_cep).
Context (Hid : cep_cm_id v = None) (Hf : cep_cm_id (f v) = Some i) (Hr : cep_ref (f v) = cep_ref v)
  (Hq : cep_qp (f v) = cep_qp v).

Lemma kinv_add_cm_id k iv :
  kinv (<[c := n]> X) Y k -> k_ceps k !! c = Some v -> k_ids k !! i = Some iv ->
  let k' := k <| k_ceps ::= <[c := f v]> |> <| k_ids ::= <[i := iv <| id_ref := id_ref iv + 1 |>]> |> in
  kinv (<[c := n]> X) Y k' /\ keep c k k' /\ k_ceps k' !! c = Some (f v).
Proof using Hid Hf Hr Hq.
  intros I Hc Hi. split_and!; [|by apply keep_set_cm_id|simpl; by rewrite lookup_insert_eq].
  apply (kinv_set_cm_id X Y k c v); auto.
  - congruence.
  - intros. by rewrite Hid.
  - rewrite Hid, Hf, ind_eq, ind_None. lia.
Qed.

Lemma kwp_set_cm_id {A} (m : KM A) (Q : A -> kstate -> Prop) k :
  kinv (<[c := n]> X) Y k -> k_ceps k !! c = Some v -> is_Some (k_ids k !! i) ->
  (forall k', kinv (<[c := n]> X) Y k' -> keep c k k' -> k_ceps k' !! c = Some (f v) -> kwp m Q k') ->
  kwp (upd_cep c f;; id_add_ref i;; m) Q k.
Proof using Hid Hf Hr Hq.
  intros I Hc [iv Hi] HQ. destruct (kinv_add_cm_id k iv I Hc Hi) as (I' & E & Hc').
  unfold id_add_ref, upd_id, upd_cep, kwp, mbind, KM_bind. rewrite Hc. simpl. rewrite Hi. simpl. by apply HQ.
Qed.

Lemma kwp_ref_cm_id {A} (m : KM A) (Q : A -> kstate -> Prop) k :
  kinv (<[c := n]> X) Y k -> k_ceps k !! c = Some v -> is_Some (k_ids k !! i) ->
  (forall k', kinv (<[c := n]> X) Y k' -> keep c k k' -> k_ceps k' !! c = Some (f v) -> kwp m Q k') ->
  kwp (id_add_ref i;; upd_cep c f;; m) Q k.
Proof using Hid Hf Hr Hq.
  intros I Hc [iv Hi] HQ. destruct (kinv_add_cm_id k iv I Hc Hi) as (I' & E & Hc').
  unfold id_add_ref, upd_id, upd_cep, kwp, mbind, KM_bind. rewrite Hi. simpl. rewrite Hc. simpl. by apply HQ.
Qed.
End set_cm_id.

(** ** Rules for queue pairs *)

(** What an operation on one queue pair leaves alone. *)
Record keepq (q : nat) (k k' : kstate) : Prop := {
  kx_ceps : k_ceps k' = k_ceps k;
  kx_qps : forall p, p <> q -> k_qps k' !! p = k_qps k !! p;
  kx_ids : k_ids k' = k_ids k;
  kx_file : k_file k' = k_file k;
  kx_cqs : k_cqs k' = k_cqs k;
  kx_idr : k_cq_idr k' = k_cq_idr k;
  kx_pds : k_pds k' = k_pds k;
  kx_socks : k_socks k' = k_socks k;
  kx_works : k_works k' = k_works k;
  kx_rets : k_rets k' = k_rets k
}.

(** A queue pair is replaced, with tokens of its own and of the endpoint it
    refers to. *)
Lemma kinv_set_qp_objs X X' Y Y' k q v w cqs idr pds dv :
  kinv X Y k -> k_qps k !! q = Some v -> 0 < kq_ref w ->
  (forall c, toks X' (k_ceps k !! c) c = toks X (k_ceps k !! c) c + ind (kq_cep v) c - ind (kq_cep w) c) ->
  (forall d, X' !! d = None -> X !! d = None) -> (forall d n, X' !! d = Some n -> 0 <= n) ->
  (forall p, p <> q -> Y' !! p = Y !! p) -> (forall p n, Y' !! p = Some n -> 0 <= n) ->
  kq_ref w = kq_ref v + qtoks Y' (Some w) q - qtoks Y (Some v) q ->
  (forall d u, X' !! d = None -> k_ceps k !! d = Some u -> cep_qp u = Some q ->
     (qp_live (kq_state w) = true -> kq_cep w = Some d) /\
     (d ∈ file_ceps k -> kq_state w = SIW_QP_STATE_RTS)) ->
  num_cep dv = num_cep (k_dev k) ->
  objs_ok (<[q := w]> (k_qps k)) cqs idr pds (num_qp dv) (num_cq dv) (num_pd dv) ->
  (forall n, is_Some (cqs !! n) \/ is_Some (pds !! n) -> (n < k_next k)%nat) ->
  (forall d, kq_cep w = Some d -> kq_cep v = Some d \/
     is_Some (X' !! d) /\ (forall u, k_ceps k !! d = Some u -> cep_qp u = None)) ->
  kinv X' Y' (k <| k_qps ::= <[q := w]> |> <| k_cqs := cqs |> <| k_cq_idr := idr |> <| k_pds := pds |>
                <| k_dev := dv |>).
Proof.
  intros I Hq Hpos HX HXd HXp HY HYp Hr Hl Hdv Ho Hfr Hb. destruct I. split; simpl; try done.
  - intros d. specialize (ki_ref0 d). unfold uses, file_ceps in *. simpl.
    rewrite (nrefs_insert kq_cep _ _ v), HX by done. lia.
  - intros p. unfold qtoks in *. destruct (decide (q = p)) as [<-|].
    + rewrite lookup_insert_eq. specialize (ki_qref0 q). rewrite Hq in ki_qref0. simpl in *. lia.
    + rewrite lookup_insert_ne by done. by rewrite ki_qref0, HY.
  - intros p u. destruct (decide (q = p)) as [<-|]; [rewrite lookup_insert_eq|rewrite lookup_insert_ne by done];
      [by intros [= <-]|apply ki_qpos0].
  - intros d u Hd Hu. destruct (ki_ok0 d u (HXd d Hd) Hu) as [? ? ? ? ? Hli ? Hn]. split; try done.
    + intros p pv Hp. simpl. destruct (decide (q = p)) as [<-|].
      * rewrite lookup_insert_eq. intros [= <-]. by apply (Hl d u).
      * rewrite lookup_insert_ne by done. by apply Hli.
    + intros Hst p pv. simpl. specialize (Hn Hst). destruct (decide (q = p)) as [<-|];
        [rewrite lookup_insert_eq|rewrite lookup_insert_ne by done; apply Hn].
      intros [= <-] Hw. destruct (Hb d Hw) as [Hv|[[? ?] _]]; [by apply (Hn q v)|congruence].
  - intros p Hp. apply ki_qfresh0. destruct (decide (q = p)) as [<-|]; [by eexists|].
    by rewrite lookup_insert_ne in Hp.
  - congruence.
  - intros p pv d u. destruct (decide (q = p)) as [<-|];
      [rewrite lookup_insert_eq|rewrite lookup_insert_ne by done; apply ki_back0].
    intros [= <-] Hw Hu. destruct (Hb d Hw) as [Hv|[_ Hv]]; [eauto|right; eauto].
Qed.

(** The objects of the queue pair stay. *)
Lemma kinv_set_qp X X' Y Y' k q v w :
  kinv X Y k -> k_qps k !! q = Some v -> 0 < kq_ref w ->
  (forall d, toks X' (k_ceps k !! d) d = toks X (k_ceps k !! d) d + ind (kq_cep v) d - ind (kq_cep w) d) ->
  (forall d, X' !! d = None -> X !! d = None) -> (forall d n, X' !! d = Some n -> 0 <= n) ->
  (forall p, p <> q -> Y' !! p = Y !! p) -> (forall p n, Y' !! p = Some n -> 0 <= n) ->
  kq_ref w = kq_ref v + qtoks Y' (Some w) q - qtoks Y (Some v) q ->
  (forall d u, X' !! d = None -> k_ceps k !! d = Some u -> cep_qp u = Some q ->
     (qp_live (kq_state w) = true -> kq_cep w = Some d) /\
     (d ∈ file_ceps k -> kq_state w = SIW_QP_STATE_RTS)) ->
  qp_objs w = qp_objs v ->
  (forall d, kq_cep w = Some d -> kq_cep v = Some d \/
     is_Some (X' !! d) /\ (forall u, k_ceps k !! d = Some u -> cep_qp u = None)) ->
  kinv X' Y' (k <| k_qps ::= <[q := w]> |>).
Proof.
  intros I Hq Hpos HX HXd HXp HY HYp Hr Hl Ho Hb.
  pose proof (kinv_set_qp_objs X X' Y Y' k q v w (k_cqs k) (k_cq_idr k) (k_pds k) (k_dev k)) as H.
  assert (E : k <| k_qps ::= <[q := w]> |> <| k_cqs := k_cqs k |> <| k_cq_idr := k_cq_idr k |> <| k_pds := k_pds k |>
    <| k_dev := k_dev k |> = k <| k_qps ::= <[q := w]> |>) by done.
  rewrite <- E. apply H; auto; [|apply (ki_ofresh _ _ _ I)]. eapply objs_set_qp; [apply (ki_objs _ _ _ I)|done..].
Qed.

(** The completion queues and protection domains change. *)
Lemma kinv_set_objs X Y k cqs idr pds d :
  kinv X Y k -> num_cep d = num_cep (k_dev k) ->
  objs_ok (k_qps k) cqs idr pds (num_qp d) (num_cq d) (num_pd d) ->
  (forall n, is_Some (cqs !! n) \/ is_Some (pds !! n) -> (n < k_next k)%nat) ->
  kinv X Y (k <| k_cqs := cqs |> <| k_cq_idr := idr |> <| k_pds := pds |> <| k_dev := d |>).
Proof.
  intros I Hd Ho Hfr. destruct I. split; simpl; try done.
  - intros c v HX Hc. apply (cep_ok_ext k); auto.
  - congruence.
Qed.

Lemma keepq_same q k k' c : keepq q k k' -> k_ceps k' !! c = k_ceps k !! c.
Proof. intros E. by rewrite (kx_ceps _ _ _ E). Qed.
Lemma keepq_sock q k k' d o : keepq q k k' -> sock_ok k d o -> sock_ok k' d o.
Proof. intros E. unfold sock_ok. by rewrite (kx_socks _ _ _ E). Qed.
Lemma keepq_free q k k' s : keepq q k k' -> sock_free k s -> sock_free k' s.
Proof. intros E. unfold sock_free. by rewrite (kx_socks _ _ _ E). Qed.
Lemma keepq_timer q k k' d o : keepq q k k' -> timer_ok k d o -> timer_ok k' d o.
Proof. intros E. unfold timer_ok. by rewrite (kx_works _ _ _ E). Qed.
Lemma keepq_prov q k k' d st o : keepq q k k' -> prov_ok k d st o -> prov_ok k' d st o.
Proof. intros E. unfold prov_ok, listeners. by rewrite (kx_ids _ _ _ E). Qed.
Lemma keepq_unlisted q k k' d : keepq q k k' -> unlisted k d -> unlisted k' d.
Proof. intros E. unfold unlisted, listeners. by rewrite (kx_ids _ _ _ E). Qed.
Lemma keepq_listed q k k' d o : keepq q k k' -> o <> Some q -> listed_ok k d o -> listed_ok k' d o.
Proof.
  intros E Ho H p pv Hp. rewrite (kx_qps _ _ _ E) by congruence. unfold file_ceps. rewrite (kx_file _ _ _ E).
  by apply H.
Qed.
Lemma keepq_trans q k k' k'' : keepq q k k' -> keepq q k' k'' -> keepq q k k''.
Proof.
  intros [C1 Q1 I1 F1 A1 B1 P1 S1 W1 R1] [C2 Q2 I2 F2 A2 B2 P2 S2 W2 R2].
  split; try congruence. intros p Hp. by rewrite Q2, Q1.
Qed.

(** What a change of other fields of a queue pair also preserves. *)
Definition keepl (k k' : kstate) : Prop :=
  (forall d o, listed_ok k d o -> listed_ok k' d o) /\ (forall d st, new_ok k d st -> new_ok k' d st).

Ltac kmove_q E :=
  lazymatch type of E with keepq ?q ?k ?k' =>
    repeat match goal with
    | L : keepl k k', H : listed_ok k ?d ?o |- _ => apply (proj1 L) in H
    | L : keepl k k', H : new_ok k ?d ?st |- _ => apply (proj2 L) in H
    | H : new_ok k ?d ?st |- _ => clear H
    | H : listed_ok k ?d ?o |- _ =>
        first [apply (keepq_listed q k k' d o E ltac:(done || congruence)) in H | clear H]
    | H : sock_ok k ?d ?o |- _ => apply (keepq_sock q k k' d o E) in H
    | H : sock_free k ?s |- _ => apply (keepq_free q k k' s E) in H
    | H : timer_ok k ?d ?o |- _ => apply (keepq_timer q k k' d o E) in H
    | H : prov_ok k ?d ?st ?o |- _ => apply (keepq_prov q k k' d st o E) in H
    | H : unlisted k ?d |- _ => apply (keepq_unlisted q k k' d E) in H
    | H : k_qps k !! ?d = _ |- _ =>
        first [rewrite <- (kx_qps q k k' E d) in H by (done || congruence) | clear H]
    | H : context [k_ceps k] |- _ => rewrite <- (kx_ceps q k k' E) in H
    | H : context [k_ids k] |- _ => rewrite <- (kx_ids q k k' E) in H
    | H : context [k_file k] |- _ => rewrite <- (kx_file q k k' E) in H
    | H : context [k_cqs k] |- _ => rewrite <- (kx_cqs q k k' E) in H
    | H : context [k_pds k] |- _ => rewrite <- (kx_pds q k k' E) in H
    | H : context [k_rets k] |- _ => rewrite <- (kx_rets q k k' E) in H
    | H : kinv _ _ k |- _ => clear H
    end
  end.
Ltac kmove E ::=
  lazymatch type of E with
  | keepq _ _ _ => kmove_q E
  | keepb _ _ _ => kmove_b E
  | keepw _ _ _ => kmove_w E
  | keep ?c ?k ?k' =>
      repeat match goal with H : timer_ok k c ?o |- _ => apply (kp_timer c k k' E) in H end;
      let W := fresh in pose proof (kp_w c k k' E) as W; kmove_w W; clear W
  end.

Lemma kinv_openq X Y k q v : kinv X Y k -> Y !! q = None -> k_qps k !! q = Some v -> kinv X (<[q := qheld v]> Y) k.
Proof.
  intros I HY Hq. destruct I. split; try done.
  - intros p. rewrite ki_qref0. unfold qtoks. destruct (decide (q = p)) as [<-|].
    + by rewrite HY, lookup_insert_eq, Hq.
    + by rewrite lookup_insert_ne.
  - intros p m. destruct (decide (q = p)) as [<-|]; [rewrite lookup_insert_eq|rewrite lookup_insert_ne by done];
      [intros [= <-]; unfold qheld; case_match; lia|apply ki_qtoks0].
Qed.

Lemma kinv_closeq X Y k q m :
  kinv X (<[q := m]> Y) k -> Y !! q = None -> (forall v, k_qps k !! q = Some v -> m = qheld v) -> kinv X Y k.
Proof.
  intros I HY Hq. destruct I. split; try done.
  - intros p. rewrite ki_qref0. unfold qtoks. destruct (decide (q = p)) as [<-|].
    + rewrite HY, lookup_insert_eq. destruct (k_qps k !! q) as [v|] eqn:E; [by rewrite (Hq v eq_refl)|].
      specialize (ki_qref0 q). unfold qtoks in ki_qref0. rewrite lookup_insert_eq, E in ki_qref0. simpl in ki_qref0.
      pose proof (nrefs_nonneg cep_qp (k_ceps k) q).
      assert (0 <= m) by (apply (ki_qtoks0 q); by rewrite lookup_insert_eq). lia.
    + by rewrite lookup_insert_ne.
  - intros p n Hp. apply (ki_qtoks0 p). rewrite lookup_insert_ne; [done|congruence].
Qed.

(** The last reference to a queue pair goes, and it is freed. *)
Lemma kinv_del_qp X Y k q v :
  kinv X (<[q := 1]> Y) k -> k_qps k !! q = Some v -> kq_ref v = 1 -> kq_cep v = None -> kq_scq v = None ->
  kinv X (<[q := 0]> Y) (k <| k_qps ::= delete q |> <| k_dev ::= update num_qp (fun n => n - 1) |>).
Proof.
  intros I Hq Hr Hc Hscq. destruct I. split; simpl; try done.
  - intros d. rewrite ki_ref0. unfold uses, file_ceps. simpl.
    pose proof (nrefs_delete kq_cep _ _ _ d Hq) as E. rewrite Hc, ind_None in E. lia.
  - intros p. specialize (ki_qref0 p). unfold qtoks in *. destruct (decide (q = p)) as [<-|].
    + rewrite lookup_delete_eq, lookup_insert_eq. rewrite lookup_insert_eq, Hq in ki_qref0. simpl in *. lia.
    + rewrite lookup_delete_ne, lookup_insert_ne by done. by rewrite lookup_insert_ne in ki_qref0.
  - intros p u Hp. apply lookup_delete_Some in Hp as [_ Hp]. eauto.
  - intros p m. destruct (decide (q = p)) as [<-|]; [rewrite lookup_insert_eq|rewrite lookup_insert_ne by done];
      [intros [= <-]; lia|]. intros Hp. apply (ki_qtoks0 p). by rewrite lookup_insert_ne.
  - intros d u Hd Hu. destruct (ki_ok0 d u Hd Hu) as [? ? ? ? ? Hl ? Hn]. split; try done.
    + intros p pv Hp Hpv. simpl in Hpv. apply lookup_delete_Some in Hpv as [_ Hpv]. exact (Hl p pv Hp Hpv).
    + intros Hst p pv Hpv. simpl in Hpv. apply lookup_delete_Some in Hpv as [_ Hpv]. exact (Hn Hst p pv Hpv).
  - intros p [u Hp]. apply lookup_delete_Some in Hp as [_ Hp]. apply ki_qfresh0. by eexists.
  - intros p pv d u Hp. apply lookup_delete_Some in Hp as [_ Hp]. eauto.
  - by eapply objs_del_qp.
Qed.

Lemma insert_nonneg (M : gmap nat Z) q m m' :
  (forall p n, <[q := m]> M !! p = Some n -> 0 <= n) -> 0 <= m' -> forall p n, <[q := m']> M !! p = Some n -> 0 <= n.
Proof.
  intros H Hm p n. destruct (decide (q = p)) as [<-|]; [rewrite lookup_insert_eq|rewrite lookup_insert_ne by done];
    [by intros [= <-]|]. intros Hp. apply (H p). by rewrite lookup_insert_ne.
Qed.

Section qp_rules.
Context (X Y : gmap nat Z) (q : nat).

Lemma keepq_set_qp k w : keepq q k (k <| k_qps ::= <[q := w]> |>).
Proof. split; auto. intros p Hp. simpl. by rewrite lookup_insert_ne. Qed.

Lemma keepl_set_qp k v w :
  k_qps k !! q = Some v -> kq_cep w = kq_cep v -> kq_state w = kq_state v -> keepl k (k <| k_qps ::= <[q := w]> |>).
Proof.
  intros Hq Hc Hs. split.
  - intros d o Hl p pv Hp. simpl. destruct (decide (q = p)) as [<-|].
    + rewrite lookup_insert_eq. intros [= <-]. rewrite Hc, Hs. by apply (Hl q v).
    + rewrite lookup_insert_ne by done. by apply Hl.
  - intros d st Hn Hst p pv. simpl. destruct (decide (q = p)) as [<-|].
    + rewrite lookup_insert_eq. intros [= <-]. rewrite Hc. by apply (Hn Hst q v).
    + rewrite lookup_insert_ne by done. by apply Hn.
Qed.

Lemma kinv_qp_ref k v w m m' :
  kinv X (<[q := m]> Y) k -> k_qps k !! q = Some v -> kq_cep w = kq_cep v -> kq_state w = kq_state v ->
  kq_ref w = kq_ref v + m' - m -> 0 < kq_ref w -> 0 <= m' -> qp_objs w = qp_objs v ->
  kinv X (<[q := m']> Y) (k <| k_qps ::= <[q := w]> |>).
Proof.
  intros I Hq Hc Hs Hr Hpos Hm Ho. apply (kinv_set_qp X X (<[q := m]> Y) _ k q v); auto.
  - intros d. rewrite Hc. lia.
  - apply (ki_toks _ _ _ I).
  - intros p Hp. by rewrite !lookup_insert_ne.
  - eapply insert_nonneg; [apply (ki_qtoks _ _ _ I)|done].
  - unfold qtoks. rewrite !lookup_insert_eq. lia.
  - intros d u Hd Hu Hcq. destruct (ki_ok _ _ _ I d u Hd Hu) as [? ? ? ? ? Hl ? ?].
    rewrite Hc, Hs. by apply Hl with q.
  - intros d. rewrite Hc. auto.
Qed.

Lemma kwp_upd_kqp f m v (Q : unit -> kstate -> Prop) k :
  kinv X (<[q := m]> Y) k -> k_qps k !! q = Some v ->
  kq_ref (f v) = kq_ref v -> kq_cep (f v) = kq_cep v -> kq_state (f v) = kq_state v -> qp_objs (f v) = qp_objs v ->
  (forall k', kinv X (<[q := m]> Y) k' -> keepq q k k' -> keepl k k' -> k_qps k' !! q = Some (f v) -> Q tt k') ->
  kwp (upd_kqp q f) Q k.
Proof.
  intros I Hq Hr Hc Hs Ho HQ. unfold kwp, upd_kqp. rewrite Hq. simpl. pose proof (ki_qpos _ _ _ I q v Hq). apply HQ.
  - apply (kinv_qp_ref k v _ m); auto; [lia..|]. apply (ki_qtoks _ _ _ I q). by rewrite lookup_insert_eq.
  - apply keepq_set_qp.
  - by apply (keepl_set_qp k v).
  - simpl. by rewrite lookup_insert_eq.
Qed.

Lemma kwp_qp_get m v (Q : unit -> kstate -> Prop) k :
  kinv X (<[q := m]> Y) k -> k_qps k !! q = Some v ->
  (forall k', kinv X (<[q := m + 1]> Y) k' -> keepq q k k' -> keepl k k' ->
     k_qps k' !! q = Some (v <| kq_ref ::= fun r => r + 1 |>) -> Q tt k') ->
  kwp (siw_qp_get q) Q k.
Proof.
  intros I Hq HQ. unfold kwp, siw_qp_get, upd_kqp. rewrite Hq. simpl.
  pose proof (ki_qpos _ _ _ I q v Hq). assert (0 <= m) by (apply (ki_qtoks _ _ _ I q); by rewrite lookup_insert_eq).
  apply HQ.
  - apply (kinv_qp_ref k v _ m); auto; simpl; lia.
  - apply keepq_set_qp.
  - by apply (keepl_set_qp k v).
  - simpl. by rewrite lookup_insert_eq.
Qed.

Lemma kwp_qp_put m v (Q : unit -> kstate -> Prop) k :
  kinv X (<[q := m]> Y) k -> k_qps k !! q = Some v -> 1 <= m -> (kq_ref v = 1 -> kq_cep v = None /\ kq_scq v = None) ->
  (forall k', kinv X (<[q := m - 1]> Y) k' -> keepq q k k' -> keepl k k' ->
     (kq_ref v = 1 /\ k_qps k' !! q = None) \/
     (2 <= kq_ref v /\ k_qps k' !! q = Some (v <| kq_ref ::= fun r => r - 1 |>)) -> Q tt k') ->
  kwp (siw_qp_put q) Q k.
Proof.
  intros I Hq Hm Hlast HQ. pose proof (ki_qpos _ _ _ I q v Hq).
  pose proof (ki_qref _ _ _ I q) as Href. unfold qtoks in Href. rewrite lookup_insert_eq, Hq in Href. simpl in Href.
  pose proof (nrefs_nonneg cep_qp (k_ceps k) q).
  unfold siw_qp_put. apply kwp_bind. eapply kwp_get_kqp; [done|]. destruct (Z.eqb_spec (kq_ref v) 1) as [Hr|Hr].
  - unfold siw_free_qp. apply kwp_bind. eapply kwp_get_kqp; [done|]. rewrite (proj1 (Hlast Hr)).
    apply kwp_bind, kwp_ret, kwp_kmodify. assert (m = 1) as -> by lia. apply HQ.
    + destruct (Hlast Hr). eapply kinv_del_qp; eauto.
    + split; auto. intros p Hp. simpl. by rewrite lookup_delete_ne.
    + split.
      * intros d o Hl p pv Hp Hpv. simpl in Hpv. apply lookup_delete_Some in Hpv as [_ Hpv]. exact (Hl p pv Hp Hpv).
      * intros d st Hn Hst p pv Hpv. simpl in Hpv. apply lookup_delete_Some in Hpv as [_ Hpv]. by eapply Hn.
    + left. split; [done|]. simpl. by rewrite lookup_delete_eq.
  - unfold kwp, upd_kqp. rewrite Hq. simpl. apply HQ.
    + apply (kinv_qp_ref k v _ m); auto; simpl; lia.
    + apply keepq_set_qp.
    + by apply (keepl_set_qp k v).
    + right. split; [lia|]. simpl. by rewrite lookup_insert_eq.
Qed.

(** The call drops the reference it took beyond that of the user. *)
Lemma kwp_qp_put_held m v (Q : unit -> kstate -> Prop) k :
  kinv X (<[q := m]> Y) k -> k_qps k !! q = Some v -> m = qheld v + 1 -> kq_cep v = None ->
  (forall k', kinv X (<[q := m - 1]> Y) k' -> keepq q k k' -> keepl k k' ->
     (kq_ref v = 1 /\ k_qps k' !! q = None) \/
     (2 <= kq_ref v /\ k_qps k' !! q = Some (v <| kq_ref ::= fun r => r - 1 |>)) -> Q tt k') ->
  kwp (siw_qp_put q) Q k.
Proof.
  intros I Hq Hm Hc HQ. eapply kwp_qp_put; [exact I|exact Hq|unfold qheld in *; case_match; lia| |exact HQ].
  intros Hr. split; [done|]. pose proof (ki_qref _ _ _ I q) as Href. unfold qtoks in Href.
  rewrite lookup_insert_eq, Hq in Href. simpl in Href. pose proof (nrefs_nonneg cep_qp (k_ceps k) q).
  unfold qheld in Hm. destruct (kq_scq v); [lia|done].
Qed.
End qp_rules.

(** A change of the state of a queue pair. *)
Lemma kwp_qp_state X Y q f m v (Q : unit -> kstate -> Prop) k :
  kinv X (<[q := m]> Y) k -> k_qps k !! q = Some v -> kq_ref (f v) = kq_ref v -> kq_cep (f v) = kq_cep v ->
  qp_objs (f v) = qp_objs v ->
  (forall d u, X !! d = None -> k_ceps k !! d = Some u -> cep_qp u = Some q ->
     (qp_live (kq_state v) = true -> kq_cep v = Some d) -> (d ∈ file_ceps k -> kq_state v = SIW_QP_STATE_RTS) ->
     (qp_live (kq_state (f v)) = true -> kq_cep v = Some d) /\
     (d ∈ file_ceps k -> kq_state (f v) = SIW_QP_STATE_RTS)) ->
  (forall k', kinv X (<[q := m]> Y) k' -> keepq q k k' -> k_qps k' !! q = Some (f v) -> Q tt k') ->
  kwp (upd_kqp q f) Q k.
Proof.
  intros I Hq Hr Hc Ho Hs HQ. unfold kwp, upd_kqp. rewrite Hq. simpl. pose proof (ki_qpos _ _ _ I q v Hq). apply HQ.
  - apply (kinv_set_qp X X (<[q := m]> Y) _ k q v); auto.
    + lia.
    + intros d. rewrite Hc. lia.
    + apply (ki_toks _ _ _ I).
    + apply (ki_qtoks _ _ _ I).
    + unfold qtoks. rewrite !lookup_insert_eq. lia.
    + intros d u Hd Hu Hcq. destruct (ki_ok _ _ _ I d u Hd Hu) as [? ? ? ? ? Hl ? ?].
      destruct (Hl q v Hcq Hq). rewrite Hc. by apply (Hs d u).
    + intros d. rewrite Hc. auto.
  - apply keepq_set_qp.
  - simpl. by rewrite lookup_insert_eq.
Qed.

(** [qp->cep = cep], with the reference that the call has on the endpoint. *)
Lemma kwp_link X Y c q n m v (Q : unit -> kstate -> Prop) k :
  kinv (<[c := n + 1]> X) (<[q := m]> Y) k -> k_qps k !! q = Some v -> kq_cep v = None -> 0 <= n ->
  (forall u, k_ceps k !! c = Some u -> cep_qp u = None) ->
  (forall k', kinv (<[c := n]> X) (<[q := m]> Y) k' -> keepq q k k' ->
     k_qps k' !! q = Some (v <| kq_cep := Some c |>) -> Q tt k') ->
  kwp (upd_kqp q (fun v => v <| kq_cep := Some c |>)) Q k.
Proof.
  intros I Hq Hc Hn Hcq0 HQ. unfold kwp, upd_kqp. rewrite Hq. simpl. pose proof (ki_qpos _ _ _ I q v Hq). apply HQ.
  - apply (kinv_set_qp (<[c := n + 1]> X) _ (<[q := m]> Y) _ k q v); auto; simpl.
    + intros d. rewrite Hc, ind_None. unfold toks. destruct (decide (c = d)) as [<-|].
      * rewrite !lookup_insert_eq, ind_eq. lia.
      * rewrite !lookup_insert_ne, ind_ne by done. lia.
    + intros d. destruct (decide (c = d)) as [<-|]; [by rewrite lookup_insert_eq|by rewrite !lookup_insert_ne].
    + eapply insert_nonneg; [apply (ki_toks _ _ _ I)|done].
    + apply (ki_qtoks _ _ _ I).
    + unfold qtoks. rewrite !lookup_insert_eq. lia.
    + intros d u Hd Hu Hcq. assert (c <> d) by (intros ->; by rewrite lookup_insert_eq in Hd).
      rewrite lookup_insert_ne in Hd by done.
      destruct (ki_ok _ _ _ I d u) as [? ? ? ? ? Hl ? ?]; [by rewrite lookup_insert_ne|done|].
      destruct (Hl q v Hcq Hq) as [H1 H2]. rewrite Hc in H1. split.
      * intros Hlv. by specialize (H1 Hlv).
      * intros Hf. specialize (H2 Hf). rewrite H2 in H1. by specialize (H1 eq_refl).
    + intros d [= <-]. right. split; [by rewrite lookup_insert_eq|done].
  - apply keepq_set_qp.
  - simpl. by rewrite lookup_insert_eq.
Qed.

Lemma qtoks_insert_eq Y q m o : qtoks (<[q := m]> Y) o q = m.
Proof. unfold qtoks. by rewrite lookup_insert_eq. Qed.
Lemma qtoks_insert_ne Y q p m o : q <> p -> qtoks (<[q := m]> Y) o p = qtoks Y o p.
Proof. intros. unfold qtoks. by rewrite lookup_insert_ne. Qed.

(** [cep->qp = qp] and [cep->qp = NULL] *)
Lemma kwp_set_cep_qp X Y c q n m v (Q : unit -> kstate -> Prop) k :
  kinv (<[c := n]> X) (<[q := m + 1]> Y) k -> k_ceps k !! c = Some v -> cep_qp v = None -> 0 <= m ->
  linkonly k c q ->
  (forall k', kinv (<[c := n]> X) (<[q := m]> Y) k' -> keep c k k' ->
     k_ceps k' !! c = Some (v <| cep_qp := Some q |>) -> Q tt k') ->
  kwp (upd_cep c (fun v => v <| cep_qp := Some q |>)) Q k.
Proof.
  intros I Hc Hq Hm Hlo HQ. eapply kwp_upd; [done|]. pose proof (ki_pos _ _ _ I c v Hc). apply HQ.
  - rewrite <- (insert_insert_eq X c n n). eapply kinv_set_cep; eauto; simpl; rewrite ?lookup_insert_eq; eauto.
    + lia.
    + apply (ki_toks _ _ _ I c). by rewrite lookup_insert_eq.
    + intros p. rewrite Hq, ind_None. destruct (decide (q = p)) as [<-|].
      * rewrite !qtoks_insert_eq, ind_eq. lia.
      * rewrite !qtoks_insert_ne, ind_ne by done. lia.
    + eapply insert_nonneg; [apply (ki_qtoks _ _ _ I)|done].
    + intros p [= <-]. by right.
  - apply keep_set_cep.
  - simpl. by rewrite lookup_insert_eq.
Qed.

Lemma kwp_clear_cep_qp X Y c q n m v (Q : unit -> kstate -> Prop) k :
  kinv (<[c := n]> X) (<[q := m]> Y) k -> k_ceps k !! c = Some v -> cep_qp v = Some q ->
  (forall k', kinv (<[c := n]> X) (<[q := m + 1]> Y) k' -> keep c k k' ->
     k_ceps k' !! c = Some (v <| cep_qp := None |>) -> Q tt k') ->
  kwp (upd_cep c (fun v => v <| cep_qp := None |>)) Q k.
Proof.
  intros I Hc Hq HQ. eapply kwp_upd; [done|]. pose proof (ki_pos _ _ _ I c v Hc).
  assert (0 <= m) by (apply (ki_qtoks _ _ _ I q); by rewrite lookup_insert_eq). apply HQ.
  - rewrite <- (insert_insert_eq X c n n). eapply kinv_set_cep; eauto; simpl; rewrite ?lookup_insert_eq; eauto.
    + lia.
    + apply (ki_toks _ _ _ I c). by rewrite lookup_insert_eq.
    + intros p. rewrite Hq, ind_None. destruct (decide (q = p)) as [<-|].
      * rewrite !qtoks_insert_eq, ind_eq. lia.
      * rewrite !qtoks_insert_ne, ind_ne by done. lia.
    + eapply insert_nonneg; [apply (ki_qtoks _ _ _ I)|lia].
    + done.
  - apply keep_set_cep.
  - simpl. by rewrite lookup_insert_eq.
Qed.

Lemma cep_put_qps c g k :
  siw_cep_put c (k <| k_qps ::= g |>) =
  match siw_cep_put c k with Ok (a, k') => Ok (a, k' <| k_qps ::= g |>) | Fault e => Fault e end.
Proof.
  unfold siw_cep_put, get_cep, upd_cep, siw_cep_dealloc, mbind, KM_bind. simpl.
  destruct (k_ceps k !! c) as [u|] eqn:E; [|done]. simpl.
  destruct (cep_ref u <? 1); [done|]. destruct (cep_ref u =? 1); [done|]. simpl. by rewrite E.
Qed.

(** [qp->cep = NULL]: the reference of the queue pair goes to the call. *)
Lemma kinv_unlink X Y c q n m v k :
  kinv (<[c := n]> X) (<[q := m]> Y) k -> k_qps k !! q = Some v -> kq_cep v = Some c ->
  kinv (<[c := n + 1]> X) (<[q := m]> Y) (k <| k_qps ::= <[q := v <| kq_cep := None |>]> |>).
Proof.
  intros I Hq Hc. pose proof (ki_qpos _ _ _ I q v Hq).
  assert (0 <= n) by (apply (ki_toks _ _ _ I c); by rewrite lookup_insert_eq).
  apply (kinv_set_qp (<[c := n]> X) _ (<[q := m]> Y) _ k q v); auto; simpl.
  - intros d. rewrite Hc, ind_None. unfold toks. destruct (decide (c = d)) as [<-|].
    + rewrite !lookup_insert_eq, ind_eq. lia.
    + rewrite !lookup_insert_ne, ind_ne by done. lia.
  - intros d. destruct (decide (c = d)) as [<-|]; [by rewrite lookup_insert_eq|by rewrite !lookup_insert_ne].
  - eapply insert_nonneg; [apply (ki_toks _ _ _ I)|lia].
  - apply (ki_qtoks _ _ _ I).
  - rewrite !qtoks_insert_eq. lia.
  - intros d w Hd Hw Hcq. assert (c <> d) by (intros ->; by rewrite lookup_insert_eq in Hd).
    rewrite lookup_insert_ne in Hd by done.
    destruct (ki_ok _ _ _ I d w) as [? ? ? ? ? Hl ? ?]; [by rewrite lookup_insert_ne|done|].
    destruct (Hl q v Hcq Hq) as [L1 L2]. rewrite Hc in L1. split.
    + intros Hlv. specialize (L1 Hlv). congruence.
    + intros Hf. specialize (L2 Hf). rewrite L2 in L1. specialize (L1 eq_refl). congruence.
  - done.
Qed.

Lemma kwp_unlink X Y c q n m v (Q : unit -> kstate -> Prop) k :
  kinv (<[c := n]> X) (<[q := m]> Y) k -> k_qps k !! q = Some v -> kq_cep v = Some c ->
  (forall k', kinv (<[c := n + 1]> X) (<[q := m]> Y) k' -> keepq q k k' ->
     k_qps k' !! q = Some (v <| kq_cep := None |>) -> Q tt k') ->
  kwp (upd_kqp q (fun v => v <| kq_cep := None |>)) Q k.
Proof.
  intros I Hq Hc HQ. unfold kwp, upd_kqp. rewrite Hq. simpl. apply HQ.
  - by apply kinv_unlink.
  - apply keepq_set_qp.
  - simpl. by rewrite lookup_insert_eq.
Qed.

(** [siw_cep_put(qp->cep); qp->cep = NULL;] for an open endpoint. *)
Lemma kwp_drop_qp_cep X Y c q n m v u (Q : unit -> kstate -> Prop) k :
  kinv (<[c := n]> X) (<[q := m]> Y) k -> k_qps k !! q = Some v -> kq_cep v = Some c -> k_ceps k !! c = Some u ->
  (cep_ref u = 1 -> cep_cm_id u = None /\ cep_qp u = None /\ unlisted k c) ->
  (forall k1 k', kinv (<[c := n]> X) (<[q := m]> Y) k' -> keepq q k k1 -> keep c k1 k' ->
     k_qps k' !! q = Some (v <| kq_cep := None |>) ->
     (cep_ref u = 1 /\ k_ceps k' !! c = None) \/
     (2 <= cep_ref u /\ k_ceps k' !! c = Some (u <| cep_ref ::= fun r => r - 1 |>)) -> Q tt k') ->
  kwp (drop_qp_cep q) Q k.
Proof.
  intros I Hq Hc Hu Hlast HQ. pose proof (ki_qpos _ _ _ I q v Hq).
  assert (0 <= n) by (apply (ki_toks _ _ _ I c); by rewrite lookup_insert_eq).
  set (g := <[q := v <| kq_cep := None |>]> : gmap nat siw_qp -> gmap nat siw_qp).
  assert (I1 : kinv (<[c := n + 1]> X) (<[q := m]> Y) (k <| k_qps ::= g |>)) by (by apply kinv_unlink).
  assert (Hput : kwp (siw_cep_put c) (fun _ k' => Q tt k') (k <| k_qps ::= g |>)).
  { eapply (kwp_cep_put X _ c); [exact I1|exact Hu|lia|exact Hlast|]. intros k' I' E' Hc'.
    assert (k_qps k' !! q = Some (v <| kq_cep := None |>)) as Hq'.
    { rewrite (kp_qps _ _ _ (keep_b _ _ _ E')). simpl. unfold g. by rewrite lookup_insert_eq. }
    eapply HQ; [|apply keepq_set_qp|exact E'|exact Hq'|exact Hc']. by replace n with (n + 1 - 1) by lia. }
  unfold drop_qp_cep. apply kwp_bind. eapply kwp_get_kqp; [done|]. rewrite Hc.
  unfold kwp in Hput. rewrite cep_put_qps in Hput. apply kwp_bind. unfold kwp at 1.
  destruct (siw_cep_put c k) as [[[] k']|] eqn:Ep; [|done].
  assert (k_qps k' !! q = Some v) as Hqv.
  { revert Ep. unfold siw_cep_put, get_cep, upd_cep, siw_cep_dealloc, mbind, KM_bind, kmodify. simpl.
    rewrite Hu. simpl. destruct (cep_ref u <? 1); [by intros [= <-]|].
    destruct (cep_ref u =? 1); [by intros [= <-]|]. simpl. rewrite Hu. by intros [= <-]. }
  unfold kwp, upd_kqp. rewrite Hqv. simpl. exact Hput.
Qed.

(** ** Rules for the lists of the character device *)

Lemma kinv_set_file X X' Y k f :
  kinv X Y k ->
  (forall d, occ (established_list f ++ rtr_wait_list f) d + toks X' (k_ceps k !! d) d =
             occ (file_ceps k) d + toks X (k_ceps k !! d) d) ->
  (forall d, X' !! d = None -> X !! d = None) -> (forall d n, X' !! d = Some n -> 0 <= n) ->
  (forall d, X' !! d = None -> d ∈ established_list f ++ rtr_wait_list f -> d ∈ file_ceps k) ->
  kinv X' Y (k <| k_file := Some f |>).
Proof.
  intros I Hn HX Hpos Hin. destruct I. split; simpl; try done.
  - intros d. specialize (ki_ref0 d). specialize (Hn d). unfold uses in *. simpl. unfold file_ceps at 1. simpl. lia.
  - intros d v Hd Hv. destruct (ki_ok0 d v (HX d Hd) Hv) as [? ? ? ? ? Hl ? ?]. split; try done.
    intros q qv Hq Hqv. destruct (Hl q qv Hq Hqv) as [H1 H2]. split; [done|]. intros Hf. apply H2, Hin; done.
Qed.

(** What the lists leave alone. *)
Record keepf (k k' : kstate) : Prop := {
  kl_ceps : k_ceps k' = k_ceps k; kl_qps : k_qps k' = k_qps k; kl_ids : k_ids k' = k_ids k;
  kl_socks : k_socks k' = k_socks k; kl_works : k_works k' = k_works k; kl_cqs : k_cqs k' = k_cqs k;
  kl_pds : k_pds k' = k_pds k; kl_rets : k_rets k' = k_rets k
}.

Lemma keepf_sock k k' d o : keepf k k' -> sock_ok k d o -> sock_ok k' d o.
Proof. intros E. unfold sock_ok. by rewrite (kl_socks _ _ E). Qed.
Lemma keepf_timer k k' d o : keepf k k' -> timer_ok k d o -> timer_ok k' d o.
Proof. intros E. unfold timer_ok. by rewrite (kl_works _ _ E). Qed.
Lemma keepf_prov k k' d st o : keepf k k' -> prov_ok k d st o -> prov_ok k' d st o.
Proof. intros E. unfold prov_ok, listeners. by rewrite (kl_ids _ _ E). Qed.
Lemma keepf_unlisted k k' d : keepf k k' -> unlisted k d -> unlisted k' d.
Proof. intros E. unfold unlisted, listeners. by rewrite (kl_ids _ _ E). Qed.

Ltac kmove_f E :=
  lazymatch type of E with keepf ?k ?k' =>
    repeat match goal with
    | H : listed_ok k _ _ |- _ => clear H
    | H : sock_ok k ?d ?o |- _ => apply (keepf_sock k k' d o E) in H
    | H : timer_ok k ?d ?o |- _ => apply (keepf_timer k k' d o E) in H
    | H : prov_ok k ?d ?st ?o |- _ => apply (keepf_prov k k' d st o E) in H
    | H : unlisted k ?d |- _ => apply (keepf_unlisted k k' d E) in H
    | H : unlinked k ?d |- _ => apply (unlinked_ext k k' d (kl_qps k k' E)) in H
    | H : new_ok k ?d ?st |- _ => apply (new_ok_ext k k' d st (kl_qps k k' E)) in H
    | H : context [k_qps k] |- _ => rewrite <- (kl_qps k k' E) in H
    | H : context [k_ceps k] |- _ => rewrite <- (kl_ceps k k' E) in H
    | H : context [k_ids k] |- _ => rewrite <- (kl_ids k k' E) in H
    | H : context [k_cqs k] |- _ => rewrite <- (kl_cqs k k' E) in H
    | H : context [k_pds k] |- _ => rewrite <- (kl_pds k k' E) in H
    | H : context [k_rets k] |- _ => rewrite <- (kl_rets k k' E) in H
    | H : kinv _ _ k |- _ => clear H
    end
  end.
Ltac kmove E ::=
  lazymatch type of E with
  | keepf _ _ => kmove_f E
  | keepq _ _ _ => kmove_q E
  | keepb _ _ _ => kmove_b E
  | keepw _ _ _ => kmove_w E
  | keep ?c ?k ?k' =>
      repeat match goal with H : timer_ok k c ?o |- _ => apply (kp_timer c k k' E) in H end;
      let W := fresh in pose proof (kp_w c k k' E) as W; kmove_w W; clear W
  end.

(** The endpoint of a queue pair goes on the list of established connections. *)
Lemma kwp_notify X Y c q n v u (Q : unit -> kstate -> Prop) k :
  kinv (<[c := n]> X) Y k -> k_qps k !! q = Some v -> kq_cep v = Some c -> k_ceps k !! c = Some u ->
  (forall k1 k', kinv (<[c := n]> X) Y k' -> keep c k k1 -> keepf k1 k' ->
     k_ceps k' !! c = Some (u <| cep_ref ::= fun r => r + 1 |>) -> Q tt k') ->
  kwp (notify_established q) Q k.
Proof.
  intros I Hq Hc Hu HQ. destruct (ki_file _ _ _ I) as [f Hf].
  assert (0 <= n) by (apply (ki_toks _ _ _ I c); by rewrite lookup_insert_eq).
  unfold notify_established. apply kwp_bind. eapply kwp_get_kqp; [done|]. apply kwp_bind. eapply kwp_nonnull; [done|].
  apply kwp_bind, kwp_gets. rewrite Hf. apply kwp_bind. eapply (kwp_cep_get X Y c); [done..|].
  intros k1 I1 E1 Hc1. apply kwp_kmodify. eapply HQ; [|exact E1|by split|done].
  assert (k_file k1 = Some f) as Hf1 by (by rewrite (kp_file _ _ _ (keep_b _ _ _ E1))).
  apply (kinv_set_file (<[c := n + 1]> X)); auto; simpl.
  - intros d. unfold file_ceps. rewrite Hf1, !occ_app, occ_cons, occ_nil. unfold toks.
    destruct (decide (c = d)) as [<-|]; [rewrite !lookup_insert_eq, ind_eq|rewrite !lookup_insert_ne, ind_ne by done]; lia.
  - intros d. destruct (decide (c = d)) as [<-|]; [by rewrite lookup_insert_eq|by rewrite !lookup_insert_ne].
  - apply (ki_toks _ _ _ I).
  - intros d Hd. unfold file_ceps. rewrite Hf1, !elem_of_app, list_elem_of_singleton.
    intros [[?| ->]|?]; [by left| |by right]. by rewrite lookup_insert_eq in Hd.
Qed.
