(* ===== verification/Kalloc.v ===== *)
(** * Reference counting: allocation and sockets

    The rules for allocating endpoints and their work items, and for the
    sockets of connections. *)
From S2P Require Import Prelude Proto Kern Cm Kverbs Kref.

(** Every open endpoint exists. *)
Definition open_live (X : gmap nat Z) (k : kstate) : Prop := forall c, is_Some (X !! c) -> is_Some (k_ceps k !! c).

Lemma uses_None X Y k c : kinv X Y k -> X !! c = None -> k_ceps k !! c = None -> uses k c = 0.
Proof. intros I HX Hc. pose proof (ki_ref _ _ _ I c) as E. unfold toks in E. rewrite HX, Hc in E. simpl in E. lia. Qed.

Lemma kinv_new_cep X Y k c :
  kinv X Y k -> (k_next k <= c)%nat -> open_live X k ->
  kinv (<[c := 1]> X) Y (k <| k_next := S c |> <| k_ceps ::= <[c := new_cep (k_dev k)]> |>
                           <| k_dev ::= update num_cep (fun n => n + 1) |>).
Proof.
  intros I Hn HX.
  assert (k_ceps k !! c = None) as Hc.
  { destruct (k_ceps k !! c) eqn:E; [|done]. exfalso. assert (c < k_next k)%nat; [|lia]. apply (ki_cfresh _ _ _ I). by eexists. }
  assert (X !! c = None) as HXc.
  { destruct (X !! c) eqn:E; [|done]. destruct (HX c) as [v Hv]; [by eexists|]. congruence. }
  pose proof (uses_None _ _ _ _ I HXc Hc) as Hu. destruct I. split; simpl; try done.
  - intros d. rewrite (uses_ext k) by done. unfold toks. destruct (decide (c = d)) as [<-|].
    + rewrite !lookup_insert_eq. simpl. lia.
    + rewrite !lookup_insert_ne by done. apply ki_ref.
  - intros d u. destruct (decide (c = d)) as [<-|]; [rewrite lookup_insert_eq|rewrite lookup_insert_ne by done];
      [by intros [= <-]|apply ki_pos].
  - intros q. rewrite nrefs_fresh, ki_qref by done. simpl. rewrite ind_None. lia.
  - intros i u Hi. rewrite nrefs_fresh by done. simpl. rewrite ind_None, (ki_idref i u Hi). lia.
  - intros d u i. destruct (decide (c = d)) as [<-|]; [rewrite lookup_insert_eq|rewrite lookup_insert_ne by done];
      [by intros [= <-]|eauto].
  - intros d m. destruct (decide (c = d)) as [<-|]; [rewrite lookup_insert_eq|rewrite lookup_insert_ne by done];
      [by intros [= <-]|apply ki_toks].
  - intros d u. destruct (decide (c = d)) as [<-|]; [by rewrite lookup_insert_eq|rewrite !lookup_insert_ne by done].
    intros H1 H2. by apply (cep_ok_ext k), ki_ok.
  - intros w Hw. specialize (ki_wfresh w Hw). lia.
  - intros d Hd. destruct (decide (c = d)) as [<-|]; [lia|]. rewrite lookup_insert_ne in Hd by done.
    specialize (ki_cfresh d Hd). lia.
  - intros d Hd. specialize (ki_sfresh d Hd). lia.
  - intros d Hd. specialize (ki_qfresh d Hd). lia.
  - intros i d Hd. specialize (ki_listen i d Hd). destruct (decide (c = d)) as [<-|].
    + rewrite lookup_insert_eq. by eexists.
    + by rewrite lookup_insert_ne.
  - rewrite ki_num, map_size_insert_None by done. lia.
  - intros p pv d u Hp Hpc. destruct (decide (c = d)) as [<-|];
      [rewrite lookup_insert_eq; intros [= <-]; by right|rewrite lookup_insert_ne by done; eauto].
  - intros m Hm. specialize (ki_ofresh m Hm). lia.
Qed.

(** A call outside the module, when no endpoint is the subject. *)
Definition keepa (k k' : kstate) : Prop := k_ceps k' = k_ceps k /\ (forall d, keep d k k').

Lemma keepa_trans k k' k'' : keepa k k' -> keepa k' k'' -> keepa k k''.
Proof. intros [E1 H1] [E2 H2]. split; [congruence|]. intros d. by eapply keep_trans. Qed.

Lemma kwp_kcall_all X Y (Q : Z -> kstate -> Prop) k :
  kinv X Y k ->
  (forall r k', kinv X Y k' -> keepa k k' -> (Forall (Z.le 0) (k_rets k) -> 0 <= r) -> Q r k') -> kwp kcall Q k.
Proof.
  intros I HQ. unfold kwp, kcall. destruct (k_rets k) as [|r rs] eqn:E.
  { apply HQ; auto; [|done]. split; auto using keep_refl. }
  apply HQ; [eapply kinv_frame; [done|apply kframe_rets]|split; [done|intros d; apply keep_rets; rewrite E; by inversion 1]|].
  rewrite ?E. by inversion 1.
Qed.

Lemma kwp_kerr_all X Y (Q : Z -> kstate -> Prop) k :
  kinv X Y k ->
  (forall r k', kinv X Y k' -> keepa k k' -> r <= 0 -> (Forall (Z.le 0) (k_rets k) -> r = 0) -> Q r k') ->
  kwp kerr Q k.
Proof.
  intros I HQ. unfold kerr. apply kwp_bind. eapply kwp_kcall_all; [done|]. intros r k' I' E Hr.
  apply kwp_ret, HQ; auto; [lia|]. intros H. specialize (Hr H). lia.
Qed.

Lemma open_live_keepa X k k' : keepa k k' -> open_live X k -> open_live X k'.
Proof. intros [E _] H c Hc. rewrite E. auto. Qed.

Lemma new_timer_ok X Y k c : kinv X Y k -> X !! c = None -> k_ceps k !! c = None -> timer_ok k c None.
Proof.
  intros I HX Hc. pose proof (uses_None _ _ _ _ I HX Hc) as Hu. split; [done|]. intros w Hw Hwc _. exfalso.
  unfold uses in Hu. pose proof (occ_works_ge k w c Hw Hwc). pose proof (nrefs_nonneg ks_user (k_socks k) c).
  pose proof (nrefs_nonneg kq_cep (k_qps k) c). pose proof (occ_nonneg (file_ceps k) c). lia.
Qed.

(** A new endpoint is not referred to. *)
Lemma kwp_cep_alloc X Y (Q : option nat -> kstate -> Prop) k :
  kinv X Y k -> open_live X k ->
  (Forall (Z.le 0) (k_rets k) \/ (forall k', kinv X Y k' -> keepa k k' -> Q None k')) ->
  (forall c k' dv, kinv (<[c := 1]> X) Y k' -> X !! c = None -> keep c k k' -> k_ceps k' !! c = Some (new_cep dv) ->
     k_ceps k !! c = None -> timer_ok k' c None -> unlisted k' c -> Q (Some c) k') ->
  kwp siw_cep_alloc Q k.
Proof.
  intros I HX Hnone HQ. unfold siw_cep_alloc. apply kwp_bind. eapply kwp_kerr_all; [done|]. intros r k1 I1 E1 Hr0 Hr.
  destruct (Z.ltb_spec r 0).
  { destruct Hnone as [Hf|Hnone]; [specialize (Hr Hf); lia|]. apply kwp_ret. by apply Hnone. }
  pose proof (open_live_keepa X k k1 E1 HX) as HX1. set (c := k_next k1).
  assert (k_ceps k1 !! c = None) as Hc.
  { destruct (k_ceps k1 !! c) eqn:E; [|done]. exfalso. assert (c < k_next k1)%nat; [|lia].
    apply (ki_cfresh _ _ _ I1). by eexists. }
  assert (X !! c = None) as HXc.
  { destruct (X !! c) eqn:E; [|done]. destruct (HX1 c) as [v Hv]; [by eexists|]. congruence. }
  apply kwp_bind. unfold kwp at 1, fresh. apply kwp_bind, kwp_kmodify, kwp_ret. fold c.
  apply (HQ _ _ (k_dev k1)); auto.
  - eapply kinv_frame; [apply (kinv_new_cep X Y k1 c); auto|by split].
  - destruct E1 as [Ec1 E1]. eapply keep_trans; [apply E1|]. split; [split; [split|]|]; auto.
    intros d Hd. simpl. by rewrite lookup_insert_ne.
  - simpl. by rewrite lookup_insert_eq.
  - destruct E1 as [Ec1 _]. by rewrite <- Ec1.
  - exact (new_timer_ok X Y k1 c I1 HXc Hc).
  - intros i Hi. destruct (ki_listen _ _ _ I1 i c Hi) as [v Hv]. congruence.
Qed.

Lemma kwp_alloc_work X Y c n num v (Q : Z -> kstate -> Prop) k :
  kinv (<[c := n]> X) Y k -> k_ceps k !! c = Some v ->
  (forall r k' fl, kinv (<[c := n]> X) Y k' -> keep c k k' -> k_ceps k' !! c = Some (v <| cep_freelist := fl |>) ->
     (r = 0 -> (cep_freelist v + num = fl)%nat) -> (Forall (Z.le 0) (k_rets k) -> r = 0) -> Q r k') ->
  kwp (siw_cm_alloc_work c num) Q k.
Proof.
  revert v k. induction num as [|num IH]; intros v k I Hc HQ; cbn [siw_cm_alloc_work].
  { apply kwp_ret. apply (HQ 0 k (cep_freelist v)); auto using keep_refl; try lia. rewrite Hc. by destruct v. }
  apply kwp_bind. apply (kwp_kerr _ _ c _ _ I). intros r k1 I1 E1 Hc1 Hr0 Hr. rewrite Hc in Hc1.
  destruct (Z.ltb_spec r 0).
  { apply kwp_bind. eapply kwp_upd_cep; [done..|]. intros k2 I2 E2 Hc2. apply kwp_ret.
    eapply HQ; [done|by eapply keep_trans|exact Hc2|done|]. intros Hf. specialize (Hr Hf). lia. }
  apply kwp_bind. eapply kwp_upd_cep; [done..|]. intros k2 I2 E2 Hc2.
  assert (E : keep c k k2) by (by eapply keep_trans).
  eapply IH; [done|exact Hc2|]. intros r' k3 fl I3 E3 Hc3 Hfl Hr'.
  eapply HQ; [done|by eapply keep_trans|exact Hc3| |].
  - intros ->. specialize (Hfl eq_refl). simpl in Hfl. lia.
  - intros Hf. apply Hr'. by apply (kp_rets _ _ _ (keep_b _ _ _ E)).
Qed.

(** ** Sockets *)

(** What an operation on sockets leaves alone. *)
Record keeps (k k' : kstate) : Prop := {
  ks_kceps : k_ceps k' = k_ceps k; ks_kqps : k_qps k' = k_qps k; ks_kids : k_ids k' = k_ids k;
  ks_kfile : k_file k' = k_file k; ks_kworks : k_works k' = k_works k; ks_kcqs : k_cqs k' = k_cqs k;
  ks_kpds : k_pds k' = k_pds k; ks_krets : k_rets k' = k_rets k
}.

Lemma keeps_timer k k' d o : keeps k k' -> timer_ok k d o -> timer_ok k' d o.
Proof. intros E. unfold timer_ok. by rewrite (ks_kworks _ _ E). Qed.
Lemma keeps_prov k k' d st o : keeps k k' -> prov_ok k d st o -> prov_ok k' d st o.
Proof. intros E. unfold prov_ok, listeners. by rewrite (ks_kids _ _ E). Qed.
Lemma keeps_unlisted k k' d : keeps k k' -> unlisted k d -> unlisted k' d.
Proof. intros E. unfold unlisted, listeners. by rewrite (ks_kids _ _ E). Qed.
Lemma keeps_listed k k' d o : keeps k k' -> listed_ok k d o -> listed_ok k' d o.
Proof. intros E. unfold listed_ok, file_ceps. by rewrite (ks_kqps _ _ E), (ks_kfile _ _ E). Qed.

Ltac kmove_s E :=
  lazymatch type of E with keeps ?k ?k' =>
    repeat match goal with
    | H : sock_ok k _ _ |- _ => clear H
    | H : sock_free k _ |- _ => clear H
    | H : listed_ok k ?d ?o |- _ => apply (keeps_listed k k' d o E) in H
    | H : timer_ok k ?d ?o |- _ => apply (keeps_timer k k' d o E) in H
    | H : prov_ok k ?d ?st ?o |- _ => apply (keeps_prov k k' d st o E) in H
    | H : unlisted k ?d |- _ => apply (keeps_unlisted k k' d E) in H
    | H : unlinked k ?d |- _ => apply (unlinked_ext k k' d (ks_kqps k k' E)) in H
    | H : new_ok k ?d ?st |- _ => apply (new_ok_ext k k' d st (ks_kqps k k' E)) in H
    | H : context [k_qps k] |- _ => rewrite <- (ks_kqps k k' E) in H
    | H : context [k_ceps k] |- _ => rewrite <- (ks_kceps k k' E) in H
    | H : context [k_ids k] |- _ => rewrite <- (ks_kids k k' E) in H
    | H : context [k_file k] |- _ => rewrite <- (ks_kfile k k' E) in H
    | H : context [k_cqs k] |- _ => rewrite <- (ks_kcqs k k' E) in H
    | H : context [k_pds k] |- _ => rewrite <- (ks_kpds k k' E) in H
    | H : context [k_rets k] |- _ => rewrite <- (ks_krets k k' E) in H
    | H : kinv _ _ k |- _ => clear H
    end
  end.

Lemma kwp_sock_create X Y (Q : Z * option nat -> kstate -> Prop) k :
  kinv X Y k ->
  (Forall (Z.le 0) (k_rets k) \/ (forall r k', kinv X Y k' -> keepa k k' -> r < 0 -> Q (r, None) k')) ->
  (forall s k', kinv X Y k' -> keepa k k' -> sock_free k' s -> Q (0, Some s) k') ->
  kwp sock_create Q k.
Proof.
  intros I Hnone HQ. unfold sock_create. apply kwp_bind. eapply kwp_kerr_all; [done|]. intros r k1 I1 E1 Hr0 Hr.
  destruct (Z.ltb_spec r 0).
  { destruct Hnone as [Hf|Hnone]; [specialize (Hr Hf); lia|]. apply kwp_ret. by apply Hnone. }
  set (s := k_next k1). apply kwp_bind. unfold kwp at 1, fresh. apply kwp_bind, kwp_kmodify, kwp_ret. fold s.
  assert (k_socks k1 !! s = None) as Hs.
  { destruct (k_socks k1 !! s) eqn:E; [|done]. exfalso. assert (s < k_next k1)%nat; [|lia].
    apply (ki_sfresh _ _ _ I1). by eexists. }
  assert (forall m s' sv, k_socks k1 !! s' = Some sv -> <[s := m]> (k_socks k1) !! s' = Some sv) as Hold.
  { intros m s' sv Hs'. rewrite lookup_insert_ne; [done|congruence]. }
  apply HQ.
  - assert (I2 : kinv X Y (k1 <| k_next := S s |>)).
    { eapply kinv_frame; [done|]. split; simpl; auto. }
    eapply kinv_frame; [apply (kinv_set_socks X X Y (k1 <| k_next := S s |>)
      (<[s := KSock None false [] AF_INET_ANY]> (k_socks k1))); auto|by split]; simpl.
    + intros d. rewrite nrefs_fresh by done. simpl. rewrite ind_None. lia.
    + apply (ki_toks _ _ _ I1).
    + intros d o _ Hd s' Hs'. destruct (Hd s' Hs') as (sv & Hsv & Hu). exists sv. split; [|done]. by apply Hold.
    + intros s' Hs'. destruct (decide (s = s')) as [<-|]; [lia|]. rewrite lookup_insert_ne in Hs' by done.
      pose proof (ki_sfresh _ _ _ I1 s' Hs'). lia.
  - eapply keepa_trans; [exact E1|]. split; [done|]. intros d. split; [split; [split|]|]; auto.
    + intros d' o _ Hd s' Hs'. destruct (Hd s' Hs') as (sv & Hsv & Hu). exists sv. split; [|done]. by apply Hold.
    + intros s' (sv & Hsv & Hu). exists sv. split; [|done]. by apply Hold.
    + intros o Hd s' Hs'. destruct (Hd s' Hs') as (sv & Hsv & Hu). exists sv. split; [|done]. by apply Hold.
  - eexists. split; [apply lookup_insert_eq|done].
Qed.

Lemma kwp_bind_local X Y s a (Q : Z -> kstate -> Prop) k :
  kinv X Y k -> sock_free k s ->
  (forall r k', kinv X Y k' -> keepa k k' -> (Forall (Z.le 0) (k_rets k) -> r = 0) -> Q r k') ->
  kwp (udp_bind_local s a) Q k.
Proof.
  intros I Hs HQ. unfold udp_bind_local. apply kwp_bind. eapply kwp_kerr_all; [done|]. intros r k1 I1 E1 Hr0 Hr.
  destruct (Z.ltb_spec r 0).
  { apply kwp_ret. apply HQ; auto. }
  assert (Hset : forall port k2, kinv X Y k2 -> keepa k k2 ->
    kwp (upd_sock s (fun v => v <| ks_local := a <| sin_port := u16 port |> |>);; mret 0) Q k2).
  { intros port k2 I2 E2. apply (kp_free _ _ _ (keep_b _ _ _ (proj2 E2 O))) in Hs as (sv & Hsv & Hu).
    apply kwp_bind. unfold kwp, upd_sock. rewrite Hsv. simpl.
    set (f := fun v : ksock => v <| ks_local := a <| sin_port := u16 port |> |>).
    destruct (kinv_upd_sock X Y k2 s sv f I2 Hsv eq_refl) as (I3 & Hok & Hfr).
    apply HQ; [exact I3| |done]. eapply keepa_trans; [exact E2|]. split; [done|]. intros d. split; [split; [split|]|]; auto. }
  apply kwp_bind. destruct (sin_port a =? 0); [|apply kwp_ret; by apply Hset].
  eapply kwp_kcall_all; [done|]. intros p k2 I2 E2 _. apply Hset; auto. by eapply keepa_trans.
Qed.

Lemma kwp_localname X Y s (Q : Z * option sockaddr_in -> kstate -> Prop) k :
  kinv X Y k -> is_Some (k_socks k !! s) ->
  (Forall (Z.le 0) (k_rets k) \/ (forall r k', kinv X Y k' -> keepa k k' -> r < 0 -> Q (r, None) k')) ->
  (forall a k', kinv X Y k' -> keepa k k' -> Q (0, Some a) k') ->
  kwp (kernel_localname s) Q k.
Proof.
  intros I Hs Hnone HQ. unfold kernel_localname. apply kwp_bind. unfold kerr. apply kwp_bind.
  unfold kwp at 1. unfold kcall. destruct (k_rets k) as [|r rs] eqn:E.
  - apply kwp_ret. simpl. destruct Hs as [sv Hsv]. apply kwp_bind. eapply kwp_get_sock; [done|]. apply kwp_ret.
    apply HQ; [done|]. split; [done|]. intros. apply keep_refl.
  - set (k1 := k <| k_rets := rs |>).
    assert (I1 : kinv X Y k1) by (eapply kinv_frame; [done|apply kframe_rets]).
    assert (E1 : keepa k k1) by (split; [done|intros d; apply keep_rets; rewrite E; by inversion 1]).
    apply kwp_ret. destruct (Z.ltb_spec (Z.min r 0) 0).
    + apply kwp_ret. destruct Hnone as [Hf|Hnone]; [|by apply Hnone]. inversion Hf; lia.
    + destruct Hs as [sv Hsv]. apply kwp_bind. eapply kwp_get_sock; [done|]. apply kwp_ret. by apply HQ.
Qed.

(** A socket that no endpoint uses is released. *)
Lemma kwp_sock_release X Y s (Q : unit -> kstate -> Prop) k :
  kinv X Y k -> sock_free k s ->
  (forall k', kinv X Y k' -> keeps k k' -> (forall d o, sock_ok k d o -> sock_ok k' d o) -> Q tt k') ->
  kwp (sock_release s) Q k.
Proof.
  intros I (sv & Hsv & Hu) HQ. unfold sock_release. apply kwp_bind. eapply kwp_get_sock; [done|].
  assert (Hok : forall d o, sock_ok k d o -> sock_ok (k <| k_socks ::= delete s |>) d o).
  { intros d o Hd s' Hs'. destruct (Hd s' Hs') as (sv' & Hsv' & Hu'). exists sv'. split; [|done]. simpl.
    rewrite lookup_delete_ne; [done|congruence]. }
  apply kwp_kmodify. apply HQ; [|by split|done]. apply (kinv_set_socks X X); auto.
  - intros d. pose proof (nrefs_delete ks_user _ _ _ d Hsv) as E. rewrite Hu, ind_None in E. lia.
  - apply (ki_toks _ _ _ I).
  - intros s' [u Hs']. apply lookup_delete_Some in Hs' as [_ Hs']. apply (ki_sfresh _ _ _ I). by eexists.
Qed.

(** The user data of a socket is set to an open endpoint. *)
Lemma kwp_set_user X Y c n s f (Q : unit -> kstate -> Prop) k :
  kinv (<[c := n + 1]> X) Y k -> sock_free k s -> 0 <= n -> (forall sv, ks_user (f sv) = Some c) ->
  (forall k', kinv (<[c := n]> X) Y k' -> keeps k k' -> sock_ok k' c (Some s) ->
     (forall d o, sock_ok k d o -> sock_ok k' d o) -> Q tt k') ->
  kwp (upd_sock s f) Q k.
Proof.
  intros I (sv & Hsv & Hu) Hn Hf HQ. unfold kwp, upd_sock. rewrite Hsv. simpl.
  assert (Hok : forall d o, sock_ok k d o -> sock_ok (k <| k_socks ::= <[s := f sv]> |>) d o).
  { intros d o Hd s' Hs'. destruct (Hd s' Hs') as (sv' & Hsv' & Hu'). exists sv'. split; [|done]. simpl.
    rewrite lookup_insert_ne; [done|congruence]. }
  apply HQ; [|by split| |done].
  - apply (kinv_set_socks (<[c := n + 1]> X)); auto.
    + intros d. rewrite (nrefs_insert ks_user _ _ sv), Hu, Hf, ind_None by done. unfold toks.
      destruct (decide (c = d)) as [<-|]; [rewrite !lookup_insert_eq, ind_eq|rewrite !lookup_insert_ne, ind_ne by done]; lia.
    + intros d. destruct (decide (c = d)) as [<-|]; [by rewrite lookup_insert_eq|by rewrite !lookup_insert_ne].
    + eapply insert_nonneg; [apply (ki_toks _ _ _ I)|done].
    + intros s' Hs'. apply (ki_sfresh _ _ _ I). destruct (decide (s = s')) as [<-|]; [by eexists|].
      by rewrite lookup_insert_ne in Hs'.
  - intros s' [= <-]. simpl. rewrite lookup_insert_eq. eauto.
Qed.
