(* ===== verification/Kstep.v ===== *)
(** * Reference counting: open endpoints

    What a call knows of an endpoint it works on, and the rules of [Kref] in
    terms of it. *)
From S2P Require Import Prelude Proto Kern Cm Kverbs Kref Kalloc.

Ltac kmove E ::=
  lazymatch type of E with
  | keeps _ _ => kmove_s E
  | keepf _ _ => kmove_f E
  | keepq _ _ _ => kmove_q E
  | keepb _ _ _ => kmove_b E
  | keepw _ _ _ => kmove_w E
  | keep ?c ?k ?k' =>
      repeat match goal with H : timer_ok k c ?o |- _ => apply (kp_timer c k k' E) in H end;
      let W := fresh in pose proof (kp_w c k k' E) as W; kmove_w W; clear W
  end.

(** The call holds [n] references on the endpoint [c]. *)
Record opened (X Y : gmap nat Z) (c : nat) (n : Z) (k : kstate) (v : siw_cep) : Prop := {
  op_inv : kinv (<[c := n]> X) Y k;
  op_cep : k_ceps k !! c = Some v;
  op_sock : sock_ok k c (cep_sock v);
  op_timer : timer_ok k c (cep_timer v);
  op_prov : prov_ok k c (cep_state v) (cep_cm_id v)
}.

Lemma kinv_opened X Y k c v :
  kinv X Y k -> X !! c = None -> k_ceps k !! c = Some v ->
  opened X Y c (held v) k v /\ cep_fields v /\ cep_in_use v = false /\ cep_listen_cep v = None /\
  listed_ok k c (cep_qp v) /\ new_ok k c (cep_state v).
Proof.
  intros I HX Hc. destruct (ki_ok _ _ _ I c v HX Hc) as [? ? ? ? ? ? ? ?].
  split_and!; auto. split; auto. by apply kinv_open.
Qed.

Lemma opened_close X Y c n k v :
  opened X Y c n k v -> X !! c = None -> cep_fields v -> cep_in_use v = false -> cep_listen_cep v = None ->
  listed_ok k c (cep_qp v) -> new_ok k c (cep_state v) -> n = held v -> kinv X Y k.
Proof.
  intros [I Hc ? ? ?] HX ? ? ? ? ? ->. eapply kinv_close; [done..|]. intros u Hu. rewrite Hc in Hu.
  injection Hu as <-. split; [by split|done].
Qed.

Lemma opened_ref X Y c n k v : opened X Y c n k v -> n <= cep_ref v /\ 0 < cep_ref v /\ 0 <= n.
Proof.
  intros [I Hc ? ? ?]. split_and!; [by eapply kinv_ref_ge|by eapply ki_pos|].
  apply (ki_toks _ _ _ I c). by rewrite lookup_insert_eq.
Qed.

Section opened_rules.
Context (X Y : gmap nat Z) (c : nat) (n : Z).

Implicit Types (k : kstate) (v : siw_cep).

(** Fields that the invariant does not mention. *)
Lemma op_upd f v (Q : unit -> kstate -> Prop) k :
  opened X Y c n k v -> cep_ref (f v) = cep_ref v -> cep_cm_id (f v) = cep_cm_id v -> cep_qp (f v) = cep_qp v ->
  cep_sock (f v) = cep_sock v -> cep_timer (f v) = cep_timer v ->
  (cep_state (f v) = cep_state v \/ unlisted k c) ->
  (forall k', opened X Y c n k' (f v) -> keep c k k' -> Q tt k') -> kwp (upd_cep c f) Q k.
Proof.
  intros [I Hc Hs Ht Hp] Hr Hi Hq Hso Hti Hst HQ. eapply kwp_upd_cep; [done..|]. intros k' I' E Hc'.
  apply HQ; [|done]. split; auto.
  - rewrite Hso. by apply (kp_sock _ _ _ (keep_w _ _ _ E)).
  - rewrite Hti. by apply (kp_timer _ _ _ E).
  - rewrite Hi. destruct Hst as [->|Hu]; [by eapply keepb_prov; [apply keep_b|]|].
    apply unlisted_prov. by eapply keepb_unlisted; [apply keep_b|].
Qed.

(** A change of the endpoint that moves no reference. *)
Lemma opened_keep k k' v w n' :
  opened X Y c n k v -> keep c k k' -> kinv (<[c := n']> X) Y k' -> k_ceps k' !! c = Some w ->
  cep_sock w = cep_sock v -> cep_timer w = cep_timer v -> cep_state w = cep_state v -> cep_cm_id w = cep_cm_id v ->
  opened X Y c n' k' w.
Proof.
  intros [I Hc Hs Ht Hp] E I' Hc' Eso Eti Est Eid. split; auto; rewrite ?Eso, ?Eti, ?Est, ?Eid.
  - by apply (kp_sock _ _ _ (keep_w _ _ _ E)).
  - by apply (kp_timer _ _ _ E).
  - by eapply keepb_prov; [apply keep_b|].
Qed.

Lemma op_get v (Q : unit -> kstate -> Prop) k :
  opened X Y c n k v ->
  (forall k', opened X Y c (n + 1) k' (v <| cep_ref ::= fun r => r + 1 |>) -> keep c k k' -> Q tt k') ->
  kwp (siw_cep_get c) Q k.
Proof.
  intros O HQ. destruct (O) as [I Hc _ _ _]. eapply kwp_cep_get; [done..|]. intros k' I' E Hc'.
  apply HQ; [|done]. by eapply opened_keep.
Qed.

Lemma op_put_keep v (Q : unit -> kstate -> Prop) k :
  opened X Y c n k v -> 2 <= n ->
  (forall k', opened X Y c (n - 1) k' (v <| cep_ref ::= fun r => r - 1 |>) -> keep c k k' -> Q tt k') ->
  kwp (siw_cep_put c) Q k.
Proof.
  intros O Hn HQ. destruct (O) as [I Hc _ _ _]. destruct (opened_ref _ _ _ _ _ _ O) as (? & ? & ?).
  eapply kwp_cep_put_keep; [done..|lia|lia|]. intros k' I' E Hc'. apply HQ; [|done]. by eapply opened_keep.
Qed.

(** The last use of an endpoint in a call: it may be freed. *)
Lemma op_put_close v (Q : unit -> kstate -> Prop) k :
  opened X Y c n k v -> X !! c = None -> n = held v + 1 -> cep_fields v -> cep_in_use v = false ->
  cep_listen_cep v = None -> listed_ok k c (cep_qp v) -> new_ok k c (cep_state v) ->
  (forall k', kinv X Y k' -> keep c k k' -> Q tt k') -> kwp (siw_cep_put c) Q k.
Proof.
  intros O HX Hn Hf Hu Hl Hli Hnew HQ. destruct (opened_ref _ _ _ _ _ _ O) as (? & ? & ?).
  pose proof (held_nonneg v). destruct (O) as [I Hc Hs Ht Hp].
  eapply kwp_cep_put; [done..|lia| |].
  - intros Hr. assert (held v = 0) as Hh by lia. revert Hf Hh Hp. unfold held, cep_fields.
    destruct (cep_state v) eqn:Est; destruct (cep_cm_id v); intros ? ? ?; destruct_and?; simplify_eq; try done;
      repeat match goal with H : is_Some None |- _ => by destruct H end.
    split_and!; auto. by eapply prov_unlisted.
  - intros k' I' E Hc'. apply HQ; [|done]. eapply kinv_close; [exact I'|done|]. intros u Hu'.
    destruct Hc' as [[_ Hc']|[_ Hc']]; rewrite Hc' in Hu'; [done|]. injection Hu' as <-.
    split; [|unfold held in *; simpl; lia]. split; auto; simpl.
    + by apply (kp_sock _ _ _ (keep_w _ _ _ E)).
    + by apply (kp_timer _ _ _ E).
    + by eapply keepb_listed; [apply keep_b|].
    + by eapply keepb_prov; [apply keep_b|].
    + eapply new_ok_ext; [|done]. apply (kp_qps _ _ _ (keep_b _ _ _ E)).
Qed.

Lemma op_upcall v reason status (Q : Z -> kstate -> Prop) k :
  opened X Y c n k v -> upcall_id k v reason ->
  (forall r k', opened X Y c n k' v -> keep c k k' -> r <= 0 -> (Forall (Z.le 0) (k_rets k) -> r = 0) -> Q r k') ->
  kwp (siw_cm_upcall c reason status) Q k.
Proof.
  intros O Hid HQ. destruct (O) as [I Hc _ _ _]. eapply kwp_upcall; [done..|]. intros r k' I' E Hc' Hr0 Hr.
  apply HQ; auto. by eapply opened_keep.
Qed.

Lemma op_send d v pdata len (Q : Z -> kstate -> Prop) k :
  opened X Y c n k v -> is_Some (cep_sock v) -> sock_ok k d (cep_sock v) ->
  (forall r k' h, opened X Y c n k' (v <| cep_hdr := h |>) -> keep c k k' -> r <= 0 ->
     (Forall (Z.le 0) (k_rets k) -> r = 0) -> Q r k') ->
  kwp (siw_send_trpreqrep c pdata len) Q k.
Proof.
  intros O Hs Hd HQ. destruct (O) as [I Hc _ _ _]. eapply (kwp_send X Y c d); [done..|]. intros r k' h I' E Hc' Hr0 Hr.
  apply (HQ _ _ h); auto. by eapply opened_keep.
Qed.

Lemma op_recv d v (Q : Z -> kstate -> Prop) k :
  opened X Y c n k v -> is_Some (cep_sock v) -> sock_ok k d (cep_sock v) ->
  (forall r k' h p a, opened X Y c n k' (v <| cep_hdr := h |> <| cep_pdata := p |> <| cep_raddr := a |>) ->
     keep c k k' -> r = 0 \/ r = - EPROTO -> Q r k') ->
  kwp (siw_recv_trp_rr c) Q k.
Proof.
  intros O Hs Hd HQ. destruct (O) as [I Hc _ _ _]. eapply (kwp_recv X Y c d); [done..|].
  intros r k' h p a I' E Hc' Hr. apply (HQ _ _ h p a); auto. by eapply opened_keep.
Qed.

Lemma op_cancel v (Q : unit -> kstate -> Prop) k :
  opened X Y c n k v -> 1 <= n ->
  (forall k' rf, opened X Y c n k' (v <| cep_ref := rf |> <| cep_timer := None |>) -> keepb c k k' -> Q tt k') ->
  kwp (siw_cancel_timer c) Q k.
Proof.
  intros O Hn HQ. destruct (O) as [I Hc Hs Ht Hp]. eapply kwp_cancel_timer; [done..|]. intros k' rf I' E Ht' _ Hc'.
  apply (HQ _ rf); [|by apply keepw_b]. split; auto; simpl.
  - by apply (kp_sock _ _ _ E).
  - by eapply keepb_prov; [apply keepw_b|].
Qed.

Lemma op_queue v type (Q : Z -> kstate -> Prop) k :
  opened X Y c n k v -> type <> SIW_CM_WORK_CLOSE_LLP -> type <> SIW_CM_WORK_PEER_CLOSE ->
  (type = SIW_CM_WORK_TIMEOUT -> cep_timer v = None) ->
  (forall r k' rf fl t, opened X Y c n k' (v <| cep_ref := rf |> <| cep_freelist := fl |> <| cep_timer := t |>) ->
     keepb c k k' -> (type <> SIW_CM_WORK_TIMEOUT -> t = cep_timer v) -> (cep_freelist v <> O -> r = 0) -> Q r k') ->
  kwp (siw_cm_queue_work c type) Q k.
Proof.
  intros O Hty1 Hty2 Htm HQ. destruct (O) as [I Hc Hs Ht Hp]. eapply kwp_queue_work; [done..|].
  intros r k' rf fl t I' E Ht' Hty Hfl _ Hc'. apply (HQ _ _ rf fl t); auto; [|by apply keepw_b]. split; auto; simpl.
  - by apply (kp_sock _ _ _ E).
  - by eapply keepb_prov; [apply keepw_b|].
Qed.

(** The socket of an endpoint and the call refer to it. *)
Lemma opened_sock_ref k v s : opened X Y c n k v -> cep_sock v = Some s -> n + 1 <= cep_ref v.
Proof.
  intros [I Hc Hs _ _] Es. destruct (Hs s Es) as (sv & Hsv & Hu).
  pose proof (ki_ref _ _ _ I c) as E. unfold toks in E. rewrite lookup_insert_eq, Hc in E. simpl in E.
  unfold uses in E. pose proof (nrefs_pos ks_user _ _ _ _ Hsv Hu). pose proof (occ_nonneg (wk_cep <$> k_works k) c).
  pose proof (nrefs_nonneg kq_cep (k_qps k) c). pose proof (occ_nonneg (file_ceps k) c). lia.
Qed.

Lemma op_release_sock_ref v (Q : unit -> kstate -> Prop) k :
  opened X Y c n k v -> is_Some (cep_sock v) -> 2 <= cep_ref v ->
  (forall k', opened X Y c n k' (v <| cep_ref := cep_ref v - 1 |> <| cep_sock := None |>) -> keepb c k k' -> Q tt k') ->
  kwp (release_sock c) Q k.
Proof.
  intros O Hso Hn HQ. destruct (O) as [I Hc Hs Ht Hp]. eapply kwp_release_sock; [done..|].
  intros k' I' E Ht' Hc'. apply HQ; [|done]. split; auto; simpl.
  - done.
  - by eapply keepb_prov.
Qed.

Lemma op_release_sock v (Q : unit -> kstate -> Prop) k :
  opened X Y c n k v -> is_Some (cep_sock v) -> 1 <= n ->
  (forall k' rf, opened X Y c n k' (v <| cep_ref := rf |> <| cep_sock := None |>) -> keepb c k k' -> Q tt k') ->
  kwp (release_sock c) Q k.
Proof.
  intros O [s Hso] Hn HQ. pose proof (opened_sock_ref _ _ _ O Hso).
  eapply op_release_sock_ref; [exact O|by eexists|lia|]. intros k' O' E. by eapply HQ.
Qed.

Lemma op_drop_cm_id v (Q : bool -> kstate -> Prop) k :
  opened X Y c n k v -> unlisted k c ->
  (forall k', opened X Y c n k' (v <| cep_cm_id := None |>) -> keep c k k' ->
     Q (bool_decide (is_Some (cep_cm_id v))) k') ->
  kwp (drop_cm_id c) Q k.
Proof.
  intros O Hun HQ. destruct (O) as [I Hc Hs Ht Hp]. eapply kwp_drop_cm_id; [done..|]. intros k' I' E Hc'.
  apply HQ; [|done]. split; auto; simpl.
  - by apply (kp_sock _ _ _ (keep_w _ _ _ E)).
  - by apply (kp_timer _ _ _ E).
  - apply unlisted_prov. by eapply keepb_unlisted; [apply keep_b|].
Qed.
End opened_rules.

(** ** Queue pairs of open endpoints *)

Lemma opened_keepq X Y Y' c n n' q k k' v :
  opened X Y c n k v -> keepq q k k' -> kinv (<[c := n']> X) Y' k' -> opened X Y' c n' k' v.
Proof.
  intros [I Hc Hs Ht Hp] E I'. split; auto.
  - by rewrite (keepq_same q k k' c E).
  - by eapply keepq_sock.
  - by eapply keepq_timer.
  - by eapply keepq_prov.
Qed.

Lemma opened_openq X Y c n k v q qv :
  opened X Y c n k v -> Y !! q = None -> k_qps k !! q = Some qv -> opened X (<[q := qheld qv]> Y) c n k v.
Proof. intros [I ? ? ? ?] HY Hq. split; auto. by apply kinv_openq. Qed.

Lemma opened_closeq X Y c n k v q m :
  opened X (<[q := m]> Y) c n k v -> Y !! q = None -> (forall qv, k_qps k !! q = Some qv -> m = qheld qv) ->
  opened X Y c n k v.
Proof. intros [I ? ? ? ?] HY Hq. split; auto. by eapply kinv_closeq. Qed.

(** The queue pair of an endpoint exists. *)
Lemma kinv_cep_qp X Y k c v q : kinv X Y k -> k_ceps k !! c = Some v -> cep_qp v = Some q -> is_Some (k_qps k !! q).
Proof.
  intros I Hc Hq. pose proof (ki_qref _ _ _ I q) as E. pose proof (nrefs_pos cep_qp _ _ _ _ Hc Hq).
  unfold qtoks in E. destruct (k_qps k !! q) eqn:Eq; [by eexists|]. simpl in E.
  destruct (Y !! q) eqn:EY; [|lia]. pose proof (ki_qtoks _ _ _ I q _ EY). lia.
Qed.

(** The endpoint that a queue pair refers to exists. *)
Lemma kinv_qp_cep X Y k c v q : kinv X Y k -> k_qps k !! q = Some v -> kq_cep v = Some c -> is_Some (k_ceps k !! c).
Proof.
  intros I Hq Hc. pose proof (ki_ref _ _ _ I c) as E. pose proof (nrefs_pos kq_cep _ _ _ _ Hq Hc).
  unfold toks, uses in E. pose proof (nrefs_nonneg ks_user (k_socks k) c).
  pose proof (occ_nonneg (wk_cep <$> k_works k) c). pose proof (occ_nonneg (file_ceps k) c).
  destruct (k_ceps k !! c) eqn:Ec; [by eexists|]. simpl in E.
  destruct (X !! c) eqn:EX; [|lia]. pose proof (ki_toks _ _ _ I c _ EX). lia.
Qed.

Lemma held_0 v : held v = 0 -> cep_fields v -> cep_cm_id v = None /\ cep_qp v = None /\ cep_state v <> SIW_EPSTATE_LISTENING.
Proof.
  unfold held, cep_fields. destruct (cep_state v); destruct (cep_cm_id v); intros; destruct_and?; simplify_eq;
    repeat match goal with H : is_Some None |- _ => by destruct H end; done.
Qed.

(** [drop_qp_cep] when the endpoint of the queue pair is not open. *)
Lemma kwp_drop_other X Y q m v c (Q : unit -> kstate -> Prop) k :
  kinv X (<[q := m]> Y) k -> k_qps k !! q = Some v -> kq_cep v = Some c -> X !! c = None ->
  (qp_live (kq_state v) = false \/ forall u, k_ceps k !! c = Some u -> cep_qp u <> Some q) ->
  (forall k1 k', kinv X (<[q := m]> Y) k' -> keepq q k k1 -> keep c k1 k' ->
     k_qps k' !! q = Some (v <| kq_cep := None |>) -> Q tt k') ->
  kwp (drop_qp_cep q) Q k.
Proof.
  intros I Hq Hc HX Hlive HQ. destruct (kinv_qp_cep _ _ _ _ _ _ I Hq Hc) as [u Hu].
  destruct (kinv_opened _ _ _ _ _ I HX Hu) as ([I1 _ Hs Ht Hp] & Hf & Huse & Hli & Hlist & Hnew).
  eapply (kwp_drop_qp_cep X Y c q); [exact I1|done..| |].
  - intros Hr. assert (held u = 0) as Hh.
    { pose proof (ki_ref _ _ _ I c) as E. pose proof (nrefs_pos kq_cep _ _ _ _ Hq Hc). unfold toks, uses in E.
      rewrite HX, Hu in E. simpl in E. pose proof (nrefs_nonneg ks_user (k_socks k) c). pose proof (held_nonneg u).
      pose proof (occ_nonneg (wk_cep <$> k_works k) c). pose proof (occ_nonneg (file_ceps k) c). lia. }
    destruct (held_0 u Hh Hf) as (? & ? & ?). split_and!; auto. by eapply prov_unlisted.
  - intros k1 k' I' Eq Ec Hq' Hc'. eapply HQ; [|exact Eq|exact Ec|exact Hq'].
    assert (listed_ok k' c (cep_qp u)) as Hlk.
    { destruct (decide (cep_qp u = Some q)) as [Huq|Huq].
      - intros p pv Hp' Hpv. rewrite Huq in Hp'. injection Hp' as <-. rewrite Hq' in Hpv. injection Hpv as <-. simpl.
        destruct Hlive as [Hlive|Hlive]; [|by apply Hlive in Hu]. rewrite Hlive. split; [done|]. intros Hin.
        destruct (Hlist q v Huq Hq) as [_ H2]. rewrite H2 in Hlive; [done|]. unfold file_ceps in *.
        by rewrite <- (kx_file _ _ _ Eq), <- (kp_file _ _ _ (keep_b _ _ _ Ec)).
      - eapply keepb_listed; [by apply keep_b|]. by eapply keepq_listed. }
    assert (new_ok k' c (cep_state u)) by (intros Hst; by destruct (Hnew Hst q v Hq)).
    kmove Eq. kmove Ec. eapply kinv_close; [exact I'|done|]. intros w Hw.
    destruct Hc' as [[_ Hc']|[_ Hc']]; rewrite Hc' in Hw; [done|]. injection Hw as <-.
    split; [|by unfold held]. by split.
Qed.

Lemma qheld_nonneg v : 0 <= qheld v.
Proof. unfold qheld. case_match; lia. Qed.

Lemma opened_qp_ref X Y c n k v q qv :
  opened X Y c n k v -> k_qps k !! q = Some qv -> kq_cep qv = Some c -> n + 1 <= cep_ref v.
Proof.
  intros [I Hc _ _ _] Hq Hqc. pose proof (ki_ref _ _ _ I c) as E. pose proof (nrefs_pos kq_cep _ _ _ _ Hq Hqc).
  unfold toks, uses in E. rewrite lookup_insert_eq, Hc in E. simpl in E.
  pose proof (nrefs_nonneg ks_user (k_socks k) c). pose proof (occ_nonneg (wk_cep <$> k_works k) c).
  pose proof (occ_nonneg (file_ceps k) c). lia.
Qed.

(** The references of a queue pair cover those of its endpoint and the call. *)
Lemma opened_cep_qp_ref X Y c n k v q m qv :
  opened X (<[q := m]> Y) c n k v -> cep_qp v = Some q -> k_qps k !! q = Some qv -> m + 1 <= kq_ref qv /\ 0 <= m.
Proof.
  intros [I Hc _ _ _] Hcq Hq. pose proof (ki_qref _ _ _ I q) as E. pose proof (nrefs_pos cep_qp _ _ _ _ Hc Hcq).
  unfold qtoks in E. rewrite lookup_insert_eq, Hq in E. simpl in E. split; [lia|].
  apply (ki_qtoks _ _ _ I q). by rewrite lookup_insert_eq.
Qed.

(** [siw_qp_llp_close] of the queue pair of an open endpoint. *)
Lemma op_llp_close c q n m v qv (Q : unit -> kstate -> Prop) k :
  opened ∅ {[q := m]} c n k v -> 1 <= n -> cep_qp v = Some q -> unlisted k c -> listed_ok k c (Some q) ->
  k_qps k !! q = Some qv ->
  (forall k' rf qv', opened ∅ {[q := m]} c n k' (v <| cep_ref := rf |>) -> unlisted k' c ->
     k_qps k' !! q = Some qv' -> kq_cep qv' = None -> qheld qv' = qheld qv -> kq_ref qv' = kq_ref qv -> Q tt k') ->
  kwp (siw_qp_llp_close q) Q k.
Proof.
  intros O Hn Hcq Hun Hl Hq HQ. unfold siw_qp_llp_close. destruct (Hl q qv eq_refl Hq) as [Hl1 Hl2].
  apply kwp_bind. eapply kwp_qp_state; [apply (op_inv _ _ _ _ _ _ O)|done..| |].
  { intros d u Hd Hu Hdq Hd1 Hd2. assert (c <> d) by (intros ->; by rewrite lookup_insert_eq in Hd).
    destruct (qp_live (kq_state qv)) eqn:Elive; [specialize (Hl1 eq_refl); specialize (Hd1 eq_refl); congruence|].
    split.
    - simpl. destruct (kq_state qv); done.
    - intros Hf. specialize (Hd2 Hf). by rewrite Hd2 in Elive. }
  intros k1 I1 E1 Hq1. set (qv1 := qv <| kq_state ::= llp_close_state |>) in *.
  pose proof (opened_keepq _ _ _ _ _ _ _ _ _ _ O E1 I1) as O1. kmove E1.
  destruct (kq_cep qv) as [d|] eqn:Ed.
  2:{ unfold drop_qp_cep. apply kwp_bind. eapply kwp_get_kqp; [done|]. simpl. rewrite Ed. apply kwp_ret.
      apply (HQ _ (cep_ref v) qv1); auto. by destruct v. }
  destruct (decide (d = c)) as [->|Hne].
  - eapply (kwp_drop_qp_cep ∅ ∅ c q); [exact I1|exact Hq1|exact Ed|apply (op_cep _ _ _ _ _ _ O1)| |].
    { pose proof (opened_qp_ref _ _ _ _ _ _ _ _ O1 Hq1 Ed). lia. }
    intros k2 k3 I3 E2 E3 Hq3 Hc3. pose proof (opened_qp_ref _ _ _ _ _ _ _ _ O1 Hq1 Ed).
    destruct Hc3 as [[? _]|[_ Hc3]]; [lia|].
    eapply (HQ _ (cep_ref v - 1)); [|by kmove E2; kmove E3|exact Hq3|done..].
    destruct O1 as [_ _ Hs Ht Hp]. kmove E2. kmove E3. by split.
  - eapply (kwp_drop_other (<[c := n]> ∅) ∅ q); [exact I1|exact Hq1|exact Ed|by rewrite lookup_insert_ne| |].
    { left. simpl. destruct (kq_state qv); try done; specialize (Hl1 eq_refl); congruence. }
    intros k2 k3 I3 E2 E3 Hq3. eapply (HQ _ (cep_ref v)); [|by kmove E2; kmove E3|exact Hq3|done..].
    destruct O1 as [_ Hc Hs Ht Hp]. kmove E2. kmove E3. split; auto. simpl. rewrite Hc. by destruct v.
Qed.

Lemma op_release_qp c q n v (Q : unit -> kstate -> Prop) k :
  opened ∅ ∅ c n k v -> 1 <= n -> cep_qp v = Some q -> cep_in_use v = true -> unlisted k c -> listed_ok k c (Some q) ->
  (forall k' rf, opened ∅ ∅ c n k' (v <| cep_ref := rf |> <| cep_qp := None |>) -> unlisted k' c -> Q tt k') ->
  kwp (release_qp c q) Q k.
Proof.
  intros O Hn Hcq Huse Hun Hl HQ. unfold release_qp.
  destruct (kinv_cep_qp _ _ _ _ _ _ (op_inv _ _ _ _ _ _ O) (op_cep _ _ _ _ _ _ O) Hcq) as [qv Hq].
  pose proof (opened_openq _ _ _ _ _ _ _ _ O (lookup_empty q) Hq) as O1. clear O.
  apply kwp_bind. eapply kwp_qp_get; [apply (op_inv _ _ _ _ _ _ O1)|done|]. intros k1 I1 E1 L1 Hq1.
  pose proof (opened_keepq _ _ _ _ _ _ _ _ _ _ O1 E1 I1) as O2. clear O1. kmove E1.
  unfold siw_cep_set_free, siw_cep_set_inuse.
  apply kwp_bind. eapply op_upd; [exact O2|try done..|by left|]. intros k2 O3 E2. kmove E2. clear O2.
  apply kwp_bind. eapply op_llp_close; [exact O3|done..|]. intros k3 rf qv3 O4 Hun4 Hq3 Hqc Hqh Hqr.
  apply kwp_bind. destruct (opened_cep_qp_ref _ _ _ _ _ _ _ _ _ O4 Hcq Hq3) as [Hr4 _].
  pose proof (qheld_nonneg qv).
  eapply kwp_qp_put; [apply (op_inv _ _ _ _ _ _ O4)|exact Hq3|lia|intros; exfalso; lia|]. intros k4 I4 E4 L4 Hq4.
  destruct Hq4 as [[? _]|[_ Hq4]]; [lia|].
  pose proof (opened_keepq _ _ _ _ _ _ _ _ _ _ O4 E4 I4) as O5. clear O4 O3. kmove E4.
  apply kwp_bind. apply kwp_bind. eapply kwp_get_cep; [apply (op_cep _ _ _ _ _ _ O5)|]. simpl.
  eapply op_upd; [exact O5|try done..|by left|]. intros k5 O6 E5. clear O5. kmove E5.
  apply kwp_bind. destruct (O6) as [I6 Hc6 Hs6 Ht6 Hp6].
  eapply kwp_clear_cep_qp; [exact I6|exact Hc6|done|]. intros k6 I7 E6 Hc7. kmove E6.
  eapply kwp_qp_put_held; [exact I7|exact Hq4|change (qheld qv + 1 - 1 + 1 = qheld qv3 + 1); rewrite Hqh; change (qheld qv + 1 - 1 + 1 = qheld qv + 1); lia|done|]. intros k7 I8 E7 L7 Hq8. kmove E7.
  eapply (HQ _ rf); [|done].
  eapply (opened_closeq ∅ ∅ c n k7 _ q); [|done|].
  - split; [exact I8|..]; auto. rewrite Hc7. destruct v; simpl in *; by subst.
  - intros u Hu. destruct Hq8 as [[_ Hq8]|[_ Hq8]]; rewrite Hq8 in Hu; [done|]. injection Hu as <-.
    unfold qheld in *. simpl in *. lia.
Qed.

(** ** Work items *)

(** An endpoint with nothing left, still in use by the call. *)
Definition closed_cep (v : siw_cep) : Prop :=
  cep_state v = SIW_EPSTATE_CLOSED /\ cep_cm_id v = None /\ cep_sock v = None /\ cep_qp v = None /\
  cep_timer v = None /\ cep_listen_cep v = None.

Lemma op_release_cep c v (Q : unit -> kstate -> Prop) k :
  opened ∅ ∅ c 2 k v -> is_Some (cep_cm_id v) -> is_Some (cep_sock v) -> is_Some (cep_qp v) ->
  cep_in_use v = true -> cep_listen_cep v = None -> unlisted k c -> listed_ok k c (cep_qp v) ->
  (forall k' v', opened ∅ ∅ c 1 k' v' -> closed_cep v' -> Q tt k') ->
  kwp (release_cep c) Q k.
Proof.
  intros O Hid Hso [q Hqp] Huse Hli Hun Hl HQ. unfold release_cep, set_state. rewrite Hqp in Hl.
  apply kwp_bind. eapply op_cancel; [exact O|lia|]. intros k1 rf1 O1 E1. kmove E1. clear O.
  apply kwp_bind. eapply op_upd; [exact O1|try done..|by right|]. intros k2 O2 E2. kmove E2. clear O1.
  apply kwp_bind. eapply kwp_get_cep; [apply (op_cep _ _ _ _ _ _ O2)|]. simpl. rewrite Hqp.
  apply kwp_bind. eapply op_release_qp; [exact O2|lia|done..|]. intros k3 rf3 O3 Hun3. clear O2.
  apply kwp_bind. eapply kwp_get_cep; [apply (op_cep _ _ _ _ _ _ O3)|]. simpl. destruct Hso as [s Hs]. rewrite Hs.
  apply kwp_bind. eapply op_release_sock; [exact O3|by eexists|lia|]. intros k4 rf4 O4 E4. kmove E4. clear O3.
  apply kwp_bind. eapply op_drop_cm_id; [exact O4|done|]. intros k5 O5 E5. clear O4.
  simpl. rewrite bool_decide_true by done. unfold when.
  eapply op_put_keep; [exact O5|lia|]. intros k6 O6 E6. eapply HQ; [exact O6|]. done.
Qed.

(** An endpoint that is part of a connection. *)
Definition conn_state (s : siw_cep_state) : Prop :=
  s = SIW_EPSTATE_AWAIT_MPAREP \/ s = SIW_EPSTATE_RECVD_MPAREP \/ s = SIW_EPSTATE_ACCEPTING \/
  s = SIW_EPSTATE_RDMA_MODE.

Lemma conn_fields v : conn_state (cep_state v) -> cep_fields v ->
  is_Some (cep_cm_id v) /\ is_Some (cep_sock v) /\ is_Some (cep_qp v) /\ held v = 1 /\
  cep_state v <> SIW_EPSTATE_LISTENING.
Proof.
  unfold cep_fields, held. intros [E|[E|[E|E]]]; rewrite E; intros (Hid & Hs & Hq);
    destruct (Hid) as [i Hi]; rewrite Hi; split_and!; auto.
Qed.

Lemma conn_new_ok k c s : conn_state s -> new_ok k c s.
Proof. intros [->|[->|[->| ->]]] [|]; done. Qed.

Lemma conn_fields_intro v : conn_state (cep_state v) ->
  is_Some (cep_cm_id v) -> is_Some (cep_sock v) -> is_Some (cep_qp v) -> cep_fields v.
Proof. unfold cep_fields. intros [E|[E|[E|E]]]; rewrite E; auto. Qed.

Lemma upcall_conn k v reason : reason <> IW_CM_EVENT_CONNECT_REQUEST -> is_Some (cep_cm_id v) -> upcall_id k v reason.
Proof. intros H. unfold upcall_id. by rewrite decide_False. Qed.

(** The work of a time-out, which is no longer queued. *)
Lemma op_work_timeout c v (Q : unit -> kstate -> Prop) k :
  kinv (<[c := 2]> ∅) ∅ k -> k_ceps k !! c = Some v -> sock_ok k c (cep_sock v) ->
  prov_ok k c (cep_state v) (cep_cm_id v) -> timer_ok k c None ->
  conn_state (cep_state v) -> cep_fields v -> listed_ok k c (cep_qp v) ->
  (forall k' h, opened ∅ ∅ c 2 k' (v <| cep_timer := None |> <| cep_hdr := h |>) -> listed_ok k' c (cep_qp v) -> Q tt k') ->
  kwp (work_timeout c) Q k.
Proof.
  intros I Hc Hs Hp Ht0 Hst Hf Hl HQ. destruct (conn_fields v Hst Hf) as (Hid & Hso & Hqp & _ & _).
  unfold work_timeout, set_hdr. apply kwp_bind.
  eapply kwp_upd_cep; [done..|]. intros k1 I1 E1 Hc1. kmove E1.
  assert (O1 : opened ∅ ∅ c 2 k1 (v <| cep_timer := None |>)) by (by split).
  apply kwp_bind. eapply kwp_get_cep; [exact Hc1|].
  assert (Hup : forall reason st h, reason <> IW_CM_EVENT_CONNECT_REQUEST -> forall k2,
    opened ∅ ∅ c 2 k2 (v <| cep_timer := None |> <| cep_hdr := h |>) -> listed_ok k2 c (cep_qp v) ->
    kwp (_ ← siw_cm_upcall c reason st; mret tt) Q k2).
  { intros reason st h Hr k2 O2 Hl2. apply kwp_bind. eapply op_upcall; [exact O2|by apply upcall_conn|].
    intros r k3 O3 E3 _ _. kmove E3. apply kwp_ret. by eapply HQ. }
  assert (O1' : opened ∅ ∅ c 2 k1 (v <| cep_timer := None |> <| cep_hdr := cep_hdr v |>)) by (by destruct v).
  simpl. destruct Hst as [E|[E|[E|E]]]; rewrite E.
  - apply kwp_bind. eapply op_upd; [exact O1|try done..|by left|]. intros k2 O2 E2. kmove E2.
    destruct Hid as [i Hi]. rewrite Hi. eapply Hup; [done|exact O2|done].
  - by eapply Hup.
  - by eapply Hup.
  - apply kwp_ret. by eapply HQ.
Qed.

(** ** Replies *)

(** A queue pair of an open endpoint is established. *)
Lemma op_modify_rts c q n v qv attrs (Q : Z -> kstate -> Prop) k :
  opened ∅ ∅ c n k v -> cep_qp v = Some q -> k_qps k !! q = Some qv -> kq_cep qv = Some c ->
  kq_state qv = SIW_QP_STATE_IDLE \/ kq_state qv = SIW_QP_STATE_RTR -> at_state attrs = SIW_QP_STATE_RTS ->
  (forall k' rf, opened ∅ ∅ c n k' (v <| cep_ref := rf |>) -> listed_ok k' c (Some q) ->
     (unlisted k c -> unlisted k' c) -> (exists qv', k_qps k' !! q = Some qv' /\ kq_cep qv' = Some c) -> Q 0 k') ->
  kwp (siw_qp_modify q attrs rts_mask) Q k.
Proof.
  intros O Hcq Hq Hqc Hst Hat HQ. unfold siw_qp_modify.
  change (rts_mask =? 0) with false. change (negb (rts_mask =? SIW_QP_ATTR_STATE)) with true.
  change (has rts_mask SIW_QP_ATTR_ACCESS_FLAGS) with false. change (negb (has rts_mask SIW_QP_ATTR_STATE)) with false.
  cbv iota. simpl andb. apply kwp_bind, kwp_ret. unfold qp_change_state. apply kwp_bind.
  eapply kwp_get_kqp; [done|]. rewrite Hat.
  assert (Hgo : kwp (if negb (Z.land rts_mask init_to_rts_mask =? init_to_rts_mask) then mret (- EINVAL) else
      upd_kqp q (fun v => v <| kq_state := SIW_QP_STATE_RTS |>
        <| kq_irq_size := if at_irq_size attrs =? 0 then 1 else at_irq_size attrs |>
        <| kq_orq_size := if at_orq_size attrs =? 0 then 1 else at_orq_size attrs |>);;
      notify_established q;; mret 0) Q k); [|by destruct Hst as [->| ->]].
  change (negb (Z.land rts_mask init_to_rts_mask =? init_to_rts_mask)) with false. cbv iota.
  pose proof (opened_openq _ _ _ _ _ _ _ _ O (lookup_empty q) Hq) as O1. clear O.
  apply kwp_bind. eapply kwp_qp_state; [apply (op_inv _ _ _ _ _ _ O1)|exact Hq|done|done|done| |].
  { intros d u Hd Hu Hdq Hd1 _. assert (c <> d) by (intros ->; by rewrite lookup_insert_eq in Hd).
    assert (Some c = Some d); [|congruence]. rewrite <- Hqc. apply Hd1. by destruct Hst as [->| ->]. }
  intros k1 I1 E1 Hq1. pose proof (opened_keepq _ _ _ _ _ _ _ _ _ _ O1 E1 I1) as O2. clear O1.
  set (qv1 := qv <| kq_state := SIW_QP_STATE_RTS |>
        <| kq_irq_size := if at_irq_size attrs =? 0 then 1 else at_irq_size attrs |>
        <| kq_orq_size := if at_orq_size attrs =? 0 then 1 else at_orq_size attrs |>) in *.
  pose proof (opened_closeq _ _ _ _ _ _ _ _ O2 (lookup_empty q)) as O3.
  assert (O4 : opened ∅ ∅ c n k1 v).
  { apply O3. intros u Hu. rewrite Hq1 in Hu. by injection Hu as <-. }
  destruct (O4) as [I4 Hc4 Hs4 Ht4 Hp4]. clear O2 O3.
  apply kwp_bind. eapply kwp_notify; [exact I4|exact Hq1|exact Hqc|exact Hc4|]. intros k2 k3 I5 E2 E3 Hc5.
  apply kwp_ret. eapply (HQ _ (cep_ref v + 1)).
  - kmove E2. kmove E3. by split.
  - kmove E2. kmove E3. intros p pv [= <-] Hp. rewrite Hq1 in Hp. injection Hp as <-. done.
  - intros Hun. kmove E1. kmove E2. by kmove E3.
  - exists qv1. kmove E2. kmove E3. by split.
Qed.

Definition same_core (v v' : siw_cep) : Prop :=
  cep_cm_id v' = cep_cm_id v /\ cep_sock v' = cep_sock v /\ cep_qp v' = cep_qp v /\
  cep_in_use v' = cep_in_use v /\ cep_listen_cep v' = cep_listen_cep v.

Lemma same_core_fields v v' : same_core v v' -> conn_state (cep_state v) -> cep_fields v ->
  conn_state (cep_state v') -> cep_fields v'.
Proof.
  intros (E1 & E2 & E3 & _) Hs Hf Hs'. destruct (conn_fields v Hs Hf) as (? & ? & ? & _).
  apply conn_fields_intro; congruence.
Qed.

Lemma qp_state_val_le s : siw_qp_state_val s <= 1 -> s = SIW_QP_STATE_IDLE \/ s = SIW_QP_STATE_RTR.
Proof. destruct s; simpl; auto; lia. Qed.

Lemma op_proc_trpreply c v (Q : Z -> kstate -> Prop) k :
  opened ∅ ∅ c 2 k v -> cep_state v = SIW_EPSTATE_AWAIT_MPAREP -> cep_fields v -> listed_ok k c (cep_qp v) ->
  unlisted k c ->
  (forall r k' v', opened ∅ ∅ c 2 k' v' -> same_core v v' -> conn_state (cep_state v') ->
     listed_ok k' c (cep_qp v') -> unlisted k' c -> Q r k') ->
  kwp (siw_proc_trpreply c) Q k.
Proof.
  intros O Hst Hf Hl Hun HQ. assert (Hcs : conn_state (cep_state v)) by (by left).
  destruct (conn_fields v Hcs Hf) as (Hid & Hso & [q Hqp] & _ & _). rewrite Hqp in Hl.
  unfold siw_proc_trpreply. apply kwp_bind. eapply kwp_get_cep; [apply (op_cep _ _ _ _ _ _ O)|].
  apply kwp_bind. eapply (op_recv _ _ _ _ c); [exact O|done|apply (op_sock _ _ _ _ _ _ O)|].
  intros r1 k1 h p a O1 E1 Hr1. clear O. kmove E1.
  apply kwp_bind. eapply op_cancel; [exact O1|lia|]. intros k2 rf O2 E2. clear O1. kmove E2.
  set (v2 := v <| cep_hdr := h |> <| cep_pdata := p |> <| cep_raddr := a |> <| cep_ref := rf |> <| cep_timer := None |>) in *.
  assert (Herr : forall st rv k', opened ∅ ∅ c 2 k' v2 -> listed_ok k' c (Some q) -> unlisted k' c ->
    kwp (_ ← siw_cm_upcall c IW_CM_EVENT_CONNECT_REPLY st; mret rv) Q k').
  { intros st rv k' O' Hl' Hun'. apply kwp_bind. eapply op_upcall; [exact O'|by apply upcall_conn|].
    intros r k3 O3 E3 _ _. kmove E3. apply kwp_ret. eapply HQ; [exact O3|done|done| |done]. simpl. by rewrite Hqp. }
  destruct (negb (r1 =? 0)); [by apply Herr|].
  apply kwp_bind. eapply kwp_get_cep; [apply (op_cep _ _ _ _ _ _ O2)|].
  destruct (negb (trp_opcode _ =? _)); [by apply Herr|].
  apply kwp_bind, kwp_gets. destruct (_ || _).
  { apply kwp_ret. eapply HQ; [exact O2|done|done| |done]. simpl. by rewrite Hqp. }
  apply kwp_bind. destruct Hso as [s Hso]. eapply kwp_nonnull; [exact Hso|].
  apply kwp_bind. apply (kwp_kerr _ _ c _ _ (op_inv _ _ _ _ _ _ O2)). intros r2 k3 I3 E3 Hc3 _ _.
  rewrite (op_cep _ _ _ _ _ _ O2) in Hc3. pose proof (opened_keep _ _ _ _ _ _ _ _ _ O2 E3 I3 Hc3 eq_refl eq_refl eq_refl eq_refl) as O3.
  clear O2. kmove E3.
  destruct (negb (r2 =? 0)); [by apply Herr|].
  apply kwp_bind. eapply kwp_nonnull; [exact Hqp|].
  destruct (kinv_cep_qp _ _ _ _ _ _ (op_inv _ _ _ _ _ _ O3) (op_cep _ _ _ _ _ _ O3) Hqp) as [qv Hq].
  apply kwp_bind. eapply kwp_get_kqp; [exact Hq|].
  destruct (Z.ltb_spec (siw_qp_state_val SIW_QP_STATE_RTR) (siw_qp_state_val (kq_state qv))) as [|Hle]; [by apply Herr|].
  apply qp_state_val_le in Hle. destruct (Hl q qv eq_refl Hq) as [Hl1 _].
  apply kwp_bind. eapply op_modify_rts; [exact O3|done|exact Hq| |exact Hle|done|].
  { apply Hl1. by destruct Hle as [->| ->]. }
  intros k4 rf4 O4 Hl4 Hun4 _. specialize (Hun4 Hun). clear O3. simpl.
  unfold set_state. apply kwp_bind. eapply op_upd; [exact O4|try done..|by right|]. intros k5 O5 E5. clear O4. kmove E5.
  apply kwp_bind. eapply kwp_get_cep; [apply (op_cep _ _ _ _ _ _ O5)|]. simpl.
  apply kwp_bind. apply kwp_bind. eapply op_queue; [exact O5|done..|]. intros r6 k6 rf6 fl t O6 E6 _ _. kmove E6.
  apply kwp_ret, kwp_ret. eapply HQ; [exact O6|done|by right; left| |done]. simpl. by rewrite Hqp.
Qed.
