(* ===== verification/Kconn.v ===== *)
(** * Reference counting: the calls of the connection manager

    Each entry point of the kernel module keeps the invariant of [Kref] and
    does not fault. *)
From S2P Require Import Prelude Proto Kern Cm Kverbs Kref Kalloc Kstep.

(** A change of the open endpoint of [O] that the invariant does not see. *)
Ltac kupd O :=
  eapply op_upd; [exact O|reflexivity|reflexivity|first [reflexivity|simpl; congruence]|reflexivity|reflexivity|
    first [left; reflexivity|right; assumption]|].

(** ** Requests *)

Section request.
Context (X Y : gmap nat Z) (n l : nat) (m : Z).
Context (Hnl : n <> l).

Lemma kwp_reject_req v rv (Q : Z -> kstate -> Prop) k :
  kinv (<[n := m]> X) Y k -> k_ceps k !! n = Some v -> is_Some (cep_sock v) -> sock_ok k l (cep_sock v) ->
  (forall k' h, kinv (<[n := m]> X) Y k' -> keep n k k' -> k_ceps k' !! n = Some (v <| cep_hdr := h |>) -> Q rv k') ->
  kwp (set_trp_hdr n trp_reject;; _ ← siw_send_trpreqrep n [] 0; mret rv) Q k.
Proof using Hnl.
  intros I Hc Hso Hs HQ. unfold set_trp_hdr, set_hdr.
  apply kwp_bind. eapply kwp_upd_cep; [exact I|exact Hc|done..|]. intros k1 I1 E1 Hc1. pose proof E1 as E1'. kmove E1.
  apply kwp_bind. eapply (kwp_send X Y n l); [exact I1|exact Hc1|done|done|]. intros r k2 h I2 E2 Hc2 _ _.
  apply kwp_ret. eapply HQ; [exact I2|by eapply keep_trans|exact Hc2].
Qed.

Lemma kwp_proc_trpreq v lv rf0 (Q : Z -> kstate -> Prop) k :
  kinv (<[n := m]> X) Y k -> 1 <= m -> k_ceps k !! n = Some v -> timer_ok k n (cep_timer v) ->
  is_Some (cep_sock v) -> sock_ok k l (cep_sock v) ->
  cep_listen_cep v = Some l -> k_ceps k !! l = Some lv -> is_Some (cep_cm_id lv) ->
  rf0 = cep_ref v - (if decide (is_Some (cep_timer v)) then 1 else 0) ->
  (forall r k' v' m', kinv (<[n := m']> X) Y k' -> keepb n k k' -> k_ceps k' !! n = Some v' -> same_core v v' ->
     cep_timer v' = None -> timer_ok k' n None -> cep_ref v' - m' = rf0 - m ->
     (r = 0 /\ m' = m + 1 /\ cep_state v' = SIW_EPSTATE_RECVD_MPAREQ) \/ (r <> 0 /\ m' = m) -> Q r k') ->
  kwp (siw_proc_trpreq n) Q k.
Proof using Hnl.
  intros I Hm Hc Ht Hso Hs Hli Hl Hid Hrf0 HQ. unfold siw_proc_trpreq.
  apply kwp_bind. eapply (kwp_recv X Y n l); [done..|]. intros r1 k1 h p a I1 E1 Hc1 Hr1.
  pose proof (keep_b _ _ _ E1) as B1. kmove E1.
  apply kwp_bind. eapply kwp_cancel_timer; [exact I1|exact Hc1|exact Ht|done|]. intros k2 rf I2 E2 Ht2 Hrf Hc2.
  pose proof (keepb_trans _ _ _ _ B1 (keepw_b _ _ _ E2)) as B2. clear B1. kmove E2.
  simpl in Hrf. rewrite <- Hrf0 in Hrf. subst rf.
  set (v2 := v <| cep_hdr := h |> <| cep_pdata := p |> <| cep_raddr := a |> <| cep_ref := rf0 |> <| cep_timer := None |>) in *.
  assert (Hrej : forall rv k3 w, rv <> 0 -> kinv (<[n := m]> X) Y k3 -> k_ceps k3 !! n = Some w -> same_core v w ->
    cep_timer w = None -> cep_ref w = rf0 -> timer_ok k3 n None -> keepb n k k3 -> sock_ok k3 l (cep_sock v) ->
    kwp (set_trp_hdr n trp_reject;; _ ← siw_send_trpreqrep n [] 0; mret rv) Q k3).
  { intros rv k3 w Hrv I3 Hc3 Hsc Htw Hrw Ht3 B3 Hs3. pose proof Hsc as (_ & Eso & _).
    eapply kwp_reject_req; [done|exact Hc3|by rewrite Eso|by rewrite Eso|]. intros k4 h4 I4 E4 Hc4.
    eapply HQ; [exact I4|by eapply keepb_trans, keep_b|exact Hc4|done|done|by apply (kp_timer _ _ _ E4)|simpl; lia|auto]. }
  destruct (Z.eqb_spec r1 (- EPROTO)) as [->|]; [by eapply Hrej|].
  destruct (Z.eqb_spec r1 0) as [->|]; [|by destruct Hr1].
  apply kwp_bind. eapply kwp_get_cep; [exact Hc2|]. destruct (negb (_ =? trp_req)); [by eapply Hrej|].
  apply kwp_bind. eapply kwp_upd_cep; [exact I2|exact Hc2|done..|]. intros k3 I3 E3 Hc3.
  pose proof (keepb_trans _ _ _ _ B2 (keep_b _ _ _ E3)) as B3. clear B2. kmove E3.
  apply kwp_bind, kwp_gets. destruct (_ || _).
  { apply kwp_bind. eapply kwp_upd_cep; [exact I3|exact Hc3|done..|]. intros k4 I4 E4 Hc4.
    pose proof (keepb_trans _ _ _ _ B3 (keep_b _ _ _ E4)) as B4. kmove E4. by eapply Hrej. }
  apply kwp_bind. eapply kwp_cep_get; [exact I3|exact Hc3|]. intros k4 I4 E4 Hc4.
  pose proof (keepb_trans _ _ _ _ B3 (keep_b _ _ _ E4)) as B4. clear B3. kmove E4.
  apply kwp_bind. eapply kwp_upcall; [exact I4|exact Hc4| |].
  { unfold upcall_id. rewrite decide_True by done. exists l, lv. by split_and!. }
  intros r k5 I5 E5 Hc5 _ _. pose proof (keepb_trans _ _ _ _ B4 (keep_b _ _ _ E5)) as B5. clear B4. kmove E5.
  apply kwp_bind. unfold when. destruct (Z.eqb_spec r 0) as [->|Hr].
  - apply kwp_ret, kwp_ret. eapply HQ; [exact I5|done|exact Hc5|done|done|done|simpl; lia|auto].
  - pose proof (kinv_ref_ge _ _ _ _ _ _ I5 Hc5).
    eapply kwp_cep_put_keep; [exact I5|exact Hc5|lia|lia|]. intros k6 I6 E6 Hc6. apply kwp_ret.
    replace (m + 1 - 1) with m in I6 by lia.
    eapply HQ; [exact I6|by eapply keepb_trans, keep_b|exact Hc6|done|done|by apply (kp_timer _ _ _ E6)|simpl; lia|auto].
Qed.
End request.

(** A new endpoint to which nothing refers is dropped. *)
Lemma kwp_put_new X Y n w (Q : unit -> kstate -> Prop) k :
  kinv (<[n := 1]> X) Y k -> X !! n = None -> k_ceps k !! n = Some w -> cep_ref w = 1 -> cep_cm_id w = None ->
  cep_qp w = None -> unlisted k n -> (forall k', kinv X Y k' -> keep n k k' -> Q tt k') -> kwp (siw_cep_put n) Q k.
Proof.
  intros I HX Hn Hr Hid Hqp Hun HQ. eapply kwp_cep_put; [done..|]. intros k' I' E Hn'. apply HQ; [|done].
  eapply kinv_close; [exact I'|done|]. intros u Hu. destruct Hn' as [[_ Hn']|[? _]]; [congruence|lia].
Qed.

Lemma keepa_at k k' c : keepa k k' -> keep c k k'.
Proof. intros [_ H]. apply H. Qed.

Lemma insert_2_commute (a b : nat) (x y : Z) : a <> b -> <[a := x]> (<[b := y]> (∅ : gmap nat Z)) = <[b := y]> (<[a := x]> ∅).
Proof. intros. by apply insert_insert_ne. Qed.

(** No queue pair refers to a new endpoint. *)
Lemma new_unlinked X Y k c : kinv X Y k -> X !! c = None -> k_ceps k !! c = None -> unlinked k c.
Proof.
  intros I HX Hc p pv Hp Hpc. destruct (kinv_qp_cep _ _ _ _ _ _ I Hp Hpc) as [? ?]. congruence.
Qed.

(** What the new endpoint of a request needs from its listener. *)
Record listener (c : nat) (k : kstate) (v : siw_cep) : Prop := {
  ls_cep : k_ceps k !! c = Some v;
  ls_sock : sock_ok k c (cep_sock v);
  ls_timer : timer_ok k c (cep_timer v);
  ls_prov : prov_ok k c (cep_state v) (cep_cm_id v);
  ls_new : new_ok k c (cep_state v)
}.

Lemma listener_keepb c n k k' v : c <> n -> keepb n k k' -> listener c k v -> listener c k' v.
Proof.
  intros Hne E [Hc Hs Ht Hp Hn]. kmove E. by split.
Qed.

Lemma listener_keeps c k k' v :
  keeps k k' -> (forall d o, sock_ok k d o -> sock_ok k' d o) -> listener c k v -> listener c k' v.
Proof. intros E Hok [Hc Hs Ht Hp Hn]. apply Hok in Hs as Hs'. kmove_s E. by split. Qed.

Lemma listener_keepa c k k' v : keepa k k' -> listener c k v -> listener c k' v.
Proof. intros E. apply (listener_keepb c (S c)); [lia|]. by apply keep_b, keepa_at. Qed.

Section newconn.
Context (c : nat) (v : siw_cep).
Context (Q : unit -> kstate -> Prop).
Context (HQ : forall k' w, kinv (<[c := 2]> ∅) ∅ k' -> listener c k' w -> same_core v w ->
  cep_state w = cep_state v -> cep_timer w = cep_timer v -> Q tt k').

(** The label [error] of [siw_accept_newconn]. *)
Lemma newconn_error n s w u k :
  c <> n -> kinv (<[n := 1]> (<[c := 2]> ∅)) ∅ k -> k_ceps k !! n = Some w -> cep_ref w = 1 ->
  cep_cm_id w = None -> cep_qp w = None -> unlisted k n -> sock_free k s -> listener c k u -> same_core v u ->
  cep_state u = cep_state v -> cep_timer u = cep_timer v ->
  kwp (siw_cep_put n;; (siw_socket_disassoc s;; sock_release s)) Q k.
Proof using HQ.
  intros Hne I Hn Hr Hid Hqp Hun Hs L Hsc Hst Hti. apply kwp_bind.
  eapply kwp_put_new; [done| |done..|]. { rewrite lookup_insert_ne by done. done. }
  intros k1 I1 E1. pose proof (listener_keepb _ _ _ _ _ Hne (keep_b _ _ _ E1) L) as L1. kmove E1.
  apply kwp_bind. unfold siw_socket_disassoc. apply kwp_bind. destruct (Hs) as (sv & Hsv & Hu).
  eapply kwp_get_sock; [done|]. rewrite Hu. apply kwp_ret.
  eapply kwp_sock_release; [done..|]. intros k2 I2 E2 Hok. eapply HQ; [done|by eapply listener_keeps|done..].
Qed.

(** The new endpoint gets its own socket. *)
Lemma newconn_finish n s w u k :
  c <> n -> kinv (<[n := 2]> (<[c := 2]> ∅)) ∅ k -> k_ceps k !! n = Some w ->
  cep_state w = SIW_EPSTATE_RECVD_MPAREQ -> cep_cm_id w = None -> cep_qp w = None -> cep_timer w = None ->
  cep_in_use w = false -> cep_listen_cep w = None -> timer_ok k n None ->
  unlisted k n -> unlinked k n -> sock_free k s -> listener c k u -> same_core v u ->
  cep_state u = cep_state v -> cep_timer u = cep_timer v ->
  kwp (v ← get_cep c;
       _ ← udp_bind_local s (cep_laddr v <| sin_port := 0 |>);
       upd_cep n (fun w => w <| cep_sock := Some s |>);;
       siw_cep_get n;;
       upd_sock s (fun w => w <| ks_user := Some n |>);;
       a ← kernel_localname s;
       match a with
       | (_, Some a) => upd_cep n (fun w => w <| cep_laddr := a |>)
       | (_, None) => mret tt
       end) Q k.
Proof using HQ.
  intros Hne I Hn Hst Hid Hqp Hti Huse Hli Ht Hun Hul Hs L Hsc Hstu Htiu.
  apply kwp_bind. eapply kwp_get_cep; [apply (ls_cep _ _ _ L)|].
  apply kwp_bind. eapply kwp_bind_local; [done..|]. intros r1 k1 I1 E1 _.
  destruct E1 as [Ec1 E1]. rewrite <- Ec1 in Hn. specialize (E1 n).
  pose proof (listener_keepb _ _ _ _ _ Hne (keep_b _ _ _ E1) L) as L1. clear L Ec1. kmove E1.
  apply kwp_bind. eapply kwp_upd_cep; [exact I1|exact Hn|done..|]. intros k2 I2 E2 Hn2.
  pose proof (listener_keepb _ _ _ _ _ Hne (keep_b _ _ _ E2) L1) as L2. clear L1. kmove E2.
  apply kwp_bind. eapply kwp_cep_get; [exact I2|exact Hn2|]. intros k3 I3 E3 Hn3.
  pose proof (listener_keepb _ _ _ _ _ Hne (keep_b _ _ _ E3) L2) as L3. clear L2. kmove E3.
  apply kwp_bind. eapply kwp_set_user; [exact I3|exact Hs|lia|done|]. intros k4 I4 E4 Hs4 Hok4.
  pose proof (listener_keeps _ _ _ _ E4 Hok4 L3) as L4. clear L3. kmove_s E4.
  set (w4 := w <| cep_sock := Some s |> <| cep_ref ::= fun r => r + 1 |>) in *.
  assert (Hend : forall k5 a, kinv (<[n := 2]> (<[c := 2]> ∅)) ∅ k5 -> k_ceps k5 !! n = Some (w4 <| cep_laddr := a |>) ->
    listener c k5 u -> sock_ok k5 n (Some s) -> timer_ok k5 n None -> unlisted k5 n -> unlinked k5 n -> Q tt k5).
  { intros k5 a I5 Hn5 L5 Hs5 Ht5 Hun5 Hul5. eapply HQ; [|exact L5|done..].
    eapply kinv_close; [exact I5|by rewrite lookup_insert_ne|]. intros x Hx. rewrite Hn5 in Hx. injection Hx as <-.
    split; [split; simpl; try done|unfold held; simpl; by rewrite Hid, decide_True].
    - unfold cep_fields. simpl. rewrite Hst. by split_and!.
    - by rewrite Hti.
    - rewrite Hqp. by intros ? ?.
    - by apply unlisted_prov.
    - by intros _. }
  apply kwp_bind. destruct (Hs4 s eq_refl) as (sv & Hsv & _).
  eapply kwp_localname; [exact I4|by eexists|right|].
  - intros r k5 I5 E5 _. destruct E5 as [Ec5 E5]. rewrite <- Ec5 in Hn3. specialize (E5 n).
    pose proof (listener_keepb _ _ _ _ _ Hne (keep_b _ _ _ E5) L4) as L5. clear Ec5. kmove E5.
    apply kwp_ret. eapply (Hend k5 (cep_laddr w)); auto.
  - intros a k5 I5 E5. destruct E5 as [Ec5 E5]. rewrite <- Ec5 in Hn3. specialize (E5 n).
    pose proof (listener_keepb _ _ _ _ _ Hne (keep_b _ _ _ E5) L4) as L5. clear Ec5. kmove E5.
    eapply kwp_upd_cep; [exact I5|exact Hn3|done..|]. intros k6 I6 E6 Hn6.
    pose proof (listener_keepb _ _ _ _ _ Hne (keep_b _ _ _ E6) L5) as L6. kmove E6. by eapply (Hend k6 a).
Qed.

(** The request is read, once the new endpoint has its timer. *)
Lemma newconn_request n s w k :
  c <> n -> kinv (<[n := 1]> (<[c := 2]> ∅)) ∅ k -> k_ceps k !! n = Some w ->
  cep_cm_id w = None -> cep_qp w = None -> is_Some (cep_timer w) -> cep_ref w = 2 ->
  cep_in_use w = false -> timer_ok k n (cep_timer w) -> unlisted k n -> unlinked k n -> sock_free k s -> listener c k v ->
  is_Some (cep_sock v) -> is_Some (cep_cm_id v) ->
  kwp (upd_cep n (fun w => w <| cep_listen_cep := Some c |>);;
        siw_cep_get c;;
        upd_cep n (fun w => w <| cep_sock := cep_sock v |>);;
        siw_cep_set_inuse n;;
        rv ← siw_proc_trpreq n;
        siw_cep_set_free n;;
        upd_cep n (fun w => w <| cep_listen_cep := None |>);;
        siw_cep_put c;;
        if negb (rv =? 0) then siw_cep_put n;; (siw_socket_disassoc s;; sock_release s) else
        v ← get_cep c;
        _ ← udp_bind_local s (cep_laddr v <| sin_port := 0 |>);
        upd_cep n (fun w => w <| cep_sock := Some s |>);;
        siw_cep_get n;;
        upd_sock s (fun w => w <| ks_user := Some n |>);;
        a ← kernel_localname s;
        match a with
        | (_, Some a) => upd_cep n (fun w => w <| cep_laddr := a |>)
        | (_, None) => mret tt
        end) Q k.
Proof using HQ.
  intros Hne I Hn Hid Hqp Htm Hr Huse Ht Hun Hul Hs L Hso Hcid.
  apply kwp_bind. eapply kwp_upd_cep; [exact I|exact Hn|done..|]. intros k1 I1 E1 Hn1.
  pose proof (listener_keepb _ _ _ _ _ Hne (keep_b _ _ _ E1) L) as L1. clear L. kmove E1.
  rewrite insert_2_commute in I1 by done. destruct L1 as [Lc Ls Lt Lp Ln].
  apply kwp_bind. eapply kwp_cep_get; [exact I1|exact Lc|]. intros k2 I2 E2 Lc2. kmove E2.
  rewrite insert_2_commute in I2 by done. unfold siw_cep_set_inuse, siw_cep_set_free.
  apply kwp_bind. eapply kwp_upd_cep; [exact I2|exact Hn1|done..|]. intros k3 I3 E3 Hn3. kmove E3.
  apply kwp_bind. apply kwp_bind. eapply kwp_get_cep; [exact Hn3|]. simpl. rewrite Huse.
  eapply kwp_upd_cep; [exact I3|exact Hn3|done..|]. intros k4 I4 E4 Hn4. kmove E4. simpl in Hn4.
  apply kwp_bind. eapply (kwp_proc_trpreq _ _ n c); [done|exact I4|done|exact Hn4|done|done|done|done|exact Lc2|done|done|].
  intros r k5 w5 m5 I5 E5 Hn5 Hsc5 Htm5 Ht5 Hr5 Hres. simpl in Hr5. rewrite decide_True in Hr5 by done. kmove E5.
  destruct Hsc5 as (Eid & Eso & Eqp & _ & _). simpl in Eid, Eso, Eqp.
  apply kwp_bind. eapply kwp_upd_cep; [exact I5|exact Hn5|done..|]. intros k6 I6 E6 Hn6. kmove E6.
  apply kwp_bind. eapply kwp_upd_cep; [exact I6|exact Hn6|done..|]. intros k7 I7 E7 Hn7. kmove E7.
  apply kwp_bind. rewrite insert_2_commute in I7 by done. pose proof (kinv_ref_ge _ _ _ _ _ _ I7 Lc2).
  eapply kwp_cep_put_keep; [exact I7|exact Lc2|lia|lia|]. intros k8 I8 E8 Lc8. kmove E8.
  rewrite insert_2_commute in I8 by done. simpl in I8.
  assert (L8 : listener c k8 (v <| cep_ref ::= fun r => r + 1 |> <| cep_ref ::= fun r => r - 1 |>)) by (by split).
  destruct (Z.eqb_spec r 0) as [->|Hr0]; simpl.
  - destruct Hres as [(_ & -> & Hst5)|[? _]]; [|done]. simpl in I8. eapply newconn_finish; [done|exact I8|exact Hn7|try done..];
      simpl; congruence.
  - destruct Hres as [[? _]|[_ ->]]; [done|]. eapply newconn_error; [done|exact I8|exact Hn7|try done..]; simpl; [lia|congruence..].
Qed.

Lemma op_accept_newconn k : opened ∅ ∅ c 2 k v -> new_ok k c (cep_state v) -> cep_fields v -> kwp (siw_accept_newconn c) Q k.
Proof using HQ.
  intros O Hnw Hf. destruct (O) as [I Hc Hs Ht Hp]. assert (L : listener c k v) by (by split).
  unfold siw_accept_newconn. apply kwp_bind. eapply kwp_get_cep; [done|].
  case_bool_decide as Hst; cbn [negb]; [|apply kwp_ret; by eapply HQ].
  unfold cep_fields in Hf. rewrite Hst in Hf. destruct Hf as (Hid & Hso & Hqp & Htm).
  apply kwp_bind. eapply kwp_cep_alloc; [exact I| |right|].
  { intros d [z Hz]. destruct (decide (d = c)) as [->|]; [by eexists|]. by rewrite lookup_insert_ne in Hz. }
  { intros k1 I1 E1. apply kwp_ret. eapply HQ; [done|by eapply listener_keepa|done..]. }
  intros n k1 dv I1 HX1 E1 Hn1 Hfr Ht1 Hun1. assert (Hne : c <> n) by congruence.
  pose proof (new_unlinked _ _ _ _ I HX1 Hfr) as Hul.
  pose proof (listener_keepb _ _ _ _ _ Hne (keep_b _ _ _ E1) L) as L1. clear L O. kmove E1.
  apply kwp_bind. eapply kwp_alloc_work; [exact I1|exact Hn1|]. intros r2 k2 fl I2 E2 Hn2 Hfl _.
  pose proof (listener_keepb _ _ _ _ _ Hne (keep_b _ _ _ E2) L1) as L2. clear L1. kmove E2.
  destruct (Z.eqb_spec r2 0) as [->|Hr2]; cbn [negb].
  2:{ apply kwp_bind. eapply kwp_put_new; [exact I2|done|exact Hn2|done..|]. intros k3 I3 E3.
      apply kwp_ret. eapply HQ; [done|eapply listener_keepb; [done|apply keep_b, E3|done]|done..]. }
  apply kwp_bind. eapply kwp_upd_cep; [exact I2|exact Hn2|done..|]. intros k3 I3 E3 Hn3.
  pose proof (listener_keepb _ _ _ _ _ Hne (keep_b _ _ _ E3) L2) as L3. clear L2. kmove E3.
  apply kwp_bind. eapply kwp_sock_create; [exact I3|right|].
  { intros r k4 I4 E4 _. pose proof (listener_keepa _ _ _ _ E4 L3) as L4. rewrite <- (proj1 E4) in Hn3.
    pose proof (keepa_at _ _ n E4) as E4'. kmove E4'. apply kwp_bind.
    eapply kwp_put_new; [exact I4|done|exact Hn3|done..|]. intros k5 I5 E5.
    apply kwp_ret. eapply HQ; [done|eapply listener_keepb; [done|apply keep_b, E5|done]|done..]. }
  intros s k4 I4 E4 Hsf. pose proof (listener_keepa _ _ _ _ E4 L3) as L4. clear L3. rewrite <- (proj1 E4) in Hn3.
  pose proof (keepa_at _ _ n E4) as E4'. kmove E4'. clear E4.
  unfold set_state. apply kwp_bind. eapply kwp_upd_cep; [exact I4|exact Hn3|done..|]. intros k5 I5 E5 Hn5.
  pose proof (listener_keepb _ _ _ _ _ Hne (keep_b _ _ _ E5) L4) as L5. clear L4. kmove E5.
  apply kwp_bind. eapply kwp_queue_work; [exact I5|exact Hn5|done..|]. intros r6 k6 rf fl6 t I6 E6 Ht6 _ _ Hres Hn6.
  pose proof (listener_keepb _ _ _ _ _ Hne (keepw_b _ _ _ E6) L5) as L6. clear L5. kmove E6.
  destruct (Z.eqb_spec r6 0) as [->|Hr6]; cbn [negb]; destruct Hres as [(? & -> & Htt)|(? & -> & ->)]; try done.
  - eapply newconn_request; [done|exact I6|exact Hn6|try done..]. by apply Htt.
  - eapply newconn_error; [done|exact I6|exact Hn6|done..].
Qed.
End newconn.

(** ** Work items *)

Definition kgood (k : kstate) : Prop := kinv ∅ ∅ k.

(** The end of [siw_cm_work_handler]. *)
Lemma work_end c n v k :
  opened ∅ ∅ c n k v -> n = held v + 1 -> cep_fields v -> cep_listen_cep v = None -> listed_ok k c (cep_qp v) ->
  new_ok k c (cep_state v) ->
  kwp (siw_cep_set_free c;; siw_put_work c;; siw_cep_put c) (fun _ => kgood) k.
Proof.
  intros O Hn Hf Hli Hl Hnw. unfold siw_cep_set_free, siw_put_work.
  apply kwp_bind. kupd O. intros k1 O1 E1. kmove E1.
  apply kwp_bind. kupd O1. intros k2 O2 E2. kmove E2.
  eapply op_put_close; [exact O2|done|done|done|done|done|done|done|]. done.
Qed.

Lemma closed_fields v : closed_cep v ->
  cep_fields v /\ held v = 0 /\ cep_listen_cep v = None /\ cep_qp v = None /\ cep_state v = SIW_EPSTATE_CLOSED.
Proof.
  intros (Hst & Hid & Hso & Hqp & Htm & Hli). unfold cep_fields, held. rewrite Hst, Hid. by split_and!.
Qed.

Lemma work_release c v k :
  opened ∅ ∅ c 2 k v -> conn_state (cep_state v) -> cep_fields v -> cep_in_use v = true -> cep_listen_cep v = None ->
  listed_ok k c (cep_qp v) ->
  kwp (release_cep c;; siw_cep_set_free c;; siw_put_work c;; siw_cep_put c) (fun _ => kgood) k.
Proof.
  intros O Hst Hf Huse Hli Hl. destruct (conn_fields v Hst Hf) as (Hid & Hso & Hqp & _ & Hnl).
  apply kwp_bind. eapply op_release_cep; [exact O|done..| |done|].
  { eapply prov_unlisted; [apply (op_prov _ _ _ _ _ _ O)|done]. }
  intros k1 v1 O1 Hcl. destruct (closed_fields v1 Hcl) as (Hf1 & Hh1 & Hli1 & Hqp1 & Hst1).
  eapply work_end; [exact O1|lia|done..| |]; [rewrite Hqp1; by intros ? ?|rewrite Hst1; by intros [|]].
Qed.

(** A time-out that fires after its endpoint was closed. *)
Lemma timeout_closed c v k :
  kinv (<[c := 1]> ∅) ∅ k -> k_ceps k !! c = Some v -> prov_ok k c (cep_state v) (cep_cm_id v) -> timer_ok k c None ->
  cep_state v = SIW_EPSTATE_CLOSED -> cep_fields v -> cep_listen_cep v = None ->
  kwp (release ← do_work c SIW_CM_WORK_TIMEOUT; when release (release_cep c);;
       siw_cep_set_free c;; siw_put_work c;; siw_cep_put c) (fun _ => kgood) k.
Proof.
  intros I Hc Hp Ht Hst Hf Hli. unfold cep_fields in Hf. rewrite Hst in Hf. destruct Hf as (Hid & Hso & Hqp).
  unfold do_work, work_timeout, release_cep, siw_cancel_timer, set_state, drop_cm_id. do 3 apply kwp_bind.
  eapply kwp_upd_cep; [exact I|exact Hc|done..|]. intros k1 I1 E1 Hc1. kmove E1.
  assert (O1 : opened ∅ ∅ c 1 k1 (v <| cep_timer := None |>)) by (split; auto; simpl; by rewrite Hso).
  apply kwp_bind. eapply kwp_get_cep; [exact Hc1|]. simpl. rewrite Hst. apply kwp_ret, kwp_ret. unfold when.
  do 3 apply kwp_bind. eapply kwp_get_cep; [exact Hc1|]. simpl. apply kwp_ret.
  apply kwp_bind. eapply op_upd; [exact O1|try done..|right; eapply prov_unlisted; [exact Hp|by rewrite Hst]|].
  intros k2 O2 E2. apply kwp_bind. eapply kwp_get_cep; [apply (op_cep _ _ _ _ _ _ O2)|]. simpl. rewrite Hqp.
  apply kwp_bind, kwp_ret, kwp_bind. eapply kwp_get_cep; [apply (op_cep _ _ _ _ _ _ O2)|]. simpl. rewrite Hso.
  apply kwp_bind, kwp_ret, kwp_bind, kwp_bind. eapply kwp_get_cep; [apply (op_cep _ _ _ _ _ _ O2)|]. simpl. rewrite Hid.
  apply kwp_ret, kwp_ret. eapply work_end; [exact O2|unfold held; simpl; by rewrite Hid|by unfold cep_fields; simpl|done| |by intros [|]].
  simpl. rewrite Hqp. by intros ? ?.
Qed.

(** The work item runs when it has left the queue. *)
Lemma work_handler_ok w v k :
  k_ceps k !! wk_cep w = Some v -> kinv (<[wk_cep w := held v + 1]> ∅) ∅ k ->
  sock_ok k (wk_cep w) (cep_sock v) -> prov_ok k (wk_cep w) (cep_state v) (cep_cm_id v) ->
  listed_ok k (wk_cep w) (cep_qp v) -> cep_fields v -> cep_in_use v = false -> cep_listen_cep v = None ->
  new_ok k (wk_cep w) (cep_state v) ->
  (wk_type w = SIW_CM_WORK_TIMEOUT /\ is_Some (cep_timer v) /\ timer_ok k (wk_cep w) None) \/
  (wk_type w = SIW_CM_WORK_READ_MPAHDR \/ wk_type w = SIW_CM_WORK_ACCEPT) /\ timer_ok k (wk_cep w) (cep_timer v) ->
  kwp (siw_cm_work_handler w) (fun _ => kgood) k.
Proof.
  intros Hc I Hs Hp Hl Hf Huse Hli Hnw Hty. unfold siw_cm_work_handler, siw_cep_set_inuse. set (c := wk_cep w) in *.
  apply kwp_bind. apply kwp_bind. eapply kwp_get_cep; [exact Hc|]. rewrite Huse.
  eapply kwp_upd_cep; [exact I|exact Hc|done..|]. intros k1 I1 E1 Hc1.
  set (v1 := v <| cep_in_use := true |>) in *.
  destruct Hty as [(Hty & [t Ht] & Htk)|[Hty Htk]]; kmove E1.
  - rewrite Hty. destruct (decide (cep_state v = SIW_EPSTATE_CLOSED)) as [Hst|Hncl].
    { eapply (timeout_closed c v1); auto. unfold held in I1. unfold cep_fields in Hf. rewrite Hst in *.
      destruct Hf as (Hid & _). by rewrite Hid in I1. }
    assert (Hst : conn_state (cep_state v)).
    { unfold conn_state, cep_fields in *. destruct (cep_state v); destruct_and?; auto; done || congruence. }
    destruct (conn_fields v Hst Hf) as (? & ? & ? & Hh & _). rewrite Hh in I1. unfold do_work.
    apply kwp_bind. apply kwp_bind. eapply op_work_timeout; [exact I1|exact Hc1|done..|]. intros k2 h O2 Hl2.
    apply kwp_ret. unfold when. eapply work_release; [exact O2|done|by apply conn_fields_intro|done..].
  - assert (O1 : opened ∅ ∅ c (held v + 1) k1 v1) by (by split). destruct Hty as [Hty|Hty]; rewrite Hty; unfold do_work.
    + apply kwp_bind, kwp_bind. eapply kwp_get_cep; [exact Hc1|]. simpl.
      destruct (decide (cep_state v = SIW_EPSTATE_AWAIT_MPAREP)) as [Hst|Hst].
      * rewrite Hst. destruct (conn_fields v (or_introl Hst) Hf) as (_ & _ & _ & Hh & Hnl). rewrite Hh in O1.
        apply kwp_bind. eapply op_proc_trpreply; [exact O1|done..| |].
        { eapply prov_unlisted; [apply (op_prov _ _ _ _ _ _ O1)|done]. }
        intros r k2 v2 O2 Hsc Hst2 Hl2 Hun2. apply kwp_ret.
        pose proof (same_core_fields v1 v2 Hsc (or_introl Hst) Hf Hst2) as Hf2.
        destruct (conn_fields v2 Hst2 Hf2) as (_ & _ & _ & Hh2 & _). destruct Hsc as (_ & _ & _ & Eu & El).
        unfold when. destruct (_ && _); [eapply work_release; [exact O2|done|done|by rewrite Eu|by rewrite El|done]|].
        apply kwp_bind, kwp_ret. eapply work_end; [exact O2|by rewrite Hh2|done|by rewrite El|done|].
        by apply conn_new_ok.
      * assert (E0 : (match cep_state v with SIW_EPSTATE_AWAIT_MPAREP => siw_proc_trpreply c | _ => mret 0 end : KM Z)
          = mret 0) by (by destruct (cep_state v)).
        rewrite E0. apply kwp_bind, kwp_ret, kwp_ret. simpl. apply kwp_bind, kwp_ret. by eapply work_end.
    + apply kwp_bind, kwp_bind.
      destruct (decide (cep_state v = SIW_EPSTATE_LISTENING)) as [Hst|Hst].
      * assert (Hh : held v = 1).
        { unfold held, cep_fields in *. rewrite Hst in Hf. destruct Hf as ([i Hi] & _). by rewrite Hi. }
        rewrite Hh in O1. eapply (op_accept_newconn c v1); [|exact O1|done|done].
        intros k2 v2 I2 [Hc2 Hs2 Ht2 Hp2 Hn2] (Eid & Eso & Eqp & Eu & El) Hst2 Htm2. apply kwp_ret. simpl.
        apply kwp_bind, kwp_ret. simpl in *. eapply (work_end c 2 v2); [by split| | |congruence| |].
        -- unfold held in *. by rewrite Eid, Hst2, Hh.
        -- unfold cep_fields in *. by rewrite Hst2, Eid, Eso, Eqp, Htm2.
        -- unfold cep_fields in Hf. rewrite Hst in Hf. destruct Hf as (_ & _ & Hqp & _). rewrite Eqp, Hqp. by intros ? ?.
        -- done.
      * unfold siw_accept_newconn. apply kwp_bind. eapply kwp_get_cep; [exact Hc1|].
        rewrite bool_decide_false by done. simpl. apply kwp_ret, kwp_ret. simpl. apply kwp_bind, kwp_ret. by eapply work_end.
Qed.

(** The endpoint of a work item exists. *)
Lemma kinv_work_cep k w : kgood k -> w ∈ k_works k -> is_Some (k_ceps k !! wk_cep w).
Proof.
  intros I Hw. pose proof (ki_ref _ _ _ I (wk_cep w)) as E. pose proof (occ_works_ge k w _ Hw eq_refl).
  unfold toks, uses in E. pose proof (nrefs_nonneg ks_user (k_socks k) (wk_cep w)).
  pose proof (nrefs_nonneg kq_cep (k_qps k) (wk_cep w)). pose proof (occ_nonneg (file_ceps k) (wk_cep w)).
  rewrite lookup_empty in E. destruct (k_ceps k !! wk_cep w) eqn:Ec; [by eexists|]. simpl in E. lia.
Qed.

Lemma run_work_ok n k : kgood k -> kwp (run_work n) (fun _ => kgood) k.
Proof.
  intros I. unfold run_work. apply kwp_bind, kwp_gets. destruct (k_works k !! n) as [w|] eqn:Hw; [|by apply kwp_ret].
  pose proof (list_elem_of_lookup_2 _ _ _ Hw) as Hin. destruct (kinv_work_cep k w I Hin) as [v Hc].
  destruct (kinv_opened _ _ _ _ _ I (lookup_empty _) Hc) as ([I1 _ Hs [T1 T2] Hp] & Hf & Huse & Hli & Hl & Hnw).
  pose proof (take_drop_middle _ _ _ Hw) as Hsplit. set (l1 := take n (k_works k)) in *. set (l2 := drop (S n) (k_works k)) in *.
  apply kwp_bind, kwp_kmodify. set (k1 := k <| k_works := l1 ++ l2 |>).
  pose proof (held_nonneg v). pose proof (ki_pos _ _ _ I _ _ Hc).
  assert (I2 : kinv (<[wk_cep w := held v + 1]> ∅) ∅ k1).
  { eapply kinv_frame; [apply (kinv_pop ∅ ∅ k (wk_cep w) v v (held v) _ w l1 l2); auto; lia|].
    split; simpl; auto. symmetry. by apply insert_id. }
  assert (Hsub : forall x, x ∈ k_works k1 -> x ∈ k_works k).
  { intros x. simpl. rewrite <- Hsplit, !elem_of_app, elem_of_cons. tauto. }
  apply (work_handler_ok w v); auto.
  destruct (ki_types _ _ _ I w Hin) as [Hty1 Hty2].
  assert (Hkeep : forall x, x ∈ k_works k -> x <> w -> x ∈ k_works k1).
  { intros x. simpl. rewrite <- Hsplit, !elem_of_app, elem_of_cons. tauto. }
  destruct (decide (wk_type w = SIW_CM_WORK_TIMEOUT)) as [Hty|Hty].
  - left. pose proof (T2 w Hin eq_refl Hty) as Htw. split_and!; [done|rewrite Htw; by eexists|]. split; [done|].
    intros x Hx Hxc Hxt. pose proof (T2 x (Hsub x Hx) Hxc Hxt) as Htx. rewrite Htw in Htx. injection Htx as Hid.
    exfalso. pose proof (ki_wids _ _ _ I) as Hnd. rewrite <- Hsplit, fmap_app, fmap_cons in Hnd.
    apply NoDup_app in Hnd as (_ & Hd1 & Hd2). apply NoDup_cons in Hd2 as [Hd2 _].
    simpl in Hx. apply elem_of_app in Hx as [Hx|Hx]; apply (list_elem_of_fmap_2 wk_id) in Hx; rewrite <- Hid in Hx.
    + eapply Hd1; [exact Hx|]. by left.
    + done.
  - right. split; [destruct (wk_type w); auto; done|]. split.
    + intros t Ht. apply Hkeep; [by apply T1|]. intros Heq. apply Hty. by rewrite <- Heq.
    + intros x Hx Hxc Hxt. apply T2; auto.
Qed.

(** ** Datagrams *)

(** The endpoint of a socket exists. *)
Lemma kinv_sock_cep k s sv c : kgood k -> k_socks k !! s = Some sv -> ks_user sv = Some c -> is_Some (k_ceps k !! c).
Proof.
  intros I Hs Hu. pose proof (ki_ref _ _ _ I c) as E. pose proof (nrefs_pos ks_user _ _ _ _ Hs Hu).
  unfold toks, uses in E. pose proof (nrefs_nonneg kq_cep (k_qps k) c).
  pose proof (occ_nonneg (wk_cep <$> k_works k) c). pose proof (occ_nonneg (file_ceps k) c).
  rewrite lookup_empty in E. destruct (k_ceps k !! c) eqn:Ec; [by eexists|]. simpl in E. lia.
Qed.

(** A work item that is not a time-out is queued for an endpoint. *)
Lemma queue_ok c v type k :
  kgood k -> k_ceps k !! c = Some v -> type = SIW_CM_WORK_ACCEPT \/ type = SIW_CM_WORK_READ_MPAHDR ->
  kwp (_ ← siw_cm_queue_work c type; mret tt) (fun _ => kgood) k.
Proof.
  intros I Hc Hty. destruct (kinv_opened _ _ _ _ _ I (lookup_empty _) Hc) as (O & Hf & Huse & Hli & Hl & Hnw).
  apply kwp_bind. eapply op_queue; [exact O|by destruct Hty as [->| ->]..|].
  intros r k1 rf fl t O1 E1 Ht _. kmove E1. apply kwp_ret.
  assert (t = cep_timer v) as -> by (apply Ht; by destruct Hty as [->| ->]).
  by eapply opened_close.
Qed.

Lemma deliver_ok s from data k : kgood k -> is_Some (k_socks k !! s) -> kwp (deliver s from data) (fun _ => kgood) k.
Proof.
  intros I [sv Hs]. unfold deliver. apply kwp_bind.
  eapply (kwp_upd_sock ∅ ∅ O); [exact I|exact Hs|done|]. intros k1 I1 _ _ Hs1.
  apply kwp_bind. eapply kwp_get_sock; [exact Hs1|]. unfold when. case_match; [|by apply kwp_ret].
  unfold siw_cm_llp_data_ready. apply kwp_bind. eapply kwp_get_sock; [exact Hs1|].
  destruct (ks_user _) as [c|] eqn:Hu; [|by apply kwp_ret].
  destruct (kinv_sock_cep _ _ _ _ I1 Hs1 Hu) as [v Hc]. apply kwp_bind. eapply kwp_get_cep; [exact Hc|].
  destruct (cep_state v); try (by apply kwp_ret); eapply queue_ok; eauto.
Qed.

(** ** Connecting *)

(** The call holds a reference on the queue pair, from its lookup. *)
Lemma kwp_id2obj q v (Q : option nat -> kstate -> Prop) k :
  kgood k -> k_qps k !! q = Some v ->
  (forall k', kinv ∅ {[q := qheld v + 1]} k' -> keepq q k k' -> keepl k k' ->
     k_qps k' !! q = Some (v <| kq_ref ::= fun r => r + 1 |>) -> Q (Some q) k') ->
  kwp (siw_qp_id2obj q) Q k.
Proof.
  intros I Hq HQ. unfold siw_qp_id2obj. apply kwp_bind, kwp_gets. rewrite Hq. apply kwp_bind.
  eapply kwp_qp_get; [by eapply kinv_openq|done|]. intros k1 I1 E1 L1 Hq1. apply kwp_ret. by apply HQ.
Qed.

(** The reference of the lookup is dropped when the call fails. *)
Lemma qp_put_ok {A} q v (r : A) k :
  kinv ∅ {[q := qheld v + 1]} k -> k_qps k !! q = Some v -> kq_cep v = None ->
  kwp (siw_qp_put q;; mret r) (fun _ => kgood) k.
Proof.
  intros I Hq Hc. pose proof (qheld_nonneg v). apply kwp_bind. eapply kwp_qp_put_held; [exact I|exact Hq|lia|done|].
  intros k1 I1 _ _ Hq1. apply kwp_ret. eapply kinv_closeq; [exact I1|done|]. intros u Hu.
  destruct Hq1 as [[_ Hq1]|[_ Hq1]]; rewrite Hq1 in Hu; [done|]. injection Hu as <-. unfold qheld. simpl. lia.
Qed.

(** A new endpoint is not on the lists of the character device. *)
Lemma new_not_listed X Y k c f :
  kinv X Y k -> X !! c = None -> k_ceps k !! c = None -> k_file k = Some f ->
  c ∉ established_list f ++ rtr_wait_list f.
Proof.
  intros I HX Hc Hf Hin. pose proof (uses_None _ _ _ _ I HX Hc) as Hu. unfold uses, file_ceps in Hu. rewrite Hf in Hu.
  pose proof (occ_elem _ _ Hin). pose proof (nrefs_nonneg ks_user (k_socks k) c).
  pose proof (nrefs_nonneg kq_cep (k_qps k) c). pose proof (occ_nonneg (wk_cep <$> k_works k) c). lia.
Qed.

Lemma linkonly_link k k' c q : unlinked k c -> keepq q k k' -> linkonly k' c q.
Proof.
  intros Hul E p pv Hp Hpc. destruct (decide (p = q)) as [|Hne]; [done|].
  rewrite (kx_qps _ _ _ E p Hne) in Hp. by destruct (Hul p pv Hp).
Qed.

(** [siw_connect] from the association with the socket on. *)
Lemma connect_send_ok i q c s v qv f params k :
  kinv {[c := 1]} ∅ k -> k_ceps k !! c = Some v -> Forall (Z.le 0) (k_rets k) ->
  cep_cm_id v = Some i -> cep_qp v = Some q -> cep_timer v = None -> cep_listen_cep v = None ->
  cep_freelist v <> O -> timer_ok k c None -> unlisted k c -> sock_free k s ->
  k_qps k !! q = Some qv -> kq_cep qv = Some c -> k_file k = Some f -> c ∉ established_list f ++ rtr_wait_list f ->
  kwp (siw_cep_socket_assoc c s;;
      set_state c SIW_EPSTATE_AWAIT_MPAREP;;
      set_trp_hdr c trp_req;;
      upd_cep c (fun v => v <| cep_hdr ::= fun r => r <| rr_ird := cep_ird v |> <| rr_ord := cep_ord v |> |>);;
      rv ← siw_send_trpreqrep c (cp_private_data params) (len (cp_private_data params));
      set_hdr c (fun r => r <| rr_pd_len := 0 |>);;
      if negb (0 <=? rv) then connect_error i q c s rv else
      rv ← siw_cm_queue_work c SIW_CM_WORK_TIMEOUT;
      if negb (rv =? 0) then connect_error i q c s rv else
      siw_cep_set_free c;; mret 0) (fun _ => kgood) k.
Proof.
  intros I Hc Hrets Hid Hqp Htm Hli Hfl Ht Hun Hs Hq Hqc Hf Hnf.
  unfold siw_cep_socket_assoc, set_state, set_trp_hdr, set_hdr, siw_cep_set_free.
  do 2 apply kwp_bind. eapply kwp_upd_cep; [exact I|exact Hc|done..|]. intros k1 I1 E1 Hc1. kmove E1.
  apply kwp_bind. eapply kwp_cep_get; [exact I1|exact Hc1|]. intros k2 I2 E2 Hc2. kmove E2.
  eapply kwp_set_user; [exact I2|exact Hs|lia|done|]. intros k3 I3 E3 Hs3 _. kmove E3.
  assert (O3 : opened ∅ ∅ c 1 k3 (v <| cep_sock := Some s |> <| cep_ref ::= fun r => r + 1 |>)).
  { split; auto; simpl; [by rewrite Htm|by apply unlisted_prov]. }
  apply kwp_bind. kupd O3. intros k4 O4 E4. clear O3. kmove E4.
  apply kwp_bind. kupd O4. intros k5 O5 E5. clear O4. kmove E5.
  apply kwp_bind. kupd O5. intros k6 O6 E6. clear O5. kmove E6.
  match type of O6 with opened _ _ _ _ _ ?w => remember w as v6 eqn:Hv6 end.
  assert (cep_cm_id v6 = Some i /\ cep_qp v6 = Some q /\ cep_timer v6 = None /\ cep_listen_cep v6 = None /\
    cep_freelist v6 <> O /\ cep_sock v6 = Some s /\ cep_state v6 = SIW_EPSTATE_AWAIT_MPAREP) as Hfs
    by (subst v6; simpl; split_and!; done).
  clear Hv6. destruct Hfs as (Hid6 & Hqp6 & Htm6 & Hli6 & Hfl6 & Hso6 & Hst6).
  apply kwp_bind. eapply (op_send _ _ _ _ c); [exact O6|by rewrite Hso6|apply (op_sock _ _ _ _ _ _ O6)|].
  intros r k7 h O7 E7 _ Hr. clear O6. specialize (Hr Hrets). subst r. kmove E7.
  apply kwp_bind. kupd O7. intros k8 O8 E8. clear O7. kmove E8. simpl.
  apply kwp_bind. eapply op_queue; [exact O8|done..|]. intros r k9 rf fl t O9 E9 _ Hr. clear O8. kmove E9.
  rewrite (Hr Hfl6). simpl. apply kwp_bind. kupd O9. intros k10 O10 E10. clear O9. kmove E10.
  apply kwp_ret. eapply opened_close; [exact O10|done| |done|done| | |].
  - apply conn_fields_intro; simpl; [by left|rewrite ?Hid6, ?Hso6, ?Hqp6; by eexists..].
  - simpl. rewrite Hqp6. intros p pv [= <-] Hp. rewrite Hq in Hp. injection Hp as <-. split; [done|].
    unfold file_ceps. rewrite Hf. by intros ?.
  - simpl. rewrite Hst6. by intros [|].
  - unfold held. simpl. by rewrite Hid6.
Qed.

Lemma connect_cep_ok i q c s dv qv f raddr params k :
  kinv {[c := 1]} {[q := qheld qv + 1]} k -> k_ceps k !! c = Some (new_cep dv) -> Forall (Z.le 0) (k_rets k) ->
  timer_ok k c None -> unlisted k c -> unlinked k c -> sock_free k s -> is_Some (k_ids k !! i) ->
  k_qps k !! q = Some qv -> kq_cep qv = None -> k_file k = Some f -> c ∉ established_list f ++ rtr_wait_list f ->
  kwp (connect_cep i q c s raddr params) (fun _ => kgood) k.
Proof.
  intros I Hc Hrets Ht Hun Hul Hs Hi Hq Hqc Hf Hnf. pose proof (qheld_nonneg qv).
  unfold connect_cep, siw_cep_set_inuse. apply kwp_bind, kwp_bind. eapply kwp_get_cep; [exact Hc|].
  change (cep_in_use (new_cep dv)) with false. cbv iota.
  eapply kwp_upd_cep; [exact I|exact Hc|done..|]. intros k1 I1 E1 Hc1. kmove E1.
  apply kwp_bind. eapply kwp_cep_get; [exact I1|exact Hc1|]. intros k2 I2 E2 Hc2. kmove E2.
  apply kwp_bind. eapply kwp_link; [exact I2|exact Hq|done|lia|by rewrite Hc2; intros ? [= <-]|]. intros k3 I3 E3 Hq3.
  pose proof (linkonly_link _ _ _ _ Hul E3) as Hlo. kmove E3.
  apply kwp_bind. eapply kwp_set_cep_qp; [exact I3|exact Hc2|done|done|done|]. intros k4 I4 E4 Hc4. kmove E4.
  assert (I4' : kinv (<[c := 1]> ∅) ∅ k4).
  { eapply kinv_closeq; [exact I4|done|]. intros u Hu. rewrite Hq3 in Hu. by injection Hu as <-. }
  clear I4. eapply (kwp_ref_cm_id ∅ ∅ c i 1); [| | | |exact I4'|exact Hc4|done|]; [done..|].
  intros k5 I5 E5 Hc5. kmove E5.
  match type of Hc5 with _ = Some ?w => remember w as v5 eqn:Hv5 end.
  assert (cep_cm_id v5 = Some i /\ cep_qp v5 = Some q /\ cep_timer v5 = None /\ cep_listen_cep v5 = None /\
    cep_freelist v5 = O) as (Hid5 & Hqp5 & Htm5 & Hli5 & Hfl5) by (by subst v5).
  clear Hv5.
  apply kwp_bind. eapply kwp_alloc_work; [exact I5|exact Hc5|]. intros r k6 fl I6 E6 Hc6 Hfl Hr.
  specialize (Hr Hrets). subst r. specialize (Hfl eq_refl). rewrite Hfl5 in Hfl. simpl in Hfl. subst fl. kmove E6. cbn [negb Z.eqb].
  apply kwp_bind. eapply kwp_upd_cep; [exact I6|exact Hc6|done..|]. intros k7 I7 E7 Hc7. kmove E7.
  apply kwp_bind. destruct (Hs) as (sv & Hsv & _).
  eapply kwp_localname; [exact I7|by eexists|by left|]. intros a k8 I8 E8. rewrite <- (proj1 E8) in Hc7.
  pose proof (keepa_at _ _ c E8) as E8'. clear E8. kmove E8'.
  apply kwp_bind. eapply kwp_upd_cep; [exact I8|exact Hc7|done..|]. intros k9 I9 E9 Hc9. kmove E9.
  eapply connect_send_ok; [exact I9|exact Hc9|done..|exact Hq3|done|exact Hf|done].
Qed.

(** The queue pair that a connection is to use is not in use. *)
Definition qp_free (k : kstate) (q : nat) : Prop := forall qv, k_qps k !! q = Some qv -> kq_cep qv = None.

Lemma siw_connect_ok i params k :
  kgood k -> is_Some (k_ids k !! i) -> qp_free k (cp_qpn params) -> Forall (Z.le 0) (k_rets k) ->
  kwp (siw_connect i params) (fun _ => kgood) k.
Proof.
  intros I [iv Hi] Hfree Hrets. unfold siw_connect. apply kwp_bind. eapply kwp_get_id; [exact Hi|].
  assert (is_Some (k_ids k !! i)) as His by (by eexists). clear Hi.
  apply kwp_bind, kwp_gets. destruct (negb _); [by apply kwp_ret|]. destruct (_ <? _); [by apply kwp_ret|].
  apply kwp_bind. set (q := cp_qpn params) in *. destruct (k_qps k !! q) as [qv|] eqn:Hq.
  2:{ unfold siw_qp_id2obj. apply kwp_bind, kwp_gets. rewrite Hq. by apply kwp_ret, kwp_ret. }
  pose proof (Hfree qv Hq) as Hqc. eapply kwp_id2obj; [exact I|exact Hq|]. intros k1 I1 E1 _ Hq1. kmove E1.
  destruct (ki_file _ _ _ I1) as [f Hf].
  apply kwp_bind. eapply kwp_sock_create; [exact I1|by left|]. intros s k2 I2 E2 Hs.
  pose proof (keepa_at _ _ O E2) as E2'. clear E2. kmove E2'.
  apply kwp_bind. eapply kwp_bind_local; [exact I2|exact Hs|]. intros r k3 I3 E3 Hr. specialize (Hr Hrets). subst r.
  pose proof (keepa_at _ _ O E3) as E3'. clear E3. kmove E3'. simpl.
  apply kwp_bind. eapply kwp_cep_alloc; [exact I3|by intros d [z Hz]|by left|].
  intros c k4 dv I4 _ E4 Hc4 Hfr Ht4 Hun4. pose proof (new_not_listed _ _ _ _ _ I3 (lookup_empty _) Hfr Hf) as Hnf.
  pose proof (new_unlinked _ _ _ _ I3 (lookup_empty _) Hfr) as Hul. kmove E4.
  match type of Hq1 with _ = Some ?qv' => eapply (connect_cep_ok i q c s dv qv' f) end;
    [exact I4|exact Hc4|done..|exact Hq1|done|exact Hf|done].
Qed.

(** ** Accepting *)

(** The end of the error path of [siw_accept]. *)
Lemma accept_error_end c q m v qv (rv : Z) k :
  opened ∅ {[q := m]} c 1 k v -> m = qheld qv + 1 -> cep_state v = SIW_EPSTATE_CLOSED -> cep_cm_id v = None ->
  cep_sock v = None -> cep_qp v = None -> cep_timer v = None -> cep_listen_cep v = None ->
  k_qps k !! q = Some qv -> kq_cep qv = None ->
  kwp (siw_qp_put q;; siw_cep_set_free c;; siw_cep_put c;; mret rv) (fun _ => kgood) k.
Proof.
  intros O Hm Hst Hid Hso Hqp Htm Hli Hq Hqc. pose proof (qheld_nonneg qv).
  apply kwp_bind. eapply kwp_qp_put_held; [apply (op_inv _ _ _ _ _ _ O)|exact Hq|done|done|]. intros k1 I1 E1 _ Hq1.
  assert (O1 : opened ∅ ∅ c 1 k1 v).
  { eapply opened_closeq; [eapply opened_keepq; [exact O|exact E1|exact I1]|done|]. intros u Hu.
    destruct Hq1 as [[_ Hq1]|[_ Hq1]]; rewrite Hq1 in Hu; [done|]. injection Hu as <-. unfold qheld in *. simpl. lia. }
  unfold siw_cep_set_free. apply kwp_bind. kupd O1. intros k2 O2 E2.
  apply kwp_bind. eapply op_put_close; [exact O2|done| | |done|done| | |].
  - unfold held. simpl. by rewrite Hid, Hst.
  - unfold cep_fields. simpl. by rewrite Hst.
  - simpl. rewrite Hqp. by intros ? ?.
  - simpl. rewrite Hst. by intros [|].
  - intros k3 I3 _. by apply kwp_ret.
Qed.

(** The error path before the queue pair is associated. *)
Lemma accept_error_early i c q v qv rv k :
  opened ∅ {[q := qheld qv + 1]} c 1 k v -> cep_cm_id v = None -> is_Some (cep_sock v) -> cep_qp v = None ->
  cep_timer v = None -> cep_listen_cep v = None -> unlisted k c -> k_qps k !! q = Some qv -> kq_cep qv = None ->
  kwp (accept_error i c (Some q) rv) (fun _ => kgood) k.
Proof.
  intros O Hid Hso Hqp Htm Hli Hun Hq Hqc. unfold accept_error, set_state.
  apply kwp_bind. eapply op_release_sock; [exact O|done|lia|]. intros k1 rf O1 E1. clear O. kmove E1.
  apply kwp_bind. kupd O1. intros k2 O2 E2. clear O1. kmove E2.
  apply kwp_bind. eapply kwp_get_cep; [apply (op_cep _ _ _ _ _ _ O2)|]. simpl. rewrite Hid. apply kwp_bind, kwp_ret.
  apply kwp_bind. eapply kwp_nonnull; [done|]. apply kwp_bind. eapply kwp_get_kqp; [exact Hq|]. rewrite Hqc.
  apply kwp_bind, kwp_ret. apply kwp_bind. kupd O2. intros k3 O3 E3. kmove E3.
  eapply accept_error_end; [exact O3|done..].
Qed.

Lemma drop_qp_cep_unfold q c v k :
  k_qps k !! q = Some v -> kq_cep v = Some c ->
  drop_qp_cep q k = (siw_cep_put c;; upd_kqp q (fun v => v <| kq_cep := None |>)) k.
Proof.
  intros Hq Hc. unfold drop_qp_cep, get_kqp. unfold mbind at 1, KM_bind at 1. rewrite Hq. simpl. by rewrite Hc.
Qed.

(** [rem_ref(cm_id); cep->cm_id = NULL;] for the id of the endpoint. *)
Lemma op_rem_cm_id X Y c n v i (Q : unit -> kstate -> Prop) k :
  opened X Y c n k v -> cep_cm_id v = Some i -> unlisted k c ->
  (forall k', opened X Y c n k' (v <| cep_cm_id := None |>) -> keep c k k' -> Q tt k') ->
  kwp (id_rem_ref i;; upd_cep c (fun v => v <| cep_cm_id := None |>)) Q k.
Proof.
  intros O Hi Hun HQ. assert (Hd : kwp (drop_cm_id c) (fun _ => Q tt) k) by (by eapply op_drop_cm_id).
  revert Hd. unfold drop_cm_id, kwp, mbind, KM_bind, get_cep. rewrite (op_cep _ _ _ _ _ _ O). simpl. rewrite Hi.
  destruct (id_rem_ref i k) as [[? k1]|]; [|done]. by destruct (upd_cep c _ k1) as [[[] k2]|].
Qed.

(** The error path after the queue pair is associated. *)
Lemma accept_error_late i c q v qv (rv : Z) k :
  opened ∅ ∅ c 1 k v -> cep_cm_id v = Some i -> is_Some (cep_sock v) -> cep_qp v = Some q ->
  cep_timer v = None -> cep_listen_cep v = None -> unlisted k c -> k_qps k !! q = Some qv -> kq_cep qv = Some c ->
  kwp (accept_error i c (Some q) rv) (fun _ => kgood) k.
Proof.
  intros O Hid Hso Hqp Htm Hli Hun Hq Hqc. unfold accept_error, set_state.
  apply kwp_bind. eapply op_release_sock; [exact O|done|lia|]. intros k1 rf O1 E1. clear O. kmove E1.
  apply kwp_bind. kupd O1. intros k2 O2 E2. clear O1. kmove E2.
  apply kwp_bind. eapply kwp_get_cep; [apply (op_cep _ _ _ _ _ _ O2)|]. simpl. rewrite Hid.
  apply kwp_bind. eapply op_rem_cm_id; [exact O2|done|done|]. intros k3 O3 E3. clear O2. kmove E3.
  apply kwp_bind. eapply kwp_nonnull; [done|]. apply kwp_bind. eapply kwp_get_kqp; [exact Hq|]. rewrite Hqc.
  pose proof (opened_openq _ _ _ _ _ _ _ _ O3 (lookup_empty q) Hq) as O4. clear O3.
  pose proof (opened_qp_ref _ _ _ _ _ _ _ _ O4 Hq Hqc) as Hr4.
  apply kwp_bind. unfold kwp at 1. rewrite <- (drop_qp_cep_unfold q c qv) by done.
  eapply (kwp_drop_qp_cep ∅ ∅ c q _ _ _ _ (fun a => kwp _ _));
    [apply (op_inv _ _ _ _ _ _ O4)|exact Hq|exact Hqc|apply (op_cep _ _ _ _ _ _ O4)|intros; exfalso; lia|].
  intros k4 k5 I5 E4 E5 Hq5 Hc5. destruct Hc5 as [[? _]|[_ Hc5]]; [lia|].
  destruct O4 as [_ _ Hs Ht Hp]. kmove E4. kmove E5.
  apply kwp_bind. eapply kwp_clear_cep_qp; [exact I5|exact Hc5|done|]. intros k6 I6 E6 Hc6. kmove E6.
  eapply (accept_error_end c q _ _ (qv <| kq_cep := None |>)); [by split|done..].
Qed.
