(* ===== verification/Kaccept.v ===== *)
(** * Reference counting: accepting and rejecting requests

    [siw_accept] and [siw_reject] keep the invariant of [Kref], whatever the
    calls outside the module return. *)
From S2P Require Import Prelude Proto Kern Cm Kverbs Kref Kalloc Kstep Kconn.

(** ** Accepting *)

Section accept_qp.
Context (i c q s : nat) (params : iw_cm_conn_param).

(** The endpoint once it has its id and its queue pair. *)
Definition accepting_cep (v : siw_cep) : Prop :=
  cep_cm_id v = Some i /\ is_Some (cep_sock v) /\ cep_qp v = Some q /\ cep_timer v = None /\ cep_listen_cep v = None.

(** [siw_accept] once the queue pair is established. *)
Lemma accept_established v qv k :
  opened ∅ ∅ c 1 k v -> accepting_cep v -> unlisted k c -> listed_ok k c (Some q) ->
  k_qps k !! q = Some qv -> kq_cep qv = Some c ->
  kwp (rv ← kerr;
       if rv <? 0 then accept_error i c (Some q) (- ENOMEM) else
       upd_cep c (fun v => v <| cep_send_pdata := cp_private_data params |>
                             <| cep_state := SIW_EPSTATE_ACCEPTING |>);;
       v ← get_cep c;
       (match cep_timer v with
        | Some _ => mret tt
        | None => _ ← siw_cm_queue_work c SIW_CM_WORK_TIMEOUT; mret tt
        end);;
       siw_cep_set_free c;;
       mret 0) (fun _ => kgood) k.
Proof.
  intros O (Hid & Hso & Hqp & Htm & Hli) Hun Hl Hq Hqc. apply kwp_bind.
  eapply (kwp_kerr _ _ c); [apply (op_inv _ _ _ _ _ _ O)|]. intros r k1 I1 E1 Hc1 _ _.
  rewrite (op_cep _ _ _ _ _ _ O) in Hc1.
  assert (O1 : opened ∅ ∅ c 1 k1 v) by (by eapply opened_keep). clear O. kmove E1.
  destruct (r <? 0); [by eapply accept_error_late|].
  apply kwp_bind. kupd O1. intros k2 O2 E2. clear O1. kmove E2.
  apply kwp_bind. eapply kwp_get_cep; [apply (op_cep _ _ _ _ _ _ O2)|]. simpl. rewrite Htm.
  do 2 apply kwp_bind. eapply op_queue; [exact O2|done..|]. intros r3 k3 rf fl t O3 E3 _ _. clear O2. kmove E3.
  apply kwp_ret. unfold siw_cep_set_free. apply kwp_bind. kupd O3. intros k4 O4 E4. clear O3. kmove E4.
  apply kwp_ret. eapply opened_close; [exact O4|done| |done|done| |by intros [|]|].
  - apply conn_fields_intro; simpl; [by right; right; left|by rewrite Hid; eexists|done|by rewrite Hqp; eexists].
  - simpl. by rewrite Hqp.
  - unfold held. simpl. by rewrite Hid.
Qed.

(** [siw_accept] from the association of the queue pair on. *)
Lemma accept_qp_ok v qv k :
  opened ∅ {[q := qheld qv + 1]} c 1 k v -> cep_cm_id v = None -> is_Some (cep_sock v) -> cep_qp v = None ->
  cep_timer v = None -> cep_listen_cep v = None -> unlisted k c -> unlinked k c -> is_Some (k_ids k !! i) ->
  k_qps k !! q = Some qv -> kq_cep qv = None -> kq_state qv = SIW_QP_STATE_IDLE \/ kq_state qv = SIW_QP_STATE_RTR ->
  kwp (accept_qp i c q (Some s) params) (fun _ => kgood) k.
Proof.
  intros O Hid Hso Hqp Htm Hli Hun Hul Hi Hq Hqc Hst. pose proof (qheld_nonneg qv). destruct (O) as [I Hc Hs Ht Hp].
  unfold accept_qp, set_state. eapply (kwp_set_cm_id ∅ _ c i 1 v); [done..|exact I|exact Hc|done|].
  intros k1 I1 E1 Hc1. clear O. kmove E1.
  apply kwp_bind. eapply kwp_cep_get; [exact I1|exact Hc1|]. intros k2 I2 E2 Hc2. kmove E2.
  apply kwp_bind. eapply kwp_link; [exact I2|exact Hq|done|lia|rewrite Hc2; by intros ? [= <-]|]. intros k3 I3 E3 Hq3.
  pose proof (linkonly_link _ _ _ _ Hul E3) as Hlo. kmove E3.
  apply kwp_bind. eapply kwp_set_cep_qp; [exact I3|exact Hc2|done|done|done|]. intros k4 I4 E4 Hc4. kmove E4.
  assert (I4' : kinv (<[c := 1]> ∅) ∅ k4).
  { eapply kinv_closeq; [exact I4|done|]. intros u Hu. rewrite Hq3 in Hu. by injection Hu as <-. }
  clear I4. match type of Hc4 with _ = Some ?w => remember w as v4 eqn:Hv4 end.
  assert (Ha4 : accepting_cep v4) by (by subst v4). assert (cep_timer v4 = None) as Htm4 by apply Ha4.
  assert (O4 : opened ∅ ∅ c 1 k4 v4).
  { split; auto; [by subst v4|by rewrite Htm4, <- Htm|by apply unlisted_prov]. }
  clear Hv4. apply kwp_bind. kupd O4. intros k5 O5 E5. clear O4. kmove E5.
  apply kwp_bind. eapply kwp_nonnull; [done|]. apply kwp_bind.
  eapply (kwp_kerr _ _ c); [apply (op_inv _ _ _ _ _ _ O5)|]. intros r k6 I6 E6 Hc6 _ _.
  rewrite (op_cep _ _ _ _ _ _ O5) in Hc6.
  assert (O6 : opened ∅ ∅ c 1 k6 (v4 <| cep_state := SIW_EPSTATE_RDMA_MODE |>)) by (by eapply opened_keep). clear O5. kmove E6.
  destruct (Ha4) as (? & ? & ? & ? & ?).
  destruct (negb _). { eapply accept_error_late; [exact O6|done..|exact Hq3|done]. }
  apply kwp_bind. eapply op_modify_rts; [exact O6|done|exact Hq3|done|exact Hst|done|].
  intros k7 rf O7 Hl7 Hun7 (qv7 & Hq7 & Hqc7). specialize (Hun7 Hun). simpl negb. cbv iota.
  by eapply accept_established.
Qed.
End accept_qp.

(** What the connection manager guarantees of the id of a request: its
    endpoint has been reported and not been answered. *)
Definition request_id (k : kstate) (i c : nat) : Prop :=
  exists iv v, k_ids k !! i = Some iv /\ id_provider iv = PCep c /\ k_ceps k !! c = Some v /\
    cep_state v = SIW_EPSTATE_RECVD_MPAREQ.

Lemma kwp_id_cep k i c (Q : nat -> kstate -> Prop) : request_id k i c -> Q c k -> kwp (id_cep i) Q k.
Proof.
  intros (iv & v & Hi & Hp & _ & _) HQ. unfold id_cep. apply kwp_bind. eapply kwp_get_id; [done|].
  rewrite Hp. by apply kwp_ret.
Qed.

(** The endpoint of a request, open with the two references of its event. *)
Lemma request_opened k c v :
  kgood k -> k_ceps k !! c = Some v -> cep_state v = SIW_EPSTATE_RECVD_MPAREQ ->
  opened ∅ ∅ c 2 k v /\ cep_cm_id v = None /\ is_Some (cep_sock v) /\ cep_qp v = None /\ cep_timer v = None /\
  cep_in_use v = false /\ cep_listen_cep v = None /\ unlinked k c /\ unlisted k c.
Proof.
  intros I Hc Hst. destruct (kinv_opened _ _ _ _ _ I (lookup_empty _) Hc) as (O & Hf & Huse & Hli & _ & Hnw).
  unfold cep_fields in Hf. rewrite Hst in Hf. destruct Hf as (Hid & Hso & Hqp & Htm).
  unfold held in O. rewrite Hid, decide_True in O by done. split_and!; auto.
  eapply prov_unlisted; [apply (op_prov _ _ _ _ _ _ O)|by rewrite Hst].
Qed.

Lemma siw_accept_ok i c params k :
  kgood k -> request_id k i c -> is_Some (k_qps k !! cp_qpn params) -> qp_free k (cp_qpn params) ->
  kwp (siw_accept i params) (fun _ => kgood) k.
Proof.
  intros I Hr [qv Hq] Hfree. unfold siw_accept. apply kwp_bind. eapply kwp_id_cep; [done|].
  destruct Hr as (iv & v & Hi & _ & Hc & Hst). apply kwp_bind. eapply kwp_get_cep; [exact Hc|].
  assert (is_Some (k_ids k !! i)) as His by (by eexists). clear Hi. pose proof (Hfree qv Hq) as Hqc. clear Hfree.
  destruct (request_opened _ _ _ I Hc Hst) as (O & Hid & Hso & Hqp & Htm & Huse & Hli & Hul & Hun). clear I.
  unfold siw_cep_set_inuse. do 2 apply kwp_bind. eapply kwp_get_cep; [exact Hc|]. rewrite Huse.
  kupd O. intros k1 O1 E1. clear O. kmove E1.
  apply kwp_bind. eapply op_put_keep; [exact O1|lia|]. intros k2 O2 E2. clear O1. kmove E2.
  apply kwp_bind. kupd O2. intros k3 O3 E3. clear O2. kmove E3.
  apply kwp_bind. eapply kwp_get_cep; [apply (op_cep _ _ _ _ _ _ O3)|]. simpl. rewrite Hst. simpl.
  unfold siw_qp_id2obj. set (q := cp_qpn params) in *. do 2 apply kwp_bind. apply kwp_gets. rewrite Hq.
  apply kwp_bind. pose proof (opened_openq _ _ _ _ _ _ _ _ O3 (lookup_empty q) Hq) as O4.
  eapply kwp_qp_get; [apply (op_inv _ _ _ _ _ _ O4)|exact Hq|]. intros k4 I4 E4 _ Hq4.
  pose proof (opened_keepq _ _ _ _ _ _ _ _ _ _ O4 E4 I4) as O5. clear O3 O4.
  assert (Hul4 : unlinked k4 c).
  { intros p pv Hp. destruct (decide (p = q)) as [->|Hne].
    - rewrite Hq4 in Hp. injection Hp as <-. simpl. by rewrite Hqc.
    - rewrite (kx_qps _ _ _ E4 p Hne) in Hp. by apply (Hul p pv). }
  clear Hul. kmove E4. set (qv1 := qv <| kq_ref ::= fun r => r + 1 |>) in *.
  assert (Herr : forall rv, kwp (accept_error i c (Some q) rv) (fun _ => kgood) k4).
  { intros rv. eapply (accept_error_early i c q _ qv1); [exact O5|done..]. }
  apply kwp_ret. apply kwp_bind. eapply kwp_get_kqp; [exact Hq4|].
  destruct (Z.ltb_spec 1 (siw_qp_state_val (kq_state qv1))) as [|Hle];
    [apply Herr|].
  apply kwp_bind, kwp_gets. destruct (_ || _); [apply Herr|].
  destruct (_ <? _); [apply Herr|]. destruct Hso as [s Hs]. rewrite Hs.
  eapply (accept_qp_ok i c q s params _ qv1); [exact O5|done|by eexists|done..|exact Hq4|done|by apply qp_state_val_le].
Qed.

(** ** Rejecting *)

Lemma siw_reject_ok i c pdata k : kgood k -> request_id k i c -> kwp (siw_reject i pdata) (fun _ => kgood) k.
Proof.
  intros I Hr. unfold siw_reject. apply kwp_bind. eapply kwp_id_cep; [done|].
  destruct Hr as (iv & v & _ & _ & Hc & Hst).
  destruct (request_opened _ _ _ I Hc Hst) as (O & Hid & Hso & Hqp & Htm & Huse & Hli & Hul & Hun). clear I.
  unfold siw_cep_set_inuse, siw_cep_set_free, set_state, set_trp_hdr, set_hdr.
  do 2 apply kwp_bind. eapply kwp_get_cep; [exact Hc|]. rewrite Huse.
  kupd O. intros k1 O1 E1. clear O. kmove E1.
  apply kwp_bind. eapply op_put_keep; [exact O1|lia|]. intros k2 O2 E2. clear O1. kmove E2.
  apply kwp_bind. eapply kwp_get_cep; [apply (op_cep _ _ _ _ _ _ O2)|]. simpl. rewrite Hst. simpl.
  apply kwp_bind. kupd O2. intros k3 O3 E3. clear O2. kmove E3.
  apply kwp_bind. eapply (op_send _ _ _ _ c); [exact O3|done|apply (op_sock _ _ _ _ _ _ O3)|].
  intros r k4 h O4 E4 _ _. clear O3. kmove E4.
  apply kwp_bind. eapply op_release_sock; [exact O4|done|lia|]. intros k5 rf O5 E5. clear O4. kmove E5.
  apply kwp_bind. kupd O5. intros k6 O6 E6. clear O5. kmove E6.
  apply kwp_bind. kupd O6. intros k7 O7 E7. clear O6. kmove E7.
  apply kwp_bind. eapply op_put_close; [exact O7|done| | |done|done| |by intros [|]|].
  - unfold held. simpl. by rewrite Hid.
  - by unfold cep_fields.
  - simpl. rewrite Hqp. by intros ? ?.
  - intros k8 I8 _. by apply kwp_ret.
Qed.
