(* ===== verification/Kchar.v ===== *)
(** * Reference counting: the character device

    The daemon's calls keep the invariant of [Kref]: releasing the device,
    reading an established connection, and writing that a queue pair is ready. *)
From S2P Require Import Prelude Proto Kern Cm Kverbs Kref Kalloc Kstep Kconn.

(** ** Closing the device *)

Lemma cep_put_file c x k :
  siw_cep_put c (k <| k_file := x |>) =
  match siw_cep_put c k with Ok (a, k') => Ok (a, k' <| k_file := x |>) | Fault e => Fault e end.
Proof.
  unfold siw_cep_put, get_cep, upd_cep, siw_cep_dealloc, mbind, KM_bind. simpl.
  destruct (k_ceps k !! c) as [u|] eqn:E; [|done]. simpl.
  destruct (cep_ref u <? 1); [done|]. destruct (cep_ref u =? 1); [done|]. simpl. by rewrite E.
Qed.

Lemma put_ceps_file l : forall x k,
  put_ceps l (k <| k_file := x |>) =
  match put_ceps l k with Ok (a, k') => Ok (a, k' <| k_file := x |>) | Fault e => Fault e end.
Proof.
  induction l as [|c l IH]; intros x k; cbn [put_ceps]; [done|]. unfold mbind, KM_bind. rewrite cep_put_file.
  destruct (siw_cep_put c k) as [[a k']|]; [|done]. apply IH.
Qed.

Lemma put_ceps_app l l' k : put_ceps (l ++ l') k = (put_ceps l;; put_ceps l') k.
Proof.
  revert k. induction l as [|c l IH]; intros k; simpl; [done|]. unfold mbind, KM_bind in *.
  destruct (siw_cep_put c k) as [[a k']|]; [|done]. apply IH.
Qed.

(** An endpoint on the lists exists. *)
Lemma kinv_file_cep X Y k c : kinv X Y k -> c ∈ file_ceps k -> is_Some (k_ceps k !! c).
Proof.
  intros I Hc. pose proof (ki_ref _ _ _ I c) as E. pose proof (occ_elem _ _ Hc).
  unfold toks, uses in E. pose proof (nrefs_nonneg ks_user (k_socks k) c).
  pose proof (occ_nonneg (wk_cep <$> k_works k) c). pose proof (nrefs_nonneg kq_cep (k_qps k) c).
  destruct (k_ceps k !! c) eqn:Ec; [by eexists|]. simpl in E.
  destruct (X !! c) eqn:EX; [|lia]. pose proof (ki_toks _ _ _ I c _ EX). lia.
Qed.

Lemma occ_pos l c : 0 < occ l c -> c ∈ l.
Proof.
  unfold occ. intros H. destruct (filter (fun x => x = c) l) as [|x xs] eqn:E; [simpl in H; lia|].
  assert (x ∈ filter (fun x => x = c) l) as Hx by (rewrite E; left). by apply list_elem_of_filter in Hx as [-> Hx].
Qed.

(** An endpoint leaves the lists of the device, and the call has its
    reference. *)
Lemma file_pop c f k v :
  kgood k -> k_ceps k !! c = Some v -> (forall d, occ (file_ceps k) d =
    occ (established_list f ++ rtr_wait_list f) d + ind (Some c) d) ->
  opened ∅ ∅ c (held v + 1) (k <| k_file := Some f |>) v /\ cep_fields v /\ cep_in_use v = false /\
  cep_listen_cep v = None /\ listed_ok (k <| k_file := Some f |>) c (cep_qp v) /\
  new_ok (k <| k_file := Some f |>) c (cep_state v).
Proof.
  intros I Hc Hocc. destruct (ki_ok _ _ _ I c v (lookup_empty _) Hc) as [Hf Hu Hli Hs Ht Hl Hp Hn].
  assert (Hin : forall d, d ∈ established_list f ++ rtr_wait_list f -> d ∈ file_ceps k).
  { intros d Hd. apply occ_pos. rewrite Hocc. pose proof (occ_elem _ _ Hd). pose proof (ind_nonneg (Some c) d). lia. }
  split_and!; auto.
  - split; auto. simpl. apply (kinv_set_file ∅); auto.
    + intros d. rewrite Hocc. unfold toks. rewrite lookup_empty. destruct (decide (c = d)) as [<-|].
      * rewrite lookup_insert_eq, ind_eq, Hc. lia.
      * rewrite lookup_insert_ne, lookup_empty, ind_ne by done. lia.
    + intros d n. destruct (decide (c = d)) as [<-|]; [rewrite lookup_insert_eq|by rewrite lookup_insert_ne].
      intros [= <-]. pose proof (held_nonneg v). lia.
  - intros q qv Hq Hqv. destruct (Hl q qv Hq Hqv) as [H1 H2]. split; [done|]. intros Hd. by apply H2, Hin.
Qed.

Lemma put_ceps_ok dev l : forall k,
  kgood k -> (forall d, occ (file_ceps k) d = occ l d) ->
  kwp (put_ceps l) (fun _ k' => kgood (k' <| k_file := Some (Chardev dev [] []) |>)) k.
Proof.
  induction l as [|c l IH]; intros k I Hocc; simpl.
  - apply kwp_ret. eapply (kinv_set_file ∅); auto; simpl.
    + intros d. by rewrite Hocc.
    + intros d n. by rewrite lookup_empty.
    + intros d _ Hd. by apply elem_of_nil in Hd.
  - set (k0 := k <| k_file := Some (Chardev dev [] l) |>).
    assert (Hin : c ∈ file_ceps k).
    { apply occ_pos. rewrite Hocc, occ_cons, ind_eq. pose proof (occ_nonneg l c). lia. }
    destruct (kinv_file_cep _ _ _ _ I Hin) as [v Hc].
    destruct (file_pop c (Chardev dev [] l) k v I Hc) as (O & Hf & Hu & Hli & Hl & Hn).
    { intros d. rewrite Hocc, occ_cons. simpl. lia. }
    assert (Hput : kwp (siw_cep_put c) (fun _ k' => kgood k' /\ k_file k' = k_file k0) k0).
    { eapply op_put_close; [exact O|done..|]. intros k' I' E. split; [done|].
      apply (kp_file _ _ _ (keep_b _ _ _ E)). }
    apply kwp_bind. unfold kwp at 1. unfold kwp in Hput. unfold k0 in Hput. rewrite cep_put_file in Hput.
    destruct (siw_cep_put c k) as [[[] k1]|] eqn:Ep; [|done]. destruct Hput as [I1 Hf1].
    assert (IH1 := IH (k1 <| k_file := Some (Chardev dev [] l) |>) I1). specialize (IH1 ltac:(by intros d)).
    unfold kwp in *. rewrite put_ceps_file in IH1. by destruct (put_ceps l k1) as [[[] k2]|].
Qed.

Lemma urdma_chardev_release_ok k : kgood k -> kwp urdma_chardev_release (fun _ => kgood) k.
Proof.
  intros I. destruct (ki_file _ _ _ I) as [f Hf]. unfold urdma_chardev_release. apply kwp_bind, kwp_gets, kwp_bind.
  eapply kwp_nonnull; [done|]. pose proof (put_ceps_ok (cd_dev f) (rtr_wait_list f ++ established_list f) k I) as H.
  specialize (H ltac:(intros d; unfold file_ceps; rewrite Hf, !occ_app; lia)).
  unfold kwp in H. rewrite put_ceps_app in H. revert H. unfold kwp, mbind, KM_bind, kmodify, mret, KM_ret.
  destruct (put_ceps (rtr_wait_list f) k) as [[[] k1]|]; [|done].
  by destruct (put_ceps (established_list f) k1) as [[[] k2]|].
Qed.

(** ** Reading a connection *)

(** Every connection that waits for the daemon still has its queue pair. *)
Definition listed_conns (k : kstate) : Prop :=
  forall c v, c ∈ file_ceps k -> k_ceps k !! c = Some v -> is_Some (cep_qp v).

Lemma urdma_chardev_read_ok nonblock cnt route n k :
  kgood k -> listed_conns k ->
  (nonblock = true \/ exists f, k_file k = Some f /\ established_list f <> []) ->
  kwp (urdma_chardev_read nonblock cnt route n) (fun _ => kgood) k.
Proof.
  intros I Hconn Hblk. destruct (ki_file _ _ _ I) as [f Hf]. unfold urdma_chardev_read.
  apply kwp_bind, kwp_gets, kwp_bind. eapply kwp_nonnull; [done|]. destruct (negb (cd_dev f)); [by apply kwp_ret|].
  destruct (established_list f) as [|c l] eqn:El.
  - destruct Hblk as [->|(f' & Hf' & Hne)]; [by apply kwp_ret|]. rewrite Hf in Hf'. injection Hf' as <-. done.
  - unfold do_read_established_event. destruct (_ <? _)%nat; [by apply kwp_ret|].
    assert (Hin : c ∈ file_ceps k) by (unfold file_ceps; rewrite Hf, El; left).
    destruct (kinv_file_cep _ _ _ _ I Hin) as [v Hc]. destruct (Hconn c v Hin Hc) as [q Hq].
    destruct (kinv_cep_qp _ _ _ _ _ _ I Hc Hq) as [qv Hqv].
    apply kwp_bind. eapply kwp_get_cep; [done|]. apply kwp_bind. eapply kwp_nonnull; [done|].
    apply kwp_bind. eapply kwp_get_kqp; [done|]. destruct (fetch_dest_hwaddr route n) as [[rv ether] ?].
    apply kwp_bind, kwp_kmodify, kwp_bind. eapply (kwp_kerr ∅ ∅ O).
    { eapply (kinv_set_file ∅); [exact I|..]; auto; simpl; rewrite ?El; simpl.
      - intros d. unfold file_ceps. rewrite Hf, El, !occ_app, !occ_cons, occ_nil. lia.
      - intros d m. by rewrite lookup_empty.
      - intros d _. unfold file_ceps. rewrite Hf, El, !elem_of_app, !elem_of_cons, elem_of_nil. tauto. }
    intros r k' I' _ _ _ _. destruct (r <? 0); by apply kwp_ret.
Qed.

(** ** A queue pair is ready *)

Section rtr.
Context (c q : nat) (m : Z) (qv : siw_qp) (Q : Z -> kstate -> Prop).
Context (Hm : m = qheld qv + 1).
Context (HQ : forall r k' qv', kinv ∅ {[q := m]} k' -> k_qps k' !! q = Some qv' -> qheld qv' = qheld qv ->
  kq_cep qv' = None \/ 2 <= kq_ref qv' -> Q r k').

(** A connection that stays, with the reference of the list. *)
Record rtr_conn (k : kstate) (v : siw_cep) : Prop := {
  rc_open : opened ∅ {[q := m]} c 2 k v;
  rc_id : is_Some (cep_cm_id v);
  rc_sock : is_Some (cep_sock v);
  rc_qp : cep_qp v = Some q;
  rc_listen : cep_listen_cep v = None;
  rc_state : conn_state (cep_state v);
  rc_listed : listed_ok k c (Some q);
  rc_kqp : k_qps k !! q = Some qv;
  rc_link : kq_cep qv = Some c
}.

Lemma rtr_unlisted k v : rtr_conn k v -> unlisted k c.
Proof.
  intros R. eapply prov_unlisted; [apply (op_prov _ _ _ _ _ _ (rc_open _ _ R))|].
  by destruct (rc_state _ _ R) as [->|[->|[->| ->]]].
Qed.

(** A change of other fields of the connection. *)
Lemma rtr_upd f v (P : unit -> kstate -> Prop) k :
  rtr_conn k v -> cep_ref (f v) = cep_ref v -> cep_cm_id (f v) = cep_cm_id v -> cep_qp (f v) = cep_qp v ->
  cep_sock (f v) = cep_sock v -> cep_timer (f v) = cep_timer v -> cep_listen_cep (f v) = cep_listen_cep v ->
  conn_state (cep_state (f v)) -> (forall k', rtr_conn k' (f v) -> P tt k') -> kwp (upd_cep c f) P k.
Proof.
  intros R Er Ei Eq Es Et El Hst HP. pose proof (rtr_unlisted _ _ R). destruct R as [O ? ? ? ? ? ? ? ?].
  eapply op_upd; [exact O|done..|by right|]. intros k1 O1 E1. apply HP. kmove E1. split; try congruence; auto.
Qed.

Lemma rtr_end (rv : Z) v k :
  rtr_conn k v ->
  kwp (siw_cep_set_free c;; mret rv) (fun rv => kwp (siw_cep_put c;; mret rv) Q) k.
Proof using HQ Hm.
  intros R. unfold siw_cep_set_free. apply kwp_bind. eapply rtr_upd; [exact R|done..|apply R|]. intros k1 R1.
  clear R. apply kwp_ret, kwp_bind. destruct R1 as [O Hid Hso Hqp Hli Hst Hl Hq Hqc].
  destruct (opened_cep_qp_ref _ _ _ _ _ _ _ _ _ O Hqp Hq) as [Hr _]. pose proof (qheld_nonneg qv).
  assert (Hf : cep_fields (v <| cep_in_use := false |>)) by (apply conn_fields_intro; auto; by rewrite Hqp).
  destruct (conn_fields _ Hst Hf) as (_ & _ & _ & Hh & _).
  eapply op_put_close; [exact O|done|by rewrite Hh|done|done|done|by rewrite Hqp|by apply conn_new_ok|].
  intros k2 I2 E2. kmove E2. apply kwp_ret. eapply HQ; [exact I2|exact Hq|done|right; lia].
Qed.

Lemma rtr_upcall v reason st (P : Z -> kstate -> Prop) k :
  rtr_conn k v -> reason <> IW_CM_EVENT_CONNECT_REQUEST -> (forall r k', rtr_conn k' v -> P r k') ->
  kwp (siw_cm_upcall c reason st) P k.
Proof.
  intros R Hr HP. destruct R as [O ? ? ? ? ? ? ? ?]. eapply op_upcall; [exact O|by apply upcall_conn|].
  intros r k1 O1 E1 _ _. apply HP. kmove E1. by split.
Qed.

Lemma rtr_send v pdata n (P : Z -> kstate -> Prop) k :
  rtr_conn k v -> (forall r k' h, rtr_conn k' (v <| cep_hdr := h |>) -> P r k') ->
  kwp (siw_send_trpreqrep c pdata n) P k.
Proof.
  intros R HP. destruct R as [O ? ? ? ? ? ? ? ?].
  eapply (op_send _ _ _ _ c); [exact O|done|apply (op_sock _ _ _ _ _ _ O)|].
  intros r k1 h O1 E1 _ _. apply (HP _ _ h). kmove E1. by split.
Qed.

Lemma rtr_accept_error_ok (rv : Z) v k :
  rtr_conn k v -> cep_timer v = None ->
  kwp (rtr_accept_error c;; mret rv) (fun rv => kwp (siw_cep_put c;; mret rv) Q) k.
Proof using HQ Hm.
  intros R Htm. pose proof (rtr_unlisted _ _ R) as Hun. destruct R as [O Hid Hso Hqp Hli Hst Hl Hq Hqc].
  unfold rtr_accept_error, set_state, siw_cep_set_free. pose proof (qheld_nonneg qv).
  do 2 apply kwp_bind. eapply op_release_sock; [exact O|done|lia|]. intros k1 rf O1 E1. clear O. kmove E1.
  apply kwp_bind. kupd O1. intros k2 O2 E2. clear O1. kmove E2.
  apply kwp_bind. eapply op_drop_cm_id; [exact O2|done|]. intros k3 O3 E3. clear O2. kmove E3.
  apply kwp_bind. eapply op_put_keep; [exact O3|lia|]. intros k4 O4 E4. clear O3. kmove E4.
  destruct (O4) as [I4 Hc4 Hs4 Ht4 Hp4].
  apply kwp_bind. eapply kwp_get_cep; [exact Hc4|]. apply kwp_bind. eapply kwp_nonnull; [exact Hqp|].
  apply kwp_bind. eapply (kwp_unlink ∅ ∅); [exact I4|exact Hq|exact Hqc|]. intros k5 I5 E5 Hq5. clear O4. kmove E5.
  match type of Hc4 with _ = Some ?w => assert (O5 : opened ∅ {[q := m]} c 2 k5 w) by (by split) end.
  destruct (opened_cep_qp_ref _ _ _ _ _ _ _ _ _ O5 Hqp Hq5) as [Hr _]. clear O5. simpl in Hr.
  apply kwp_bind. eapply kwp_qp_put; [exact I5|exact Hq5|lia|simpl; intros; exfalso; lia|]. intros k6 I6 E6 _ Hq6.
  destruct Hq6 as [[? _]|[_ Hq6]]; [simpl in *; exfalso; lia|]. kmove E6.
  apply kwp_bind. eapply kwp_clear_cep_qp; [exact I6|exact Hc4|exact Hqp|]. intros k7 I7 E7 Hc7. kmove E7.
  match type of Hc7 with _ = Some ?w => set (v7 := w) in * end.
  assert (O7 : opened ∅ {[q := m]} c 2 k7 v7) by (split; auto; by replace m with (m - 1 + 1) by lia).
  apply kwp_bind. kupd O7. intros k8 O8 E8. clear O7. kmove E8.
  eapply op_put_keep; [exact O8|lia|]. intros k9 O9 E9. clear O8. kmove E9. apply kwp_ret, kwp_bind.
  eapply op_put_close; [exact O9|done|done|done|done|done|by intros ? ?|by intros [|]|].
  intros k10 I10 E10. kmove E10. apply kwp_ret. eapply HQ; [exact I10|exact Hq6|done|by left].
Qed.

Lemma siw_qp_rtr_ok v k :
  rtr_conn k v -> cep_in_use v = false -> kwp (siw_qp_rtr c) Q k.
Proof using HQ Hm.
  intros R Huse. unfold siw_qp_rtr, siw_cep_set_inuse, set_trp_hdr, set_hdr, set_state.
  do 2 apply kwp_bind. eapply kwp_get_cep; [apply (rc_open _ _ R)|]. rewrite Huse.
  eapply rtr_upd; [exact R|done..|apply R|]. intros k1 R1. clear R. apply kwp_bind.
  destruct R1 as [O Hid Hso Hqp Hli Hst Hl Hq Hqc]. eapply op_cancel; [exact O|lia|]. intros k2 rf O2 E2. kmove E2.
  match type of O2 with opened _ _ _ _ _ ?w => set (v2 := w) in * end.
  assert (R2 : rtr_conn k2 v2) by (by split).
  clear O. apply kwp_bind. eapply kwp_get_cep; [apply O2|]. apply kwp_bind.
  assert (Hend : forall rv k' v', rtr_conn k' v' ->
    kwp (siw_cep_set_free c;; mret rv) (fun rv => kwp (siw_cep_put c;; mret rv) Q) k') by (intros; by eapply rtr_end).
  change (cep_state v2) with (cep_state v) in *. destruct (cep_state v) eqn:Est; try by eapply Hend.
  - apply kwp_bind. eapply rtr_upcall; [exact R2|done|]. intros r k3 R3. apply kwp_bind. unfold when.
    destruct (r =? 0); [|apply kwp_ret; by eapply Hend].
    eapply rtr_upd; [exact R3|done..|by right; right; right|]. intros k4 R4. by eapply Hend.
  - apply kwp_bind. eapply kwp_nonnull; [exact Hqp|]. apply kwp_bind. eapply kwp_get_kqp; [exact Hq|].
    apply kwp_bind. eapply rtr_upd; [exact R2|done..|apply R2|]. intros k3 R3. clear R2.
    apply kwp_bind. eapply rtr_upd; [exact R3|done..|apply R3|]. intros k4 R4. clear R3.
    apply kwp_bind. eapply rtr_send; [exact R4|]. intros r k5 h R5. clear R4.
    destruct (negb (r =? 0)); [by eapply Hend|].
    apply kwp_bind. eapply rtr_upcall; [exact R5|done|]. intros r6 k6 R6.
    destruct (negb (r6 =? 0)); [by eapply rtr_accept_error_ok|].
    apply kwp_bind. eapply rtr_upd; [exact R6|done..|by right; right; right|]. intros k7 R7. by eapply Hend.
Qed.
End rtr.

(** The search of the list finds the queue pair of a listed connection. *)
Lemma kwp_find_rtr l id (Q : option nat -> kstate -> Prop) k :
  (forall c, c ∈ l -> exists v q qv, k_ceps k !! c = Some v /\ cep_qp v = Some q /\ k_qps k !! q = Some qv) ->
  (forall o, (forall q, o = Some q -> exists c v, c ∈ l /\ k_ceps k !! c = Some v /\ cep_qp v = Some q) -> Q o k) ->
  kwp (find_rtr l id) Q k.
Proof.
  induction l as [|c l IH]; intros Hl HQ; simpl; [by apply kwp_ret, HQ|].
  destruct (Hl c ltac:(left)) as (v & q & qv & Hc & Hq & Hqv). apply kwp_bind. eapply kwp_get_cep; [done|].
  apply kwp_bind. eapply kwp_nonnull; [done|]. apply kwp_bind. eapply kwp_get_kqp; [done|].
  destruct (q =? id)%nat.
  - apply kwp_ret, HQ. intros p [= <-]. exists c, v. split_and!; [left|done|done].
  - apply IH; [intros d Hd; apply Hl; by right|]. intros o Ho. apply HQ. intros p Hp.
    destruct (Ho p Hp) as (d & w & Hd & ?). exists d, w. split; [by right|done].
Qed.

Lemma occ_list_del_cep c l d : c ∈ l -> occ l d = occ (list_del_cep c l) d + ind (Some c) d.
Proof.
  induction l as [|x l IH]; [by intros ?%elem_of_nil|]. rewrite elem_of_cons. intros Hc. simpl.
  destruct (Nat.eqb_spec x c) as [->|Hne]; [rewrite occ_cons; lia|]. rewrite !occ_cons, IH; [lia|].
  destruct Hc; congruence.
Qed.

(** Only states of a connection have a queue pair. *)
Lemma qp_conn_state v : cep_fields v -> is_Some (cep_qp v) -> conn_state (cep_state v).
Proof.
  unfold cep_fields, conn_state. intros Hf [q Hq]. rewrite Hq in Hf.
  destruct (cep_state v); destruct_and?; auto; done.
Qed.

(** The reference of the lookup goes, when the user still has the queue pair. *)
Lemma qp_put_end {A} q v (r : A) k :
  kinv ∅ {[q := qheld v + 1]} k -> k_qps k !! q = Some v -> kq_cep v = None \/ 2 <= kq_ref v ->
  kwp (siw_qp_put q;; mret r) (fun _ => kgood) k.
Proof.
  intros I Hq [Hc|Hr]; [by eapply qp_put_ok|]. pose proof (qheld_nonneg v).
  apply kwp_bind. eapply kwp_qp_put; [exact I|exact Hq|lia|intros; exfalso; lia|].
  intros k1 I1 _ _ Hq1. apply kwp_ret. eapply kinv_closeq; [exact I1|done|]. intros u Hu.
  destruct Hq1 as [[_ Hq1]|[_ Hq1]]; rewrite Hq1 in Hu; [done|]. injection Hu as <-. unfold qheld. simpl. lia.
Qed.

Lemma urdma_chardev_write_ok stk buf k :
  kgood k -> listed_conns k -> kwp (urdma_chardev_write stk buf) (fun _ => kgood) k.
Proof.
  intros I Hconn. destruct (ki_file _ _ _ I) as [f Hf]. unfold urdma_chardev_write.
  destruct (_ <? _)%nat; [by apply kwp_ret|]. apply kwp_bind. eapply kwp_kerr_all; [done|]. intros r k1 I1 [Ec E1] _ _.
  specialize (E1 O). destruct (r <? 0); [by apply kwp_ret|].
  assert (Hconn1 : listed_conns k1).
  { intros c v. unfold file_ceps. rewrite Ec, (kp_file _ _ _ (keep_b _ _ _ E1)). apply Hconn. }
  clear I Hconn. kmove E1. apply kwp_bind, kwp_gets, kwp_bind. eapply kwp_nonnull; [done|].
  destruct (negb _); [by apply kwp_ret|]. destruct (_ =? _); [|by apply kwp_ret].
  destruct (negb _); [by apply kwp_ret|].
  assert (Hin : forall c, c ∈ rtr_wait_list f -> c ∈ file_ceps k1).
  { intros c Hc. unfold file_ceps. rewrite Hf. apply elem_of_app. by right. }
  apply kwp_bind. eapply kwp_find_rtr.
  { intros c Hc%Hin. destruct (kinv_file_cep _ _ _ _ I1 Hc) as [v Hv]. destruct (Hconn1 c v Hc Hv) as [q Hq].
    destruct (kinv_cep_qp _ _ _ _ _ _ I1 Hv Hq) as [qv Hqv]. eauto 7. }
  intros [q|] Hq; [|by apply kwp_ret]. destruct (Hq q eq_refl) as (c & v & Hcl & Hc & Hcq). clear Hq.
  destruct (kinv_cep_qp _ _ _ _ _ _ I1 Hc Hcq) as [qv Hqv].
  destruct (ki_ok _ _ _ I1 c v (lookup_empty _) Hc) as [_ _ _ _ _ Hl _ _].
  destruct (Hl q qv Hcq Hqv) as [Hl1 Hl2]. assert (kq_cep qv = Some c) as Hqc.
  { apply Hl1. rewrite Hl2; [done|]. by apply Hin. }
  destruct (file_pop c (f <| rtr_wait_list ::= list_del_cep c |>) k1 v I1 Hc) as (O & Hfl & Huse & Hli & Hlk & _).
  { intros d. simpl. unfold file_ceps. rewrite Hf, !occ_app, (occ_list_del_cep c (rtr_wait_list f)) by done. lia. }
  pose proof (qp_conn_state v Hfl ltac:(by rewrite Hcq)) as Hst.
  destruct (conn_fields v Hst Hfl) as (Hid & Hso & _ & Hh & _). rewrite Hh in O. rewrite Hcq in Hlk.
  apply kwp_bind. unfold siw_qp_get. set (fq := fun v0 : siw_qp => v0 <| kq_ref ::= fun r => r + 1 |>).
  unfold kwp at 1, upd_kqp. rewrite Hqv. simpl. set (k2 := k1 <| k_qps ::= <[q := fq qv]> |>).
  apply kwp_bind. eapply kwp_get_kqp; [simpl; apply lookup_insert_eq|].
  apply kwp_bind. eapply kwp_nonnull; [exact Hqc|]. apply kwp_bind, kwp_kmodify.
  set (k0 := k1 <| k_file := Some (f <| rtr_wait_list ::= list_del_cep c |>) |>) in *.
  pose proof (opened_openq _ _ _ _ _ _ q qv O (lookup_empty q) Hqv) as O1.
  assert (Hget : kwp (siw_qp_get q) (fun _ k' => k' = k2 <| k_file := Some (f <| rtr_wait_list ::= list_del_cep c |>) |> /\
    rtr_conn c q (qheld qv + 1) (fq qv) k' v) k0).
  { unfold kwp, siw_qp_get, upd_kqp. simpl. rewrite Hqv. simpl. split; [done|].
    assert (Hw : kwp (siw_qp_get q) (fun _ k' => rtr_conn c q (qheld qv + 1) (fq qv) k' v) k0).
    { eapply kwp_qp_get; [apply (op_inv _ _ _ _ _ _ O1)|exact Hqv|]. intros k3 I3 E3 L3 Hq3.
      pose proof (opened_keepq _ _ _ _ _ _ _ _ _ _ O1 E3 I3) as O3. kmove E3. by split. }
    revert Hw. unfold kwp, siw_qp_get, upd_kqp. simpl. by rewrite Hqv. }
  apply kwp_ok in Hget as (? & k3 & _ & -> & R). apply kwp_bind.
  eapply (siw_qp_rtr_ok c q (qheld qv + 1) (fq qv)); [done| |exact R|done].
  intros rv k4 qv4 I4 Hq4 Hh4 Hor. eapply qp_put_end; [|exact Hq4|done]. by rewrite Hh4.
Qed.
