(* ===== verification/Kclose.v ===== *)
(** * Reference counting: modifying and destroying queue pairs

    [siw_ofed_modify_qp] and [siw_destroy_qp] keep the invariant of [Kref]; a
    connection of the queue pair is closed on the way. *)
From S2P Require Import Prelude Proto Kern Cm Kverbs Kref Kalloc Kstep Kconn Kchar.

(** A reference is dropped on an endpoint that a queue pair refers to. *)
Lemma op_put_linked X Y c n k v q qv (Q : unit -> kstate -> Prop) :
  opened X Y c n k v -> 1 <= n -> k_qps k !! q = Some qv -> kq_cep qv = Some c ->
  (forall k', opened X Y c (n - 1) k' (v <| cep_ref ::= fun r => r - 1 |>) -> keep c k k' -> Q tt k') ->
  kwp (siw_cep_put c) Q k.
Proof.
  intros O Hn Hq Hqc HQ. pose proof (opened_qp_ref _ _ _ _ _ _ _ _ O Hq Hqc). destruct (O) as [I Hc _ _ _].
  eapply kwp_cep_put_keep; [exact I|exact Hc|done|lia|]. intros k' I' E Hc'. apply HQ; [|done]. by eapply opened_keep.
Qed.

(** ** [siw_qp_cm_drop] *)

Section cm_drop.
Context (q c : nat) (qv : siw_qp) (Q : unit -> kstate -> Prop).
Context (Hqc : kq_cep qv = Some c) (Hheld : qheld qv = 1).
Context (HQ : forall k' rf, kinv ∅ {[q := 1]} k' -> k_qps k' !! q = Some (qv <| kq_ref := rf |>) -> Q tt k').

(** The connection is open in the call, and its queue pair is no longer
    established. *)
Lemma cm_drop_conn v k :
  opened ∅ {[q := 1]} c 1 k v -> conn_state (cep_state v) -> is_Some (cep_cm_id v) -> is_Some (cep_sock v) ->
  cep_qp v = Some q -> cep_listen_cep v = None -> k_qps k !! q = Some qv ->
  kwp (((match cep_cm_id v with
         | None => mret tt
         | Some _ =>
             (match cep_state v with
              | SIW_EPSTATE_AWAIT_MPAREP => _ ← siw_cm_upcall c IW_CM_EVENT_CONNECT_REPLY (- EINVAL); mret tt
              | SIW_EPSTATE_RDMA_MODE => _ ← siw_cm_upcall c IW_CM_EVENT_CLOSE 0; mret tt
              | _ => mret tt
              end);;
             _ ← drop_cm_id c; siw_cep_put c
         end);;
        set_state c SIW_EPSTATE_CLOSED;;
        v ← get_cep c;
        (match cep_sock v with None => mret tt | Some _ => release_sock c end);;
        v ← get_cep c;
        (match cep_qp v with
         | None => mret tt
         | Some _ => upd_cep c (fun v => v <| cep_qp := None |>);; siw_qp_put q
         end));;
       siw_cep_set_free c) Q k.
Proof using HQ Hheld Hqc.
  intros O Hst [i Hid] Hso Hqp Hli Hq. rewrite Hid.
  assert (Hun : unlisted k c).
  { eapply prov_unlisted; [apply (op_prov _ _ _ _ _ _ O)|]. by destruct Hst as [->|[->|[->| ->]]]. }
  unfold set_state, siw_cep_set_free. do 3 apply kwp_bind.
  assert (Hup : forall P : unit -> kstate -> Prop,
    (forall k', opened ∅ {[q := 1]} c 1 k' v -> unlisted k' c -> k_qps k' !! q = Some qv -> P tt k') ->
    kwp (match cep_state v with
         | SIW_EPSTATE_AWAIT_MPAREP => _ ← siw_cm_upcall c IW_CM_EVENT_CONNECT_REPLY (- EINVAL); mret tt
         | SIW_EPSTATE_RDMA_MODE => _ ← siw_cm_upcall c IW_CM_EVENT_CLOSE 0; mret tt
         | _ => mret tt
         end) P k).
  { intros P HP. destruct (cep_state v); try (by apply kwp_ret, HP); apply kwp_bind;
      (eapply op_upcall; [exact O|apply upcall_conn; [done|by rewrite Hid]|]); intros r k1 O1 E1 _ _; kmove E1;
      by apply kwp_ret, HP. }
  apply Hup. clear Hup O Hun Hq k. intros k1 O1 Hun Hq.
  apply kwp_bind. eapply op_drop_cm_id; [exact O1|done|]. intros k2 O2 E2. clear O1. kmove E2.
  eapply op_put_linked; [exact O2|lia|exact Hq|done|]. intros k3 O3 E3. clear O2. kmove E3.
  apply kwp_bind. kupd O3. intros k4 O4 E4. clear O3. kmove E4.
  apply kwp_bind. eapply kwp_get_cep; [apply O4|]. simpl. destruct Hso as [s Hs]. rewrite Hs.
  apply kwp_bind. pose proof (opened_qp_ref _ _ _ _ _ _ _ _ O4 Hq Hqc) as Hr4.
  assert (2 <= cep_ref v - 1) as Hr.
  { destruct (O4) as [I4 Hc4 Hs4 _ _]. pose proof (ki_ref _ _ _ I4 c) as E. unfold toks in E.
    rewrite lookup_insert_eq, Hc4 in E. unfold uses in E. destruct (Hs4 s Hs) as (sv & Hsv & Hu). simpl in E.
    pose proof (nrefs_pos ks_user _ _ _ _ Hsv Hu). pose proof (nrefs_pos kq_cep _ _ _ _ Hq Hqc).
    pose proof (occ_nonneg (wk_cep <$> k_works k4) c). pose proof (occ_nonneg (file_ceps k4) c). lia. }
  eapply op_release_sock_ref; [exact O4|by eexists|exact Hr|]. intros k5 O5 E5. clear O4. kmove E5.
  apply kwp_bind. eapply kwp_get_cep; [apply O5|]. simpl. rewrite Hqp.
  match type of O5 with opened _ _ _ _ _ ?w => remember w as v5 eqn:Hv5 end.
  destruct (O5) as [I5 Hc5 Hs5 Ht5 Hp5]. assert (cep_qp v5 = Some q) as Hqp5 by (by subst v5).
  apply kwp_bind. eapply kwp_clear_cep_qp; [exact I5|exact Hc5|done|]. intros k6 I6 E6 Hc6. clear O5. kmove E6.
  pose proof (ki_qref _ _ _ I6 q) as Href. unfold qtoks in Href. rewrite lookup_insert_eq, Hq in Href. simpl in Href.
  pose proof (nrefs_nonneg cep_qp (k_ceps k6) q).
  eapply kwp_qp_put; [exact I6|exact Hq|lia|intros; exfalso; lia|]. intros k7 I7 E7 _ Hq7.
  destruct Hq7 as [[? _]|[_ Hq7]]; [exfalso; lia|]. kmove E7.
  assert (O7 : opened ∅ {[q := 1]} c 0 k7 (v5 <| cep_qp := None |>)) by (split; [exact I7|auto..]).
  kupd O7. intros k8 O8 E8. clear O7. kmove E8. eapply HQ; [|exact Hq7].
  subst v5. eapply opened_close; [exact O8|done|done|done|done|by intros ? ?|by intros [|]|done].
Qed.

Lemma cm_drop_ok v k :
  opened ∅ {[q := 1]} c (held v) k v -> cep_fields v -> cep_in_use v = false -> cep_listen_cep v = None ->
  conn_state (cep_state v) \/ cep_state v = SIW_EPSTATE_CLOSED -> cep_qp v = Some q \/ cep_qp v = None ->
  k_qps k !! q = Some qv -> kwp (siw_qp_cm_drop q false) Q k.
Proof using HQ Hheld Hqc.
  intros O Hf Huse Hli Hst Hqp Hq. unfold siw_qp_cm_drop, siw_cep_set_inuse.
  apply kwp_bind. eapply kwp_get_kqp; [exact Hq|]. rewrite Hqc.
  do 2 apply kwp_bind. eapply kwp_get_cep; [apply O|]. rewrite Huse. kupd O. intros k1 O1 E1. kmove E1.
  apply kwp_bind. eapply kwp_get_cep; [apply O1|]. destruct Hst as [Hst|Hst].
  - destruct (conn_fields v Hst Hf) as (Hid & Hso & [p Hp] & Hh & _). rewrite Hh in O1.
    rewrite bool_decide_false by (simpl; by destruct Hst as [->|[->|[->| ->]]]).
    eapply (cm_drop_conn (v <| cep_in_use := true |>)); [exact O1|done|done|done| |done|done].
    simpl. by destruct Hqp as [|?]; [|congruence].
  - rewrite bool_decide_true by done. unfold cep_fields in Hf. rewrite Hst in Hf. destruct Hf as (Hid & Hso & Hqn).
    unfold siw_cep_set_free. apply kwp_bind, kwp_ret. kupd O1. intros k2 O2 E2. kmove E2.
    apply (HQ _ (kq_ref qv)); [|by destruct qv]. eapply opened_close; [exact O2|done| |done|done| | |].
    + unfold cep_fields. simpl. by rewrite Hst.
    + simpl. rewrite Hqn. by intros ? ?.
    + simpl. rewrite Hst. by intros [|].
    + unfold held. simpl. by rewrite Hid, Hst.
Qed.
End cm_drop.

(** ** [siw_qp_modify] *)

(** A queue pair that its user still has, in a state. *)
Definition qp_in (q : nat) (qv : siw_qp) (st : siw_qp_state) (k : kstate) : Prop :=
  kgood k /\ exists qv', k_qps k !! q = Some qv' /\ qp_objs qv' = qp_objs qv /\ kq_state qv' = st.

(** The result and the next state of a queue pair whose user asks for state [t];
    only the connection manager establishes a queue pair. *)
Definition qp_next (s t : siw_qp_state) : Z * siw_qp_state :=
  match s with
  | SIW_QP_STATE_IDLE | SIW_QP_STATE_RTR =>
      match t with
      | SIW_QP_STATE_RTS => (- EINVAL, s)
      | SIW_QP_STATE_RTR | SIW_QP_STATE_ERROR => (0, t)
      | _ => (0, s)
      end
  | SIW_QP_STATE_RTS =>
      match t with SIW_QP_STATE_CLOSING | SIW_QP_STATE_TERMINATE | SIW_QP_STATE_ERROR => (0, t) | _ => (0, s) end
  | SIW_QP_STATE_CLOSING =>
      match t with
      | SIW_QP_STATE_IDLE | SIW_QP_STATE_CLOSING | SIW_QP_STATE_ERROR => (0, t)
      | _ => (- ECONNABORTED, s)
      end
  | SIW_QP_STATE_TERMINATE => (0, if bool_decide (t = SIW_QP_STATE_ERROR) then t else s)
  | _ => (0, s)
  end.

Section modify.
Context (q : nat) (qv : siw_qp).
Context (Hscq : is_Some (kq_scq qv)).
Implicit Types (k : kstate) (v : siw_qp).

Lemma objs_held v : qp_objs v = qp_objs qv -> qheld v = 1.
Proof using Hscq. intros [= E _ _]. unfold qheld. rewrite E. by destruct Hscq as [? ->]. Qed.

Lemma modify_close v k :
  kinv ∅ {[q := 1]} k -> k_qps k !! q = Some v -> qp_objs v = qp_objs qv -> kgood k.
Proof using Hscq.
  intros I Hq Ho. eapply kinv_closeq; [exact I|done|]. intros u Hu. rewrite Hq in Hu. injection Hu as <-.
  by rewrite objs_held.
Qed.

(** A queue pair that is not established changes its state. *)
Lemma set_state_ok st v (Q : unit -> kstate -> Prop) k :
  kinv ∅ {[q := 1]} k -> k_qps k !! q = Some v -> kq_state v <> SIW_QP_STATE_RTS ->
  (qp_live st = true -> qp_live (kq_state v) = true) ->
  (forall k', kinv ∅ {[q := 1]} k' -> k_qps k' !! q = Some (v <| kq_state := st |>) -> Q tt k') ->
  kwp (set_qp_state q st) Q k.
Proof.
  intros I Hq Hst Hlive HQ. unfold set_qp_state. eapply kwp_qp_state; [exact I|exact Hq|done|done|done| |].
  - intros d u _ _ _ H1 H2. simpl. split; [auto|]. intros Hd. by apply H2 in Hd.
  - intros k1 I1 _ Hq1. by apply HQ.
Qed.

Lemma drop_dead_ok v k :
  kinv ∅ {[q := 1]} k -> k_qps k !! q = Some v -> qp_objs v = qp_objs qv -> qp_live (kq_state v) = false ->
  kwp (drop_qp_cep q) (fun _ k' => kinv ∅ {[q := 1]} k' /\ exists v', k_qps k' !! q = Some v' /\
    qp_objs v' = qp_objs qv /\ kq_state v' = kq_state v /\ kq_cep v' = None) k.
Proof.
  intros I Hq Ho Hlive. destruct (kq_cep v) as [c|] eqn:Hc.
  - eapply (kwp_drop_other ∅ ∅ q); [exact I|exact Hq|exact Hc|done|by left|]. intros k1 k2 I2 _ _ Hq2.
    split; [done|]. by eexists.
  - unfold drop_qp_cep. apply kwp_bind. eapply kwp_get_kqp; [exact Hq|]. rewrite Hc. apply kwp_ret. split; [done|].
    by exists v.
Qed.

(** An established queue pair is closed. *)
Lemma leave_rts_ok st v k :
  kinv ∅ {[q := 1]} k -> k_qps k !! q = Some v -> qp_objs v = qp_objs qv -> kq_state v = SIW_QP_STATE_RTS ->
  kwp (set_qp_state q st;; siw_qp_cm_drop q false;; mret 0) (fun r k' => r = 0 /\ qp_in q qv st k') k.
Proof using Hscq.
  intros I Hq Ho Hst. destruct (kq_cep v) as [c|] eqn:Hc.
  - destruct (kinv_qp_cep _ _ _ _ _ _ I Hq Hc) as [u Hu].
    destruct (kinv_opened _ _ _ _ _ I (lookup_empty _) Hu) as (O & Hf & Huse & Hli & Hl & Hnw).
    pose proof (ki_back _ _ _ I q v c u Hq Hc Hu) as Hback.
    assert (Hcs : conn_state (cep_state u) \/ cep_state u = SIW_EPSTATE_CLOSED).
    { unfold cep_fields in Hf. unfold conn_state. destruct (cep_state u) eqn:Est; auto; try done; exfalso;
        eapply Hnw; eauto. }
    apply kwp_bind. unfold set_qp_state. eapply kwp_qp_state; [apply (op_inv _ _ _ _ _ _ O)|exact Hq|done|done|done| |].
    { intros d w Hd _ _ H1 _. assert (c <> d) by (intros ->; by rewrite lookup_insert_eq in Hd).
      rewrite Hst in H1. specialize (H1 eq_refl). congruence. }
    intros k1 I1 E1 Hq1. pose proof (opened_keepq _ _ _ _ _ _ _ _ _ _ O E1 I1) as O1. apply kwp_bind.
    eapply (cm_drop_ok q c (v <| kq_state := st |>)); [done|by apply objs_held| |exact O1|done..|exact Hq1].
    intros k2 rf I2 Hq2. apply kwp_ret. split; [done|]. split; [by eapply modify_close|]. by eexists.
  - apply kwp_bind. unfold set_qp_state. eapply kwp_qp_state; [exact I|exact Hq|done|done|done| |].
    { intros d w _ _ _ H1 _. rewrite Hst in H1. specialize (H1 eq_refl). congruence. }
    intros k1 I1 E1 Hq1. apply kwp_bind. unfold siw_qp_cm_drop. apply kwp_bind. eapply kwp_get_kqp; [exact Hq1|].
    simpl. rewrite Hc. apply kwp_ret, kwp_ret. split; [done|]. split; [by eapply modify_close|]. by eexists.
Qed.

Lemma to_error_ok v k :
  kinv ∅ {[q := 1]} k -> k_qps k !! q = Some v -> qp_objs v = qp_objs qv -> kq_state v <> SIW_QP_STATE_RTS ->
  kwp (set_qp_state q SIW_QP_STATE_ERROR;; drop_qp_cep q;; mret 0) (fun r k' => r = 0 /\ qp_in q qv SIW_QP_STATE_ERROR k') k.
Proof using Hscq.
  intros I Hq Ho Hst. apply kwp_bind. eapply set_state_ok; [exact I|exact Hq|done|done|]. intros k1 I1 Hq1.
  apply kwp_bind. eapply kwp_mono; [by eapply drop_dead_ok|]. intros [] k2 (I2 & v2 & Hq2 & Ho2 & Hs2 & _).
  apply kwp_ret. split; [done|]. split; [by eapply modify_close|]. by exists v2.
Qed.

Lemma set_state_kept st v k :
  kinv ∅ {[q := 1]} k -> k_qps k !! q = Some v -> qp_objs v = qp_objs qv -> kq_state v <> SIW_QP_STATE_RTS ->
  (qp_live st = true -> qp_live (kq_state v) = true) ->
  kwp (set_qp_state q st;; mret 0) (fun r k' => r = 0 /\ qp_in q qv st k') k.
Proof using Hscq.
  intros I Hq Ho Hst Hlive. apply kwp_bind. eapply set_state_ok; [exact I|exact Hq|done|done|]. intros k1 I1 Hq1.
  apply kwp_ret. split; [done|]. split; [by eapply modify_close|]. by eexists.
Qed.
End modify.

(** The connection parameters that would establish a queue pair are not given. *)
Lemma qp_change_state_ok q qv v attrs mask k :
  is_Some (kq_scq qv) -> Z.land mask init_to_rts_mask <> init_to_rts_mask ->
  kinv ∅ {[q := 1]} k -> k_qps k !! q = Some v -> qp_objs v = qp_objs qv ->
  kwp (qp_change_state q attrs mask) (fun r k' => let '(rv, st) := qp_next (kq_state v) (at_state attrs) in
    r = rv /\ qp_in q qv st k') k.
Proof.
  intros Hscq Hmask I Hq Ho. pose proof (modify_close q qv Hscq v k I Hq Ho) as G.
  assert (K : qp_in q qv (kq_state v) k) by (split; eauto).
  unfold qp_change_state. apply kwp_bind. eapply kwp_get_kqp; [exact Hq|].
  rewrite (proj2 (Z.eqb_neq (Z.land mask init_to_rts_mask) init_to_rts_mask)) by done. simpl negb. cbv iota.
  pose proof (to_error_ok q qv Hscq v k I Hq Ho) as Hto. pose proof (fun st => set_state_kept q qv Hscq st v k I Hq Ho) as Hset.
  pose proof (fun st => leave_rts_ok q qv Hscq st v k I Hq Ho) as Hrts.
  destruct (kq_state v) eqn:Est, (at_state attrs) eqn:Eat; cbn [qp_next];
    first [by apply kwp_ret | by apply Hto | by apply Hset | by apply Hrts].
Qed.

Lemma siw_qp_modify_ok q qv attrs mask k :
  kgood k -> k_qps k !! q = Some qv -> is_Some (kq_scq qv) -> Z.land mask init_to_rts_mask <> init_to_rts_mask ->
  kwp (siw_qp_modify q attrs mask) (fun r k' =>
    let '(rv, st) := if has mask SIW_QP_ATTR_STATE then qp_next (kq_state qv) (at_state attrs) else (0, kq_state qv) in
    r = rv /\ qp_in q qv st k') k.
Proof.
  intros I Hq Hscq Hmask. unfold siw_qp_modify. destruct (Z.eqb_spec mask 0) as [->|Hm0].
  { apply kwp_ret. split; [done|]. by split; eauto. }
  pose proof (kinv_openq _ _ _ _ _ I (lookup_empty q) Hq) as I0. rewrite (objs_held qv Hscq qv) in I0 by done. clear I.
  assert (Hgo : forall k1 v, kinv ∅ {[q := 1]} k1 -> k_qps k1 !! q = Some v -> qp_objs v = qp_objs qv ->
    kq_state v = kq_state qv -> kwp (if negb (has mask SIW_QP_ATTR_STATE) then mret 0 else qp_change_state q attrs mask)
      (fun r k' => let '(rv, st) := if has mask SIW_QP_ATTR_STATE then qp_next (kq_state qv) (at_state attrs)
                                    else (0, kq_state qv) in r = rv /\ qp_in q qv st k') k1).
  { intros k1 v I1 Hq1 Ho <-. destruct (has mask SIW_QP_ATTR_STATE); simpl; [by eapply qp_change_state_ok|].
    apply kwp_ret. split; [done|]. split; [by eapply (modify_close q qv)|eauto]. }
  apply kwp_bind. unfold when. destruct (_ && _); [|apply kwp_ret; by eapply Hgo].
  eapply kwp_upd_kqp; [exact I0|exact Hq|done..|]. intros k1 I1 _ _ Hq1. by eapply Hgo.
Qed.

(** ** [siw_ofed_modify_qp] *)

(** What a user's modify does: the state the code asks for, if any. *)
Definition user_modify_next (s : siw_qp_state) (st : nat) (attr_mask : Z) : Z * siw_qp_state :=
  match ib_qp_state_to_siw_qp_state !! st with
  | Some t => if has attr_mask IB_QP_STATE then qp_next s t else (0, s)
  | None => (0, s)
  end.

Lemma siw_ofed_modify_qp_in q qv access st attr_mask k :
  kgood k -> k_qps k !! q = Some qv -> is_Some (kq_scq qv) -> (st < 7)%nat ->
  kwp (siw_ofed_modify_qp q access st attr_mask) (fun r k' =>
    let '(rv, s) := user_modify_next (kq_state qv) st attr_mask in r = rv /\ qp_in q qv s k') k.
Proof.
  intros I Hq Hscq Hst. unfold siw_ofed_modify_qp, user_modify_next.
  destruct (lookup_lt_is_Some_2 ib_qp_state_to_siw_qp_state st) as [x Hx]; [done|]. rewrite Hx.
  destruct (has attr_mask IB_QP_STATE).
  - assert (Hu : x <> SIW_QP_STATE_UNDEF) by (intros ->; by do 7 (destruct st as [|st]; [done|])).
    rewrite bool_decide_false by done. destruct (has attr_mask IB_QP_ACCESS_FLAGS);
      (eapply kwp_mono; [by eapply siw_qp_modify_ok|done]).
  - destruct (has attr_mask IB_QP_ACCESS_FLAGS); (eapply kwp_mono; [by eapply siw_qp_modify_ok|done]).
Qed.

(** ** [siw_destroy_qp] *)

(** One reference to a completion queue less. *)
Record cq_less (a : nat) (cqs cqs' : gmap nat Z) (n n' : Z) : Prop := {
  cl_ref : forall c, default 0 (cqs' !! c) = default 0 (cqs !! c) - ind (Some a) c;
  cl_pos : forall c r, cqs' !! c = Some r -> 0 < r;
  cl_num : n' - Z.of_nat (size cqs') = n - Z.of_nat (size cqs);
  cl_dom : forall c, is_Some (cqs' !! c) -> is_Some (cqs !! c)
}.

Lemma kwp_cq_put a (Q : unit -> kstate -> Prop) k :
  0 < default 0 (k_cqs k !! a) -> (forall c r, k_cqs k !! c = Some r -> 0 < r) ->
  (forall cqs d, cq_less a (k_cqs k) cqs (num_cq (k_dev k)) (num_cq d) -> num_cep d = num_cep (k_dev k) ->
     num_qp d = num_qp (k_dev k) -> num_pd d = num_pd (k_dev k) -> Q tt (k <| k_cqs := cqs |> <| k_dev := d |>)) ->
  kwp (siw_cq_put a) Q k.
Proof.
  intros Ha Hpos HQ. unfold kwp, siw_cq_put. destruct (k_cqs k !! a) as [r|] eqn:Er; simpl in Ha; [|lia]. simpl.
  destruct (Z.eqb_spec r 1) as [->|Hr].
  - assert (H : Q tt (k <| k_cqs := delete a (k_cqs k) |> <| k_dev := k_dev k <| num_cq ::= fun n => n - 1 |> |>)); [|done].
    apply HQ; [|done..]. split.
    + intros c. destruct (decide (a = c)) as [<-|]; [rewrite lookup_delete_eq, Er, ind_eq; done|].
      rewrite lookup_delete_ne, ind_ne by done. lia.
    + intros c x Hc. apply lookup_delete_Some in Hc as [_ Hc]. eauto.
    + rewrite (size_delete_Z _ _ _ Er). simpl. lia.
    + intros c [x Hc]. apply lookup_delete_Some in Hc as [_ Hc]. by eexists.
  - assert (H : Q tt (k <| k_cqs := <[a := r - 1]> (k_cqs k) |> <| k_dev := k_dev k |>)); [|done].
    apply HQ; [|done..]. split.
    + intros c. destruct (decide (a = c)) as [<-|]; [rewrite lookup_insert_eq, Er, ind_eq; done|].
      rewrite lookup_insert_ne, ind_ne by done. lia.
    + intros c x. destruct (decide (a = c)) as [<-|]; [rewrite lookup_insert_eq|rewrite lookup_insert_ne by done; eauto].
      intros [= <-]. lia.
    + rewrite map_size_insert_Some by done. done.
    + intros c. destruct (decide (a = c)) as [<-|]; [by rewrite Er|by rewrite lookup_insert_ne].
Qed.

(** The queue pair gives up its objects. *)
Lemma objs_drop qps cqs cqs1 cqs2 idr pds q v a b r nq nc nc1 nc2 np :
  objs_ok qps cqs idr pds nq nc np -> qps !! q = Some v -> kq_scq v = Some a -> kq_rcq v = Some b ->
  cq_less a cqs cqs1 nc nc1 -> cq_less b cqs1 cqs2 nc1 nc2 -> pds !! kq_pd v = Some r ->
  objs_ok (<[q := v <| kq_scq := None |> <| kq_rcq := None |>]> qps) cqs2 idr (<[kq_pd v := r - 1]> pds) nq nc2 np.
Proof.
  intros [H1 H2 H3 H4 H5 H6 H7] Hq Ha Hb [A1 A2 A3 _] [B1 B2 B3 _] Hr. split; simpl.
  - intros c. rewrite B1, A1, H1, !(nrefs_insert _ _ _ v) by done. simpl. rewrite Ha, Hb, !ind_None. lia.
  - done.
  - intros p x. rewrite (nrefs_insert qp_pd _ _ v) by done. unfold qp_pd at 2 3. simpl. rewrite Ha, ind_None.
    destruct (decide (kq_pd v = p)) as [<-|Hne].
    + rewrite lookup_insert_eq. intros [= <-]. rewrite (H3 _ _ Hr), ind_eq. lia.
    + rewrite lookup_insert_ne by done. intros Hp. rewrite (H3 _ _ Hp), ind_ne by done. lia.
  - intros p u. destruct (decide (q = p)) as [<-|]; [rewrite lookup_insert_eq; intros [= <-]; by right|].
    rewrite lookup_insert_ne by done. intros Hp. destruct (H4 p u Hp) as [(? & ? & ?)|]; [left|by right].
    split_and!; auto. destruct (decide (kq_pd v = kq_pd u)) as [->|]; [rewrite lookup_insert_eq; by eexists|].
    by rewrite lookup_insert_ne.
  - rewrite H5, map_size_insert_Some; done.
  - lia.
  - rewrite H7, map_size_insert_Some; done.
Qed.

(** The end of [siw_destroy_qp]. *)
Lemma destroy_objs_ok q v k :
  kinv ∅ {[q := 1]} k -> k_qps k !! q = Some v -> is_Some (kq_scq v) -> kq_cep v = None ->
  qp_live (kq_state v) = false ->
  kwp (v ← get_kqp q;
       scq ← nonnull (kq_scq v);
       siw_cq_put scq;;
       rcq ← nonnull (kq_rcq v);
       siw_cq_put rcq;;
       siw_pd_put (kq_pd v);;
       upd_kqp q (fun v => v <| kq_scq := None |> <| kq_rcq := None |>);;
       siw_qp_put q;;
       mret 0) (fun _ => kgood) k.
Proof.
  intros I Hq [a Ha] Hc Hlive. pose proof (ki_objs _ _ _ I) as Ho.
  destruct (ob_qp _ _ _ _ _ _ _ Ho q v Hq) as [(_ & [b Hb] & [r Hr])|[? _]]; [|congruence].
  assert (Hcnt : forall c, 0 <= nrefs kq_scq (k_qps k) c /\ 0 <= nrefs kq_rcq (k_qps k) c) by (split; apply nrefs_nonneg).
  pose proof (nrefs_pos kq_scq _ _ _ _ Hq Ha). pose proof (nrefs_pos kq_rcq _ _ _ _ Hq Hb).
  pose proof (ob_cq _ _ _ _ _ _ _ Ho a) as Ra. pose proof (ob_cq _ _ _ _ _ _ _ Ho b) as Rb.
  destruct (Hcnt a), (Hcnt b).
  apply kwp_bind. eapply kwp_get_kqp; [exact Hq|]. apply kwp_bind. eapply kwp_nonnull; [exact Ha|].
  apply kwp_bind. eapply kwp_cq_put; [rewrite Ra; destruct (decide (a ∈ k_cq_idr k)); lia|apply Ho|]. intros cqs1 d1 L1 D1 D2 D3.
  apply kwp_bind. eapply kwp_nonnull; [exact Hb|].
  apply kwp_bind. eapply kwp_cq_put; simpl; [|apply L1|].
  { rewrite (cl_ref _ _ _ _ _ L1), Rb. destruct (decide (a = b)) as [<-|]; [rewrite ind_eq|rewrite ind_ne by done];
      [destruct (decide (a ∈ k_cq_idr k))|destruct (decide (b ∈ k_cq_idr k))]; lia. }
  intros cqs2 d2 L2 D4 D5 D6. pose proof (ob_pd _ _ _ _ _ _ _ Ho _ _ Hr) as Hrr.
  assert (0 < nrefs qp_pd (k_qps k) (kq_pd v)) by (eapply nrefs_pos; [exact Hq|unfold qp_pd; by rewrite Ha]).
  apply kwp_bind. unfold kwp at 1, siw_pd_put. simpl. rewrite Hr. simpl. rewrite (proj2 (Z.eqb_neq r 1)) by lia.
  apply kwp_bind. unfold kwp at 1, upd_kqp. simpl. rewrite Hq. simpl.
  set (w := v <| kq_scq := None |> <| kq_rcq := None |>).
  pose proof (objs_drop _ _ _ _ _ _ _ _ _ _ _ _ _ _ _ _ Ho Hq Ha Hb L1 L2 Hr) as Ho'.
  pose proof (ki_qpos _ _ _ I q v Hq).
  assert (I' : kinv ∅ {[q := 1]} (k <| k_qps ::= <[q := w]> |> <| k_cqs := cqs2 |> <| k_cq_idr := k_cq_idr k |>
    <| k_pds := <[kq_pd v := r - 1]> (k_pds k) |> <| k_dev := d2 |>)).
  { eapply (kinv_set_qp_objs ∅ ∅ {[q := 1]}); [exact I|exact Hq|done|..]; auto.
    - intros c. simpl. rewrite Hc, ind_None. lia.
    - intros c n. by rewrite lookup_empty.
    - apply (ki_qtoks _ _ _ I).
    - unfold qtoks. rewrite lookup_singleton_eq. simpl. lia.
    - intros d u _ Hu Hcq. destruct (ki_ok _ _ _ I d u (lookup_empty _) Hu) as [_ _ _ _ _ Hl _ _].
      destruct (Hl q v Hcq Hq) as [_ ?]. simpl. rewrite Hlive. split; [done|]. auto.
    - congruence.
    - rewrite D5, D2, D6, D3. exact Ho'.
    - intros n [Hn|Hn]; apply (ki_ofresh _ _ _ I); [left; by apply (cl_dom _ _ _ _ _ L1), (cl_dom _ _ _ _ _ L2)|right].
      destruct (decide (kq_pd v = n)) as [<-|]; [by rewrite Hr|by rewrite lookup_insert_ne in Hn]. }
  apply kwp_bind. eapply (kwp_qp_put ∅ ∅ q 1 w); [exact I'|apply lookup_insert_eq|done|by intros _|].
  intros k1 I1 _ _ Hq1. apply kwp_ret. eapply kinv_closeq; [exact I1|done|]. intros u Hu.
  destruct Hq1 as [[_ Hq1]|[_ Hq1]]; rewrite Hq1 in Hu; [done|]. by injection Hu as <-.
Qed.

Lemma siw_destroy_qp_ok q qv k :
  kgood k -> k_qps k !! q = Some qv -> is_Some (kq_scq qv) -> kwp (siw_destroy_qp q) (fun _ => kgood) k.
Proof.
  intros I Hq Hscq. pose proof (kinv_openq _ _ _ _ _ I (lookup_empty q) Hq) as I0. rewrite (objs_held qv Hscq qv) in I0 by done.
  unfold siw_destroy_qp. apply kwp_bind. eapply kwp_upd_kqp; [exact I0|exact Hq|done..|]. intros k1 I1 _ _ Hq1.
  match type of Hq1 with _ = Some ?w => set (qv1 := w) in * end.
  apply kwp_bind. eapply kwp_mono; [eapply (siw_qp_modify_ok q qv1)|]; [by eapply (modify_close q qv)|done..|].
  intros r k2 M. assert (exists st, qp_in q qv1 st k2 /\ qp_live st = false) as (st & (G2 & qv2 & Hq2 & Ho2 & Hs2) & Hl2).
  { simpl in M. destruct (kq_state qv); destruct M; eauto. }
  rewrite <- Hs2 in Hl2.
  pose proof (kinv_openq _ _ _ _ _ G2 (lookup_empty q) Hq2) as I2. rewrite (objs_held qv Hscq qv2) in I2 by done.
  apply kwp_bind. eapply kwp_mono; [eapply (drop_dead_ok q qv); eauto|].
  intros [] k3 (I3 & v3 & Hq3 & Ho3 & Hs3 & Hc3). eapply destroy_objs_ok; [exact I3|exact Hq3| |done|by rewrite Hs3].
  injection Ho3 as E _ _. by rewrite E.
Qed.
