(* ===== verification/Kobj.v ===== *)
(** * Reference counting: creating objects

    The verbs that create and destroy protection domains, completion queues
    and queue pairs keep the invariant of [Kref], and leave nothing behind when
    they fail. *)
From S2P Require Import Prelude Proto Kern Cm Kverbs Kref Kalloc Kstep Kconn Kclose.

(** ** States inside a creating verb *)

(** The verb has counted an object of the device that it has not created. *)
Definition counted (undo : siw_dev -> siw_dev) (k : kstate) : Prop := kgood (k <| k_dev ::= undo |>).

(** What the calls outside the module leave alone. *)
Record kcalled (k k' : kstate) : Prop := {
  kc_ceps : k_ceps k' = k_ceps k; kc_qps : k_qps k' = k_qps k; kc_ids : k_ids k' = k_ids k;
  kc_socks : k_socks k' = k_socks k; kc_works : k_works k' = k_works k; kc_file : k_file k' = k_file k;
  kc_dev : k_dev k' = k_dev k; kc_next : (k_next k <= k_next k')%nat;
  kc_cqs : k_cqs k' = k_cqs k; kc_idr : k_cq_idr k' = k_cq_idr k; kc_pds : k_pds k' = k_pds k
}.

Lemma kcalled_frame k k' cqs f :
  kcalled k k' -> kframe (k <| k_cqs := cqs |> <| k_dev ::= f |>) (k' <| k_cqs := cqs |> <| k_dev ::= f |>).
Proof. intros [? ? ? ? ? ? E ? ? ? ?]. split; simpl; auto. by rewrite E. Qed.

Lemma kwp_kerr_called (Q : Z -> kstate -> Prop) k :
  (forall r k', kcalled k k' -> r <= 0 -> Q r k') -> kwp kerr Q k.
Proof.
  intros HQ. unfold kerr. apply kwp_bind. unfold kwp at 1, kcall. destruct (k_rets k) as [|r rs].
  - apply kwp_ret, HQ; [by split|lia].
  - apply kwp_ret, HQ; [by split|lia].
Qed.

Lemma kcalled_trans k k' k'' : kcalled k k' -> kcalled k' k'' -> kcalled k k''.
Proof.
  intros [A1 A2 A3 A4 A5 A6 A7 A8 A9 A10 A11] [B1 B2 B3 B4 B5 B6 B7 B8 B9 B10 B11]. split; congruence || lia.
Qed.

Lemma kcalled_refl k : kcalled k k.
Proof. by split. Qed.

(** [siw_add_obj]: the number of a new object is not in use. *)
Lemma kwp_add_obj (Q : Z * option nat -> kstate -> Prop) k :
  (forall r k', r < 0 -> kcalled k k' -> Q (r, None) k') ->
  (forall n k', kcalled k k' -> (k_next k <= n < k_next k')%nat -> Q (0, Some n) k') -> kwp siw_add_obj Q k.
Proof.
  intros H1 H2. unfold siw_add_obj. apply kwp_bind, kwp_kerr_called. intros r k1 E1 _.
  destruct (Z.ltb_spec r 0); [by apply kwp_ret, H1|]. apply kwp_bind. unfold kwp at 1, fresh. apply kwp_ret, H2; simpl.
  - eapply kcalled_trans; [exact E1|]. split; simpl; auto.
  - pose proof (kc_next _ _ E1). lia.
Qed.

Lemma kgood_called k k' : kcalled k k' -> kgood k -> kgood k'.
Proof. intros E I. eapply kinv_frame; [exact I|]. by destruct E; split. Qed.

Lemma counted_called undo k k' : kcalled k k' -> counted undo k -> counted undo k'.
Proof. intros E I. eapply kinv_frame; [exact I|]. destruct E as [? ? ? ? ? ? Ed ? ? ? ?]. split; simpl; auto. by rewrite Ed. Qed.

(** The error path of a creating verb. *)
Lemma count_undo undo (rv : Z) k :
  counted undo k -> kwp (count undo;; mret (inl rv : Z + nat)) (fun _ => kgood) k.
Proof. intros I. unfold count. by apply kwp_bind, kwp_kmodify, kwp_ret. Qed.

(** ** New objects *)

Lemma nrefs_zero {A} (f : A -> option nat) (m : gmap nat A) c :
  (forall i v, m !! i = Some v -> f v <> Some c) -> nrefs f m c = 0.
Proof.
  intros H. unfold nrefs. assert (filter (fun p => f p.2 = Some c) m = ∅) as ->; [|by rewrite map_size_empty].
  apply map_empty. intros i. apply map_lookup_filter_None. right. intros v Hi Hf. by apply (H i v).
Qed.

Lemma objs_new_pd qps cqs idr pds nq nc np p :
  objs_ok qps cqs idr pds nq nc np -> pds !! p = None -> objs_ok qps cqs idr (<[p := 1]> pds) nq nc (np + 1).
Proof.
  intros [H1 H2 H3 H4 H5 H6 H7] Hp. split; auto.
  - intros n r. destruct (decide (p = n)) as [<-|]; [rewrite lookup_insert_eq|rewrite lookup_insert_ne by done; apply H3].
    intros [= <-]. rewrite nrefs_zero; [done|]. intros q v Hv Hpd. unfold qp_pd in Hpd.
    destruct (kq_scq v) eqn:Es; [|done]. injection Hpd as Hpd.
    destruct (H4 q v Hv) as [(_ & _ & [? Hx])|[? _]]; congruence.
  - intros q v Hv. destruct (H4 q v Hv) as [(? & ? & ?)|]; [left|by right]. split_and!; auto.
    destruct (decide (p = kq_pd v)) as [<-|]; [rewrite lookup_insert_eq; by eexists|by rewrite lookup_insert_ne].
  - rewrite map_size_insert_None by done. lia.
Qed.

Lemma objs_new_cq qps cqs idr pds nq nc np c :
  objs_ok qps cqs idr pds nq nc np -> cqs !! c = None ->
  objs_ok qps (<[c := 1]> cqs) ({[c]} ∪ idr) pds nq (nc + 1) np.
Proof.
  intros [H1 H2 H3 H4 H5 H6 H7] Hc. pose proof (H1 c) as Hz. rewrite Hc in Hz. simpl in Hz.
  pose proof (nrefs_nonneg kq_scq qps c). pose proof (nrefs_nonneg kq_rcq qps c).
  assert (c ∉ idr) as Hni by (intros Hi; rewrite decide_True in Hz by done; lia). rewrite decide_False in Hz by done.
  split; auto.
  - intros d. destruct (decide (c = d)) as [<-|Hne].
    + rewrite lookup_insert_eq, decide_True by set_solver. simpl. lia.
    + rewrite lookup_insert_ne, H1 by done. destruct (decide (d ∈ idr)); [rewrite decide_True|rewrite decide_False]; set_solver.
  - intros d r. destruct (decide (c = d)) as [<-|]; [rewrite lookup_insert_eq|rewrite lookup_insert_ne by done; apply H2].
    intros [= <-]. lia.
  - rewrite map_size_insert_None by done. lia.
Qed.

(** The counted object is created. *)
Lemma counted_objs undo k k' :
  counted undo k -> k_ceps k' = k_ceps k -> k_qps k' = k_qps k -> k_ids k' = k_ids k -> k_socks k' = k_socks k ->
  k_works k' = k_works k -> k_file k' = k_file k -> k_next k' = k_next k ->
  num_cep (k_dev k') = num_cep (undo (k_dev k)) ->
  objs_ok (k_qps k) (k_cqs k') (k_cq_idr k') (k_pds k') (num_qp (k_dev k')) (num_cq (k_dev k')) (num_pd (k_dev k')) ->
  (forall n, is_Some (k_cqs k' !! n) \/ is_Some (k_pds k' !! n) -> (n < k_next k)%nat) -> kgood k'.
Proof.
  intros C Ec Eq Ei Es Ew Ef En Ed Ho Hfr.
  pose proof (kinv_set_objs ∅ ∅ _ (k_cqs k') (k_cq_idr k') (k_pds k') (k_dev k') C Ed Ho Hfr) as K.
  eapply kinv_frame; [exact K|]. split; simpl; auto. lia.
Qed.

(** ** Protection domains *)

Lemma counted_new_pd k p :
  counted (update num_pd (fun n => n - 1)) k -> k_pds k !! p = None -> (p < k_next k)%nat ->
  kgood (k <| k_pds ::= <[p := 1]> |>).
Proof.
  intros C Hp Hlt. eapply counted_objs; [exact C|done..| |].
  - pose proof (objs_new_pd _ _ _ _ _ _ _ p (ki_objs _ _ _ C) Hp) as Ho. simpl in Ho.
    unfold update in Ho. simpl in Ho. by rewrite Z.sub_add in Ho.
  - simpl. intros n [Hn|Hn]; [apply (ki_ofresh _ _ _ C); by left|].
    destruct (decide (p = n)) as [<-|]; [done|]. rewrite lookup_insert_ne in Hn by done.
    apply (ki_ofresh _ _ _ C). by right.
Qed.

Lemma counted_intro k f undo : kgood k -> (forall d, undo (f d) = d) -> counted undo (k <| k_dev ::= f |>).
Proof. intros I H. eapply kinv_frame; [exact I|]. split; simpl; auto. Qed.

Lemma siw_alloc_pd_ok context k : kgood k -> kwp (siw_alloc_pd context) (fun _ => kgood) k.
Proof.
  intros I. unfold siw_alloc_pd. set (undo := update num_pd (fun n => n - 1)).
  unfold count at 2. apply kwp_bind, kwp_kmodify. set (k0 := k <| k_dev ::= update num_pd (fun n => n + 1) |>).
  assert (C0 : counted undo k0).
  { apply counted_intro; [done|]. intros d. destruct d. unfold update, undo. simpl. f_equal. lia. }
  assert (Herr : forall (rv : Z) k1, kcalled k0 k1 -> kwp (count undo;; mret (inl rv : Z + nat)) (fun _ => kgood) k1).
  { intros rv k1 E. apply count_undo. by eapply counted_called. }
  apply kwp_bind, kwp_gets. destruct (_ <? _); [apply Herr, kcalled_refl|].
  apply kwp_bind, kwp_kerr_called. intros r1 k1 E1 _. destruct (_ <? _); [by apply Herr|].
  apply kwp_bind, kwp_add_obj; [intros r k2 _ E2; apply Herr; by eapply kcalled_trans|].
  intros p k2 E2 Hp. pose proof (kcalled_trans _ _ _ E1 E2) as E. apply kwp_bind.
  assert (Hend : forall cp k3, kcalled k2 k3 -> kwp (if negb (cp =? 0) then count undo;; mret (inl (- EFAULT) : Z + nat) else
    kmodify (fun k => k <| k_pds ::= <[p := 1]> |>);; mret (inr p)) (fun _ => kgood) k3).
  { intros cp k3 E3. pose proof (kcalled_trans _ _ _ E E3) as E4. destruct (negb _); [by apply Herr|].
    apply kwp_bind, kwp_kmodify, kwp_ret. apply counted_new_pd; [by eapply counted_called| |].
    - rewrite (kc_pds _ _ E4). simpl. destruct (k_pds k !! p) eqn:Ep; [|done].
      assert (p < k_next k)%nat by (apply (ki_ofresh _ _ _ I); right; by eexists). pose proof (kc_next _ _ E1). simpl in *. lia.
    - pose proof (kc_next _ _ E3). lia. }
  destruct context; [apply kwp_kerr_called; intros cp k3 E3 _; by apply Hend|apply kwp_ret; by apply Hend, kcalled_refl].
Qed.

(** No queue pair uses the protection domain; the verbs core keeps count. *)
Definition pd_unused (k : kstate) (p : nat) : Prop :=
  is_Some (k_pds k !! p) /\ forall q v, k_qps k !! q = Some v -> qp_pd v <> Some p.

Lemma siw_dealloc_pd_ok p k : kgood k -> pd_unused k p -> kwp (siw_dealloc_pd p) (fun _ => kgood) k.
Proof.
  intros I [[r Hr] Hun]. destruct (ki_objs _ _ _ I) as [H1 H2 H3 H4 H5 H6 H7].
  assert (r = 1) as -> by (rewrite (H3 p r Hr), nrefs_zero; done).
  unfold siw_dealloc_pd, siw_pd_put. apply kwp_bind. unfold kwp at 1. rewrite Hr. simpl.
  apply kwp_ret. eapply (counted_objs (fun d => d)); [eapply kinv_frame; [exact I|by split]|done..| |].
  - split; auto; simpl.
    + intros n x Hn. apply lookup_delete_Some in Hn as [_ Hn]. auto.
    + intros q v Hq. destruct (H4 q v Hq) as [([a Ha] & ? & ?)|]; [left|by right]. split_and!; [by eexists|done|].
      rewrite lookup_delete_ne; [done|]. intros ->. apply (Hun q v Hq). unfold qp_pd. by rewrite Ha.
    + rewrite (size_delete_Z _ _ _ Hr). lia.
  - simpl. intros n [Hn|[x Hn]]; apply (ki_ofresh _ _ _ I); [by left|].
    apply lookup_delete_Some in Hn as [_ Hn]. right. by eexists.
Qed.

(** ** Completion queues *)

Lemma counted_new_cq k c :
  counted (update num_cq (fun n => n - 1)) k -> k_cqs k !! c = None -> (c < k_next k)%nat ->
  kgood (k <| k_cqs ::= <[c := 1]> |> <| k_cq_idr ::= union {[c]} |>).
Proof.
  intros C Hc Hlt. eapply counted_objs; [exact C|done..| |].
  - pose proof (objs_new_cq _ _ _ _ _ _ _ c (ki_objs _ _ _ C) Hc) as Ho. simpl in Ho.
    unfold update in Ho. simpl in Ho. by rewrite Z.sub_add in Ho.
  - simpl. intros n [Hn|Hn]; [|apply (ki_ofresh _ _ _ C); by right].
    destruct (decide (c = n)) as [<-|]; [done|]. rewrite lookup_insert_ne in Hn by done.
    apply (ki_ofresh _ _ _ C). by left.
Qed.

Lemma do_siw_create_cq_ok cqe context k : kgood k -> kwp (do_siw_create_cq cqe context) (fun _ => kgood) k.
Proof.
  intros I. unfold do_siw_create_cq. set (undo := update num_cq (fun n => n - 1)).
  unfold count at 2. apply kwp_bind, kwp_kmodify. set (k0 := k <| k_dev ::= update num_cq (fun n => n + 1) |>).
  assert (C0 : counted undo k0).
  { apply counted_intro; [done|]. intros d. destruct d. unfold update, undo. simpl. f_equal. lia. }
  assert (Herr : forall (rv : Z) k1, kcalled k0 k1 -> kwp (count undo;; mret (inl rv : Z + nat)) (fun _ => kgood) k1).
  { intros rv k1 E. apply count_undo. by eapply counted_called. }
  apply kwp_bind, kwp_gets. destruct (_ <? _); [apply Herr, kcalled_refl|].
  destruct (_ <? _); [apply Herr, kcalled_refl|].
  apply kwp_bind, kwp_kerr_called. intros r1 k1 E1 _. destruct (_ <? _); [by apply Herr|].
  destruct (negb _); [by apply Herr|].
  apply kwp_bind, kwp_add_obj; [intros r k2 _ E2; apply Herr; by eapply kcalled_trans|].
  intros c k2 E2 Hc. pose proof (kcalled_trans _ _ _ E1 E2) as E.
  apply kwp_bind, kwp_kerr_called. intros r3 k3 E3 _. pose proof (kcalled_trans _ _ _ E E3) as E4.
  destruct (negb _); [by apply Herr|].
  apply kwp_bind, kwp_kmodify, kwp_ret. apply counted_new_cq; [by eapply counted_called| |].
  - rewrite (kc_cqs _ _ E4). simpl. destruct (k_cqs k !! c) eqn:Ec; [|done].
    assert (c < k_next k)%nat by (apply (ki_ofresh _ _ _ I); left; by eexists). pose proof (kc_next _ _ E1). simpl in *. lia.
  - pose proof (kc_next _ _ E3). lia.
Qed.

Lemma siw_destroy_cq_ok c k : kgood k -> c ∈ k_cq_idr k -> kwp (siw_destroy_cq c) (fun _ => kgood) k.
Proof.
  intros I Hc. destruct (ki_objs _ _ _ I) as [H1 H2 H3 H4 H5 H6 H7]. pose proof (H1 c) as Hr.
  rewrite decide_True in Hr by done. pose proof (nrefs_nonneg kq_scq (k_qps k) c). pose proof (nrefs_nonneg kq_rcq (k_qps k) c).
  unfold siw_destroy_cq. apply kwp_bind, kwp_kmodify, kwp_bind. eapply kwp_cq_put; simpl; [lia|exact H2|].
  intros cqs d L D1 D2 D3. apply kwp_ret.
  eapply (counted_objs (fun d => d)); [eapply kinv_frame; [exact I|by split]|done..|exact D1| |].
  - simpl. rewrite D2, D3. destruct L as [L1 L2 L3 L4]. split; auto; [|lia]. intros a. rewrite L1, H1.
    destruct (decide (c = a)) as [<-|].
    + rewrite ind_eq, decide_True, decide_False by set_solver. lia.
    + rewrite ind_ne by done. destruct (decide (a ∈ k_cq_idr k)); [rewrite decide_True|rewrite decide_False]; set_solver by lia.
  - simpl. intros n [Hn|Hn]; apply (ki_ofresh _ _ _ I); [left; by apply (cl_dom _ _ _ _ _ L)|by right].
Qed.

(** A lookup of a completion queue, and the reference it took. *)
Lemma siw_event_file_write_ok ctx stk buf k :
  kgood k -> kwp (siw_event_file_write ctx stk buf) (fun _ => kgood) k.
Proof.
  intros I. unfold siw_event_file_write. destruct (_ <? _)%nat; [by apply kwp_ret|].
  apply kwp_bind, kwp_kerr_called. intros r k1 E1 _. pose proof (kgood_called _ _ E1 I) as I1.
  destruct (_ <? _); [by apply kwp_ret|]. destruct (negb _); [by apply kwp_ret|].
  destruct (_ =? _); [|by apply kwp_ret]. destruct (negb _); [by apply kwp_ret|].
  apply kwp_bind. set (c := Z.to_nat _). unfold kwp at 1, siw_cq_id2obj. case_decide as Hc; [|by apply kwp_ret].
  destruct (ki_objs _ _ _ I1) as [H1 H2 H3 H4 H5 H6 H7]. pose proof (H1 c) as Hr. rewrite decide_True in Hr by done.
  pose proof (nrefs_nonneg kq_scq (k_qps k1) c). pose proof (nrefs_nonneg kq_rcq (k_qps k1) c).
  destruct (k_cqs k1 !! c) as [x|] eqn:Ex; simpl in Hr; [|lia]. simpl.
  apply kwp_bind. unfold kwp at 1, siw_cq_put. simpl. rewrite lookup_insert_eq. simpl.
  rewrite (proj2 (Z.eqb_neq (x + 1) 1)) by lia. apply kwp_ret. eapply kinv_frame; [exact I1|]. split; simpl; auto.
  rewrite insert_insert_eq, Z.add_simpl_r. by apply insert_id.
Qed.

(** ** Queue pairs *)

Lemma objs_new_qp qps cqs cqs' idr pds nq nc np q v a b r :
  objs_ok qps cqs idr pds nq nc np -> qps !! q = None -> kq_scq v = Some a -> kq_rcq v = Some b ->
  pds !! kq_pd v = Some r ->
  (forall c, cqs' !! c = (fun x => x + occ [b; a] c) <$> cqs !! c) ->
  (forall x, x ∈ [b; a] -> is_Some (cqs !! x)) ->
  objs_ok (<[q := v]> qps) cqs' idr (<[kq_pd v := r + 1]> pds) (nq + 1) nc np.
Proof.
  intros [H1 H2 H3 H4 H5 H6 H7] Hq Ha Hb Hr Hc Hin. split; auto.
  - intros c. rewrite !nrefs_fresh, Ha, Hb, Hc by done. specialize (H1 c).
    assert (occ [b; a] c = ind (Some b) c + ind (Some a) c) as Ho by (rewrite !occ_cons, occ_nil; lia).
    destruct (cqs !! c) as [x|] eqn:Ex; simpl in *; [rewrite Ho; lia|].
    assert (c <> a) by (intros ->; destruct (Hin a) as [? ?]; [right; left|congruence]).
    assert (c <> b) by (intros ->; destruct (Hin b) as [? ?]; [left|congruence]).
    rewrite !ind_ne by done. lia.
  - intros c x. rewrite Hc. destruct (cqs !! c) as [y|] eqn:Ey; simpl; [|done]. intros [= <-].
    pose proof (H2 c y Ey). pose proof (occ_nonneg [b; a] c). lia.
  - intros p x. rewrite nrefs_fresh by done. unfold qp_pd at 2. rewrite Ha.
    destruct (decide (kq_pd v = p)) as [<-|Hne].
    + rewrite lookup_insert_eq, ind_eq. intros [= <-]. rewrite (H3 _ _ Hr). lia.
    + rewrite lookup_insert_ne, ind_ne by done. intros Hp. rewrite (H3 _ _ Hp). lia.
  - intros p u. assert (Hpd : forall n, is_Some (pds !! n) -> is_Some (<[kq_pd v := r + 1]> pds !! n)).
    { intros n Hn. destruct (decide (kq_pd v = n)) as [<-|]; [rewrite lookup_insert_eq; by eexists|by rewrite lookup_insert_ne]. }
    destruct (decide (q = p)) as [<-|]; [rewrite lookup_insert_eq|rewrite lookup_insert_ne by done].
    + intros [= <-]. left. rewrite Ha, Hb. split_and!; [by eexists..|]. apply Hpd. by eexists.
    + intros Hp. destruct (H4 p u Hp) as [(? & ? & ?)|]; [left|by right]. split_and!; auto.
  - rewrite map_size_insert_None by done. lia.
  - rewrite H6. f_equal. rewrite <- !size_dom. f_equal. apply leibniz_equiv, set_equiv. intros c.
    rewrite !elem_of_dom, Hc. by rewrite fmap_is_Some.
  - rewrite map_size_insert_Some; done.
Qed.

(** The new queue pair: it is idle, and its user has the reference. *)
Lemma kinv_new_qp k q v cqs pds d :
  kgood k -> k_qps k !! q = None -> (q < k_next k)%nat -> kq_ref v = 1 -> kq_cep v = None -> is_Some (kq_scq v) ->
  num_cep d = num_cep (k_dev k) ->
  objs_ok (<[q := v]> (k_qps k)) cqs (k_cq_idr k) pds (num_qp d) (num_cq d) (num_pd d) ->
  (forall n, is_Some (cqs !! n) \/ is_Some (pds !! n) -> (n < k_next k)%nat) ->
  kgood (k <| k_qps ::= <[q := v]> |> <| k_cqs := cqs |> <| k_pds := pds |> <| k_dev := d |>).
Proof.
  intros I Hq Hlt Hr Hc [a Ha] Hd Ho Hfr. assert (Hcq : forall c u, k_ceps k !! c = Some u -> cep_qp u <> Some q).
  { intros c u Hu Hcq. destruct (kinv_cep_qp _ _ _ _ _ _ I Hu Hcq). congruence. }
  destruct I. split; simpl; try done.
  - intros c. rewrite ki_ref. unfold uses, file_ceps. simpl. rewrite nrefs_fresh, Hc, ind_None by done. lia.
  - intros p. specialize (ki_qref p). unfold qtoks in *. rewrite lookup_empty in *. destruct (decide (q = p)) as [<-|].
    + rewrite lookup_insert_eq, nrefs_zero by eauto. simpl. unfold qheld. by rewrite Hr, Ha.
    + by rewrite lookup_insert_ne.
  - intros p u. destruct (decide (q = p)) as [<-|]; [rewrite lookup_insert_eq; intros [= <-]; lia|].
    rewrite lookup_insert_ne by done. apply ki_qpos.
  - intros c u _ Hu. destruct (ki_ok c u (lookup_empty _) Hu) as [? ? ? ? ? Hl ? Hn]. split; try done.
    + intros p pv Hp. simpl. destruct (decide (q = p)) as [<-|]; [by destruct (Hcq c u Hu)|].
      rewrite lookup_insert_ne by done. by apply Hl.
    + intros Hst p pv. simpl. destruct (decide (q = p)) as [<-|]; [rewrite lookup_insert_eq; intros [= <-]; congruence|].
      rewrite lookup_insert_ne by done. by apply Hn.
  - intros p [u Hp]. destruct (decide (q = p)) as [<-|]; [done|]. rewrite lookup_insert_ne in Hp by done.
    apply ki_qfresh. by eexists.
  - congruence.
  - intros p pv c u. destruct (decide (q = p)) as [<-|]; [rewrite lookup_insert_eq; intros [= <-]; congruence|].
    rewrite lookup_insert_ne by done. apply ki_back.
Qed.

Section create_qp.
Context (k0 : kstate) (G0 : kgood k0).
Implicit Types (k : kstate) (l : list nat).

(** The call started in [k0], has counted a queue pair and holds references to
    the completion queues of [l]. *)
Definition pending l k : Prop :=
  kcalled k0 (k <| k_cqs := k_cqs k0 |> <| k_dev ::= update num_qp (fun n => n - 1) |>) /\
  (forall c, k_cqs k !! c = (fun r => r + occ l c) <$> k_cqs k0 !! c) /\ (forall a, a ∈ l -> is_Some (k_cqs k0 !! a)).

(** What the call leaves: nothing when it fails, and otherwise a new queue pair
    that is idle. *)
Definition created (a b pd : nat) (r : Z + nat) (k' : kstate) : Prop :=
  kgood k' /\
  match r with
  | inl rv => rv < 0 /\ kcalled k0 k'
  | inr q => k_qps k0 !! q = None /\ exists v, k_qps k' = <[q := v]> (k_qps k0) /\ kq_ref v = 1 /\ kq_cep v = None /\
      kq_state v = SIW_QP_STATE_IDLE /\ kq_scq v = Some a /\ kq_rcq v = Some b /\ kq_pd v = pd
  end.

Lemma pending_called l k k' : kcalled k k' -> pending l k -> pending l k'.
Proof.
  intros E (I & H1 & H2). split_and!; [|by intros c; rewrite (kc_cqs _ _ E)|done].
  eapply kcalled_trans; [exact I|]. destruct E as [? ? ? ? ? ? Ed ? ? ? ?]. split; simpl; auto. by rewrite Ed.
Qed.

Lemma pending_start : pending [] (k0 <| k_dev ::= update num_qp (fun n => n + 1) |>).
Proof.
  split_and!.
  - split; simpl; auto. destruct (k_dev k0). unfold update. simpl. f_equal. lia.
  - intros c. simpl. destruct (k_cqs k0 !! c); simpl; [|done]. f_equal. rewrite occ_nil. lia.
  - by intros a ?%elem_of_nil.
Qed.

Lemma pending_end a b pd (rv : Z) k :
  rv < 0 -> pending [] k -> kwp (count (update num_qp (fun n => n - 1));; mret (inl rv : Z + nat)) (created a b pd) k.
Proof using G0.
  intros Hrv (I & H1 & _). unfold count. apply kwp_bind, kwp_kmodify, kwp_ret.
  assert (E : kcalled k0 (k <| k_dev ::= update num_qp (fun n => n - 1) |>)); [|split; [by eapply kgood_called|done]].
  destruct I. split; simpl in *; auto.
  apply map_eq. intros c. rewrite H1. destruct (k_cqs k0 !! c); simpl; [|done]. f_equal. rewrite occ_nil. lia.
Qed.

Lemma pending_get l a (Q : option nat -> kstate -> Prop) k :
  pending l k -> Q None k ->
  (forall k', pending (a :: l) k' -> k_pds k' = k_pds k -> k_qps k' = k_qps k -> k_next k' = k_next k -> Q (Some a) k') ->
  kwp (siw_cq_id2obj a) Q k.
Proof using G0.
  intros (I & H1 & H2) Hn Hs. unfold kwp, siw_cq_id2obj. case_decide as Ha; [|done].
  pose proof (kc_idr _ _ I) as Ei. simpl in Ei. rewrite Ei in Ha.
  pose proof (ob_cq _ _ _ _ _ _ _ (ki_objs _ _ _ G0) a) as Hr. rewrite decide_True in Hr by done.
  pose proof (nrefs_nonneg kq_scq (k_qps k0) a). pose proof (nrefs_nonneg kq_rcq (k_qps k0) a).
  destruct (k_cqs k0 !! a) as [x|] eqn:Ex; simpl in Hr; [|lia]. rewrite H1, Ex. simpl. apply Hs; [|done..].
  split_and!.
  - destruct I. by split.
  - intros c. simpl. rewrite occ_cons. destruct (decide (a = c)) as [<-|].
    + rewrite lookup_insert_eq, Ex, ind_eq. simpl. f_equal. lia.
    + rewrite lookup_insert_ne, H1, ind_ne by done. destruct (k_cqs k0 !! c); simpl; [|done]. f_equal.
  - intros b [->|Hb]%elem_of_cons; [by rewrite Ex|auto].
Qed.

Lemma pending_put l a (Q : unit -> kstate -> Prop) k :
  pending (a :: l) k -> (forall k', pending l k' -> Q tt k') -> kwp (siw_cq_put a) Q k.
Proof using G0.
  intros (I & H1 & H2) HQ. destruct (H2 a) as [x Hx]; [left|].
  pose proof (ob_cqpos _ _ _ _ _ _ _ (ki_objs _ _ _ G0) a x Hx). pose proof (occ_nonneg l a).
  unfold kwp, siw_cq_put. rewrite H1, Hx. simpl. rewrite occ_cons, ind_eq.
  rewrite (proj2 (Z.eqb_neq (x + (1 + occ l a)) 1)) by lia. apply HQ. split_and!.
  - destruct I. by split.
  - intros c. simpl. destruct (decide (a = c)) as [<-|].
    + rewrite lookup_insert_eq, Hx. simpl. f_equal. lia.
    + rewrite lookup_insert_ne, H1, occ_cons, ind_ne by done. destruct (k_cqs k0 !! c); simpl; [|done]. f_equal.
  - intros b Hb. apply H2. by right.
Qed.

Lemma pending_swap l l' k : pending (l ++ l') k -> pending (l' ++ l) k.
Proof.
  intros (I & H1 & H2). split_and!; [done| |].
  - intros c. rewrite H1, !occ_app. destruct (k_cqs k0 !! c); simpl; [|done]. f_equal. lia.
  - intros x Hx. apply H2. revert Hx. rewrite !elem_of_app. tauto.
Qed.

Lemma pending_put_opt l o (Q : unit -> kstate -> Prop) k :
  pending (option_list o ++ l) k -> (forall k', pending l k' -> Q tt k') -> kwp (put_cq_opt o) Q k.
Proof using G0.
  intros P HQ. destruct o as [a|]; [by apply (pending_put l a)|]. by apply kwp_ret, HQ.
Qed.

Lemma pending_err a b pd (scq rcq : option nat) (rv : Z) k :
  rv < 0 -> pending (option_list rcq ++ option_list scq) k ->
  kwp (put_cq_opt scq;; put_cq_opt rcq;; count (update num_qp (fun n => n - 1));; mret (inl rv : Z + nat)) (created a b pd) k.
Proof using G0.
  intros Hrv P%pending_swap. apply kwp_bind. eapply pending_put_opt; [exact P|]. intros k1 P1. apply kwp_bind.
  eapply (pending_put_opt []); [by rewrite app_nil_r|]. intros k2 P2. by apply pending_end.
Qed.

(** The success path of [siw_create_qp]. *)
Lemma pending_done q v a b r k :
  pending [b; a] k -> k_qps k0 !! q = None -> (q < k_next k)%nat -> kq_ref v = 1 -> kq_cep v = None ->
  kq_state v = SIW_QP_STATE_IDLE -> kq_scq v = Some a -> kq_rcq v = Some b -> k_pds k0 !! kq_pd v = Some r ->
  kwp (kmodify (fun k => k <| k_qps ::= <[q := v]> |>);; siw_pd_get (kq_pd v);; mret (inr q : Z + nat))
    (created a b (kq_pd v)) k.
Proof using G0.
  intros (E & H1 & H2) Hq Hlt Hr Hc Hst Ha Hb Hpd. pose proof (kgood_called _ _ E G0) as I.
  pose proof (kc_pds _ _ E) as Epd. pose proof (kc_qps _ _ E) as Eqp. simpl in Epd, Eqp. rewrite <- Epd in Hpd. rewrite <- Eqp in Hq.
  apply kwp_bind, kwp_kmodify, kwp_bind. unfold kwp at 1, siw_pd_get. simpl. rewrite Hpd. simpl. apply kwp_ret.
  split; [|split; [by rewrite <- Eqp|exists v; simpl; rewrite Eqp; by split_and!]].
  pose proof (objs_new_qp _ _ _ _ _ _ _ _ q v a b r (ki_objs _ _ _ I) Hq Ha Hb Hpd H1 H2) as Ho. simpl in Ho.
  pose proof (kinv_new_qp _ q v (k_cqs k) (<[kq_pd v := r + 1]> (k_pds k)) (k_dev k) I Hq Hlt Hr Hc) as K.
  eapply kinv_frame; [apply K|by split]; simpl; auto.
  - unfold update in Ho. simpl in Ho. by rewrite Z.sub_add in Ho.
  - intros n [Hn|Hn]; apply (ki_ofresh _ _ _ I); simpl; [left; rewrite H1 in Hn; by rewrite fmap_is_Some in Hn|right].
    destruct (decide (kq_pd v = n)) as [<-|]; [by rewrite Hpd|by rewrite lookup_insert_ne in Hn].
Qed.

Lemma siw_create_qp_created pd attrs udata :
  is_Some (k_pds k0 !! pd) ->
  kwp (siw_create_qp true pd attrs udata) (created (qi_send_cq attrs) (qi_recv_cq attrs) pd) k0.
Proof using G0.
  intros [r Hr]. unfold siw_create_qp. set (a := qi_send_cq attrs). set (b := qi_recv_cq attrs).
  cbn [negb]. cbv iota. unfold count at 2. apply kwp_bind, kwp_kmodify. pose proof pending_start as P0.
  set (k := k0 <| k_dev ::= _ |>) in *. apply kwp_bind, kwp_gets.
  destruct (_ <? _); [by apply (pending_err _ _ _ None None)|]. destruct (negb _); [by apply (pending_err _ _ _ None None)|].
  destruct (qi_srq attrs); [by apply (pending_err _ _ _ None None)|].
  apply kwp_bind. eapply (pending_get []); [exact P0| |].
  { apply kwp_bind. eapply (pending_get []); [exact P0|by apply (pending_err _ _ _ None None)|].
    intros k1 P1 _ _ _. by apply (pending_err _ _ _ None (Some _)). }
  intros k1 P1 Ep1 Eq1 En1. apply kwp_bind.
  eapply (pending_get [a]); [exact P1|by apply (pending_err _ _ _ (Some a) None)|].
  intros k2 P2 Ep2 Eq2 En2.
  assert (Herr : forall (rv : Z) k3, rv < 0 -> kcalled k2 k3 -> kwp (put_cq_opt (Some a);; put_cq_opt (Some b);;
    count (update num_qp (fun n => n - 1));; mret (inl rv : Z + nat)) (created a b pd) k3).
  { intros rv k3 Hrv E3. apply pending_err; [done|]. by eapply pending_called. }
  apply kwp_bind, kwp_kerr_called. intros m k3 E3 _. destruct (_ <? _); [by apply Herr|].
  apply kwp_bind, kwp_add_obj; [intros rv k4 Hrv E4; apply Herr; [done|by eapply kcalled_trans]|].
  intros q k4 E4 Hq. pose proof (kcalled_trans _ _ _ E3 E4) as E.
  assert (Hdone : forall v k5, kcalled k4 k5 -> kq_ref v = 1 -> kq_cep v = None -> kq_state v = SIW_QP_STATE_IDLE ->
    kq_scq v = Some a -> kq_rcq v = Some b -> kq_pd v = pd ->
    kwp (kmodify (fun k => k <| k_qps ::= <[q := v]> |>);; siw_pd_get pd;; mret (inr q : Z + nat)) (created a b pd) k5).
  { intros v k5 E5 Hr5 Hc5 Hs5 Ha5 Hb5 <-. pose proof (kcalled_trans _ _ _ E E5) as E6.
    eapply pending_done; [by eapply pending_called| |pose proof (kc_next _ _ E5); lia|done..].
    destruct (k_qps k0 !! q) eqn:Eq; [|done].
    assert (q < k_next k0)%nat by (apply (ki_qfresh _ _ _ G0); by eexists). pose proof (kc_next _ _ E3).
    rewrite En2, En1 in *. simpl in *. lia. }
  destruct udata as [u|]; [|by apply Hdone; [apply kcalled_refl|..]].
  apply kwp_bind, kwp_kerr_called. intros r5 k5 E5 H5.
  destruct (Z.eqb_spec r5 0) as [_|]; cbn [negb]; [|apply Herr; [lia|by eapply kcalled_trans]].
  apply kwp_bind, kwp_kerr_called. intros r6 k6 E6 H6. pose proof (kcalled_trans _ _ _ E5 E6).
  destruct (Z.eqb_spec r6 0) as [_|]; cbn [negb]; [|apply Herr; [lia|by eapply kcalled_trans]]. by apply Hdone.
Qed.
End create_qp.

Lemma siw_create_qp_ok user pd attrs udata k :
  kgood k -> is_Some (k_pds k !! pd) -> kwp (siw_create_qp user pd attrs udata) (fun _ => kgood) k.
Proof.
  intros I Hr. destruct user; [|by apply kwp_ret]. eapply kwp_mono; [by apply siw_create_qp_created|]. by intros r k' [G _].
Qed.
