(* ===== verification/Klisten.v ===== *)
(** * Reference counting: listeners

    [siw_create_listen] and [siw_destroy_listen] keep the invariant of [Kref],
    whatever the calls outside the module return. *)
From S2P Require Import Prelude Proto Kern Cm Kverbs Kref Kalloc Kstep Kconn.

(** ** The listeners of an id *)

Definition prov_list (p : provider) : list nat := match p with PListen l => l | _ => [] end.

Lemma listeners_set k i iv p j :
  k_ids k !! i = Some iv ->
  listeners (k <| k_ids ::= <[i := iv <| id_provider := p |>]> |>) j =
  if decide (i = j) then prov_list p else listeners k j.
Proof.
  intros Hi. unfold listeners. simpl. case_decide as E; [subst j; by rewrite lookup_insert_eq|by rewrite lookup_insert_ne].
Qed.

Lemma kinv_set_prov X Y k i iv p :
  kinv X Y k -> k_ids k !! i = Some iv -> NoDup (prov_list p) ->
  (forall c, c ∈ prov_list p -> is_Some (k_ceps k !! c)) ->
  (forall c, X !! c = None -> c ∈ prov_list p -> c ∈ listeners k i) ->
  kinv X Y (k <| k_ids ::= <[i := iv <| id_provider := p |>]> |>).
Proof.
  intros I Hi Hnd Hex Hin. pose proof (listeners_set k i iv p) as HL. destruct I. split; simpl; try done.
  - intros j u. destruct (decide (i = j)) as [<-|]; [rewrite lookup_insert_eq|rewrite lookup_insert_ne by done; apply ki_idref].
    intros [= <-]. simpl. by apply ki_idref.
  - intros c v j Hc Hj. destruct (decide (i = j)) as [<-|]; [rewrite lookup_insert_eq; by eexists|].
    rewrite lookup_insert_ne by done. eauto.
  - intros c v HX Hc. destruct (ki_ok c v HX Hc) as [? ? ? ? ? ? Hp ?]. split; try done.
    intros j. rewrite HL by done. case_decide as E; [subst j|apply Hp]. intros Hj. by apply Hp, Hin.
  - intros j c. rewrite HL by done. case_decide; [apply Hex|apply ki_listen].
  - intros j. rewrite HL by done. case_decide; [done|apply ki_listnd].
Qed.

Lemma kwp_upd_id i f iv (Q : unit -> kstate -> Prop) k :
  k_ids k !! i = Some iv -> Q tt (k <| k_ids ::= <[i := f iv]> |>) -> kwp (upd_id i f) Q k.
Proof. intros Hi HQ. unfold kwp, upd_id. by rewrite Hi. Qed.

(** The ids keep what they stand for. *)
Definition same_prov (k k' : kstate) : Prop :=
  forall i, id_provider <$> k_ids k' !! i = id_provider <$> k_ids k !! i.

Lemma same_prov_refl k : same_prov k k.
Proof. done. Qed.
Lemma same_prov_trans k k' k'' : same_prov k k' -> same_prov k' k'' -> same_prov k k''.
Proof. intros H1 H2 i. by rewrite H2, H1. Qed.
Lemma same_prov_keepb c k k' : keepb c k k' -> same_prov k k'.
Proof. intros E i. apply (kp_ids _ _ _ E). Qed.
Lemma same_prov_keep c k k' : keep c k k' -> same_prov k k'.
Proof. intros E. apply (same_prov_keepb c). by apply keep_b. Qed.
Lemma same_prov_keepa k k' : keepa k k' -> same_prov k k'.
Proof. intros [_ E]. by apply (same_prov_keep O). Qed.
Lemma same_prov_ids k k' : k_ids k' = k_ids k -> same_prov k k'.
Proof. intros E i. by rewrite E. Qed.

(** Follows the calls made from [k] to [k']. *)
Ltac prov_chain :=
  repeat match goal with
  | |- same_prov ?k ?k => apply same_prov_refl
  | E : keep _ ?k _ |- same_prov ?k _ => apply (same_prov_trans _ _ _ (same_prov_keep _ _ _ E)); clear E
  | E : keepb _ ?k _ |- same_prov ?k _ => apply (same_prov_trans _ _ _ (same_prov_keepb _ _ _ E)); clear E
  | E : keepa ?k _ |- same_prov ?k _ => apply (same_prov_trans _ _ _ (same_prov_keepa _ _ E)); clear E
  | E : same_prov ?k _ |- same_prov ?k _ => apply (same_prov_trans _ _ _ E); clear E
  end.

(** ** Dropping listeners *)

Lemma drop_listener_ok c v k :
  kgood k -> k_ceps k !! c = Some v -> cep_state v = SIW_EPSTATE_LISTENING -> unlisted k c ->
  kwp (drop_listener c) (fun _ k' => kgood k' /\ same_prov k k') k.
Proof.
  intros I Hc Hst Hun. destruct (kinv_opened _ _ _ _ _ I (lookup_empty _) Hc) as (O & Hf & Huse & Hli & _ & _).
  unfold cep_fields in Hf. rewrite Hst in Hf. destruct Hf as ([i Hid] & [s Hso] & Hqp & Htm).
  unfold held in O. rewrite Hid in O. clear I. unfold drop_listener, siw_cep_set_inuse, siw_cep_set_free, set_state.
  do 2 apply kwp_bind. eapply kwp_get_cep; [exact Hc|]. rewrite Huse. kupd O. intros k1 O1 E1. clear O. kmove E1.
  apply kwp_bind. eapply op_drop_cm_id; [exact O1|done|]. intros k2 O2 E2. clear O1. kmove E2.
  apply kwp_bind. eapply kwp_get_cep; [apply O2|]. simpl. rewrite Hso.
  apply kwp_bind. eapply op_release_sock; [exact O2|by eexists|lia|]. intros k3 rf O3 E3. clear O2. kmove E3.
  apply kwp_bind. kupd O3. intros k4 O4 E4. clear O3. kmove E4.
  apply kwp_bind. kupd O4. intros k5 O5 E5. clear O4. kmove E5.
  eapply op_put_close; [exact O5|done|done|done|done|done| |by intros [|]|].
  - simpl. rewrite Hqp. by intros ? ?.
  - intros k6 I6 E6. split; [done|]. prov_chain.
Qed.

Lemma drop_listeners_ok i l : forall k iv,
  kgood k -> k_ids k !! i = Some iv -> id_provider iv = PListen l ->
  kwp (drop_listeners i l) (fun _ k' => kgood k' /\ exists iv', k_ids k' !! i = Some iv' /\ id_provider iv' = PListen []) k.
Proof.
  induction l as [|c l IH]; intros k iv I Hi Hp; simpl; [by apply kwp_ret; eauto|].
  assert (Hl : listeners k i = c :: l) by (unfold listeners; by rewrite Hi, Hp).
  destruct (ki_listen _ _ _ I i c) as [v Hc]; [rewrite Hl; left|].
  destruct (ki_ok _ _ _ I c v (lookup_empty _) Hc) as [_ _ _ _ _ _ Hpr _].
  destruct (Hpr i) as [Hst Hid]; [rewrite Hl; left|].
  pose proof (ki_listnd _ _ _ I i) as Hnd. rewrite Hl in Hnd. apply NoDup_cons in Hnd as [Hcl Hnd].
  assert (I1 : kgood (k <| k_ids ::= <[i := iv <| id_provider := PListen l |>]> |>)).
  { apply kinv_set_prov; auto; simpl; rewrite ?Hl.
    - intros d Hd. apply (ki_listen _ _ _ I i). rewrite Hl. by right.
    - intros d _ Hd. by right. }
  apply kwp_bind. eapply kwp_upd_id; [exact Hi|]. apply kwp_bind. eapply kwp_mono; [eapply drop_listener_ok; [exact I1|exact Hc|done|]|].
  - intros j Hj. change (c ∈ listeners (k <| k_ids ::= <[i := iv <| id_provider := PListen l |>]> |>) j) in Hj.
    rewrite listeners_set in Hj by done. case_decide as E; [done|].
    destruct (Hpr j Hj) as [_ Hj']. congruence.
  - intros [] k2 [I2 E2]. specialize (E2 i). simpl in E2. rewrite lookup_insert_eq in E2. simpl in E2.
    destruct (k_ids k2 !! i) as [iv2|] eqn:Hi2; simpl in E2; [|done]. injection E2 as E2. by eapply IH.
Qed.

Lemma siw_drop_listeners_ok i iv l k :
  kgood k -> k_ids k !! i = Some iv -> id_provider iv = PListen l ->
  kwp (siw_drop_listeners i) (fun _ k' => kgood k' /\ exists iv', k_ids k' !! i = Some iv' /\ id_provider iv' = PListen []) k.
Proof.
  intros I Hi Hp. unfold siw_drop_listeners. apply kwp_bind. eapply kwp_get_id; [exact Hi|]. rewrite Hp.
  by eapply drop_listeners_ok.
Qed.

(** An id that does not stand for a request. *)
Definition listen_id (k : kstate) (i : nat) : Prop :=
  exists iv, k_ids k !! i = Some iv /\ forall c, id_provider iv <> PCep c.

Lemma siw_destroy_listen_ok i k : kgood k -> listen_id k i -> kwp (siw_destroy_listen i) (fun _ => kgood) k.
Proof.
  intros I (iv & Hi & Hp). unfold siw_destroy_listen. apply kwp_bind. eapply kwp_get_id; [exact Hi|].
  destruct (id_provider iv) as [|l|c] eqn:Ep; [by apply kwp_ret| |by destruct (Hp c)].
  apply kwp_bind. eapply kwp_mono; [by eapply siw_drop_listeners_ok|]. intros [] k1 (I1 & iv1 & Hi1 & Hp1).
  apply kwp_bind. eapply kwp_upd_id; [exact Hi1|]. apply kwp_ret. apply kinv_set_prov; auto; simpl.
  - apply NoDup_nil_2.
  - by intros c ?%elem_of_nil.
  - by intros c _ ?%elem_of_nil.
Qed.

(** ** Listening on an address *)

(** Code that does not look at the sockets. *)
Definition sock_indep {A} (m : KM A) : Prop := forall g k,
  m (k <| k_socks ::= g |>) = match m k with Ok (a, k') => Ok (a, k' <| k_socks ::= g |>) | Fault e => Fault e end.

Lemma sock_indep_bind {A B} (m : KM A) (f : A -> KM B) :
  sock_indep m -> (forall a, sock_indep (f a)) -> sock_indep (m ≫= f).
Proof.
  intros Hm Hf g k. unfold mbind, KM_bind. rewrite Hm. destruct (m k) as [[a k']|]; [|done]. apply Hf.
Qed.

Lemma sock_indep_upd_cep c f : sock_indep (upd_cep c f).
Proof. intros g k. unfold upd_cep. simpl. by destruct (k_ceps k !! c). Qed.

Lemma sock_indep_cep_put c : sock_indep (siw_cep_put c).
Proof. intros g k. apply cep_put_socks. Qed.

Create HintDb ksock discriminated.
#[export] Hint Resolve sock_indep_bind sock_indep_upd_cep sock_indep_cep_put : ksock.

Lemma sock_indep_socks {A} (m : KM A) k a k' : sock_indep m -> m k = Ok (a, k') -> k_socks k' = k_socks k.
Proof.
  intros Hm E. specialize (Hm (fun _ => k_socks k) k). rewrite E in Hm.
  assert (k <| k_socks ::= fun _ => k_socks k |> = k) as Ek by (by destruct k). rewrite Ek, E in Hm.
  injection Hm as Hm. rewrite Hm. done.
Qed.

(** A socket is released after code that does not look at it. *)
Lemma release_after {A} (m : KM unit) s sv (r : A) (Q : A -> kstate -> Prop) k :
  sock_indep m -> k_socks k !! s = Some sv -> kwp m (fun _ => Q r) (k <| k_socks ::= delete s |>) ->
  kwp (m;; sock_release s;; mret r) Q k.
Proof.
  intros Hm Hs H. unfold kwp in *. rewrite Hm in H. unfold mbind, KM_bind, sock_release, get_sock, mbind, KM_bind, kmodify.
  destruct (m k) as [[[] k']|] eqn:E; [|done]. by rewrite (sock_indep_socks m k tt k' Hm E), Hs.
Qed.

Lemma kwp_assoc {A B C} (m : KM A) (f : A -> KM B) (g : B -> KM C) (Q : C -> kstate -> Prop) k :
  kwp ((m ≫= f) ≫= g) Q k -> kwp (m ≫= fun a => f a ≫= g) Q k.
Proof. unfold kwp, mbind, KM_bind. by destruct (m k) as [[a k']|]. Qed.

Lemma kwp_flat {A B C} (m : KM A) (f : A -> KM B) (g : B -> KM C) (Q : C -> kstate -> Prop) k :
  kwp (m ≫= fun a => f a ≫= g) Q k -> kwp ((m ≫= f) ≫= g) Q k.
Proof. unfold kwp, mbind, KM_bind. by destruct (m k) as [[a k']|]. Qed.

(** The new endpoint of a listener. *)
Record newlisten (c s : nat) (v : siw_cep) (k : kstate) : Prop := {
  nl_inv : kinv (<[c := 1]> ∅) ∅ k;
  nl_cep : k_ceps k !! c = Some v;
  nl_sock : cep_sock v = Some s;
  nl_ok : sock_ok k c (Some s);
  nl_timer : timer_ok k c None;
  nl_unl : unlisted k c;
  nl_unk : unlinked k c;
  nl_core : cep_qp v = None /\ cep_timer v = None /\ cep_listen_cep v = None /\ cep_in_use v = false
}.

Lemma newlisten_keep c s v w k k' :
  newlisten c s v k -> keep c k k' -> kinv (<[c := 1]> ∅) ∅ k' -> k_ceps k' !! c = Some w -> cep_sock w = Some s ->
  cep_qp w = None /\ cep_timer w = None /\ cep_listen_cep w = None /\ cep_in_use w = false -> newlisten c s w k'.
Proof. intros [I Hc Hso Hok Ht Hun Huk Hco] E I' Hc' Hso' Hco'. kmove E. by split. Qed.

Lemma listen_error_ok c s v (rv : Z) k :
  newlisten c s v k -> kwp (listen_error c s rv) (fun _ k' => kgood k' /\ same_prov k k') k.
Proof.
  intros [I Hc Hso Hok Ht Hun Huk (Hqp & Htm & Hli & Huse)].
  assert (O : opened ∅ ∅ c 1 k v) by (split; auto; [by rewrite Hso|by rewrite Htm|by apply unlisted_prov]).
  unfold listen_error, siw_cep_set_inuse. clear I. do 2 apply kwp_bind. eapply kwp_get_cep; [exact Hc|]. rewrite Huse.
  kupd O. intros k1 O1 E1. clear O. kmove E1.
  apply kwp_bind. eapply op_drop_cm_id; [exact O1|done|]. intros k2 O2 E2. clear O1. kmove E2.
  destruct (O2) as [I2 Hc2 _ _ _]. apply kwp_bind. eapply kwp_upd_cep; [exact I2|exact Hc2|done..|].
  intros k3 I3 E3 Hc3. clear O2. kmove E3. destruct (Hok s eq_refl) as (sv & Hsv & Hu).
  unfold siw_socket_disassoc. apply kwp_flat, kwp_bind. eapply kwp_get_sock; [exact Hsv|]. rewrite Hu.
  unfold set_state, siw_cep_set_free. do 3 apply kwp_assoc.
  eapply release_after; [auto 10 with ksock|exact Hsv|].
  assert (I4 : kinv (<[c := 2]> ∅) ∅ (k3 <| k_socks ::= delete s |>)).
  { apply (kinv_set_socks (<[c := 1]> ∅)); [exact I3|..].
    - intros d. pose proof (nrefs_delete ks_user _ _ _ d Hsv) as E. rewrite Hu in E. unfold toks.
      destruct (decide (c = d)) as [<-|]; [rewrite !lookup_insert_eq, ind_eq in *|rewrite !lookup_insert_ne, ind_ne in * by done]; lia.
    - intros d. destruct (decide (c = d)) as [<-|]; [by rewrite lookup_insert_eq|by rewrite !lookup_insert_ne].
    - intros d m. destruct (decide (c = d)) as [<-|]; [rewrite lookup_insert_eq; by intros [= <-]|by rewrite lookup_insert_ne].
    - intros d o Hd Ho s' ->. destruct (Ho s' eq_refl) as (sv' & Hs' & Hu'). exists sv'. split; [|done]. simpl.
      rewrite lookup_delete_ne; [done|]. intros <-. rewrite Hs' in Hsv. injection Hsv as <-. rewrite Hu in Hu'.
      injection Hu' as <-. by rewrite lookup_insert_eq in Hd.
    - intros s' [u Hs']. apply lookup_delete_Some in Hs' as [_ Hs']. apply (ki_sfresh _ _ _ I3). by eexists. }
  match type of Hc3 with _ = Some ?w => assert (O4 : opened ∅ ∅ c 2 (k3 <| k_socks ::= delete s |>) w) end.
  { split; auto; simpl; [done|by rewrite Htm|by apply unlisted_prov]. }
  assert (Hun4 : unlisted (k3 <| k_socks ::= delete s |>) c) by done. set (k4 := k3 <| k_socks ::= delete s |>) in *.
  do 2 apply kwp_flat. apply kwp_bind. eapply op_put_keep; [exact O4|lia|]. intros k5 O5 E5. clear O4. kmove E5.
  apply kwp_bind. kupd O5. intros k6 O6 E6. clear O5. kmove E6.
  apply kwp_bind. kupd O6. intros k7 O7 E7. clear O6. kmove E7.
  eapply op_put_close; [exact O7|done|done|done|done|done| |by intros [|]|].
  - simpl. rewrite Hqp. by intros ? ?.
  - intros k8 I8 E8. split; [done|]. assert (same_prov k3 k4) by (by apply same_prov_ids).
    prov_chain.
Qed.

Lemma listen_id_prov k k' i : same_prov k k' -> listen_id k i -> listen_id k' i.
Proof.
  intros E (iv & Hi & Hp). specialize (E i). rewrite Hi in E. simpl in E.
  destruct (k_ids k' !! i) as [iv'|] eqn:Hi'; simpl in E; [|done]. injection E as E. exists iv'. by rewrite E.
Qed.

(** The endpoint joins the listeners of its id. *)
Lemma listen_add_ok i c s v iv l k :
  newlisten c s v k -> cep_cm_id v = Some i -> k_ids k !! i = Some iv -> listeners k i = l ->
  kwp (upd_id i (fun v => v <| id_provider := PListen (l ++ [c]) |>);; set_state c SIW_EPSTATE_LISTENING;; mret 0)
    (fun _ k' => kgood k' /\ listen_id k' i) k.
Proof.
  intros [I Hc Hso Hok Ht Hun Huk (Hqp & Htm & Hli & Huse)] Hid Hi Hl.
  apply kwp_bind. eapply kwp_upd_id; [exact Hi|]. set (p := PListen (l ++ [c])).
  set (k1 := k <| k_ids ::= <[i := iv <| id_provider := p |>]> |>).
  assert (I1 : kinv (<[c := 1]> ∅) ∅ k1).
  { apply kinv_set_prov; auto; simpl.
    - apply NoDup_app. rewrite <- Hl. split_and!; [apply (ki_listnd _ _ _ I)| |apply NoDup_singleton].
      intros d Hd ->%list_elem_of_singleton. by eapply Hun.
    - intros d [Hd| ->%list_elem_of_singleton]%elem_of_app; [|by eexists]. apply (ki_listen _ _ _ I i). by rewrite Hl.
    - intros d Hd [Hd'| ->%list_elem_of_singleton]%elem_of_app; [by rewrite Hl|]. by rewrite lookup_insert_eq in Hd. }
  unfold set_state. apply kwp_bind. eapply kwp_upd_cep; [exact I1|exact Hc|done..|]. intros k2 I2 E2 Hc2.
  assert (Hp2 : prov_ok k2 c SIW_EPSTATE_LISTENING (Some i)).
  { intros j. rewrite (keepb_listeners c k1) by (by apply keep_b). unfold k1. rewrite listeners_set by done.
    case_decide as E; [by subst j|]. intros Hj. by destruct (Hun j). }
  assert (Hi1 : listen_id k1 i) by (exists (iv <| id_provider := p |>); unfold k1; simpl; by rewrite lookup_insert_eq).
  assert (sock_ok k1 c (Some s)) by exact Hok. assert (timer_ok k1 c None) by exact Ht.
  assert (unlinked k1 c) by exact Huk. kmove E2. apply kwp_ret.
  split; [|eapply listen_id_prov; [by eapply same_prov_keep|done]].
  eapply (opened_close ∅ ∅ c 1); [split; [exact I2|exact Hc2|..]|done|..]; simpl; try done.
  - by rewrite Hso.
  - by rewrite Htm.
  - by rewrite Hid.
  - by rewrite Hqp.
  - by intros _.
  - unfold held. simpl. by rewrite Hid.
Qed.

Lemma siw_listen_address_ok i backlog laddr k :
  kgood k -> listen_id k i -> kwp (siw_listen_address i backlog laddr) (fun _ k' => kgood k' /\ listen_id k' i) k.
Proof.
  intros I Hli. unfold siw_listen_address. apply kwp_bind, kwp_gets. destruct (negb _); [by apply kwp_ret|].
  assert (Hend : forall k', kgood k' -> same_prov k k' -> kgood k' /\ listen_id k' i) by eauto using listen_id_prov.
  assert (Hrel : forall s (rv : Z) k', kgood k' -> same_prov k k' -> sock_free k' s ->
    kwp (sock_release s;; mret rv) (fun _ k' => kgood k' /\ listen_id k' i) k').
  { intros s rv k' I' E' Hs. apply kwp_bind. eapply kwp_sock_release; [done..|]. intros k2 I2 E2 _. apply kwp_ret, Hend; [done|].
    eapply same_prov_trans; [exact E'|]. apply same_prov_ids. by destruct E2. }
  apply kwp_bind. eapply kwp_sock_create; [exact I|right; intros r k1 I1 E1 _; apply kwp_ret, Hend; [done|prov_chain]|].
  intros s k1 I1 E1 Hs1. pose proof (keepa_at _ _ O E1) as K1.
  apply kwp_bind. eapply kwp_kerr_all; [exact I1|]. intros r2 k2 I2 E2 _ _. pose proof (keepa_at _ _ O E2) as K2. kmove K2.
  destruct (negb (r2 =? 0)); [apply Hrel; [done|prov_chain|done]|].
  apply kwp_bind. eapply kwp_bind_local; [exact I2|exact Hs1|]. intros r3 k3 I3 E3 _. pose proof (keepa_at _ _ O E3) as K3. kmove K3.
  destruct (negb (r3 =? 0)); [apply Hrel; [done|prov_chain|done]|]. clear K1 K2 K3.
  apply kwp_bind. eapply kwp_cep_alloc; [exact I3|by intros d [z Hz]|right|].
  { intros k4 I4 E4. pose proof (keepa_at _ _ O E4) as K4. kmove K4. clear K4. apply Hrel; [done|prov_chain|done]. }
  intros c k4 dv I4 _ E4 Hc4 Hfr Ht4 Hun4. pose proof (new_unlinked _ _ _ _ I3 (lookup_empty _) Hfr) as Huk. kmove E4.
  assert (E04 : same_prov k k4) by prov_chain. clear E1 E2 E3 E4.
  unfold siw_cep_socket_assoc. do 2 apply kwp_bind. eapply kwp_upd_cep; [exact I4|exact Hc4|done..|]. intros k5 I5 E5 Hc5. kmove E5.
  apply kwp_bind. eapply kwp_cep_get; [exact I5|exact Hc5|]. intros k6 I6 E6 Hc6. kmove E6.
  eapply kwp_set_user; [exact I6|exact Hs1|lia|done|]. intros k7 I7 E7 Hs7 _.
  assert (E67 : same_prov k6 k7) by (apply same_prov_ids; by destruct E7). kmove E7.
  apply kwp_bind. eapply kwp_alloc_work; [exact I7|exact Hc6|]. intros r8 k8 fl I8 E8 Hc8 _ _. kmove E8.
  assert (E08 : same_prov k k8) by prov_chain. clear E04 E5 E6 E67 E8.
  match type of Hc8 with _ = Some ?w => assert (N8 : newlisten c s w k8) by (by split) end.
  destruct (negb (r8 =? 0)).
  { eapply kwp_mono; [by eapply listen_error_ok|]. intros rv k9 [I9 E9]. apply Hend; [done|prov_chain]. }
  destruct (listen_id_prov _ _ _ E08 Hli) as (iv & Hi & Hp). apply kwp_bind. eapply kwp_get_id; [exact Hi|].
  eapply (kwp_set_cm_id ∅ ∅ c i 1); [| | | |exact I8|exact Hc8|by eexists|]; [done..|]. intros k9 I9 E9 Hc9.
  pose proof (newlisten_keep c s _ _ _ _ N8 E9 I9 Hc9 eq_refl ltac:(by split_and!)) as N9. clear N8.
  pose proof (kp_ids _ _ _ (keep_b _ _ _ E9) i) as Ei9. rewrite Hi in Ei9. simpl in Ei9.
  destruct (k_ids k9 !! i) as [iv9|] eqn:Hi9; simpl in Ei9; [|done]. injection Ei9 as Ei9.
  destruct (id_provider iv) as [|l|d] eqn:Ep; [| |by destruct (Hp d)].
  - apply kwp_bind. eapply (kwp_kerr _ _ c); [exact I9|]. intros r10 k10 I10 E10 Hc10 _ _. rewrite Hc9 in Hc10.
    pose proof (newlisten_keep c s _ _ _ _ N9 E10 I10 Hc10 eq_refl ltac:(by split_and!)) as N10. clear N9.
    destruct (_ <? _).
    { eapply kwp_mono; [by eapply listen_error_ok|]. intros rv k11 [I11 E11]. apply Hend; [done|prov_chain]. }
    pose proof (kp_ids _ _ _ (keep_b _ _ _ E10) i) as Ei10. rewrite Hi9 in Ei10. simpl in Ei10.
    destruct (k_ids k10 !! i) as [iv10|] eqn:Hi10; simpl in Ei10; [|done]. injection Ei10 as Ei10.
    eapply (listen_add_ok i c s _ _ []); [exact N10|done|exact Hi10|]. unfold listeners. by rewrite Hi10, Ei10, Ei9.
  - eapply (listen_add_ok i c s _ _ l); [exact N9|done|exact Hi9|]. unfold listeners. by rewrite Hi9, Ei9.
Qed.

Lemma listen_addresses_ok i backlog laddr l k :
  kgood k -> listen_id k i -> kwp (listen_addresses i backlog laddr l) (fun _ k' => kgood k' /\ listen_id k' i) k.
Proof.
  revert k. induction l as [|a l IH]; intros k I Hi; simpl; [by apply kwp_ret|]. destruct (_ || _); [|by apply IH].
  apply kwp_bind. eapply kwp_mono; [by apply siw_listen_address_ok|]. intros rv k1 [I1 Hi1].
  destruct (negb _); [by apply kwp_ret|by apply IH].
Qed.

Lemma siw_create_listen_ok i backlog k : kgood k -> listen_id k i -> kwp (siw_create_listen i backlog) (fun _ => kgood) k.
Proof.
  intros I Hi. unfold siw_create_listen. apply kwp_bind, kwp_gets. destruct (negb _); [by apply kwp_ret|].
  pose proof Hi as (iv & Hiv & _). apply kwp_bind. eapply kwp_get_id; [exact Hiv|]. destruct (negb _); [by apply kwp_ret|].
  destruct (sd_in_dev _) as [l|]; [|by apply kwp_ret].
  apply kwp_bind. eapply kwp_mono; [by apply listen_addresses_ok|]. intros rv k1 (I1 & iv1 & Hi1 & Hp1).
  apply kwp_bind. eapply kwp_get_id; [exact Hi1|]. unfold when. destruct (negb _); [|by apply kwp_bind, kwp_ret, kwp_ret].
  destruct (id_provider iv1) as [|m|d] eqn:Ep; [by apply kwp_bind, kwp_ret, kwp_ret| |by destruct (Hp1 d)].
  apply kwp_bind. eapply kwp_mono; [by eapply siw_drop_listeners_ok|]. intros [] k2 [I2 _]. by apply kwp_ret.
Qed.
