(* ===== verification/Kprops.v ===== *)
(** * Safety of the kernel module

    The calls of the module, as its environment makes them: the connection
    manager, the network, the work queue, the verbs, and the daemon on the
    character device.  From the state of a loaded module, any sequence of the
    calls of [allowed] runs without a fault, and keeps the references of every
    object exact. *)
From S2P Require Import Prelude Proto Kern Cm Kverbs Kref Kalloc Kstep Kconn Kaccept Kchar Kclose Kobj Klisten.

(** ** Calls *)

Inductive kop :=
| KNewId (i : nat) (v : iw_cm_id)
| KFreeId (i : nat)
| KDeliver (s : nat) (from : sockaddr_in) (data : bytes)
| KWork (n : nat)
| KConnect (i : nat) (params : iw_cm_conn_param)
| KAccept (i : nat) (params : iw_cm_conn_param)
| KReject (i : nat) (pdata : bytes)
| KListen (i backlog : nat)
| KUnlisten (i : nat)
| KAllocPd (context : bool)
| KDeallocPd (p : nat)
| KCreateCq (cqe : Z) (context : bool)
| KDestroyCq (c : nat)
| KCreateQp (user : bool) (pd : nat) (attrs : ib_qp_init_attr) (udata : option urdma_udata_create_qp)
| KModifyQp (q : nat) (access : Z) (st : nat) (attr_mask : Z)
| KDestroyQp (q : nat)
| KEventWrite (ctx : bool) (stk buf : bytes)
| KRead (nonblock : bool) (cnt : nat) (route : Z) (n : option (bool * bytes))
| KWrite (stk buf : bytes)
| KPoll
| KRelease
| KGetQp (q : nat).

Definition run {A} (m : KM A) : KM unit := _ ← m; mret tt.

(** A call, with the results of the calls that it makes outside the module. *)
Definition exec (rets : list Z) (o : kop) : KM unit :=
  kmodify (fun k => k <| k_rets := rets |>);;
  match o with
  | KNewId i v => kmodify (fun k => k <| k_ids ::= <[i := v]> |>)
  | KFreeId i => kmodify (fun k => k <| k_ids ::= delete i |>)
  | KDeliver s from data => deliver s from data
  | KWork n => run_work n
  | KConnect i params => run (siw_connect i params)
  | KAccept i params => run (siw_accept i params)
  | KReject i pdata => run (siw_reject i pdata)
  | KListen i backlog => run (siw_create_listen i backlog)
  | KUnlisten i => run (siw_destroy_listen i)
  | KAllocPd context => run (siw_alloc_pd context)
  | KDeallocPd p => run (siw_dealloc_pd p)
  | KCreateCq cqe context => run (do_siw_create_cq cqe context)
  | KDestroyCq c => run (siw_destroy_cq c)
  | KCreateQp user pd attrs udata => run (siw_create_qp user pd attrs udata)
  | KModifyQp q access st attr_mask => run (siw_ofed_modify_qp q access st attr_mask)
  | KDestroyQp q => run (siw_destroy_qp q)
  | KEventWrite ctx stk buf => run (siw_event_file_write ctx stk buf)
  | KRead nonblock cnt route n => run (urdma_chardev_read nonblock cnt route n)
  | KWrite stk buf => run (urdma_chardev_write stk buf)
  | KPoll => run urdma_chardev_poll
  | KRelease => run urdma_chardev_release
  | KGetQp q => run (siw_get_ofaqp q)
  end.

(** A new id has no listeners; it may carry the endpoint of a request. *)
Definition new_id (v : iw_cm_id) : Prop := id_ref v = 0 /\ forall l, id_provider v <> PListen l.
(** The connection manager frees an id that nothing refers to. *)
Definition unused_id (k : kstate) (i : nat) : Prop :=
  exists v, k_ids k !! i = Some v /\ id_ref v = 0 /\ listeners k i = [].
(** A queue pair that its user has not destroyed. *)
Definition user_qp (k : kstate) (q : nat) : Prop := exists v, k_qps k !! q = Some v /\ is_Some (kq_scq v).

(** What the callers of the module guarantee: they name objects that exist,
    and
    - the active side of a connection is set up with a fresh queue pair, and
      the calls of [siw_connect] outside the module succeed;
    - a request is accepted with a fresh queue pair that exists;
    - the daemon reads and writes the character device while the connections
      on its lists still have their queue pairs, and does not wait for ever. *)
Definition allowed (k : kstate) (rets : list Z) (o : kop) : Prop :=
  match o with
  | KNewId i v => k_ids k !! i = None /\ new_id v
  | KFreeId i => unused_id k i
  | KDeliver s _ _ => is_Some (k_socks k !! s)
  | KConnect i params => is_Some (k_ids k !! i) /\ qp_free k (cp_qpn params) /\ Forall (Z.le 0) rets
  | KAccept i params =>
      (exists c, request_id k i c) /\ is_Some (k_qps k !! cp_qpn params) /\ qp_free k (cp_qpn params)
  | KReject i _ => exists c, request_id k i c
  | KListen i _ | KUnlisten i => listen_id k i
  | KDeallocPd p => pd_unused k p
  | KDestroyCq c => c ∈ k_cq_idr k
  | KCreateQp _ pd _ _ => is_Some (k_pds k !! pd)
  | KModifyQp q _ st _ => user_qp k q /\ (st < 7)%nat
  | KDestroyQp q => user_qp k q
  | KRead nonblock _ _ _ =>
      listed_conns k /\ (nonblock = true \/ exists f, k_file k = Some f /\ established_list f <> [])
  | KWrite _ _ => listed_conns k
  | KWork _ | KAllocPd _ | KCreateCq _ _ | KEventWrite _ _ _ | KPoll | KRelease | KGetQp _ => True
  end.

(** ** Ids of the connection manager *)

(** The table of ids changes, but not the listeners. *)
Lemma kinv_set_ids X Y k ids :
  kinv X Y k -> (forall i, listeners (k <| k_ids := ids |>) i = listeners k i) ->
  (forall i v, ids !! i = Some v -> id_ref v = nrefs cep_cm_id (k_ceps k) i) ->
  (forall c v i, k_ceps k !! c = Some v -> cep_cm_id v = Some i -> is_Some (ids !! i)) ->
  kinv X Y (k <| k_ids := ids |>).
Proof.
  intros I HL Href Hid. destruct I. split; simpl; try done.
  - intros c v HX Hc. destruct (ki_ok c v HX Hc) as [? ? ? ? ? ? Hp ?]. split; try done.
    intros j. rewrite HL. apply Hp.
  - intros j c. rewrite HL. apply ki_listen.
  - intros j. rewrite HL. apply ki_listnd.
Qed.

Lemma new_id_ok i v k : kgood k -> k_ids k !! i = None -> new_id v -> kgood (k <| k_ids ::= <[i := v]> |>).
Proof.
  intros I Hi [Hv Hp]. apply (kinv_set_ids ∅ ∅ k (<[i := v]> (k_ids k)) I).
  - intros j. unfold listeners. simpl. destruct (decide (i = j)) as [<-|]; [|by rewrite lookup_insert_ne].
    rewrite lookup_insert_eq, Hi. destruct (id_provider v) as [|l|d]; [done|by destruct (Hp l)|done].
  - intros j u. destruct (decide (i = j)) as [<-|]; [rewrite lookup_insert_eq|rewrite lookup_insert_ne by done; apply (ki_idref _ _ _ I)].
    intros [= <-]. rewrite Hv, nrefs_zero; [done|]. intros c w Hc Hid. destruct (ki_id _ _ _ I c w i Hc Hid) as [? E]. congruence.
  - intros c w j Hc Hid. apply lookup_insert_is_Some. destruct (decide (i = j)); [by left|right]. split; [done|].
    by eapply (ki_id _ _ _ I).
Qed.

Lemma free_id_ok i k : kgood k -> unused_id k i -> kgood (k <| k_ids ::= delete i |>).
Proof.
  intros I (v & Hi & Hv & Hl). apply (kinv_set_ids ∅ ∅ k (delete i (k_ids k)) I).
  - intros j. destruct (decide (i = j)) as [<-|]; [rewrite Hl|]; unfold listeners; simpl.
    + by rewrite lookup_delete_eq.
    + by rewrite lookup_delete_ne.
  - intros j u Hj. apply lookup_delete_Some in Hj as [_ Hj]. by apply (ki_idref _ _ _ I).
  - intros c w j Hc Hid. destruct (ki_id _ _ _ I c w j Hc Hid) as [u Hu]. exists u. apply lookup_delete_Some. split; [|done].
    intros <-. pose proof (nrefs_pos cep_cm_id _ _ _ _ Hc Hid). rewrite <- (ki_idref _ _ _ I i v Hi) in *. lia.
Qed.

(** ** Every call *)

Lemma kwp_run {A} (m : KM A) k : kwp m (fun _ => kgood) k -> kwp (run m) (fun _ => kgood) k.
Proof. intros H. unfold run. apply kwp_bind. eapply kwp_mono; [exact H|]. intros. by apply kwp_ret. Qed.

Lemma urdma_chardev_poll_ok k : kgood k -> kwp urdma_chardev_poll (fun _ => kgood) k.
Proof.
  intros I. destruct (ki_file _ _ _ I) as [f Hf]. unfold urdma_chardev_poll. apply kwp_bind, kwp_gets, kwp_bind.
  eapply kwp_nonnull; [exact Hf|]. destruct (negb _); by apply kwp_ret.
Qed.

(** The reference of [siw_get_ofaqp] is dropped again. *)
Lemma siw_get_ofaqp_same q k :
  kgood k -> siw_get_ofaqp q k = Ok (match k_qps k !! q with Some _ => Some q | None => None end, k).
Proof.
  intros I. unfold siw_get_ofaqp, siw_qp_id2obj, siw_qp_get, siw_qp_put, upd_kqp, get_kqp, kgets, mbind, KM_bind.
  destruct (k_qps k !! q) as [v|] eqn:Hq; [|done]. rewrite Hq. simpl. rewrite lookup_insert_eq. simpl.
  pose proof (ki_qpos _ _ _ I q v Hq). rewrite (proj2 (Z.eqb_neq (kq_ref v + 1) 1)) by lia. simpl. rewrite lookup_insert_eq. simpl.
  unfold mret, KM_ret. do 2 f_equal. rewrite insert_insert_eq. destruct k; simpl in *. f_equal.
  apply insert_id. rewrite Hq. f_equal. destruct v; simpl. f_equal. lia.
Qed.

Lemma exec_ok rets o k : kgood k -> allowed k rets o -> kwp (exec rets o) (fun _ => kgood) k.
Proof.
  intros G Ha. unfold exec. apply kwp_bind, kwp_kmodify. set (k0 := k <| k_rets := rets |>).
  assert (I : kgood k0) by (eapply kinv_frame; [exact G|by split]). assert (Hr : k_rets k0 = rets) by done.
  change (allowed k0 rets o) in Ha. clearbody k0. clear G.
  destruct o; cbn [allowed] in Ha; try apply kwp_run.
  - destruct Ha. by apply kwp_kmodify, new_id_ok.
  - by apply kwp_kmodify, free_id_ok.
  - by apply deliver_ok.
  - by apply run_work_ok.
  - destruct Ha as (? & ? & ?). apply siw_connect_ok; [done..|by rewrite Hr].
  - destruct Ha as ([c ?] & ? & ?). by eapply siw_accept_ok.
  - destruct Ha as [c ?]. by eapply siw_reject_ok.
  - by apply siw_create_listen_ok.
  - by apply siw_destroy_listen_ok.
  - by apply siw_alloc_pd_ok.
  - by apply siw_dealloc_pd_ok.
  - by apply do_siw_create_cq_ok.
  - by apply siw_destroy_cq_ok.
  - by apply siw_create_qp_ok.
  - destruct Ha as [(v & ? & ?) ?]. eapply kwp_mono; [by eapply siw_ofed_modify_qp_in|].
    intros r k'. destruct (user_modify_next _ _ _). by intros (_ & ? & _).
  - destruct Ha as (v & ? & ?). by eapply siw_destroy_qp_ok.
  - by apply siw_event_file_write_ok.
  - destruct Ha. by apply urdma_chardev_read_ok.
  - by apply urdma_chardev_write_ok.
  - by apply urdma_chardev_poll_ok.
  - by apply urdma_chardev_release_ok.
  - unfold kwp. by rewrite siw_get_ofaqp_same.
Qed.

(** ** Reachable states *)

(** The state of a loaded module with one device ([siw_init_module],
    [siw_device_create]). *)
Definition k_init (netdev : bool) (in_dev : option (list Z)) : kstate := {|
  k_ceps := ∅; k_qps := ∅; k_cqs := ∅; k_cq_idr := ∅; k_pds := ∅; k_ids := ∅; k_socks := ∅; k_works := [];
  k_events := []; k_sent := []; k_file := Some (Chardev true [] []);
  k_dev := {| sd_netdev := netdev; sd_in_dev := in_dev; sd_max_ird := SIW_MAX_IRD; sd_max_ord := SIW_MAX_ORD;
              num_qp := 0; num_cq := 0; num_pd := 0; num_cep := 0 |};
  k_next := 1; k_rets := [] |}.

Inductive kreach : kstate -> Prop :=
| kreach_init netdev in_dev : kreach (k_init netdev in_dev)
| kreach_step k rets o k' : kreach k -> allowed k rets o -> exec rets o k = Ok (tt, k') -> kreach k'.

Lemma kgood_init netdev in_dev : kgood (k_init netdev in_dev).
Proof.
  split; simpl; try done; try (by intros ? ?%elem_of_nil); try apply NoDup_nil_2;
    try (intros i; unfold listeners; simpl; rewrite lookup_empty; first [apply NoDup_nil_2|by intros c ?%elem_of_nil]).
  all: intros n; rewrite !lookup_empty; try (by intros [? [=]]); by intros [[? [=]]|[? [=]]].
Qed.

Lemma kreach_good k : kreach k -> kgood k.
Proof.
  induction 1 as [netdev in_dev|k rets o k' _ IH Ha He]; [apply kgood_init|].
  pose proof (exec_ok rets o k IH Ha) as H. unfold kwp in H. by rewrite He in H.
Qed.


(** C25: Siw_create_qp of the kernel module returns in every reachable state:
    it either fails with a negative error and changes no object, count or
    reference, or adds one idle queue pair with a single reference, its
    completion queues and its protection domain, and keeps the reference
    counts exact. *)
Theorem siw_create_qp_atomic k user pd attrs udata :
  kreach k -> is_Some (k_pds k !! pd) ->
  exists r k', siw_create_qp user pd attrs udata k = Ok (r, k') /\
  match r with
  | inl rv => rv < 0 /\ kcalled k k'
  | inr q => k_qps k !! q = None /\ kgood k' /\ exists v, k_qps k' = <[q := v]> (k_qps k) /\
      kq_ref v = 1 /\ kq_cep v = None /\ kq_state v = SIW_QP_STATE_IDLE /\
      kq_scq v = Some (qi_send_cq attrs) /\ kq_rcq v = Some (qi_recv_cq attrs) /\ kq_pd v = pd
  end.
Proof.
  intros R Hpd. destruct user; [|by eexists _, k; split; [done|split; [done|apply kcalled_refl]]].
  destruct (kwp_ok _ _ _ (siw_create_qp_created k (kreach_good k R) pd attrs udata Hpd)) as (r & k' & E & G & Hc).
  exists r, k'. split; [done|]. destruct r as [rv|q]; [done|]. destruct Hc as [? ?]. by split_and!.
Qed.

