(* ===== verification/Kmsg.v ===== *)
(** * Messages of the handshake

    What [siw_send_trpreqrep] puts into a datagram is what [siw_recv_trp_rr]
    reads from it on the other side: the connection parameters, and the
    private data up to a length of 8 bits. *)
From S2P Require Import Prelude Proto Kern Cm Kverbs Kref.

Definition trp_rr_wf (r : trp_rr) : Prop :=
  trp_wf (rr_hdr r) /\ in_range 16 (rr_pd_len r) /\ in_range 16 (rr_ird r) /\ in_range 16 (rr_ord r).

Lemma get_trp_rr_bytes r rest : trp_rr_wf r -> get_trp_rr (trp_rr_bytes r ++ rest) = Ok r.
Proof.
  intros ((? & ? & ?) & ? & ? & ?). unfold get_trp_rr, get_trp, trp_rr_bytes, trp_bytes. read_fields. by destruct r as [[]].
Qed.

(** A call outside the module that does not fail. *)
Definition kcall_ok (k : kstate) : Prop := match k_rets k with [] => True | r :: _ => 0 <= r end.

Lemma kwp_kerr_ok (Q : Z -> kstate -> Prop) k :
  kcall_ok k -> (forall rets, Q 0 (k <| k_rets := rets |>)) -> kwp kerr Q k.
Proof.
  unfold kcall_ok, kerr. intros H HQ. apply kwp_bind. unfold kwp at 1, kcall. destruct (k_rets k) as [|r rs] eqn:E.
  - apply kwp_ret. specialize (HQ []). rewrite <- E in HQ. by destruct k.
  - apply kwp_ret. rewrite Z.min_r by done. apply HQ.
Qed.

(** The message that [siw_send_trpreqrep] makes. *)
Definition message (v : siw_cep) (pdata : bytes) : bytes :=
  trp_rr_bytes (cep_hdr v <| rr_pd_len := u8 (len pdata) |>) ++ take (Z.to_nat (u8 (len pdata))) pdata.

Lemma send_message c v s pdata k :
  k_ceps k !! c = Some v -> cep_sock v = Some s -> is_Some (k_socks k !! s) -> kcall_ok k ->
  kwp (siw_send_trpreqrep c pdata (len pdata)) (fun r k' => r = 0 /\ k_sent k' = k_sent k ++ [(cep_raddr v, message v pdata)]) k.
Proof.
  intros Hc Hs [sv Hsv] Hk. unfold siw_send_trpreqrep, set_hdr. apply kwp_bind. eapply kwp_get_cep; [exact Hc|].
  apply kwp_bind. eapply kwp_nonnull; [exact Hs|]. apply kwp_bind. eapply kwp_get_sock; [exact Hsv|].
  apply kwp_bind. eapply kwp_upd; [exact Hc|]. apply kwp_bind. eapply kwp_get_cep; [apply lookup_insert_eq|].
  apply kwp_bind, kwp_kerr_ok; [exact Hk|]. intros rets. apply kwp_bind, kwp_kmodify. by apply kwp_ret.
Qed.

Lemma splice_all {A} (bs l : list A) : length bs = length l -> splice 0 bs l = bs.
Proof. intros E. unfold splice. simpl. rewrite drop_ge by lia. apply app_nil_r. Qed.

Lemma u8_bound z : 0 <= u8 z < 256.
Proof. by apply wrap_range. Qed.

Lemma message_parts v pdata n :
  n = Z.to_nat (u8 (len pdata)) ->
  take sizeof_trp_rr (message v pdata) = trp_rr_bytes (cep_hdr v <| rr_pd_len := u8 (len pdata) |>) /\
  drop sizeof_trp_rr (message v pdata) = take n pdata /\ len (message v pdata) = 16 + u8 (len pdata) /\
  length (take n pdata) = n /\ (n < 256)%nat.
Proof.
  intros ->. pose proof (trp_rr_bytes_length (cep_hdr v <| rr_pd_len := u8 (len pdata) |>)) as HL.
  pose proof (u8_bound (len pdata)) as Hr. assert (Hle : u8 (len pdata) <= len pdata) by (apply Z.mod_le; [lia|done]).
  unfold message. rewrite take_app_length', drop_app_length' by done.
  rewrite length_app, HL, length_take. unfold sizeof_trp_rr. split_and!; try done; lia.
Qed.

Lemma kwp_upd_inbox s f v (Q : unit -> kstate -> Prop) k :
  k_socks k !! s = Some v -> Q tt (k <| k_socks ::= <[s := f v]> |>) -> kwp (upd_sock s f) Q k.
Proof. unfold kwp, upd_sock. by intros ->. Qed.

Lemma recv_message c v w s sv from pdata rest k :
  trp_rr_wf (cep_hdr w) -> k_ceps k !! c = Some v -> length (cep_pdata v) = Z.to_nat URDMA_PDATA_LEN_MAX ->
  cep_sock v = Some s -> k_socks k !! s = Some sv -> ks_inbox sv = (from, message w pdata) :: rest -> kcall_ok k ->
  kwp (siw_recv_trp_rr c) (fun r k' => r = 0 /\ exists v', k_ceps k' !! c = Some v' /\
    cep_hdr v' = cep_hdr w <| rr_pd_len := u8 (len pdata) |> /\ cep_raddr v' = from /\
    take (Z.to_nat (u8 (len pdata))) (cep_pdata v') = take (Z.to_nat (u8 (len pdata))) pdata) k.
Proof.
  intros Hwf Hc Hpl Hs Hsv Hin Hk. remember (Z.to_nat (u8 (len pdata))) as n eqn:Hn.
  destruct (message_parts w pdata n Hn) as (Ht & Hd & Hlen & Hln & Hn256). pose proof (u8_bound (len pdata)) as Hr.
  assert (Hcap : take (sizeof_trp_rr + Z.to_nat URDMA_PDATA_LEN_MAX) (message w pdata) = message w pdata).
  { apply take_ge. change (sizeof_trp_rr + Z.to_nat URDMA_PDATA_LEN_MAX)%nat with 528%nat. lia. }
  unfold siw_recv_trp_rr, kernel_recvmsg. apply kwp_bind. eapply kwp_get_cep; [exact Hc|].
  apply kwp_bind. eapply kwp_nonnull; [exact Hs|]. do 2 apply kwp_bind. apply kwp_kerr_ok; [exact Hk|]. intros rets.
  apply kwp_bind. eapply kwp_get_sock; [exact Hsv|]. rewrite Hin, Hcap.
  apply kwp_bind. eapply kwp_upd_inbox; [exact Hsv|].
  set (k1 := _ <| k_socks ::= _ |>). assert (Hc1 : k_ceps k1 !! c = Some v) by exact Hc. clearbody k1.
  apply kwp_ret. rewrite Ht, Hd. apply kwp_bind, kwp_bind. rewrite splice_all by (by rewrite !trp_rr_bytes_length).
  rewrite <- (app_nil_r (trp_rr_bytes _)), get_trp_rr_bytes.
  - unfold klift at 1, kwp at 1. eapply kwp_upd; [exact Hc1|]. rewrite Hlen.
    rewrite (wrap_small 64) by (split; [lia|]; apply (Z.lt_trans _ 1000); [lia|done]).
    rewrite (proj2 (Z.ltb_ge (16 + u8 (len pdata)) (Z.of_nat sizeof_trp_rr))) by (change (Z.of_nat sizeof_trp_rr) with 16; lia).
    apply kwp_bind. eapply kwp_get_cep; [apply lookup_insert_eq|].
    match goal with |- kwp (if ?b then _ else _) _ _ => assert (b = false) as ->; [|] end.
    { apply orb_false_iff. change (Z.of_nat sizeof_trp_rr) with 16. unfold URDMA_PDATA_LEN_MAX. simpl. lia. }
    apply kwp_bind. eapply kwp_upd; [apply lookup_insert_eq|]. apply kwp_ret. split; [done|].
    eexists. split; [apply lookup_insert_eq|]. split_and!; [done..|].
    change (take n (take n pdata ++ drop (length (take n pdata)) (cep_pdata v)) = take n pdata).
    apply take_app_length'. by rewrite Hln.
  - destruct Hwf as (? & ? & ? & ?). split_and!; simpl; [done| |done..]. split; [lia|]. apply (Z.lt_trans _ 1000); [lia|done].
Qed.

(** C20: The connection request or reply that siw_send_trpreqrep sends is read
    by siw_recv_trp_rr of the peer with the same sequence numbers, opcode and
    read limits, the address of the sender, and the first (length modulo 256)
    bytes of the private data. *)
Theorem handshake_message_roundtrip c v s pdata k :
  k_ceps k !! c = Some v -> cep_sock v = Some s -> is_Some (k_socks k !! s) -> kcall_ok k -> trp_rr_wf (cep_hdr v) ->
  exists k' d, siw_send_trpreqrep c pdata (len pdata) k = Ok (0, k') /\ k_sent k' = k_sent k ++ [(cep_raddr v, d)] /\
    forall k2 c2 v2 s2 sv2 from rest,
    k_ceps k2 !! c2 = Some v2 -> length (cep_pdata v2) = Z.to_nat URDMA_PDATA_LEN_MAX -> cep_sock v2 = Some s2 ->
    k_socks k2 !! s2 = Some sv2 -> ks_inbox sv2 = (from, d) :: rest -> kcall_ok k2 ->
    exists k3 v3, siw_recv_trp_rr c2 k2 = Ok (0, k3) /\ k_ceps k3 !! c2 = Some v3 /\ cep_raddr v3 = from /\
      cep_hdr v3 = cep_hdr v <| rr_pd_len := len pdata mod 256 |> /\
      take (Z.to_nat (len pdata mod 256)) (cep_pdata v3) = take (Z.to_nat (len pdata mod 256)) pdata.
Proof.
  intros Hc Hs Hsk Hk Hwf. destruct (kwp_ok _ _ _ (send_message c v s pdata k Hc Hs Hsk Hk)) as (r & k' & E & -> & Hsent).
  exists k', (message v pdata). split_and!; [done..|]. intros k2 c2 v2 s2 sv2 from rest H1 H2 H3 H4 H5 H6.
  destruct (kwp_ok _ _ _ (recv_message c2 v2 v s2 sv2 from pdata rest k2 Hwf H1 H2 H3 H4 H5 H6)) as (r & k3 & E3 & -> & v3 & ? & ? & ? & ?).
  exists k3, v3. by split_and!.
Qed.
