(* ===== verification/Kdemo.v ===== *)
(** * A connection from end to end

    A module that is connected to itself: one queue pair listens, the other
    connects, and the daemon moves both to the established state.  The calls
    are those of [Kprops], each checked to be allowed. *)
From S2P Require Import Prelude Proto Kern Cm Kverbs Kref Kconn Kaccept Kchar Kobj Klisten Kprops Kmsg Kclose.

(** ** Checking that a call is allowed *)

Definition is_some {A} (o : option A) : bool := match o with Some _ => true | None => false end.

Definition request_b (k : kstate) (i : nat) : bool :=
  match k_ids k !! i with
  | Some iv =>
      match id_provider iv with
      | PCep c =>
          match k_ceps k !! c with Some v => bool_decide (cep_state v = SIW_EPSTATE_RECVD_MPAREQ) | None => false end
      | _ => false
      end
  | None => false
  end.
Definition listen_b (k : kstate) (i : nat) : bool :=
  match k_ids k !! i with Some iv => match id_provider iv with PCep _ => false | _ => true end | None => false end.
Definition qp_free_b (k : kstate) (q : nat) : bool :=
  match k_qps k !! q with Some v => negb (is_some (kq_cep v)) | None => true end.
Definition user_qp_b (k : kstate) (q : nat) : bool :=
  match k_qps k !! q with Some v => is_some (kq_scq v) | None => false end.
Definition listed_b (k : kstate) : bool :=
  forallb (fun c => match k_ceps k !! c with Some v => is_some (cep_qp v) | None => true end) (file_ceps k).

Definition allowed_b (k : kstate) (rets : list Z) (o : kop) : bool :=
  match o with
  | KNewId i v =>
      negb (is_some (k_ids k !! i)) && (id_ref v =? 0) && match id_provider v with PListen _ => false | _ => true end
  | KFreeId i =>
      match k_ids k !! i with Some v => (id_ref v =? 0) && bool_decide (listeners k i = []) | None => false end
  | KDeliver s _ _ => is_some (k_socks k !! s)
  | KConnect i params => is_some (k_ids k !! i) && qp_free_b k (cp_qpn params) && forallb (Z.leb 0) rets
  | KAccept i params => request_b k i && is_some (k_qps k !! cp_qpn params) && qp_free_b k (cp_qpn params)
  | KReject i _ => request_b k i
  | KListen i _ | KUnlisten i => listen_b k i
  | KDeallocPd p => is_some (k_pds k !! p) && bool_decide (map_Forall (fun _ v => qp_pd v <> Some p) (k_qps k))
  | KDestroyCq c => bool_decide (c ∈ k_cq_idr k)
  | KCreateQp _ pd _ _ => is_some (k_pds k !! pd)
  | KModifyQp q _ st _ => user_qp_b k q && (st <? 7)%nat
  | KDestroyQp q => user_qp_b k q
  | KRead nonblock _ _ _ => listed_b k && nonblock
  | KWrite _ _ => listed_b k
  | _ => true
  end.

Lemma is_some_spec {A} (o : option A) : is_some o = true -> is_Some o.
Proof. by destruct o. Qed.

Lemma request_b_spec k i : request_b k i = true -> exists c, request_id k i c.
Proof.
  unfold request_b, request_id. destruct (k_ids k !! i) as [iv|] eqn:Hi; [|done].
  destruct (id_provider iv) as [| |c] eqn:Hp; [done..|]. destruct (k_ceps k !! c) as [v|] eqn:Hc; [|done].
  intros Hst%bool_decide_eq_true. eauto 10.
Qed.

Lemma listen_b_spec k i : listen_b k i = true -> listen_id k i.
Proof.
  unfold listen_b, listen_id. destruct (k_ids k !! i) as [iv|]; [|done]. intros H. exists iv. split; [done|].
  intros c Hp. by rewrite Hp in H.
Qed.

Lemma qp_free_b_spec k q : qp_free_b k q = true -> qp_free k q.
Proof. unfold qp_free_b, qp_free. intros H v Hv. rewrite Hv in H. by destruct (kq_cep v). Qed.

Lemma user_qp_b_spec k q : user_qp_b k q = true -> user_qp k q.
Proof. unfold user_qp_b, user_qp. destruct (k_qps k !! q) as [v|]; [|done]. intros H%is_some_spec. eauto. Qed.

Lemma listed_b_spec k : listed_b k = true -> listed_conns k.
Proof.
  unfold listed_b, listed_conns. intros H c v Hc Hv. rewrite forallb_forall in H. specialize (H c).
  rewrite Hv in H. apply is_some_spec, H. by apply list_elem_of_In.
Qed.

#[local] Hint Resolve is_some_spec request_b_spec listen_b_spec qp_free_b_spec user_qp_b_spec listed_b_spec : core.

Lemma allowed_b_spec k rets o : allowed_b k rets o = true -> allowed k rets o.
Proof.
  destruct o; cbn [allowed_b allowed]; rewrite ?andb_true_iff, ?bool_decide_eq_true; try (by auto); intros H.
  - destruct H as [[H1 H2] H3]. split; [by destruct (k_ids k !! i)|]. split; [lia|]. intros l E. by rewrite E in H3.
  - destruct (k_ids k !! i) as [v|] eqn:Hi; [|done]. rewrite andb_true_iff, bool_decide_eq_true in H.
    destruct H as [H1%Z.eqb_eq H2]. by exists v.
  - destruct H as [[H1 H2] H3]. split_and!; auto. apply Forall_forall. intros x Hx%list_elem_of_In.
    rewrite forallb_forall in H3. specialize (H3 x Hx). lia.
  - destruct H as [[H1 H2] H3]. auto.
  - destruct H as [H1 H2]. split; [auto|]. intros q v Hq. by apply (H2 q v).
  - destruct H as [H1 H2%Nat.ltb_lt]. auto.
  - destruct H as [H1 H2]. auto.
Qed.

(** Runs calls as long as they are allowed and return. *)
Fixpoint run_ops (l : list (list Z * kop)) (k : kstate) : option kstate :=
  match l with
  | [] => Some k
  | (rets, o) :: l =>
      if allowed_b k rets o then
        match exec rets o k with Ok (_, k') => run_ops l k' | Fault _ => None end
      else None
  end.

Lemma run_ops_reach l k k' : kreach k -> run_ops l k = Some k' -> kreach k'.
Proof.
  revert k. induction l as [|[rets o] l IH]; intros k R; simpl; [by intros [= <-]|].
  destruct (allowed_b k rets o) eqn:Ha; [|done]. destruct (exec rets o k) as [[[] k1]|] eqn:He; [|done].
  apply IH. eapply kreach_step; [exact R|by apply allowed_b_spec|exact He].
Qed.

(** ** Two queue pairs of one module *)

Definition demo_addr : Z := 0x0a000001.
Definition demo_qp (n : Z) : urdma_udata_create_qp := UdataQp 16 16 0 n (2 * n) (2 * n + 1).
Definition rtr_event (q : nat) : bytes := le_encode 4 SIW_EVENT_QP_RTR ++ le_encode 4 (Z.of_nat q).
Definition demo_setup : list (list Z * kop) := [
  ([], KAllocPd true);
  ([], KCreateCq 16 true);
  ([], KCreateQp true 1 (QpInit true false 2 2) (Some (demo_qp 0)));
  ([], KCreateQp true 1 (QpInit true false 2 2) (Some (demo_qp 1)));
  ([], KNewId 100 (CmId 0 PNone (SockAddr demo_addr 5000) AF_INET_ANY true));
  ([], KListen 100 8);
  ([], KNewId 101 (CmId 0 PNone (SockAddr demo_addr 0) (SockAddr demo_addr 5000) true));
  ([0; 0; 4000], KConnect 101 (ConnParam [104; 105] 6 8 3))
].

(** The request arrives at the listener, and is accepted. *)
Definition conn_request : bytes := trp_rr_bytes (TrpRr (Trp_hdr 0 0 trp_req) 2 8 6) ++ [104; 105].
Definition demo_mac : option (bool * bytes) := Some (true, [2; 0; 0; 0; 0; 1]).
Definition demo_accept : list (list Z * kop) := [
  ([], KDeliver 5 (SockAddr demo_addr 4000) conn_request);
  ([0; 0; 0; 0; 0; 0; 0; 0; 0; 0; 6000], KWork 1);
  ([], KNewId 102 (CmId 0 (PCep 11) (SockAddr demo_addr 5000) (SockAddr demo_addr 4000) true));
  ([], KAccept 102 (ConnParam [111; 107] 8 4 4))
].

(** The daemon has set up the queue pair, so that the reply is sent; then the
    same for the other side. *)
Definition conn_reply : bytes := trp_rr_bytes (TrpRr (Trp_hdr 0 0 trp_accept) 2 4 8) ++ [111; 107].
Definition demo_establish : list (list Z * kop) := [
  ([], KRead true 40 0 demo_mac);
  ([], KWrite (replicate 40 0) (rtr_event 4));
  ([], KDeliver 7 (SockAddr demo_addr 6000) conn_reply);
  ([], KWork 1);
  ([], KRead true 40 0 demo_mac);
  ([], KWrite (replicate 40 0) (rtr_event 3))
].
Definition demo_connect : list (list Z * kop) := demo_setup ++ demo_accept ++ demo_establish.

Definition demo_teardown : list (list Z * kop) := [
  ([], KModifyQp 3 0 4 IB_QP_STATE);
  ([], KDestroyQp 3);
  ([], KDestroyQp 4);
  ([], KUnlisten 100);
  ([], KFreeId 100); ([], KFreeId 101); ([], KFreeId 102);
  ([], KDestroyCq 2);
  ([], KDeallocPd 1)
].

(** What the two ends of a connection have agreed on. *)
Definition connected (k : kstate) (c d : nat) : bool :=
  match k_ceps k !! c, k_ceps k !! d with
  | Some v, Some w =>
      match cep_qp v ≫= fun q => k_qps k !! q, cep_qp w ≫= fun q => k_qps k !! q with
      | Some p, Some q =>
          bool_decide (cep_state v = SIW_EPSTATE_RDMA_MODE /\ cep_state w = SIW_EPSTATE_RDMA_MODE) &&
          bool_decide (kq_state p = SIW_QP_STATE_RTS /\ kq_state q = SIW_QP_STATE_RTS) &&
          (sin_port (cep_laddr v) =? sin_port (cep_raddr w)) && (sin_port (cep_raddr v) =? sin_port (cep_laddr w)) &&
          (kq_orq_size p =? kq_irq_size q) && (kq_irq_size p =? kq_orq_size q)
      | _, _ => false
      end
  | _, _ => false
  end.

(** The events that the connection manager has got, with their ids. *)
Definition upcalls (k : kstate) : list (nat * iw_cm_event_type * Z * bytes) :=
  map (fun e => (ev_id e, ev_event e, ev_status e, ev_private_data e)) (k_events k).


(** ** Calls that are not allowed *)

Definition fault_of {A} (o : outcome A) : option fault := match o with Ok _ => None | Fault e => Some e end.

(** The fault of a call after calls that return. *)
Definition then_fault (l : list (list Z * kop)) (rets : list Z) (o : kop) : option fault :=
  k ← run_ops l (k_init true (Some [demo_addr])); fault_of (exec rets o k).


(** Private data of 256 bytes is announced, and sent, with length 0. *)
Example private_data_truncated :
  (fun k => map (fun m => length (snd m)) (k_sent k)) <$>
    run_ops (take 7 demo_setup ++ [([0; 0; 4000], KConnect 101 (ConnParam (replicate 256 7) 4 8 3))])
      (k_init true (Some [demo_addr])) = Some [sizeof_trp_rr].
Proof. vm_compute. reflexivity. Qed.

(** ** Instances of the theorems of [Kprops] and [Kmsg] *)

(** The connected module, and the module with a listener and two queue pairs. *)
Lemma demo_reach l k : run_ops l (k_init true (Some [demo_addr])) = Some k -> kreach k.
Proof. apply run_ops_reach, kreach_init. Qed.


(** A module with a protection domain and a completion queue. *)
Lemma siw_create_qp_atomic_witness :
  exists k k', run_ops (take 2 demo_setup) (k_init true (Some [demo_addr])) = Some k /\
    siw_create_qp true 1 (QpInit true false 2 2) (Some (demo_qp 0)) k = Ok (inr 3%nat, k') /\
    k_qps k !! 3%nat = None /\ kgood k'.
Proof.
  destruct (run_ops (take 2 demo_setup) (k_init true (Some [demo_addr]))) as [k|] eqn:E; [|by vm_compute in E].
  pose proof (demo_reach _ _ E) as R. vm_compute in E. injection E as <-.
  match type of R with kreach ?k => set (k0 := k) in * end. assert (Hpd : is_Some (k_pds k0 !! 1%nat)) by (by eexists).
  destruct (siw_create_qp_atomic k0 true 1 (QpInit true false 2 2) (Some (demo_qp 0)) R Hpd) as (r & k' & E & H).
  exists k0, k'. assert (match siw_create_qp true 1 (QpInit true false 2 2) (Some (demo_qp 0)) k0 with
    | Ok (r, _) => r | Fault _ => inl 0 end = inr 3%nat) as Er by (vm_compute; reflexivity).
  rewrite E in Er. subst r. destruct H as (? & ? & _). by split_and!.
Defined.


(** The request of [demo_setup], sent once more by its endpoint and read by
    the endpoint of another module. *)
Definition demo_peer (d : bytes) : kstate :=
  k_init true None <| k_ceps := {[1%nat := new_cep (k_dev (k_init true None)) <| cep_sock := Some 2%nat |>]} |>
    <| k_socks := {[2%nat := KSock (Some 1%nat) true [(SockAddr demo_addr 4000, d)] AF_INET_ANY]} |>.
Lemma handshake_message_roundtrip_witness :
  exists k k' d k3 v3, run_ops demo_setup (k_init true (Some [demo_addr])) = Some k /\
    siw_send_trpreqrep 8 [104; 105] 2 k = Ok (0, k') /\ siw_recv_trp_rr 1 (demo_peer d) = Ok (0, k3) /\
    k_ceps k3 !! 1%nat = Some v3 /\ rr_pd_len (cep_hdr v3) = 2 /\ take 2 (cep_pdata v3) = [104; 105].
Proof.
  destruct (run_ops demo_setup (k_init true (Some [demo_addr]))) as [k|] eqn:E; [|by vm_compute in E].
  vm_compute in E. injection E as <-. match goal with |- exists k k' d k3 v3, Some ?k = _ /\ _ => set (k0 := k) in * end.
  assert (exists v, k_ceps k0 !! 8%nat = Some v /\ cep_sock v = Some 7%nat /\ trp_rr_wf (cep_hdr v)) as (v & Hc & Hs & Hw).
  { eexists. split; [vm_compute; reflexivity|]. split; [done|]. by split_and!. }
  destruct (handshake_message_roundtrip 8 v 7 [104; 105] k0 Hc Hs) as (k' & d & H1 & _ & H2);
    [vm_compute; by eexists|done|done|].
  destruct (H2 (demo_peer d) 1%nat (new_cep (k_dev (k_init true None)) <| cep_sock := Some 2%nat |>) 2%nat
    (KSock (Some 1%nat) true [(SockAddr demo_addr 4000, d)] AF_INET_ANY) (SockAddr demo_addr 4000) [])
    as (k3 & v3 & H3 & H4 & _ & H5 & H6); [done..|].
  exists k0, k', d, k3, v3. split_and!; [done..| |done]. by rewrite H5.
Defined.
