(* ===== verification/Iov.v ===== *)
(** * Memory and scatter/gather copies (src/liburdma/interface.c)

    Application memory as bytes at 64-bit addresses, and the two loops that
    copy between a packet and a scatter/gather list: [memcpy_from_iov] and
    [memcpy_to_iov].  Both are shown equal to a reference that treats the
    list as one sequence of addresses. *)
From S2P Require Import Prelude.

Abbreviation memory := (gmap Z Z) (only parsing).

(** [struct iovec] *)
Record iovec := Iovec { iov_base : Z; iov_len : Z }.

(** The addresses [a], [a + 1], ... of an [n]-byte object. *)
Definition addrs (a n : Z) : list Z := (fun i => u64 (a + i)) <$> seqZ 0 n.

(** Bytes at a list of addresses, read and written one by one.  An access to
    an address that is not mapped is a fault. *)
Fixpoint gather (m : memory) (l : list Z) : outcome bytes :=
  match l with
  | [] => Ok []
  | a :: r => v ← deref (m !! a); vs ← gather m r; Ok (v :: vs)
  end.

Fixpoint scatter (m : memory) (l : list Z) (vs : bytes) : outcome memory :=
  match l, vs with
  | a :: r, v :: vs' => _ ← deref (m !! a); scatter (<[a := v]> m) r vs'
  | _, _ => Ok m
  end.

(** [memcpy] out of and into application memory. *)
Definition mem_load (m : memory) (a n : Z) : outcome bytes := gather m (addrs a n).
Definition mem_store (m : memory) (a : Z) (vs : bytes) : outcome memory :=
  scatter m (addrs a (len vs)) vs.

(** [n] bytes of a packet buffer from [off]; reading past its end faults. *)
Definition buf_load (buf : bytes) (off n : Z) : outcome bytes :=
  if decide (0 <= off /\ 0 <= n /\ off + n <= len buf)
  then Ok (sub (Z.to_nat off) (Z.to_nat n) buf) else Fault OutOfBounds.

(** The loop of [memcpy_from_iov]: [prev] is the number of bytes before the
    current element, [acc] what was copied to [dest] so far ([pos] bytes). *)
Fixpoint from_iov_loop (m : memory) (dest_size : Z) (src : list iovec)
    (prev offset : Z) (acc : bytes) : outcome bytes :=
  match src with
  | [] => Ok acc
  | v :: rest =>
      let pos := len acc in
      if negb (pos <? dest_size) then Ok acc else
      if (prev <=? offset) && (offset <? u64 (prev + iov_len v)) then
        let cur := Z.min (u64 (u64 (prev + iov_len v) - offset)) (u64 (dest_size - pos)) in
        bs ← mem_load m (u64 (u64 (iov_base v + offset) - prev)) cur;
        from_iov_loop m dest_size rest (u64 (prev + iov_len v)) (u64 (offset + cur)) (acc ++ bs)
      else
        from_iov_loop m dest_size rest (u64 (prev + iov_len v)) offset acc
  end.

(** [memcpy_from_iov]: [dest] is what the destination holds before the call;
    its length is [dest_size]. *)
Definition memcpy_from_iov (m : memory) (dest : bytes) (src : list iovec)
    (offset : Z) : outcome bytes :=
  acc ← from_iov_loop m (len dest) src 0 offset [];
  Ok (acc ++ drop (length acc) dest).

(** The loop of [memcpy_to_iov]. *)
Fixpoint to_iov_loop (m : memory) (dest : list iovec) (src : bytes) (src_size : Z)
    (prev pos offset : Z) : outcome memory :=
  match dest with
  | [] => Ok m
  | v :: rest =>
      if negb (pos <? src_size) then Ok m else
      if (prev <=? offset) && (offset <? u64 (prev + iov_len v)) then
        let cur := Z.min (u64 (u64 (prev + iov_len v) - offset)) (u64 (src_size - pos)) in
        bs ← buf_load src pos cur;
        m1 ← mem_store m (u64 (u64 (iov_base v + offset) - prev)) bs;
        to_iov_loop m1 rest src src_size (u64 (prev + iov_len v)) (u64 (pos + cur)) (u64 (offset + cur))
      else
        to_iov_loop m rest src src_size (u64 (prev + iov_len v)) pos offset
  end.

(** [memcpy_to_iov]: [src] is the packet buffer from the payload on; nothing
    in the code ties [src_size] to its length. *)
Definition memcpy_to_iov (m : memory) (dest : list iovec) (src : bytes)
    (src_size offset : Z) : outcome memory :=
  to_iov_loop m dest src src_size 0 0 offset.

(** ** Reference *)

(** The list as one sequence of addresses. *)
Definition iov_addrs (l : list iovec) : list Z :=
  concat ((fun v => addrs (iov_base v) (iov_len v)) <$> l).

Definition iov_total (l : list iovec) : Z := foldr Z.add 0 (iov_len <$> l).

Definition iov_wf (l : list iovec) : Prop :=
  Forall (fun v => 0 <= iov_len v) l /\ iov_total l < 2 ^ 64.

(** ** Lemmas *)

Section Mem.
Implicit Types m : gmap Z Z.

Lemma addrs_length a n : 0 <= n -> length (addrs a n) = Z.to_nat n.
Proof. intros. unfold addrs. by rewrite length_fmap, length_seqZ. Qed.

Lemma addrs_sub a n off k :
  0 <= off -> 0 <= k -> off + k <= n ->
  sub (Z.to_nat off) (Z.to_nat k) (addrs a n) = addrs (a + off) k.
Proof.
  intros Ho Hk Hn. apply list_eq. intros i. unfold sub, addrs.
  destruct (decide (i < Z.to_nat k)%nat) as [Hi|Hi].
  - rewrite lookup_take_lt, lookup_drop, !list_lookup_fmap by done.
    rewrite !lookup_seqZ_lt by lia. simpl. do 2 f_equal. lia.
  - rewrite lookup_take_ge by lia. symmetry. rewrite list_lookup_fmap.
    by rewrite lookup_seqZ_ge by lia.
Qed.

Lemma addrs_wrap a n : addrs (u64 a) n = addrs a n.
Proof.
  unfold addrs. apply list_fmap_ext. intros i x _. by rewrite wrap_add_l.
Qed.

Lemma gather_app m l1 l2 :
  gather m (l1 ++ l2) = (a ← gather m l1; b ← gather m l2; Ok (a ++ b)).
Proof.
  induction l1 as [|x l1 IH]; simpl.
  { by destruct (gather m l2). }
  destruct (m !! x); simpl; [|done]. rewrite IH.
  destruct (gather m l1); simpl; [|done]. by destruct (gather m l2).
Qed.

Lemma gather_length m l bs : gather m l = Ok bs -> length bs = length l.
Proof.
  revert bs. induction l as [|x l IH]; simpl; intros bs H; inv_ok; [done|].
  simpl. f_equal. by apply IH.
Qed.

Lemma scatter_app m l1 l2 v1 v2 :
  length l1 = length v1 ->
  scatter m (l1 ++ l2) (v1 ++ v2) = (m1 ← scatter m l1 v1; scatter m1 l2 v2).
Proof.
  revert m v1. induction l1 as [|x l1 IH]; intros m [|v v1] H; simpl in *; try lia.
  - by destruct (scatter m l2 v2).
  - destruct (m !! x); simpl; [|done]. apply IH. lia.
Qed.

Lemma gather_sub m l bs off n :
  gather m l = Ok bs -> gather m (sub off n l) = Ok (sub off n bs).
Proof.
  revert bs off n. induction l as [|x l IH]; simpl; intros bs off n H; inv_ok.
  { unfold sub. by rewrite !drop_nil, !take_nil. }
  destruct off as [|off].
  - unfold sub. rewrite !drop_0. destruct n as [|n]; simpl; [done|]. rewrite E. simpl.
    specialize (IH _ 0%nat n E0). unfold sub in IH. rewrite !drop_0 in IH.
    rewrite IH. done.
  - by apply (IH _ off n).
Qed.

Lemma gather_ok_iff m l : (exists bs, gather m l = Ok bs) <-> Forall (fun a => is_Some (m !! a)) l.
Proof.
  induction l as [|x l IH]; simpl.
  { split; [done|eauto]. }
  rewrite Forall_cons, <- IH. split.
  - intros (bs & H). inv_ok. eauto.
  - intros [[v Hv] [bs Hbs]]. rewrite Hv, Hbs. simpl. eauto.
Qed.

Lemma scatter_ok m l vs :
  Forall (fun a => is_Some (m !! a)) l -> exists m', scatter m l vs = Ok m'.
Proof.
  revert m vs. induction l as [|x l IH]; intros m vs Hl; simpl; [eauto|].
  destruct vs as [|v vs]; [eauto|]. inversion Hl as [|? ? [w Hw] Hr]; subst.
  rewrite Hw. simpl. apply IH. eapply Forall_impl; [exact Hr|].
  intros a [u Hu]. destruct (decide (a = x)) as [->|].
  - rewrite lookup_insert_eq. eauto.
  - rewrite lookup_insert_ne by done. eauto.
Qed.

(** What a scatter writes, and that it writes nothing else. *)
Lemma scatter_frame m l vs m' a :
  scatter m l vs = Ok m' -> a ∉ l -> m' !! a = m !! a.
Proof.
  revert m vs. induction l as [|x l IH]; intros m vs H Ha; simpl in H; [by inv_ok|].
  destruct vs as [|v vs]; [by inv_ok|]. apply not_elem_of_cons in Ha as [Hx Ha].
  inv_ok. rewrite (IH _ _ H Ha). by rewrite lookup_insert_ne.
Qed.

Lemma scatter_gather m l vs m' :
  scatter m l vs = Ok m' -> NoDup l -> length l = length vs -> gather m' l = Ok vs.
Proof.
  revert m vs. induction l as [|x l IH]; intros m vs H Hnd Hlen; simpl in *.
  { by destruct vs. }
  destruct vs as [|v vs]; [done|]. inversion Hnd as [|? ? Hx Hl]; subst. inv_ok.
  rewrite (scatter_frame _ _ _ _ _ H Hx), lookup_insert_eq. simpl.
  rewrite (IH _ _ H Hl) by (simpl in Hlen; lia). done.
Qed.

Lemma gather_frame m m' l bs :
  (forall a, a ∈ l -> m' !! a = m !! a) -> gather m l = Ok bs -> gather m' l = Ok bs.
Proof.
  revert bs. induction l as [|x l IH]; simpl; intros bs Hf H; [done|]. inv_ok.
  rewrite (Hf x) by left. rewrite E. simpl.
  rewrite (IH _ (fun a Ha => Hf a (list_elem_of_further _ _ _ Ha)) E0). done.
Qed.

Lemma scatter_dom m l vs m' a :
  scatter m l vs = Ok m' -> is_Some (m' !! a) <-> is_Some (m !! a).
Proof.
  revert m vs. induction l as [|x l IH]; intros m vs H; simpl in H; [by inv_ok|].
  destruct vs as [|v vs]; [by inv_ok|]. inv_ok. rewrite (IH _ _ H).
  destruct (decide (a = x)) as [->|].
  - rewrite lookup_insert_eq. rewrite E. split; eauto.
  - by rewrite lookup_insert_ne.
Qed.
End Mem.

Lemma buf_load_ok buf off n bs :
  buf_load buf off n = Ok bs ->
  0 <= off /\ 0 <= n /\ off + n <= len buf /\ bs = sub (Z.to_nat off) (Z.to_nat n) buf.
Proof. unfold buf_load. case_decide; [intros; inv_ok; tauto|done]. Qed.

Lemma buf_load_in buf off n :
  0 <= off -> 0 <= n -> off + n <= len buf ->
  buf_load buf off n = Ok (sub (Z.to_nat off) (Z.to_nat n) buf).
Proof. intros. unfold buf_load. by rewrite decide_True. Qed.

(** ** The copy loops follow the reference *)

Lemma iov_addrs_cons v l : iov_addrs (v :: l) = addrs (iov_base v) (iov_len v) ++ iov_addrs l.
Proof. done. Qed.

Lemma iov_total_cons v l : iov_total (v :: l) = iov_len v + iov_total l.
Proof. done. Qed.

Lemma iov_total_nonneg l : Forall (fun v => 0 <= iov_len v) l -> 0 <= iov_total l.
Proof. induction 1; [done|]. rewrite iov_total_cons. lia. Qed.

Lemma iov_addrs_length l :
  Forall (fun v => 0 <= iov_len v) l -> length (iov_addrs l) = Z.to_nat (iov_total l).
Proof.
  induction 1 as [|v l Hv Hl IH]; [done|].
  rewrite iov_addrs_cons, length_app, addrs_length, IH by done.
  pose proof (iov_total_nonneg l Hl).
  rewrite iov_total_cons. lia.
Qed.

Section Loops.
Variables (base L prev offset want : Z).
Hypothesis HL : 0 <= L.
Hypothesis Hprev : 0 <= prev.
Hypothesis Hsum : prev + L < 2 ^ 64.
Hypothesis Hoff : in_range 64 offset.
Hypothesis Hwant : in_range 64 want.

(** Slice of the remaining addresses when the offset is in the first element. *)
Lemma slice_inside rest (o := offset - prev) (cur := Z.min (L - o) want) :
  0 <= o < L ->
  sub (Z.to_nat o) (Z.to_nat want) (addrs base L ++ rest) =
  addrs (u64 (u64 (base + offset) - prev)) cur ++ sub 0 (Z.to_nat (want - cur)) rest.
Proof using HL Hprev Hwant.
  intros Ho. destruct Hwant. rewrite sub_app_split by (rewrite addrs_length; lia).
  rewrite addrs_length by done. f_equal.
  - replace (Nat.min (Z.to_nat L - Z.to_nat o) (Z.to_nat want)) with (Z.to_nat cur) by lia.
    rewrite addrs_sub by lia. rewrite wrap_sub_l, addrs_wrap. f_equal. lia.
  - f_equal. lia.
Qed.

(** ... and when it is past it. *)
Lemma slice_past rest (o := offset - prev) :
  L <= o ->
  sub (Z.to_nat o) (Z.to_nat want) (addrs base L ++ rest) =
  sub (Z.to_nat (offset - (prev + L))) (Z.to_nat want) rest.
Proof using HL.
  intros Ho. rewrite sub_app_r by (rewrite addrs_length; lia).
  rewrite addrs_length by done. f_equal. lia.
Qed.
End Loops.

Lemma from_iov_loop_spec m dest_size l : forall prev offset acc (want := dest_size - len acc),
  Forall (fun v => 0 <= iov_len v) l -> 0 <= prev -> prev + iov_total l < 2 ^ 64 ->
  in_range 64 offset -> in_range 64 dest_size -> offset + want < 2 ^ 64 ->
  0 <= want -> (prev <= offset \/ want = 0) ->
  from_iov_loop m dest_size l prev offset acc =
  (bs ← gather m (sub (Z.to_nat (offset - prev)) (Z.to_nat want) (iov_addrs l)); Ok (acc ++ bs)).
Proof.
  induction l as [|v l IH]; intros prev offset acc want Hl Hp Hs Ho Hd How Hw Hinv.
  { simpl. unfold iov_addrs, sub. simpl. rewrite drop_nil, take_nil. simpl.
    by rewrite app_nil_r. }
  cbn [from_iov_loop]. apply Forall_cons in Hl as [Hv Hl].
  pose proof (iov_total_nonneg l Hl).
  rewrite iov_total_cons in Hs.
  assert (in_range 64 want) by (unfold in_range in *; lia).
  assert (u64 (prev + iov_len v) = prev + iov_len v) as Ep
    by (apply wrap_small; unfold in_range in *; lia).
  rewrite Ep. destruct (Z.ltb_spec (len acc) dest_size) as [Hlt|Hge]; simpl negb; cbv iota.
  2:{ replace want with 0 by lia. rewrite sub_0. simpl. by rewrite app_nil_r. }
  rewrite iov_addrs_cons.
  destruct (Z.leb_spec prev offset); [|lia]. simpl andb.
  destruct (Z.ltb_spec offset (prev + iov_len v)) as [Hin|Hout]; cbv iota.
  - assert (u64 (prev + iov_len v - offset) = prev + iov_len v - offset) as ->
      by (apply wrap_small; unfold in_range in *; lia).
    assert (u64 (dest_size - len acc) = want) as -> by (apply wrap_small; done).
    rewrite slice_inside by (done || lia).
    replace (iov_len v - (offset - prev)) with (prev + iov_len v - offset) by lia.
    set (cur := Z.min (prev + iov_len v - offset) want).
    rewrite gather_app. unfold mem_load.
    destruct (gather m (addrs (u64 (u64 (iov_base v + offset) - prev)) cur)) as [bs|f] eqn:E;
      [|done].
    cbn [mbind outcome_bind].
    assert (len bs = cur) as Hbs.
    { rewrite (gather_length _ _ _ E), addrs_length; lia. }
    assert (u64 (offset + cur) = offset + cur) as ->
      by (apply wrap_small; unfold in_range in *; lia).
    rewrite IH; rewrite ?length_app; try (done || unfold in_range in *; lia).
    replace (dest_size - Z.of_nat (length acc + length bs)) with (want - cur) by lia.
    replace (sub (Z.to_nat (offset + cur - (prev + iov_len v))) (Z.to_nat (want - cur)) (iov_addrs l))
      with (sub 0 (Z.to_nat (want - cur)) (iov_addrs l)).
    2:{ destruct (decide (want = cur));
      [replace (want - cur) with 0 by lia; by rewrite !sub_0|].
        f_equal. lia. }
    destruct (gather m (sub 0 (Z.to_nat (want - cur)) (iov_addrs l))); [|done].
    cbn [mbind outcome_bind]. by rewrite app_assoc.
  - rewrite slice_past by lia.
    apply IH; try (done || unfold in_range in *; lia).
Qed.

Lemma to_iov_loop_spec src src_size l : forall m prev pos offset (want := src_size - pos),
  Forall (fun v => 0 <= iov_len v) l -> 0 <= prev -> prev + iov_total l < 2 ^ 64 ->
  in_range 64 offset -> in_range 64 src_size -> offset + want < 2 ^ 64 ->
  0 <= pos -> 0 <= want -> src_size <= len src -> (prev <= offset \/ want = 0) ->
  to_iov_loop m l src src_size prev pos offset =
  scatter m (sub (Z.to_nat (offset - prev)) (Z.to_nat want) (iov_addrs l))
            (sub (Z.to_nat pos) (Z.to_nat want) src).
Proof.
  induction l as [|v l IH];
    intros m prev pos offset want Hl Hp Hs Ho Hd How Hpos Hw Hsrc Hinv.
  { simpl. unfold iov_addrs, sub. simpl. by rewrite drop_nil, take_nil. }
  cbn [to_iov_loop]. apply Forall_cons in Hl as [Hv Hl].
  pose proof (iov_total_nonneg l Hl).
  rewrite iov_total_cons in Hs.
  assert (in_range 64 want) by (unfold in_range in *; lia).
  assert (u64 (prev + iov_len v) = prev + iov_len v) as Ep
    by (apply wrap_small; unfold in_range in *; lia).
  rewrite Ep. destruct (Z.ltb_spec pos src_size) as [Hlt|Hge]; simpl negb; cbv iota.
  2:{ replace want with 0 by lia. by rewrite !sub_0. }
  rewrite iov_addrs_cons.
  destruct (Z.leb_spec prev offset); [|lia]. simpl andb.
  destruct (Z.ltb_spec offset (prev + iov_len v)) as [Hin|Hout]; cbv iota.
  - assert (u64 (prev + iov_len v - offset) = prev + iov_len v - offset) as ->
      by (apply wrap_small; unfold in_range in *; lia).
    assert (u64 (src_size - pos) = want) as -> by (apply wrap_small; done).
    rewrite slice_inside by (done || lia).
    replace (iov_len v - (offset - prev)) with (prev + iov_len v - offset) by lia.
    set (cur := Z.min (prev + iov_len v - offset) want).
    rewrite buf_load_in by lia. cbn [mbind outcome_bind].
    assert (length (sub (Z.to_nat pos) (Z.to_nat cur) src) = Z.to_nat cur) as Hlen
      by (apply sub_length; lia).
    replace (Z.to_nat want) with (Z.to_nat cur + Z.to_nat (want - cur))%nat by lia.
    rewrite (sub_add (Z.to_nat pos)), scatter_app by (rewrite addrs_length, Hlen; lia).
    unfold mem_store. rewrite Hlen, Z2Nat.id by lia.
    destruct (scatter m _ _) as [m1|f]; [|done]. cbn [mbind outcome_bind].
    assert (u64 (offset + cur) = offset + cur) as ->
      by (apply wrap_small; unfold in_range in *; lia).
    assert (u64 (pos + cur) = pos + cur) as ->
      by (apply wrap_small; unfold in_range in *; lia).
    rewrite IH; try (done || unfold in_range in *; lia).
    replace (src_size - (pos + cur)) with (want - cur) by lia.
    replace (Z.to_nat (pos + cur)) with (Z.to_nat pos + Z.to_nat cur)%nat by lia.
    f_equal. destruct (decide (want = cur));
      [replace (want - cur) with 0 by lia; by rewrite !sub_0|].
    f_equal. lia.
  - rewrite slice_past by lia. apply IH; try (done || unfold in_range in *; lia).
Qed.

Lemma memcpy_from_iov_ref m dest l offset :
  iov_wf l -> in_range 64 offset -> offset + len dest < 2 ^ 64 ->
  memcpy_from_iov m dest l offset =
  (bs ← gather m (sub (Z.to_nat offset) (length dest) (iov_addrs l));
   Ok (bs ++ drop (length bs) dest)).
Proof.
  intros [Hl Ht] Ho Hd. unfold memcpy_from_iov. destruct Ho.
  rewrite from_iov_loop_spec; simpl length; try (done || unfold in_range; lia).
  rewrite !Z.sub_0_r, Nat2Z.id. by destruct (gather m _).
Qed.

Lemma memcpy_to_iov_ref m l src n offset :
  iov_wf l -> in_range 64 offset -> 0 <= n <= len src -> offset + n < 2 ^ 64 ->
  memcpy_to_iov m l src n offset =
  scatter m (sub (Z.to_nat offset) (Z.to_nat n) (iov_addrs l)) (take (Z.to_nat n) src).
Proof.
  intros [Hl Ht] Ho Hn Hd. unfold memcpy_to_iov. destruct Ho.
  rewrite to_iov_loop_spec; try (done || unfold in_range; lia).
  rewrite !Z.sub_0_r. unfold sub. by rewrite drop_0.
Qed.

(** A scatter into distinct addresses splices the bytes into what the whole
    sequence holds. *)
Lemma scatter_splice (m : gmap Z Z) l data off vs :
  NoDup l -> gather m l = Ok data -> (off + length vs <= length l)%nat ->
  exists m', scatter m (sub off (length vs) l) vs = Ok m' /\
    gather m' l = Ok (splice off vs data) /\
    (forall a, a ∉ sub off (length vs) l -> m' !! a = m !! a).
Proof.
  intros Hnd Hg Hlen. pose proof (gather_length _ _ _ Hg) as Hdl.
  assert (Forall (fun a => is_Some (m !! a)) l) as Hmap
    by (apply gather_ok_iff; eauto).
  rewrite (sub_decompose off (length vs) l), !Forall_app in Hmap.
  destruct Hmap as (_ & Hmap & _). destruct (scatter_ok m _ vs Hmap) as [m' E].
  exists m'. split; [done|].
  assert (forall a, a ∉ sub off (length vs) l -> m' !! a = m !! a) as Hframe
    by (intros; by eapply scatter_frame).
  split; [|done]. rewrite (sub_decompose off (length vs) l) in Hnd.
  apply NoDup_app in Hnd as (_ & Hd1 & Hnd). apply NoDup_app in Hnd as (Hnd & Hd2 & _).
  rewrite (sub_decompose off (length vs) l), !gather_app.
  assert (gather m (take off l) = Ok (take off data)) as G1.
  { pose proof (gather_sub m l data 0 off Hg) as G. unfold sub in G.
    by rewrite !drop_0 in G. }
  assert (gather m (drop (off + length vs) l) = Ok (drop (off + length vs) data)) as G3.
  { pose proof (gather_sub m l data (off + length vs) (length l) Hg) as G.
    unfold sub in G. rewrite !take_ge in G; [done|rewrite length_drop; lia..]. }
  rewrite (gather_frame m m' _ _ (fun a Ha => Hframe a
    (fun Hin => Hd1 a Ha (proj2 (elem_of_app _ _ _) (or_introl Hin)))) G1).
  rewrite (scatter_gather _ _ _ _ E Hnd) by (rewrite sub_length; lia).
  rewrite (gather_frame m m' _ _ (fun a Ha => Hframe a (fun Hin => Hd2 a Hin Ha)) G3).
  done.
Qed.

(** Memcpy_from_iov equals a slice of the concatenated buffers of the
    scatter/gather list. *)
Theorem memcpy_from_iov_slice (m : gmap Z Z) (dest : bytes) (l : list iovec)
    (offset : Z) (data : bytes) :
  iov_wf l -> gather m (iov_addrs l) = Ok data ->
  0 <= offset -> offset + len dest <= iov_total l ->
  memcpy_from_iov m dest l offset = Ok (sub (Z.to_nat offset) (length dest) data).
Proof.
  intros Hl Hg Ho Hd. destruct Hl as [Hl Ht].
  rewrite memcpy_from_iov_ref by (done || unfold in_range; lia).
  rewrite (gather_sub _ _ _ _ _ Hg). cbn [mbind outcome_bind].
  pose proof (gather_length _ _ _ Hg) as Hlen. rewrite iov_addrs_length in Hlen by done.
  rewrite sub_length by lia. by rewrite drop_all, app_nil_r.
Qed.

(** C27: Memcpy_to_iov equals a splice into the concatenated buffers of the
    scatter/gather list: it writes the bytes at the offset, keeps the others,
    and touches no address outside the list. *)
Theorem memcpy_to_iov_splice (m : gmap Z Z) (l : list iovec) (src : bytes)
    (n offset : Z) (data : bytes) :
  iov_wf l -> NoDup (iov_addrs l) -> gather m (iov_addrs l) = Ok data ->
  0 <= offset -> 0 <= n <= len src -> offset + n <= iov_total l ->
  exists m', memcpy_to_iov m l src n offset = Ok m' /\
    gather m' (iov_addrs l) = Ok (splice (Z.to_nat offset) (take (Z.to_nat n) src) data) /\
    (forall a, a ∉ iov_addrs l -> m' !! a = m !! a).
Proof.
  intros Hl Hnd Hg Ho Hn Hd. destruct Hl as [Hl Ht].
  rewrite memcpy_to_iov_ref by (done || unfold in_range; lia).
  destruct (scatter_splice m (iov_addrs l) data (Z.to_nat offset) (take (Z.to_nat n) src))
    as (m' & E & G & F); [done..|rewrite iov_addrs_length, length_take by done; lia|].
  rewrite length_take, Nat.min_l in * by lia. exists m'. split_and!; [done..|].
  intros a Ha. apply F. intros Hin. by apply Ha, (elem_of_sub a _ _ _ Hin).
Qed.

(** Two elements, the copy crossing from one into the other. *)
Definition demo_mem : gmap Z Z := list_to_map (zip (seqZ 100 12) (seqZ 0 12)).
Definition demo_iov : list iovec := [Iovec 104 3; Iovec 110 2].

Lemma memcpy_from_iov_slice_witness :
  memcpy_from_iov demo_mem [0; 0; 0] demo_iov 1 = Ok [5; 6; 10].
Proof.
  apply (memcpy_from_iov_slice demo_mem [0; 0; 0] demo_iov 1 [4; 5; 6; 10; 11]);
    [|vm_compute; reflexivity|lia|vm_compute; discriminate].
  split; [repeat constructor; vm_compute; discriminate|vm_compute; reflexivity].
Defined.

Lemma memcpy_to_iov_splice_witness :
  exists m', memcpy_to_iov demo_mem demo_iov [7; 8; 9] 3 1 = Ok m' /\
    gather m' (iov_addrs demo_iov) = Ok [4; 7; 8; 9; 11] /\
    (forall a, a ∉ iov_addrs demo_iov -> m' !! a = demo_mem !! a).
Proof.
  apply (memcpy_to_iov_splice demo_mem demo_iov [7; 8; 9] 3 1 [4; 5; 6; 10; 11]);
    [|apply (bool_decide_unpack _); vm_compute; exact I|vm_compute; reflexivity|lia
     |vm_compute; split; discriminate|vm_compute; discriminate].
  split; [repeat constructor; vm_compute; discriminate|vm_compute; reflexivity].
Defined.
