(* ===== verification/State.v ===== *)
(** * Data of liburdma (src/liburdma/interface.h, include/urdmad_private.h)

    The structures of the user-space driver as records, and the state and
    fault monad in which its functions are written.  A pointer to an entry of
    an array (a work queue entry, a completion, a read response slot) is the
    entry's index; pointers that the code stores and compares only to NULL are
    [option]s. *)
From S2P Require Import Prelude Dpdk Binheap Iov.

(** ** Enumerations *)

(** [enum urdma_qp_state], with the numeric values the code compares. *)
Inductive urdma_qp_state :=
| usiw_qp_unbound
| usiw_qp_connected
| usiw_qp_running
| usiw_qp_shutdown
| usiw_qp_error.

#[export] Instance urdma_qp_state_eq_dec : EqDecision urdma_qp_state.
Proof. solve_decision. Defined.

Definition qp_state_val (s : urdma_qp_state) : Z :=
  match s with
  | usiw_qp_unbound => 0
  | usiw_qp_connected => 1
  | usiw_qp_running => 2
  | usiw_qp_shutdown => 3
  | usiw_qp_error => 4
  end.

(** [enum usiw_send_wqe_state] *)
Inductive usiw_send_wqe_state :=
| SEND_WQE_INIT
| SEND_WQE_TRANSFER
| SEND_WQE_WAIT
| SEND_WQE_COMPLETE.

#[export] Instance send_wqe_state_eq_dec : EqDecision usiw_send_wqe_state.
Proof. solve_decision. Defined.

(** [enum usiw_send_opcode] *)
Inductive usiw_send_opcode :=
| usiw_wr_send
| usiw_wr_write
| usiw_wr_read.

#[export] Instance send_opcode_eq_dec : EqDecision usiw_send_opcode.
Proof. solve_decision. Defined.

(** The completion statuses and opcodes of libibverbs that the code reports. *)
Inductive ibv_wc_status :=
| IBV_WC_SUCCESS
| IBV_WC_WR_FLUSH_ERR
| IBV_WC_REM_ACCESS_ERR
| IBV_WC_RETRY_EXC_ERR
| IBV_WC_FATAL_ERR.

#[export] Instance wc_status_eq_dec : EqDecision ibv_wc_status.
Proof. solve_decision. Defined.

Inductive ibv_wc_opcode :=
| IBV_WC_SEND
| IBV_WC_RDMA_WRITE
| IBV_WC_RDMA_READ
| IBV_WC_RECV.

#[export] Instance wc_opcode_eq_dec : EqDecision ibv_wc_opcode.
Proof. solve_decision. Defined.

Definition usiw_send_signaled : Z := 1.
Definition usiw_send_inline : Z := 2.
Definition usiw_qp_sig_all : Z := 1.
Definition trp_recv_missing : Z := 1.
Definition trp_ack_update : Z := 2.
Definition port_checksum_offload : Z := 1.
Definition port_fdir : Z := 2.

Definition RETRANSMIT_MAX : Z := 5.

(** ** Work queue entries *)

(** The flexible array member [iov] of a send work queue entry holds either
    scatter/gather elements or, for an inline request, the data itself. *)
Inductive wqe_data :=
| WIov (l : list iovec)
| WInline (bs : bytes).

Record usiw_send_wqe := SendWqe {
  s_opcode : usiw_send_opcode;
  s_wr_context : Z;
  s_remote_addr : Z;
  s_rkey : Z;
  s_flags : Z;
  s_state : usiw_send_wqe_state;
  s_msn : Z;
  s_local_stag : Z;
  s_total_length : Z;
  s_bytes_sent : Z;
  s_bytes_acked : Z;
  s_data : wqe_data
}.
#[export] Instance send_wqe_settable : Settable usiw_send_wqe := fun w =>
  SendWqe (s_opcode w) (s_wr_context w) (s_remote_addr w) (s_rkey w) (s_flags w)
    (s_state w) (s_msn w) (s_local_stag w) (s_total_length w) (s_bytes_sent w)
    (s_bytes_acked w) (s_data w).

Record usiw_recv_wqe := RecvWqe {
  r_wr_context : Z;
  r_msn : Z;
  r_complete : bool;
  r_total_request_size : Z;
  r_recv_size : Z;
  r_input_size : Z;
  r_iov : list iovec
}.
#[export] Instance recv_wqe_settable : Settable usiw_recv_wqe := fun w =>
  RecvWqe (r_wr_context w) (r_msn w) (r_complete w) (r_total_request_size w)
    (r_recv_size w) (r_input_size w) (r_iov w).

Record usiw_wc := Wc {
  wc_wr_context : Z;
  wc_status : ibv_wc_status;
  wc_opcode : ibv_wc_opcode;
  wc_byte_len : Z;
  wc_qp_num : Z
}.
#[export] Instance wc_settable : Settable usiw_wc := fun w =>
  Wc (wc_wr_context w) (wc_status w) (wc_opcode w) (wc_byte_len w) (wc_qp_num w).

(** ** Transmit window *)

(** [struct pending_datagram_info], kept in the private area of the mbuf. *)
Record pending_datagram_info := Pending {
  p_next_retransmit : Z;
  p_wqe : option nat;
  p_readresp : option nat;
  p_transmit_count : Z;
  p_ddp_length : Z;
  p_ddp_raw_cksum : Z;
  p_psn : Z
}.
#[export] Instance pending_settable : Settable pending_datagram_info := fun p =>
  Pending (p_next_retransmit p) (p_wqe p) (p_readresp p) (p_transmit_count p)
    (p_ddp_length p) (p_ddp_raw_cksum p) (p_psn p).

(** A DDP segment waiting for its acknowledgement: an mbuf with its address,
    its data and its private area. *)
Record tx_mbuf := TxMbuf {
  mb_addr : Z;
  mb_data : bytes;
  mb_info : pending_datagram_info
}.
#[export] Instance tx_mbuf_settable : Settable tx_mbuf := fun m =>
  TxMbuf (mb_addr m) (mb_data m) (mb_info m).

(** A slot of [tx_pending]: NULL, a pointer to a segment, or a 64-bit value
    that points to no mbuf. *)
Inductive tx_slot :=
| Null
| Seg (m : tx_mbuf)
| Wild (w : Z).

Definition is_null (s : tx_slot) : bool :=
  match s with Null => true | _ => false end.

(** The machine word stored in a slot. *)
Definition slot_word (s : tx_slot) : Z :=
  match s with Null => 0 | Seg m => mb_addr m | Wild w => w end.

Record psn_range := PsnRange { psn_min : Z; psn_max : Z }.
#[export] Instance psn_range_settable : Settable psn_range := fun r =>
  PsnRange (psn_min r) (psn_max r).

(** [struct ee_state]; [tx_head] is the index of the slot it points to. *)
Record ee_state := EeState {
  expected_read_msn : Z;
  next_send_msn : Z;
  next_read_msn : Z;
  send_last_acked_psn : Z;
  send_next_psn : Z;
  send_max_psn : Z;
  recv_ack_psn : Z;
  recv_rresp_last_psn : binheap;
  trp_flags : Z;
  recv_sack_psn : psn_range;
  tx_pending : list tx_slot;
  tx_head : nat;
  tx_pending_size : Z
}.
#[export] Instance ee_state_settable : Settable ee_state := fun e =>
  EeState (expected_read_msn e) (next_send_msn e) (next_read_msn e)
    (send_last_acked_psn e) (send_next_psn e) (send_max_psn e) (recv_ack_psn e)
    (recv_rresp_last_psn e) (trp_flags e) (recv_sack_psn e) (tx_pending e)
    (tx_head e) (tx_pending_size e).

Record read_response_state := ReadResp {
  rr_vaddr : Z;
  rr_msg_size : Z;
  rr_sink_stag : Z;
  rr_sink_offset : Z;
  rr_active : bool
}.
#[export] Instance read_resp_settable : Settable read_response_state := fun r =>
  ReadResp (rr_vaddr r) (rr_msg_size r) (rr_sink_stag r) (rr_sink_offset r) (rr_active r).

(** ** Memory regions *)

(** [struct usiw_mr]; [mr_id] identifies the heap object. *)
Record usiw_mr := Mr {
  mr_id : nat;
  mr_addr : Z;
  mr_length : Z;
  mr_rkey : Z;
  mr_access : Z
}.

(** [struct usiw_mr_table]: [entries] are hash chains. *)
Record usiw_mr_table := MrTable {
  mt_capacity : Z;
  mt_mr_count : Z;
  mt_entries : list (list usiw_mr)
}.
#[export] Instance mr_table_settable : Settable usiw_mr_table := fun t =>
  MrTable (mt_capacity t) (mt_mr_count t) (mt_entries t).

(** ** Shared queue pair data and device *)

Record urdmad_qp := ShmQp {
  conn_state : urdma_qp_state;
  ord_max : Z;
  ird_max : Z;
  shm_dev_id : Z;
  shm_qp_id : Z;
  local_udp_port : Z;
  remote_udp_port : Z;
  remote_ipv4_addr : Z;
  remote_ether_addr : bytes;
  tx_desc_count : Z;
  rx_burst_size : Z;
  tx_burst_size : Z;
  shm_mtu : Z
}.
#[export] Instance shm_qp_settable : Settable urdmad_qp := fun s =>
  ShmQp (conn_state s) (ord_max s) (ird_max s) (shm_dev_id s) (shm_qp_id s)
    (local_udp_port s) (remote_udp_port s) (remote_ipv4_addr s)
    (remote_ether_addr s) (tx_desc_count s) (rx_burst_size s) (tx_burst_size s)
    (shm_mtu s).

Record usiw_device := Device {
  dev_portid : Z;
  dev_max_qp : Z;
  dev_flags : Z;
  dev_ether_addr : bytes;
  dev_ipv4_addr : Z
}.

Record urdma_qp_stats := Stats {
  recv_count_histo : list Z;
  recv_psn_gap_count : Z;
  recv_retransmit_count : Z;
  recv_sack_count : Z
}.
#[export] Instance stats_settable : Settable urdma_qp_stats := fun s =>
  Stats (recv_count_histo s) (recv_psn_gap_count s) (recv_retransmit_count s)
    (recv_sack_count s).

(** ** Queues, completion queues and queue pairs *)

Section WithDpdk.
Context {D : Dpdk}.

Record usiw_send_wqe_queue := SendQueue {
  sq_ring : ring;
  sq_free_ring : ring;
  sq_active : list nat;
  sq_storage : list usiw_send_wqe;
  sq_max_wr : Z;
  sq_max_sge : Z;
  sq_max_inline : Z
}.
#[export] Instance send_queue_settable : Settable usiw_send_wqe_queue := fun q =>
  SendQueue (sq_ring q) (sq_free_ring q) (sq_active q) (sq_storage q)
    (sq_max_wr q) (sq_max_sge q) (sq_max_inline q).

Record usiw_recv_wqe_queue := RecvQueue {
  rq_ring : ring;
  rq_free_ring : ring;
  rq_active : list nat;
  rq_next_msn : Z;
  rq_storage : list usiw_recv_wqe;
  rq_max_wr : Z;
  rq_max_sge : Z
}.
#[export] Instance recv_queue_settable : Settable usiw_recv_wqe_queue := fun q =>
  RecvQueue (rq_ring q) (rq_free_ring q) (rq_active q) (rq_next_msn q)
    (rq_storage q) (rq_max_wr q) (rq_max_sge q).

Record usiw_cq := Cq {
  cq_ring : ring;
  cq_free_ring : ring;
  cq_storage : list usiw_wc;
  cq_capacity : Z;
  cq_qp_count : Z;
  cq_id : Z;
  cq_refcnt : Z;
  cq_notify_flag : bool
}.
#[export] Instance cq_settable : Settable usiw_cq := fun c =>
  Cq (cq_ring c) (cq_free_ring c) (cq_storage c) (cq_capacity c) (cq_qp_count c)
    (cq_id c) (cq_refcnt c) (cq_notify_flag c).

(** [struct usiw_qp]: [qp_txq] holds the frames between [txq] and [txq_end];
    [qp_send_cq] and [qp_recv_cq] may be the same completion queue. *)
Record usiw_qp := Qp {
  qp_refcnt : Z;
  shm_qp : urdmad_qp;
  qp_flags : Z;
  qp_dev : usiw_device;
  qp_send_cq : nat;
  qp_recv_cq : nat;
  qp_txq : list bytes;
  qp_sq : usiw_send_wqe_queue;
  qp_rq0 : usiw_recv_wqe_queue;
  qp_stats : urdma_qp_stats;
  readresp_store : list read_response_state;
  readresp_head_msn : Z;
  ord_active : Z;
  remote_ep : ee_state;
  qp_num : Z
}.
#[export] Instance qp_settable : Settable usiw_qp := fun q =>
  Qp (qp_refcnt q) (shm_qp q) (qp_flags q) (qp_dev q) (qp_send_cq q) (qp_recv_cq q)
    (qp_txq q) (qp_sq q) (qp_rq0 q) (qp_stats q) (readresp_store q)
    (readresp_head_msn q) (ord_active q) (remote_ep q) (qp_num q).

(** The part of [struct usiw_context] that concerns queue pairs: their numbers
    in the hash table and in the list of the progress thread, and the number
    of those in the INIT state. *)
Record usiw_context := Context_ { qp_init_count : Z; ctx_qp : list Z; qp_active : list Z }.
#[export] Instance context_settable : Settable usiw_context := fun c =>
  Context_ (qp_init_count c) (ctx_qp c) (qp_active c).

(** Everything a call on a queue pair can touch: the queue pair, the
    completion queues, the memory regions of its protection domain,
    application memory, DPDK, the frames handed to the port so far, the
    completion events written to the kernel and the context of the queue pair.  [w_tx_bound] is the number of
    transmit calls after which the model gives up on a port that does not
    drain. *)
Record world := World {
  w_qp : usiw_qp;
  w_cqs : list usiw_cq;
  w_pd : usiw_mr_table;
  w_mem : gmap Z Z;
  w_env : env;
  w_wire : list bytes;
  w_events : list Z;
  w_ctx : usiw_context;
  w_tx_bound : nat
}.
#[export] Instance world_settable : Settable world := fun w =>
  World (w_qp w) (w_cqs w) (w_pd w) (w_mem w) (w_env w) (w_wire w) (w_events w)
    (w_ctx w) (w_tx_bound w).

(** ** The state and fault monad *)

Definition M (A : Type) : Type := world -> outcome (A * world).
#[export] Instance M_ret : MRet M := fun A a w => Ok (a, w).
#[export] Instance M_bind : MBind M := fun A B f m w =>
  match m w with Ok (a, w') => f a w' | Fault e => Fault e end.

Definition lift {A} (o : outcome A) : M A := fun w =>
  match o with Ok a => Ok (a, w) | Fault e => Fault e end.
Definition gets {A} (f : world -> A) : M A := fun w => Ok (f w, w).
Definition modify (f : world -> world) : M unit := fun w => Ok (tt, f w).
Definition fail {A} (f : fault) : M A := fun _ => Fault f.

(** Updates of the parts of a queue pair. *)
Definition upd_qp (f : usiw_qp -> usiw_qp) : M unit := modify (update w_qp f).
Definition upd_ep (f : ee_state -> ee_state) : M unit := upd_qp (update remote_ep f).
Definition upd_sq (f : usiw_send_wqe_queue -> usiw_send_wqe_queue) : M unit :=
  upd_qp (update qp_sq f).
Definition upd_rq (f : usiw_recv_wqe_queue -> usiw_recv_wqe_queue) : M unit :=
  upd_qp (update qp_rq0 f).

Definition the_qp : M usiw_qp := gets w_qp.
Definition the_ep : M ee_state := gets (fun w => remote_ep (w_qp w)).

(** Access to a work queue entry through a pointer. *)
Definition get_swqe (i : nat) : M usiw_send_wqe :=
  fun w => v ← deref (sq_storage (qp_sq (w_qp w)) !! i); Ok (v, w).
Definition upd_swqe (i : nat) (f : usiw_send_wqe -> usiw_send_wqe) : M unit :=
  upd_sq (update sq_storage (alter f i)).
Definition get_rwqe (i : nat) : M usiw_recv_wqe :=
  fun w => v ← deref (rq_storage (qp_rq0 (w_qp w)) !! i); Ok (v, w).
Definition upd_rwqe (i : nat) (f : usiw_recv_wqe -> usiw_recv_wqe) : M unit :=
  upd_rq (update rq_storage (alter f i)).
End WithDpdk.

(** [run_ok] takes apart a hypothesis that says that a sequence of calls
    returned. *)
Lemma M_bind_ok `{D : Dpdk} {A B} (m : M A) (f : A -> M B) w b w' :
  (m ≫= f) w = Ok (b, w') -> exists a w1, m w = Ok (a, w1) /\ f a w1 = Ok (b, w').
Proof.
  unfold mbind, M_bind. destruct (m w) as [[a w1]|e]; [|done]. eauto.
Qed.
