(* ===== verification/TrpRx.v ===== *)
(** * TRP receiver (src/liburdma/interface.c, process_data_packet)

    The part of [process_data_packet] that decides, from the packet sequence
    number, whether a DDP segment is new, and that maintains the cumulative
    and the selective acknowledgement.  It is refined to a specification over
    unbounded sequence numbers: the segments delivered to the DDP layer are
    exactly the received set, each of them once, and what is acknowledged is
    what was delivered. *)
From S2P Require Import Prelude Serial State.

(** The sequence number tests of [process_data_packet]: whether the segment
    goes on to the DDP layer, the receiver state and the statistics. *)
Definition trp_rx (ep : ee_state) (st : urdma_qp_stats) (psn : Z)
  : bool * ee_state * urdma_qp_stats :=
  if psn =? recv_ack_psn ep then
    let ep1 := ep <| recv_ack_psn ::= fun a => u32 (a + 1) |> in
    let ep2 :=
      if has (trp_flags ep1) trp_recv_missing
         && (recv_ack_psn ep1 =? psn_min (recv_sack_psn ep1))
      then ep1 <| recv_ack_psn := psn_max (recv_sack_psn ep1) |>
               <| trp_flags ::= fun f => clear_bits f trp_recv_missing |>
      else ep1 in
    (true, ep2 <| trp_flags ::= fun f => set_bits f trp_ack_update |>, st)
  else if serial_less_32 (recv_ack_psn ep) psn then
    let st1 := st <| recv_psn_gap_count ::= fun c => u64 (c + 1) |> in
    if has (trp_flags ep) trp_recv_missing then
      if psn =? psn_max (recv_sack_psn ep) then
        (true, ep <| recv_sack_psn ::= update psn_max (fun _ => u32 (psn + 1)) |>
                  <| trp_flags ::= fun f => set_bits f trp_ack_update |>, st1)
      else if u32 (psn + 1) =? psn_min (recv_sack_psn ep) then
        let ep1 := ep <| recv_sack_psn ::= update psn_min (fun _ => psn) |> in
        let ep2 :=
          if psn_min (recv_sack_psn ep1) =? recv_ack_psn ep1
          then ep1 <| recv_ack_psn := psn_max (recv_sack_psn ep1) |>
                   <| trp_flags ::= fun f => clear_bits f trp_recv_missing |>
          else ep1 in
        (true, ep2 <| trp_flags ::= fun f => set_bits f trp_ack_update |>, st1)
      else if serial_less_32 psn (psn_min (recv_sack_psn ep))
              || serial_greater_32 psn (psn_max (recv_sack_psn ep)) then
        (false, ep, st1)
      else (false, ep, st1)
    else
      (true, ep <| trp_flags ::= fun f => set_bits f (Z.lor trp_recv_missing trp_ack_update) |>
                <| recv_sack_psn := PsnRange psn (u32 (psn + 1)) |>, st1)
  else
    (false, ep, st <| recv_retransmit_count ::= fun c => u64 (c + 1) |>).

(** ** Specification over unbounded sequence numbers *)

(** Every number below [ra_ack] was received, and the interval [ra_range]
    beyond the hole, if there is one. *)
Record rx_abs := RxAbs { ra_ack : Z; ra_range : option (Z * Z) }.

Definition received (a : rx_abs) (n : Z) : Prop :=
  n < ra_ack a \/ exists lo hi, ra_range a = Some (lo, hi) /\ lo <= n < hi.

Definition rx_spec (a : rx_abs) (n : Z) : bool * rx_abs :=
  if n =? ra_ack a then
    (true,
     match ra_range a with
     | Some (lo, hi) =>
         if ra_ack a + 1 =? lo then RxAbs hi None else RxAbs (ra_ack a + 1) (Some (lo, hi))
     | None => RxAbs (ra_ack a + 1) None
     end)
  else if ra_ack a <? n then
    match ra_range a with
    | None => (true, RxAbs (ra_ack a) (Some (n, n + 1)))
    | Some (lo, hi) =>
        if n =? hi then (true, RxAbs (ra_ack a) (Some (lo, n + 1)))
        else if n + 1 =? lo then (true, RxAbs (ra_ack a) (Some (n, hi)))
        else (false, a)
    end
  else (false, a).

(** Numbers within 2^30 of the cumulative acknowledgement; the window of the
    sender is at most half of the 16-bit transmit descriptor count. *)
Definition window : Z := 2 ^ 30.
Definition in_window (a : rx_abs) (n : Z) : Prop :=
  ra_ack a - window <= n < ra_ack a + window.

Definition abs_wf (a : rx_abs) : Prop :=
  match ra_range a with
  | None => True
  | Some (lo, hi) => ra_ack a < lo < hi /\ hi <= ra_ack a + window
  end.

(** The driver state holds the low 32 bits of the specification's numbers. *)
Definition rx_rep (ep : ee_state) (a : rx_abs) : Prop :=
  abs_wf a /\ recv_ack_psn ep = u32 (ra_ack a) /\
  match ra_range a with
  | None => has (trp_flags ep) trp_recv_missing = false
  | Some (lo, hi) => has (trp_flags ep) trp_recv_missing = true /\
      recv_sack_psn ep = PsnRange (u32 lo) (u32 hi)
  end.

Fixpoint trp_rx_run (ep : ee_state) (st : urdma_qp_stats) (psns : list Z)
  : list bool * ee_state * urdma_qp_stats :=
  match psns with
  | [] => ([], ep, st)
  | p :: r =>
      let '(d, ep1, st1) := trp_rx ep st p in
      let '(ds, ep2, st2) := trp_rx_run ep1 st1 r in
      (d :: ds, ep2, st2)
  end.

(** The numbers whose segments were delivered, in order of arrival. *)
Fixpoint delivered (ns : list Z) (ds : list bool) : list Z :=
  match ns, ds with
  | n :: ns', d :: ds' => if d then n :: delivered ns' ds' else delivered ns' ds'
  | _, _ => []
  end.

(** Each number of the run is in the window when it arrives. *)
Fixpoint run_in_window (a : rx_abs) (ns : list Z) : Prop :=
  match ns with
  | [] => True
  | n :: r => in_window a n /\ run_in_window (snd (rx_spec a n)) r
  end.

(** ** Lemmas on the specification *)

Lemma rx_spec_wf a n : abs_wf a -> in_window a n -> abs_wf (snd (rx_spec a n)).
Proof.
  unfold rx_spec, abs_wf, in_window. intros Hwf Hn.
  destruct a as [ack [[lo hi]|]]; simpl in *;
    repeat (case_match; simplify_eq/=; try done; try lia).
Qed.

Lemma received_none ack m : received (RxAbs ack None) m <-> m < ack.
Proof. unfold received. simpl. split; [intros [?|(? & ? & ? & ?)]; done|auto]. Qed.

Lemma received_some ack lo hi m :
  received (RxAbs ack (Some (lo, hi))) m <-> m < ack \/ lo <= m < hi.
Proof.
  unfold received. simpl. split.
  - intros [?|(? & ? & [= <- <-] & ?)]; auto.
  - intros [?|?]; [auto|]. right. eauto.
Qed.

(** Case analysis on the specification, with the received sets as
    inequalities. *)
Ltac rx_cases a :=
  destruct a as [?ack [[?lo ?hi]|]]; unfold rx_spec, abs_wf, in_window in *; simpl in *;
  repeat (case_match; simplify_eq/=);
  rewrite ?received_none, ?received_some; try (intuition (simplify_eq; lia)).

Lemma rx_spec_received a n m :
  abs_wf a -> in_window a n ->
  received (snd (rx_spec a n)) m <-> received a m \/ (fst (rx_spec a n) = true /\ m = n).
Proof. intros Hwf Hn. rx_cases a. Qed.

Lemma rx_spec_fresh a n : abs_wf a -> fst (rx_spec a n) = true -> ~ received a n.
Proof. intros Hwf Hd. rx_cases a. Qed.

(** The expected number is always delivered, and without a hole so is every
    number not received yet. *)
Lemma rx_spec_progress a n :
  n = ra_ack a \/ (ra_range a = None /\ ra_ack a <= n) -> fst (rx_spec a n) = true.
Proof.
  intros Hn. rx_cases a.
Qed.

(** ** Refinement *)

Section Step.
Variables (ep : ee_state) (st : urdma_qp_stats) (a : rx_abs) (n : Z).
Hypothesis Hrep : rx_rep ep a.
Hypothesis Hwin : in_window a n.

(** The comparisons of the driver are those of the specification. *)
Lemma rx_cmp m :
  ra_ack a <= m <= ra_ack a + window ->
  (u32 n =? u32 m) = (n =? m) /\ (u32 (u32 n + 1) =? u32 m) = (n + 1 =? m).
Proof using Hwin.
  unfold in_window in Hwin. assert (window = 1073741824) as W by done. intros Hm.
  rewrite wrap_add_l. split; apply u32_eqb_wrap; lia.
Qed.

Lemma rx_ahead : serial_less_32 (recv_ack_psn ep) (u32 n) = (ra_ack a <? n).
Proof using Hrep Hwin.
  unfold in_window in Hwin. destruct Hrep as (_ & -> & _).
  assert (window = 1073741824) as W by done. apply serial_less_wrap. lia.
Qed.

Lemma trp_rx_refines :
  let '(d, ep', _) := trp_rx ep st (u32 n) in
  let '(d', a') := rx_spec a n in
  d = d' /\ rx_rep ep' a' /\ (d = true -> has (trp_flags ep') trp_ack_update = true).
Proof using Hrep Hwin.
  pose proof (rx_spec_wf a n (proj1 Hrep) Hwin) as Hwf'. revert Hwf'.
  pose proof rx_ahead as Hahead. pose proof Hrep as (Hwf & Hack & Hrange).
  assert (0 <= window) by done.
  unfold trp_rx, rx_spec. rewrite Hack in Hahead |- *.
  rewrite (proj1 (rx_cmp (ra_ack a) ltac:(lia))), Hahead.
  destruct (Z.eqb_spec n (ra_ack a)) as [->|Hne].
  - simpl. destruct (ra_range a) as [[lo hi]|] eqn:Er; simpl.
    + destruct Hrange as [Hm Hs]. rewrite Hm, Hs, Hack, wrap_add_l. simpl.
      unfold abs_wf in Hwf. rewrite Er in Hwf.
      assert (window = 1073741824) as W by done.
      rewrite u32_eqb_wrap by lia.
      destruct (Z.eqb_spec (ra_ack a + 1) lo); simpl; intros Hwf'; split_and!; try done.
      * split_and!; simpl; try done.
        rewrite has_set_other, has_clear_bits by done. done.
      * intros _. by apply has_set_bits.
      * split_and!; simpl; rewrite ?Hack, ?wrap_add_l; try done.
        rewrite has_set_other by done. done.
      * intros _. by apply has_set_bits.
    + rewrite Hrange. simpl. intros Hwf'. split_and!; try done.
      * split_and!; simpl; rewrite ?Hack, ?wrap_add_l; try done.
        rewrite has_set_other by done. done.
      * intros _. by apply has_set_bits.
  - destruct (Z.ltb_spec (ra_ack a) n) as [Hlt|Hge]; [|by intros].
    destruct (ra_range a) as [[lo hi]|] eqn:Er; simpl.
    + destruct Hrange as [Hm Hs]. rewrite Hm, Hs. simpl.
      unfold abs_wf in Hwf. rewrite Er in Hwf. unfold in_window in Hwin.
      rewrite (proj1 (rx_cmp hi ltac:(lia))), (proj2 (rx_cmp lo ltac:(lia))).
      destruct (Z.eqb_spec n hi) as [->|Hnh]; simpl.
      { intros Hwf'. split_and!; try done; [|intros _; by apply has_set_bits].
        split_and!; simpl; try done. rewrite has_set_other by done.
        split; [done|]. by rewrite wrap_add_l. }
      destruct (Z.eqb_spec (n + 1) lo) as [Hnl|Hnl]; simpl.
      { rewrite Hack. simpl. rewrite (proj1 (rx_cmp (ra_ack a) ltac:(lia))).
        destruct (Z.eqb_spec n (ra_ack a)); [done|]. simpl.
        intros Hwf'. split_and!; try done; [|intros _; by apply has_set_bits].
        split_and!; simpl; try done. rewrite has_set_other by done. done. }
      intros _. destruct (_ || _); done.
    + rewrite Hrange. simpl. intros Hwf'. split_and!; try done.
      * split_and!; simpl; try done. rewrite wrap_add_l. split; [|done].
        rewrite set_bits_lor, set_bits_comm. by apply has_set_bits.
      * intros _. rewrite set_bits_lor. by apply has_set_bits.
Qed.
End Step.

Lemma trp_rx_run_refines ns : forall ep st a,
  rx_rep ep a -> run_in_window a ns ->
  exists a', let '(ds, ep', _) := trp_rx_run ep st (u32 <$> ns) in
    rx_rep ep' a' /\ length ds = length ns /\
    NoDup (delivered ns ds) /\
    (forall m, received a' m <-> received a m \/ m ∈ delivered ns ds) /\
    (forall m, m ∈ delivered ns ds -> ~ received a m).
Proof.
  induction ns as [|n ns IH]; intros ep st a Hrep Hrun.
  { exists a. simpl. split_and!; try done; [constructor| |]; intros m.
    - rewrite elem_of_nil. tauto.
    - by intros Hm%elem_of_nil. }
  destruct Hrun as [Hwin Hrun]. rewrite fmap_cons. cbn [trp_rx_run].
  pose proof (trp_rx_refines ep st a n Hrep Hwin) as Href.
  pose proof (rx_spec_received a n) as Hrcv. pose proof (rx_spec_fresh a n (proj1 Hrep)) as Hfr.
  destruct (trp_rx ep st (u32 n)) as [[d ep1] st1].
  destruct (rx_spec a n) as [d' a1]. destruct Href as (<- & Hrep1 & _). simpl in *.
  destruct (IH ep1 st1 a1 Hrep1 Hrun) as (a' & Hrest).
  destruct (trp_rx_run ep1 st1 (u32 <$> ns)) as [[ds ep2] st2].
  destruct Hrest as (Hrep' & Hlen & Hnd & Hrc & Hnew).
  exists a'. simpl. split_and!; try done; [by rewrite Hlen| | |].
  - destruct d; [|done]. constructor; [|done]. intros Hin. apply (Hnew n Hin).
    apply Hrcv; [apply Hrep|done|auto].
  - intros m. rewrite Hrc, Hrcv by (apply Hrep || done).
    destruct d; [rewrite elem_of_cons|]; intuition congruence.
  - intros m Hm Hr. destruct d; [apply elem_of_cons in Hm as [->|Hm]|].
    + by apply Hfr.
    + apply (Hnew m Hm). apply Hrcv; [apply Hrep|done|auto].
    + apply (Hnew m Hm). apply Hrcv; [apply Hrep|done|auto].
Qed.

(** C5: For every sequence of packet sequence numbers within the window, with
    losses, duplicates and reorderings and across wrap-around, the TRP
    receiver passes every segment to the DDP layer at most once, those passed
    are exactly those covered by the cumulative acknowledgement and the
    selective range at the end, and no number below the start is passed. *)
Theorem trp_rx_exactly_once (ep : ee_state) (st : urdma_qp_stats) (a0 : Z) (ns : list Z) :
  recv_ack_psn ep = u32 a0 -> has (trp_flags ep) trp_recv_missing = false ->
  run_in_window (RxAbs a0 None) ns ->
  exists a', let '(ds, ep', _) := trp_rx_run ep st (u32 <$> ns) in
    NoDup (delivered ns ds) /\
    (forall n, a0 <= n -> n ∈ delivered ns ds <-> received a' n) /\
    (forall n, n ∈ delivered ns ds -> a0 <= n) /\
    recv_ack_psn ep' = u32 (ra_ack a') /\
    (forall lo hi, ra_range a' = Some (lo, hi) ->
       has (trp_flags ep') trp_recv_missing = true /\
       recv_sack_psn ep' = PsnRange (u32 lo) (u32 hi) /\ ra_ack a' < lo < hi).
Proof.
  intros Hack Hflag Hrun.
  assert (rx_rep ep (RxAbs a0 None)) as Hrep by (split_and!; done).
  destruct (trp_rx_run_refines ns ep st _ Hrep Hrun) as (a' & H). exists a'.
  destruct (trp_rx_run ep st (u32 <$> ns)) as [[ds ep'] st'].
  destruct H as ((Hwf & Hack' & Hrange) & _ & Hnd & Hrc & Hnew). split_and!; try done.
  - intros n Hn. rewrite Hrc, received_none. intuition lia.
  - intros n Hin. specialize (Hnew n Hin). rewrite received_none in Hnew. lia.
  - intros lo hi Er. unfold abs_wf in Hwf. rewrite Er in *. destruct Hrange. tauto.
Qed.

(** One step of the 32-bit TRP receiver simulates the specification on
    unbounded sequence numbers: a segment is passed on only if it was not
    received before, always if it is the next expected one or if no range is
    being tracked, and the set of received numbers grows by exactly the
    segment passed on. *)
Theorem trp_rx_step (ep : ee_state) (st : urdma_qp_stats) (a : rx_abs) (n : Z) :
  rx_rep ep a -> in_window a n ->
  let '(d, ep', _) := trp_rx ep st (u32 n) in
  rx_rep ep' (snd (rx_spec a n)) /\
  (d = true -> ~ received a n /\ has (trp_flags ep') trp_ack_update = true) /\
  (n = ra_ack a \/ (ra_range a = None /\ ra_ack a <= n) -> d = true) /\
  (forall m, received (snd (rx_spec a n)) m <-> received a m \/ (d = true /\ m = n)).
Proof.
  intros Hrep Hwin. pose proof (trp_rx_refines ep st a n Hrep Hwin) as H.
  pose proof (rx_spec_fresh a n (proj1 Hrep)) as Hf.
  pose proof (rx_spec_progress a n) as Hp.
  pose proof (fun m => rx_spec_received a n m (proj1 Hrep) Hwin) as Hr.
  destruct (trp_rx ep st (u32 n)) as [[d ep'] st']. destruct (rx_spec a n) as [d' a'].
  destruct H as (<- & ? & ?). simpl in *. auto.
Qed.
