(* ===== verification/Cq.v ===== *)
(** * Completion queues (src/liburdma/interface.c, src/liburdma/verbs.c)

    A completion queue owns an array of completions and two rings of
    pointers into it: the completions ready to be polled and the free ones.
    The file models their creation, the posting of a completion by the
    progress thread and polling by the application, and shows that together
    they implement a bounded FIFO. *)
From S2P Require Import Prelude Dpdk Binheap State.

(** [enum { SIZE_POW2_MAX = (INT_MAX >> 1) + 1 }] *)
Definition SIZE_POW2_MAX : Z := 2 ^ 30.

(** The loop of [next_pow2]; 31 rounds reach every power of two of an int. *)
Fixpoint next_pow2_loop (fuel : nat) (out in_ : Z) : outcome Z :=
  match fuel with
  | O => Fault OutOfFuel
  | S fuel' => if out <? in_ then next_pow2_loop fuel' (Z.shiftl out 1) in_ else Ok out
  end.

(** [static int next_pow2(int in)] *)
Definition next_pow2 (in_ : Z) : outcome Z :=
  _ ← c_assert (in_ <? SIZE_POW2_MAX);
  next_pow2_loop 32 1 in_.

Section Cq.
Context {D : Dpdk}.

(** [get_next_cqe]: a free completion, or the error of the ring. *)
Definition get_next_cqe (cq : usiw_cq) : Z * option nat * usiw_cq :=
  match rte_ring_dequeue (cq_free_ring cq) with
  | None => (-ENOENT, None, cq)
  | Some (p, r) => (0, Some p, cq <| cq_free_ring := r |>)
  end.

(** [finish_post_cqe]: the completion becomes visible; the boolean says that
    a completion event is written to the event file. *)
Definition finish_post_cqe (cq : usiw_cq) (cqe : nat) : outcome (bool * usiw_cq) :=
  let '(ret, r) := rte_ring_enqueue (cq_ring cq) cqe in
  _ ← c_assert (ret =? 0);
  let notify := cq_notify_flag cq in
  Ok (notify, cq <| cq_ring := r |> <| cq_notify_flag := false |>).

(** The copies of [do_poll_cq]. *)
Fixpoint copy_cqes (storage : list usiw_wc) (ptrs : list nat) : outcome (list usiw_wc) :=
  match ptrs with
  | [] => Ok []
  | p :: r => c ← deref (storage !! p); cs ← copy_cqes storage r; Ok (c :: cs)
  end.

(** [do_poll_cq] *)
Definition do_poll_cq (cq : usiw_cq) (num_entries : nat) : outcome (list usiw_wc * usiw_cq) :=
  let '(cqe, r) := rte_ring_dequeue_burst (cq_ring cq) num_entries in
  let count := length cqe in
  wc ← copy_cqes (cq_storage cq) cqe;
  let '(ret, f) := rte_ring_enqueue_burst (cq_free_ring cq) cqe in
  _ ← c_assert (ret =? count)%nat;
  Ok (wc, cq <| cq_ring := r |> <| cq_free_ring := f |>).

(** [struct ibv_wc], the fields that [convert_cqes] fills in. *)
Record ibv_wc := IbvWc {
  ib_wr_id : Z; ib_status : ibv_wc_status; ib_opcode : ibv_wc_opcode;
  ib_byte_len : Z; ib_qp_num : Z; ib_wc_flags : Z
}.

Definition convert_cqes (cqe : list usiw_wc) : list ibv_wc :=
  (fun c => IbvWc (wc_wr_context c) (wc_status c) (wc_opcode c) (wc_byte_len c)
              (wc_qp_num c) 0) <$> cqe.

(** [usiw_poll_cq] *)
Definition usiw_poll_cq (cq : usiw_cq) (num_entries : nat) : outcome (list ibv_wc * usiw_cq) :=
  '(cqe, cq1) ← do_poll_cq cq num_entries;
  Ok (convert_cqes cqe, cq1).

(** The loop of [usiw_create_cq] that fills the free ring; the result of
    [rte_ring_enqueue] is not looked at. *)
Fixpoint fill_free (r : ring) (from n : nat) : ring :=
  match n with
  | O => r
  | S n' => fill_free (snd (rte_ring_enqueue r from)) (S from) n'
  end.

(** The allocations of [usiw_create_cq] that succeed, in their order. *)
Record cq_allocs := CqAllocs { al_cq : bool; al_ready : bool; al_free : bool; al_errno : Z }.

(** [usiw_create_cq]: [kernel] is the result of [ibv_cmd_create_cq], the id
    of the queue or an error; [garbage] is what [malloc] returns for the
    completions.  The first component is errno, 0 on success.  The test after
    the allocation of [free_ring] looks at [cqe_ring], and the one after
    initialising it at the pointer instead of the result. *)
Definition usiw_create_cq (size0 : Z) (al : cq_allocs) (kernel : Z + Z) (garbage : nat -> usiw_wc)
  : outcome (Z * option usiw_cq) :=
  if size0 + 1 >? SIZE_POW2_MAX then Ok (-EINVAL, None) else
  p ← next_pow2 (size0 + 1);
  let size := p - 1 in
  if negb (al_cq al) then Ok (ENOMEM, None) else
  match kernel with
  | inr err => Ok (err, None)
  | inl id =>
      if negb (al_ready al) then Ok (al_errno al, None) else
      match rte_ring_init (Z.to_nat (size + 1)) with
      | None => Ok (EINVAL, None)
      | Some cqe_ring =>
          if negb (al_free al) then Fault NullDeref else
          match rte_ring_init (Z.to_nat (size + 1)) with
          | None => Fault BadPointer
          | Some free0 =>
              Ok (0, Some {|
                cq_ring := cqe_ring;
                cq_free_ring := fill_free free0 0 (Z.to_nat size);
                cq_storage := garbage <$> seq 0 (Z.to_nat size);
                cq_capacity := size; cq_qp_count := 0; cq_id := id;
                cq_refcnt := 1; cq_notify_flag := false |})
          end
      end
  end.

(** [usiw_req_notify_cq]; [has_channel] tells whether the queue was created
    with a completion channel. *)
Definition usiw_req_notify_cq (cq : usiw_cq) (has_channel solicited_only : bool)
  : Z * usiw_cq :=
  if negb has_channel then (EINVAL, cq)
  else if solicited_only then (0, cq)
  else (0, cq <| cq_notify_flag := true |>).

(** [usiw_destroy_cq]: the result, and whether the memory was freed. *)
Definition usiw_destroy_cq (cq : usiw_cq) (kernel_ret : Z) : Z * bool * usiw_cq :=
  if negb (cq_qp_count cq =? 0) then (-1, false, cq)
  else (kernel_ret, cq_refcnt cq =? 1, cq <| cq_refcnt ::= fun r => r - 1 |>).

(** ** Posting as the progress thread does it *)

(** [get_next_cqe], the assignments of [fill], [finish_post_cqe]. *)
Definition cq_post (cq : usiw_cq) (fill : usiw_wc -> usiw_wc)
  : outcome (Z * bool * usiw_cq) :=
  match get_next_cqe cq with
  | (ret, None, cq1) => Ok (ret, false, cq1)
  | (_, Some p, cq1) =>
      '(ev, cq2) ← finish_post_cqe (cq1 <| cq_storage ::= alter fill p |>) p;
      Ok (0, ev, cq2)
  end.
End Cq.

(** ** next_pow2 *)

Lemma next_pow2_loop_spec fuel : forall k in_,
  0 <= k -> in_ <= 2 ^ (k + Z.of_nat fuel - 1) -> (fuel <> 0)%nat ->
  (k = 0 \/ 2 ^ (k - 1) < in_) ->
  exists j, next_pow2_loop fuel (2 ^ k) in_ = Ok (2 ^ j) /\ 0 <= j /\
    in_ <= 2 ^ j /\ (j = 0 \/ 2 ^ (j - 1) < in_).
Proof.
  induction fuel as [|fuel IH]; intros k in_ Hk Hin Hf Hlow; [done|]. simpl.
  destruct (Z.ltb_spec (2 ^ k) in_) as [Hlt|Hge].
  - rewrite Z.shiftl_mul_pow2, Z.pow_1_r by lia.
    replace (2 ^ k * 2) with (2 ^ (k + 1)) by (rewrite Z.pow_add_r; lia).
    destruct fuel as [|fuel].
    { replace (k + Z.of_nat 1 - 1) with k in Hin by lia. lia. }
    apply IH; [lia| |done|].
    + replace (k + 1 + Z.of_nat (S fuel) - 1) with (k + Z.of_nat (S (S fuel)) - 1) by lia.
      done.
    + right. by replace (k + 1 - 1) with k by lia.
  - exists k. done.
Qed.

Lemma next_pow2_ok n :
  n < SIZE_POW2_MAX ->
  exists j, next_pow2 n = Ok (2 ^ j) /\ 0 <= j /\ n <= 2 ^ j /\ (j = 0 \/ 2 ^ (j - 1) < n).
Proof.
  intros Hn. unfold next_pow2. rewrite (proj2 (Z.ltb_lt _ _) Hn). cbn [mbind outcome_bind c_assert].
  unfold SIZE_POW2_MAX in Hn. change 1 with (2 ^ 0).
  apply next_pow2_loop_spec; [lia| |done|auto].
  assert (2 ^ 30 <= 2 ^ (0 + Z.of_nat 32 - 1)) by (vm_compute; discriminate). lia.
Qed.

(** ** A completion queue is a bounded FIFO *)

Section Fifo.
Context {D : Dpdk} {L : DpdkLaws D}.
Implicit Types cq : usiw_cq.

Definition cq_cap cq : nat := Z.to_nat (cq_capacity cq).

(** Every completion is in exactly one of the two rings. *)
Definition cq_wf cq : Prop :=
  ring_elems (cq_ring cq) ++ ring_elems (cq_free_ring cq) ≡ₚ seq 0 (cq_cap cq) /\
  length (cq_storage cq) = cq_cap cq /\
  ring_cap (cq_ring cq) = cq_cap cq /\ ring_cap (cq_free_ring cq) = cq_cap cq.

(** The completions that wait to be polled, oldest first. *)
Definition cq_queue cq : list usiw_wc :=
  omap (fun p => cq_storage cq !! p) (ring_elems (cq_ring cq)).

Inductive cq_op := OpPost (fill : usiw_wc -> usiw_wc) | OpPoll (n : nat) | OpArm.
Inductive cq_res := ResPosted (event : bool) | ResFull | ResPolled (l : list usiw_wc) | ResArmed.

Definition cq_exec cq (op : cq_op) : outcome (cq_res * usiw_cq) :=
  match op with
  | OpPost fill =>
      '(ret, ev, cq1) ← cq_post cq fill;
      Ok (if ret <? 0 then ResFull else ResPosted ev, cq1)
  | OpPoll n => '(l, cq1) ← do_poll_cq cq n; Ok (ResPolled l, cq1)
  | OpArm => Ok (ResArmed, snd (usiw_req_notify_cq cq true false))
  end.

Fixpoint cq_run cq (ops : list cq_op) : outcome (list cq_res * usiw_cq) :=
  match ops with
  | [] => Ok ([], cq)
  | op :: r =>
      '(x, cq1) ← cq_exec cq op; '(xs, cq2) ← cq_run cq1 r; Ok (x :: xs, cq2)
  end.

(** The specification: a FIFO of at most [cap] completions with a one-shot
    event request. *)
Inductive fifo_step (cap : nat) : list usiw_wc * bool -> cq_op -> cq_res -> list usiw_wc * bool -> Prop :=
| fifo_post q armed fill old :
    (length q < cap)%nat ->
    fifo_step cap (q, armed) (OpPost fill) (ResPosted armed) (q ++ [fill old], false)
| fifo_full q armed fill :
    length q = cap -> fifo_step cap (q, armed) (OpPost fill) ResFull (q, armed)
| fifo_poll q armed n :
    fifo_step cap (q, armed) (OpPoll n) (ResPolled (take n q)) (drop n q, armed)
| fifo_arm q armed : fifo_step cap (q, armed) OpArm ResArmed (q, true).

Inductive fifo_run (cap : nat) : list usiw_wc * bool -> list cq_op -> list cq_res -> list usiw_wc * bool -> Prop :=
| fifo_nil s : fifo_run cap s [] [] s
| fifo_cons s op r s1 ops rs s2 :
    fifo_step cap s op r s1 -> fifo_run cap s1 ops rs s2 ->
    fifo_run cap s (op :: ops) (r :: rs) s2.

Definition cq_abs cq : list usiw_wc * bool := (cq_queue cq, cq_notify_flag cq).

Lemma omap_lookup_ok {A} (l : list A) (ps : list nat) :
  Forall (fun p => (p < length l)%nat) ps ->
  length (omap (fun p => l !! p) ps) = length ps /\
  forall n, omap (fun p => l !! p) (take n ps) = take n (omap (fun p => l !! p) ps) /\
            omap (fun p => l !! p) (drop n ps) = drop n (omap (fun p => l !! p) ps).
Proof.
  induction 1 as [|p ps Hp Hps [IH1 IH2]]; simpl; [by split; [|intros []]|].
  destruct (lookup_lt_is_Some_2 l p Hp) as [x Hx]. rewrite Hx.
  split; [simpl; f_equal; exact IH1|].
  intros [|n]; simpl; rewrite Hx; [done|]. destruct (IH2 n) as [E1 E2].
  split; [by f_equal|done].
Qed.

Lemma cq_wf_bound cq :
  cq_wf cq ->
  Forall (fun p => (p < length (cq_storage cq))%nat) (ring_elems (cq_ring cq)) /\
  NoDup (ring_elems (cq_ring cq) ++ ring_elems (cq_free_ring cq)) /\
  (length (ring_elems (cq_ring cq)) + length (ring_elems (cq_free_ring cq)) = cq_cap cq)%nat.
Proof.
  intros (Hp & Hs & _). split_and!.
  - apply Forall_forall. intros p Hin.
    assert (p ∈ seq 0 (cq_cap cq)) as H by (rewrite <- Hp; apply elem_of_app; auto).
    apply elem_of_seq in H. lia.
  - rewrite Hp. apply NoDup_seq.
  - rewrite <- length_app, Hp. apply length_seq.
Qed.

Lemma cq_queue_length cq : cq_wf cq -> length (cq_queue cq) = length (ring_elems (cq_ring cq)).
Proof. intros H. apply omap_lookup_ok, cq_wf_bound, H. Qed.

Lemma copy_cqes_ok st ps :
  Forall (fun p => (p < length st)%nat) ps ->
  copy_cqes st ps = Ok (omap (fun p => st !! p) ps).
Proof.
  induction 1 as [|p ps Hp Hps IH]; [done|]. simpl.
  destruct (lookup_lt_is_Some_2 st p Hp) as [x ->]. simpl. by rewrite IH.
Qed.

Lemma omap_alter_notin {A} (l : list A) f p (ps : list nat) :
  p ∉ ps -> omap (fun x => alter f p l !! x) ps = omap (fun x => l !! x) ps.
Proof.
  induction ps as [|y ps IH]; [done|]. intros H%not_elem_of_cons. simpl.
  rewrite list_lookup_alter_ne by naive_solver.
  destruct (l !! y); [f_equal|]; apply IH; naive_solver.
Qed.

(** Posting succeeds exactly when there is room. *)
Lemma cq_post_full cq fill :
  cq_wf cq -> length (cq_queue cq) = cq_cap cq -> cq_post cq fill = Ok (-ENOENT, false, cq).
Proof.
  intros Hwf Hfull. rewrite cq_queue_length in Hfull by done.
  destruct (cq_wf_bound cq Hwf) as (_ & _ & Hlen).
  assert (ring_elems (cq_free_ring cq) = []) as Hf by (apply length_zero_iff_nil; lia).
  unfold cq_post, get_next_cqe. by rewrite (ring_dequeue_nil _ Hf).
Qed.

Lemma cq_post_room cq fill :
  cq_wf cq -> (length (cq_queue cq) < cq_cap cq)%nat ->
  exists cq' old, cq_post cq fill = Ok (0, cq_notify_flag cq, cq') /\ cq_wf cq' /\
    cq_cap cq' = cq_cap cq /\ cq_abs cq' = (cq_queue cq ++ [fill old], false).
Proof.
  intros Hwf Hroom. rewrite cq_queue_length in Hroom by done.
  destruct (cq_wf_bound cq Hwf) as (Hb & Hnd & Hlen).
  destruct Hwf as (Hperm & Hst & Hc1 & Hc2).
  destruct (ring_elems (cq_free_ring cq)) as [|p fl] eqn:Ef; [simpl in Hlen; lia|].
  destruct (ring_dequeue_law _ _ _ Ef) as (r' & Er' & Efl & Hcap).
  destruct (ring_enqueue_law (cq_ring cq) p ltac:(lia)) as (r2 & Er2 & Eel & Hcap2).
  assert (p < length (cq_storage cq))%nat as Hp.
  { assert (p ∈ seq 0 (cq_cap cq)) as H by (rewrite <- Hperm; set_solver).
    apply elem_of_seq in H. lia. }
  destruct (lookup_lt_is_Some_2 _ _ Hp) as [old Hold].
  unfold cq_post, get_next_cqe. rewrite Er'. unfold finish_post_cqe. simpl. rewrite Er2. simpl.
  eexists _, old. split; [done|]. split_and!; try done.
  - unfold cq_wf, cq_cap in *. split_and!; simpl; rewrite ?Eel, ?Efl, ?length_alter; try congruence.
    rewrite <- app_assoc. done.
  - unfold cq_abs, cq_queue. simpl. f_equal. rewrite Eel, omap_app. f_equal.
    + apply omap_alter_notin. apply NoDup_app in Hnd as (_ & Hd & _).
      intros Hin. apply (Hd p Hin). set_solver.
    + simpl. by rewrite list_lookup_alter_eq, Hold.
Qed.

Lemma do_poll_cq_ok cq n :
  cq_wf cq ->
  exists cq', do_poll_cq cq n = Ok (take n (cq_queue cq), cq') /\ cq_wf cq' /\
    cq_cap cq' = cq_cap cq /\ cq_abs cq' = (drop n (cq_queue cq), cq_notify_flag cq).
Proof.
  intros Hwf. destruct (cq_wf_bound cq Hwf) as (Hb & Hnd & Hlen).
  destruct Hwf as (Hperm & Hst & Hc1 & Hc2).
  destruct (ring_dequeue_burst_law (cq_ring cq) n) as (r' & Er' & Eel & Hcap).
  destruct (ring_enqueue_burst_law (cq_free_ring cq) (take n (ring_elems (cq_ring cq))))
    as (f' & Ef' & Efl & Hcapf).
  destruct (omap_lookup_ok (cq_storage cq) _ Hb) as [_ Htd]. destruct (Htd n) as [Ht Hd].
  unfold do_poll_cq. rewrite Er'. rewrite copy_cqes_ok by (by apply Forall_take).
  cbn [mbind outcome_bind]. rewrite Ef'.
  rewrite Nat.min_l in * by (rewrite length_take; lia).
  rewrite Nat.eqb_refl. cbn [c_assert]. eexists. split; [by rewrite Ht|].
  rewrite take_ge in Efl by done. split_and!; try done.
  - unfold cq_wf, cq_cap in *. split_and!; simpl; try congruence. rewrite Eel, Efl. rewrite <- Hperm.
    rewrite <- (take_drop n (ring_elems (cq_ring cq))) at 3. solve_Permutation.
  - unfold cq_abs, cq_queue. simpl. by rewrite Eel, Hd.
Qed.

Lemma cq_exec_refines cq op :
  cq_wf cq ->
  exists r cq', cq_exec cq op = Ok (r, cq') /\ cq_wf cq' /\ cq_cap cq' = cq_cap cq /\
    fifo_step (cq_cap cq) (cq_abs cq) op r (cq_abs cq').
Proof.
  intros Hwf. destruct op as [fill|n|]; simpl.
  - assert (length (cq_queue cq) <= cq_cap cq)%nat as Hle.
    { rewrite cq_queue_length by done. pose proof (cq_wf_bound cq Hwf). lia. }
    destruct (decide (length (cq_queue cq) = cq_cap cq)) as [He|Hne].
    + rewrite cq_post_full by done. eexists _, cq. split_and!; [done..|]. by constructor.
    + destruct (cq_post_room cq fill Hwf ltac:(lia)) as (cq' & old & -> & Hwf' & Hc & Ha).
      eexists _, cq'. split_and!; [done..|]. rewrite Ha. constructor. lia.
  - destruct (do_poll_cq_ok cq n Hwf) as (cq' & -> & Hwf' & Hc & Ha).
    eexists _, cq'. split_and!; [done..|]. rewrite Ha. constructor.
  - eexists _, _. split_and!; [done..|]. constructor.
Qed.

Lemma fill_free_elems n : forall r from,
  (length (ring_elems r) + n <= ring_cap r)%nat ->
  ring_elems (fill_free r from n) = ring_elems r ++ seq from n /\
  ring_cap (fill_free r from n) = ring_cap r.
Proof.
  induction n as [|n IH]; intros r from Hle; simpl; [by rewrite app_nil_r|].
  destruct (ring_enqueue_law r from ltac:(lia)) as (r' & -> & Eel & Hc). simpl.
  destruct (IH r' (S from)) as [-> ->].
  - rewrite Eel, length_app, Hc. simpl. lia.
  - rewrite Eel, <- app_assoc. done.
Qed.

(** Creation succeeds for every size below the largest power of two an int
    holds and gives at least the requested room. *)
Lemma usiw_create_cq_ok size0 al id garbage :
  0 <= size0 < SIZE_POW2_MAX - 1 -> al_cq al && al_ready al && al_free al = true ->
  exists cq, usiw_create_cq size0 al (inl id) garbage = Ok (0, Some cq) /\ cq_wf cq /\
    (Z.to_nat size0 <= cq_cap cq)%nat /\ cq_abs cq = ([], false).
Proof.
  intros Hs [[Ha1 Ha2]%andb_true_iff Ha3]%andb_true_iff. unfold usiw_create_cq.
  destruct (Z.gtb_spec (size0 + 1) SIZE_POW2_MAX); [lia|].
  destruct (next_pow2_ok (size0 + 1) ltac:(lia)) as (j & -> & Hj & Hle & _).
  cbn [mbind outcome_bind]. rewrite Ha1, Ha2, Ha3. cbn [negb].
  replace (2 ^ j - 1 + 1) with (2 ^ j) by lia.
  destruct (ring_init_law (Z.to_nat (2 ^ j))) as (r & -> & Er & Hc).
  { exists (Z.to_nat j). apply Nat2Z.inj. rewrite Nat2Z.inj_pow, !Z2Nat.id by lia. done. }
  eexists. split; [done|].
  destruct (fill_free_elems (Z.to_nat (2 ^ j - 1)) r 0%nat) as [Ef Hf].
  { rewrite Er, Hc. simpl. lia. }
  unfold cq_wf, cq_cap, cq_abs, cq_queue. simpl.
  rewrite Ef, Hf, Er, Hc, length_fmap, length_seq. split_and!; done || lia.
Qed.

Lemma cq_run_refines ops : forall cq,
  cq_wf cq ->
  exists rs cq', cq_run cq ops = Ok (rs, cq') /\ cq_wf cq' /\
    fifo_run (cq_cap cq) (cq_abs cq) ops rs (cq_abs cq').
Proof.
  induction ops as [|op ops IH]; intros cq Hwf; simpl.
  { eexists _, cq. split_and!; [done..|]. constructor. }
  destruct (cq_exec_refines cq op Hwf) as (r & cq1 & -> & Hwf1 & Hc & Hstep). simpl.
  destruct (IH cq1 Hwf1) as (rs & cq2 & -> & Hwf2 & Hrun). simpl. rewrite Hc in Hrun.
  eexists _, cq2. split_and!; [done..|]. by econstructor.
Qed.

(** C10: A completion queue created with room for at least the requested
    entries implements a bounded FIFO: every sequence of posts, polls and
    notification requests on it returns what a FIFO of that capacity returns,
    rejects posts exactly when full, and raises an event exactly for the first
    completion after a request. *)
Theorem cq_refines_fifo (size0 id : Z) (al : cq_allocs) (garbage : nat -> usiw_wc)
    (ops : list cq_op) :
  0 <= size0 < SIZE_POW2_MAX - 1 -> al_cq al && al_ready al && al_free al = true ->
  exists cq rs cq', usiw_create_cq size0 al (inl id) garbage = Ok (0, Some cq) /\
    (Z.to_nat size0 <= cq_cap cq)%nat /\
    cq_run cq ops = Ok (rs, cq') /\
    fifo_run (cq_cap cq) ([], false) ops rs (cq_abs cq').
Proof.
  intros Hs Hal. destruct (usiw_create_cq_ok size0 al id garbage Hs Hal) as (cq & E & Hwf & Hle & Ha).
  destruct (cq_run_refines ops cq Hwf) as (rs & cq' & Er & _ & Hrun). rewrite Ha in Hrun. eauto 10.
Qed.

(** [usiw_create_cq] refuses sizes from SIZE_POW2_MAX on with -EINVAL in
    errno, but the size SIZE_POW2_MAX - 1, which passes its check, fails the
    assertion of next_pow2. *)
Theorem usiw_create_cq_limit (al : cq_allocs) (kernel : Z + Z) (garbage : nat -> usiw_wc) :
  usiw_create_cq (SIZE_POW2_MAX - 1) al kernel garbage = Fault AssertFail /\
  usiw_create_cq SIZE_POW2_MAX al kernel garbage = Ok (-EINVAL, None).
Proof. split; reflexivity. Qed.
End Fifo.

Definition demo_wc (n : nat) : usiw_wc := Wc (Z.of_nat n) IBV_WC_SUCCESS IBV_WC_RECV 0 0.

Lemma cq_refines_fifo_witness :
  exists cq rs cq', usiw_create_cq (D:=list_dpdk) 2 (CqAllocs true true true 0) (inl 1) demo_wc
      = Ok (0, Some cq) /\
    (2 <= cq_cap cq)%nat /\
    cq_run cq [OpArm; OpPost (fun _ => demo_wc 7); OpPoll 4] = Ok (rs, cq') /\
    fifo_run (cq_cap cq) ([], false) [OpArm; OpPost (fun _ => demo_wc 7); OpPoll 4] rs (cq_abs cq').
Proof.
  apply (cq_refines_fifo (D:=list_dpdk) 2 1 (CqAllocs true true true 0) demo_wc
    [OpArm; OpPost (fun _ => demo_wc 7); OpPoll 4]); [done|reflexivity].
Defined.
