(* ===== verification/Mr.v ===== *)
(** * Memory regions (src/liburdma/interface.c, src/liburdma/verbs.c)

    A protection domain is a hash table of memory regions, chained by the
    remainder of the key.  A pointer into a chain, the result of
    [usiw_mr_lookup], is a bucket and a position.  The table refines a map
    from keys to stacks of regions: registering pushes, deregistering pops,
    and a lookup returns the top. *)
From S2P Require Import Prelude Dpdk Binheap Iov State.

Definition MAX_MR_SIZE : Z := 2 ^ 30.
Definition STAG_TYPE_RDMA_READ : Z := Z.shiftl 1 24.
Definition STAG_MASK : Z := 0x00FFFFFF.
Definition STAG_RDMA_READ (x : Z) : Z := Z.lor STAG_TYPE_RDMA_READ (Z.land x STAG_MASK).

(** The bucket of a key. *)
Definition mr_bucket (tbl : usiw_mr_table) (rkey : Z) : nat :=
  Z.to_nat (rkey mod mt_capacity tbl).

Fixpoint chain_find (l : list usiw_mr) (rkey : Z) : option nat :=
  match l with
  | [] => None
  | m :: r => if mr_rkey m =? rkey then Some 0%nat else S <$> chain_find r rkey
  end.

(** [usiw_mr_lookup] *)
Definition usiw_mr_lookup (tbl : usiw_mr_table) (rkey : Z) : outcome (option (nat * nat)) :=
  let b := mr_bucket tbl rkey in
  match mt_entries tbl !! b with
  | None => Fault OutOfBounds
  | Some l => Ok (pair b <$> chain_find l rkey)
  end.

(** [*candidate] *)
Definition mr_deref (tbl : usiw_mr_table) (c : nat * nat) : outcome usiw_mr :=
  deref (mt_entries tbl !! fst c ≫= fun l => l !! snd c).

(** [usiw_dereg_mr_real]: the pointer now designates the rest of the chain. *)
Definition usiw_dereg_mr_real (tbl : usiw_mr_table) (mr : nat * nat) : usiw_mr_table :=
  tbl <| mt_entries ::= alter (fun l => take (snd mr) l ++ drop (S (snd mr)) l) (fst mr) |>.

(** [urdma_reg_mr_with_rkey]; [id] is the address [malloc] returns. *)
Definition urdma_reg_mr_with_rkey (tbl : usiw_mr_table) (addr len_ access rkey : Z)
    (id : option nat) : outcome (option usiw_mr * usiw_mr_table) :=
  let hash := mr_bucket tbl rkey in
  match id with
  | None => Ok (None, tbl)
  | Some id =>
      let mr := {| mr_id := id; mr_addr := addr; mr_length := len_; mr_rkey := rkey;
                   mr_access := access |} in
      match mt_entries tbl !! hash with
      | None => Fault OutOfBounds
      | Some l => Ok (Some mr, tbl <| mt_entries ::= fun e => <[hash := mr :: l]> e |>)
      end
  end.

(** [usiw_hash_mr]; [jhash] is [rte_jhash_3words] of DPDK with initial value 0. *)
Definition usiw_hash_mr (jhash : Z -> Z -> Z -> Z) (addr len_ : Z) : Z :=
  Z.land (jhash (u32 (Z.shiftr addr 32)) (Z.land addr UINT32_MAX) (Z.land len_ UINT32_MAX))
    0xffffff.

(** [usiw_reg_mr]: errno and the region. *)
Definition usiw_reg_mr (jhash : Z -> Z -> Z -> Z) (tbl : usiw_mr_table)
    (addr len_ access : Z) (id : option nat) : outcome (Z * option usiw_mr * usiw_mr_table) :=
  if len_ >? MAX_MR_SIZE then Ok (EINVAL, None, tbl) else
  let rkey := usiw_hash_mr jhash addr len_ in
  '(mr, tbl1) ← urdma_reg_mr_with_rkey tbl addr len_ access rkey id;
  Ok (match mr with Some _ => 0 | None => ENOMEM end, mr, tbl1).

(** [usiw_dereg_mr]: the result of the lookup is dereferenced untested. *)
Definition usiw_dereg_mr (tbl : usiw_mr_table) (mr : usiw_mr) : outcome (Z * usiw_mr_table) :=
  c ← usiw_mr_lookup tbl (mr_rkey mr);
  match c with
  | None => Fault NullDeref
  | Some c =>
      m ← mr_deref tbl c;
      if negb (mr_id m =? mr_id mr)%nat then Ok (-EINVAL, tbl)
      else Ok (0, usiw_dereg_mr_real tbl c)
  end.

Definition default_capacity : Z := 1023.

(** [usiw_alloc_pd] with the result of [ibv_cmd_alloc_pd]. *)
Definition usiw_alloc_pd (alloc_ok : bool) (kernel_ret : Z) : Z * option usiw_mr_table :=
  if negb alloc_ok then (ENOMEM, None)
  else if negb (kernel_ret =? 0) then (kernel_ret, None)
  else (0, Some {| mt_capacity := default_capacity; mt_mr_count := 0;
                   mt_entries := replicate (Z.to_nat default_capacity) [] |}).

(** [usiw_dealloc_pd]: the result and whether the table was freed. *)
Definition usiw_dealloc_pd (tbl : usiw_mr_table) (kernel_ret : Z) : Z * bool :=
  if negb (mt_mr_count tbl =? 0) then (-EBUSY, false) else (kernel_ret, true).

(** ** Refinement to a map of stacks *)

Definition chain_wf (cap : Z) (b : nat) (l : list usiw_mr) : Prop :=
  Forall (fun m => 0 <= mr_rkey m /\ Z.to_nat (mr_rkey m mod cap) = b) l.

Definition mr_wf (tbl : usiw_mr_table) : Prop :=
  0 < mt_capacity tbl /\ length (mt_entries tbl) = Z.to_nat (mt_capacity tbl) /\
  forall b l, mt_entries tbl !! b = Some l -> chain_wf (mt_capacity tbl) b l.

(** The regions registered under a key, the most recent first. *)
Definition mr_stack (tbl : usiw_mr_table) (rkey : Z) : list usiw_mr :=
  filter (fun m => mr_rkey m = rkey) (default [] (mt_entries tbl !! mr_bucket tbl rkey)).

Section Stacks.
Implicit Types tbl : usiw_mr_table.

Lemma mr_bucket_lt tbl rkey : mr_wf tbl -> (mr_bucket tbl rkey < length (mt_entries tbl))%nat.
Proof.
  intros (Hc & Hl & _). unfold mr_bucket. rewrite Hl.
  pose proof (Z.mod_pos_bound rkey (mt_capacity tbl) Hc). lia.
Qed.

Lemma mr_bucket_lookup tbl rkey :
  mr_wf tbl -> exists l, mt_entries tbl !! mr_bucket tbl rkey = Some l.
Proof. intros H. by apply lookup_lt_is_Some, mr_bucket_lt. Qed.

(** The first region of a chain with the key is the top of its stack, and
    removing it from the chain pops the stack. *)
Lemma chain_find_spec l rkey :
  match chain_find l rkey with
  | None => filter (fun m => mr_rkey m = rkey) l = []
  | Some p => exists m, l !! p = Some m /\ mr_rkey m = rkey /\
      filter (fun m => mr_rkey m = rkey) l =
        m :: filter (fun m => mr_rkey m = rkey) (take p l ++ drop (S p) l) /\
      forall k, k <> rkey ->
        filter (fun m => mr_rkey m = k) (take p l ++ drop (S p) l) =
        filter (fun m => mr_rkey m = k) l
  end.
Proof.
  induction l as [|m l IH]; [done|]. cbn [chain_find].
  destruct (Z.eqb_spec (mr_rkey m) rkey) as [E|E].
  - exists m. cbn [take drop app]. split_and!; [done..| |].
    + by rewrite filter_cons_True.
    + intros k Hk. by rewrite filter_cons_False by congruence.
  - destruct (chain_find l rkey) as [p|]; simpl fmap.
    + destruct IH as (m' & Hp & Hk & Hf & Ho). exists m'. cbn [take drop app].
      split_and!; [done..| |].
      * by rewrite !filter_cons_False by done.
      * intros k Hk'. rewrite !filter_cons, Ho by done. done.
    + simpl. by rewrite filter_cons_False.
Qed.

Lemma mr_stack_other tbl b l' k :
  mr_bucket tbl k <> b ->
  mr_stack (tbl <| mt_entries ::= fun e => <[b := l']> e |>) k = mr_stack tbl k.
Proof.
  intros Hb. unfold mr_stack. change (mr_bucket (_ <| _ ::= _ |>) k) with (mr_bucket tbl k).
  simpl. by rewrite list_lookup_insert_ne.
Qed.

Lemma mr_stack_same tbl b l' k :
  mr_bucket tbl k = b -> (b < length (mt_entries tbl))%nat ->
  mr_stack (tbl <| mt_entries ::= fun e => <[b := l']> e |>) k =
  filter (fun m => mr_rkey m = k) l'.
Proof.
  intros Hb Hlt. unfold mr_stack. change (mr_bucket (_ <| _ ::= _ |>) k) with (mr_bucket tbl k).
  simpl. by rewrite Hb, list_lookup_insert_eq.
Qed.

Lemma mr_wf_insert tbl b l' :
  mr_wf tbl -> chain_wf (mt_capacity tbl) b l' ->
  mr_wf (tbl <| mt_entries ::= fun e => <[b := l']> e |>).
Proof.
  intros (Hc & Hl & Hch) Hwf. split_and!; simpl; [done|by rewrite length_insert|].
  intros b0 l0 H. destruct (decide (b0 = b)) as [->|Hne].
  - destruct (decide (b < length (mt_entries tbl))%nat).
    + rewrite list_lookup_insert_eq in H by done. by simplify_eq.
    + rewrite list_insert_ge in H by lia. by apply Hch.
  - rewrite list_lookup_insert_ne in H by done. by apply Hch.
Qed.

Lemma usiw_mr_lookup_spec tbl rkey :
  mr_wf tbl ->
  match mr_stack tbl rkey with
  | [] => usiw_mr_lookup tbl rkey = Ok None
  | m :: rest => exists p l, usiw_mr_lookup tbl rkey = Ok (Some (mr_bucket tbl rkey, p)) /\
      mt_entries tbl !! mr_bucket tbl rkey = Some l /\ l !! p = Some m /\ mr_rkey m = rkey /\
      rest = filter (fun m => mr_rkey m = rkey) (take p l ++ drop (S p) l) /\
      forall k, k <> rkey ->
        filter (fun m => mr_rkey m = k) (take p l ++ drop (S p) l) =
        filter (fun m => mr_rkey m = k) l
  end.
Proof.
  intros Hwf. destruct (mr_bucket_lookup tbl rkey Hwf) as [l Hl].
  unfold mr_stack, usiw_mr_lookup. rewrite Hl. simpl.
  pose proof (chain_find_spec l rkey) as H. destruct (chain_find l rkey) as [p|].
  - destruct H as (m & Hp & Hk & Hf & Ho). rewrite Hf. exists p, l. done.
  - by rewrite H.
Qed.

Lemma usiw_mr_lookup_top tbl rkey :
  mr_wf tbl ->
  match mr_stack tbl rkey with
  | [] => usiw_mr_lookup tbl rkey = Ok None
  | m :: _ => exists c, usiw_mr_lookup tbl rkey = Ok (Some c) /\ mr_deref tbl c = Ok m
  end.
Proof.
  intros Hwf. pose proof (usiw_mr_lookup_spec tbl rkey Hwf) as H.
  destruct (mr_stack tbl rkey) as [|m rest]; [done|].
  destruct H as (p & l & E & Hl & Hp & _). eexists. split; [exact E|].
  unfold mr_deref. simpl. by rewrite Hl; simpl; rewrite Hp.
Qed.

Lemma reg_mr_spec tbl addr len_ access rkey id :
  mr_wf tbl -> 0 <= rkey ->
  exists mr tbl', urdma_reg_mr_with_rkey tbl addr len_ access rkey (Some id) = Ok (Some mr, tbl') /\
    mr = Mr id addr len_ rkey access /\
    mr_wf tbl' /\ mr_stack tbl' rkey = mr :: mr_stack tbl rkey /\
    (forall k, 0 <= k -> k <> rkey -> mr_stack tbl' k = mr_stack tbl k) /\
    mt_mr_count tbl' = mt_mr_count tbl.
Proof.
  intros Hwf Hk. destruct (mr_bucket_lookup tbl rkey Hwf) as [l Hl].
  unfold urdma_reg_mr_with_rkey. rewrite Hl. eexists _, _. split; [done|].
  split; [done|]. split_and!.
  - apply mr_wf_insert; [done|]. constructor; [done|]. by apply Hwf.
  - rewrite mr_stack_same by (done || by apply mr_bucket_lt).
    rewrite filter_cons_True by done. unfold mr_stack. by rewrite Hl.
  - intros k _ Hne. destruct (decide (mr_bucket tbl k = mr_bucket tbl rkey)) as [E|E].
    + rewrite mr_stack_same by (done || by apply mr_bucket_lt).
      rewrite filter_cons_False by (simpl; congruence). unfold mr_stack. by rewrite E, Hl.
    + by apply mr_stack_other.
  - done.
Qed.

(** Popping the region that a lookup found. *)
Lemma dereg_mr_real_spec tbl rkey m rest :
  mr_wf tbl -> mr_stack tbl rkey = m :: rest ->
  exists c, usiw_mr_lookup tbl rkey = Ok (Some c) /\ mr_deref tbl c = Ok m /\
    let tbl' := usiw_dereg_mr_real tbl c in
    mr_wf tbl' /\ mr_stack tbl' rkey = rest /\
    (forall k, k <> rkey -> mr_stack tbl' k = mr_stack tbl k) /\
    mt_mr_count tbl' = mt_mr_count tbl.
Proof.
  intros Hwf Hst. pose proof (usiw_mr_lookup_spec tbl rkey Hwf) as H. rewrite Hst in H.
  destruct H as (p & l & E & Hl & Hp & Hk & Hrest & Ho).
  eexists. split; [exact E|]. split; [unfold mr_deref; simpl; by rewrite Hl; simpl; rewrite Hp|].
  assert (usiw_dereg_mr_real tbl (mr_bucket tbl rkey, p) =
    tbl <| mt_entries ::= fun e => <[mr_bucket tbl rkey := take p l ++ drop (S p) l]> e |>) as ->.
  { unfold usiw_dereg_mr_real. simpl. f_equal. by apply (alter_insert (fun l => take p l ++ drop (S p) l)). }
  split_and!.
  - apply mr_wf_insert; [done|]. destruct Hwf as (_ & _ & Hch). specialize (Hch _ _ Hl).
    apply Forall_app. split; [by apply Forall_take|by apply Forall_drop].
  - by rewrite mr_stack_same by (done || by apply mr_bucket_lt).
  - intros k Hne. destruct (decide (mr_bucket tbl k = mr_bucket tbl rkey)) as [Eb|Eb].
    + rewrite mr_stack_same by (done || by apply mr_bucket_lt).
      rewrite Ho by done. unfold mr_stack. by rewrite Eb, Hl.
    + by apply mr_stack_other.
  - done.
Qed.

(** After usiw_reg_mr the key of the region is found and leads to the
    region, the table stays well formed, and the regions of other keys are
    unchanged. *)
Theorem reg_mr_lookup (jhash : Z -> Z -> Z -> Z) (tbl : usiw_mr_table) (addr len_ access : Z)
    (id : nat) (rkey := usiw_hash_mr jhash addr len_) :
  mr_wf tbl -> len_ <= MAX_MR_SIZE -> (forall a b c, 0 <= jhash a b c) ->
  exists mr tbl' c, usiw_reg_mr jhash tbl addr len_ access (Some id) = Ok (0, Some mr, tbl') /\
    mr = Mr id addr len_ rkey access /\ mr_wf tbl' /\
    usiw_mr_lookup tbl' rkey = Ok (Some c) /\ mr_deref tbl' c = Ok mr /\
    mr_stack tbl' rkey = mr :: mr_stack tbl rkey /\
    (forall k, 0 <= k -> k <> rkey -> mr_stack tbl' k = mr_stack tbl k).
Proof.
  intros Hwf Hlen Hj. unfold usiw_reg_mr.
  destruct (Z.gtb_spec len_ MAX_MR_SIZE); [lia|]. fold rkey.
  assert (0 <= rkey) as Hk by (apply Z.land_nonneg; auto).
  destruct (reg_mr_spec tbl addr len_ access rkey id Hwf Hk) as (mr & tbl' & -> & -> & Hwf' & Hst & Ho & _).
  pose proof (usiw_mr_lookup_top tbl' rkey Hwf') as Hl. rewrite Hst in Hl.
  destruct Hl as (c & El & Ed). cbn [mbind outcome_bind].
  eexists _, tbl', c. split_and!; done.
Qed.

(** C32: Usiw_dereg_mr removes the region when it is the most recent one of
    its key and changes no other key; a region shadowed by a later one of the
    same key is refused with -EINVAL; a region whose key is not in the table
    dereferences a null pointer. *)
Theorem usiw_dereg_mr_spec (tbl : usiw_mr_table) (mr : usiw_mr) :
  mr_wf tbl ->
  match mr_stack tbl (mr_rkey mr) with
  | [] => usiw_dereg_mr tbl mr = Fault NullDeref
  | m :: rest =>
      if (mr_id m =? mr_id mr)%nat
      then exists tbl', usiw_dereg_mr tbl mr = Ok (0, tbl') /\ mr_wf tbl' /\
             mr_stack tbl' (mr_rkey mr) = rest /\
             (forall k, k <> mr_rkey mr -> mr_stack tbl' k = mr_stack tbl k)
      else usiw_dereg_mr tbl mr = Ok (-EINVAL, tbl)
  end.
Proof.
  intros Hwf. unfold usiw_dereg_mr. destruct (mr_stack tbl (mr_rkey mr)) as [|m rest] eqn:Hst.
  - pose proof (usiw_mr_lookup_top tbl (mr_rkey mr) Hwf) as H. rewrite Hst in H. by rewrite H.
  - destruct (dereg_mr_real_spec tbl _ m rest Hwf Hst) as (c & -> & Ed & Hwf' & Hs & Ho & _).
    cbn [mbind outcome_bind]. rewrite Ed. cbn [mbind outcome_bind].
    destruct (mr_id m =? mr_id mr)%nat; cbn [negb]; [|done]. eauto.
Qed.

(** [usiw_dealloc_pd] never reports EBUSY: a protection domain in which a
    region is registered is freed like an empty one, since nothing counts the
    regions. *)
Theorem dealloc_pd_never_busy (jhash : Z -> Z -> Z -> Z) (tbl tbl1 : usiw_mr_table)
    (addr len_ access e ret : Z) (id : option nat) (mr : option usiw_mr) :
  usiw_alloc_pd true 0 = (0, Some tbl) ->
  usiw_reg_mr jhash tbl addr len_ access id = Ok (e, mr, tbl1) ->
  usiw_dealloc_pd tbl1 ret = (ret, true).
Proof.
  intros [= <-] H. unfold usiw_reg_mr, urdma_reg_mr_with_rkey in H.
  destruct (len_ >? MAX_MR_SIZE); [by inv_ok|]. inv_ok.
  destruct id; [|by inv_ok]. destruct (_ !! _) in E; by inv_ok.
Qed.
End Stacks.

Definition demo_pd : usiw_mr_table :=
  {| mt_capacity := 7; mt_mr_count := 0; mt_entries := replicate 7 [] |}.
Definition demo_hash (a b c : Z) : Z := (a + 2 * b + 3 * c) mod 2 ^ 32.

Lemma demo_pd_wf : mr_wf demo_pd.
Proof.
  split_and!; [done..|]. intros b l H. apply lookup_replicate in H as [-> _]. constructor.
Qed.

Lemma reg_mr_lookup_witness :
  exists mr tbl' c, usiw_reg_mr demo_hash demo_pd 4096 100 3 (Some 9%nat) = Ok (0, Some mr, tbl') /\
    mr = Mr 9 4096 100 (usiw_hash_mr demo_hash 4096 100) 3 /\ mr_wf tbl' /\
    usiw_mr_lookup tbl' (usiw_hash_mr demo_hash 4096 100) = Ok (Some c) /\ mr_deref tbl' c = Ok mr /\
    mr_stack tbl' (usiw_hash_mr demo_hash 4096 100) =
      mr :: mr_stack demo_pd (usiw_hash_mr demo_hash 4096 100) /\
    (forall k, 0 <= k -> k <> usiw_hash_mr demo_hash 4096 100 -> mr_stack tbl' k = mr_stack demo_pd k).
Proof.
  apply (reg_mr_lookup demo_hash demo_pd 4096 100 3 9);
    [apply demo_pd_wf|done|intros; by apply Z.mod_pos_bound].
Defined.

Lemma usiw_dereg_mr_spec_witness :
  usiw_dereg_mr demo_pd (Mr 9 4096 100 5 3) = Fault NullDeref.
Proof. exact (usiw_dereg_mr_spec demo_pd (Mr 9 4096 100 5 3) demo_pd_wf). Defined.

Lemma dealloc_pd_never_busy_witness :
  exists tbl tbl1 mr, usiw_alloc_pd true 0 = (0, Some tbl) /\
    usiw_reg_mr demo_hash tbl 4096 100 3 (Some 9%nat) = Ok (0, Some mr, tbl1) /\
    mr_stack tbl1 (mr_rkey mr) = [mr] /\ usiw_dealloc_pd tbl1 0 = (0, true).
Proof.
  eexists _, _, _. split; [reflexivity|]. split; [vm_compute; reflexivity|].
  split; [vm_compute; reflexivity|].
  eapply (dealloc_pd_never_busy demo_hash _ _ 4096 100 3 0 0 (Some 9%nat)); [reflexivity|].
  vm_compute. reflexivity.
Defined.
