(* ===== verification/Wqe.v ===== *)
(** * Work queues (src/liburdma/interface.c)

    The send and receive work queues of a queue pair and the completions that
    end the life of their entries.  An entry is free, held by the application
    between [qp_get_next_send_wqe] and the enqueue of the posting function,
    posted on the ring, or active; every operation moves entries between
    these places without losing or duplicating one. *)
From S2P Require Import Prelude Dpdk Binheap Iov State Cq.

(** ** Queue operations *)

(** [list_del]: unlinking a node that is on no list corrupts memory. *)
Definition list_del (i : nat) (l : list nat) : outcome (list nat) :=
  if decide (i ∈ l) then Ok (filter (fun j => j <> i) l) else Fault BadPointer.

(** The entries [calloc] returns. *)
Definition zero_send_wqe : usiw_send_wqe :=
  {| s_opcode := usiw_wr_send; s_wr_context := 0; s_remote_addr := 0; s_rkey := 0;
     s_flags := 0; s_state := SEND_WQE_INIT; s_msn := 0; s_local_stag := 0;
     s_total_length := 0; s_bytes_sent := 0; s_bytes_acked := 0; s_data := WIov [] |}.
Definition zero_recv_wqe : usiw_recv_wqe :=
  {| r_wr_context := 0; r_msn := 0; r_complete := false; r_total_request_size := 0;
     r_recv_size := 0; r_input_size := 0; r_iov := [] |}.

(** Which allocations of a queue's initialisation succeed, and the value of
    [rte_errno] or [errno] after one that fails. *)
Record wq_allocs := WqAllocs { al_ring : bool; al_wfree : bool; al_storage : bool; al_werrno : Z }.

Section Wqe.
Context {D : Dpdk}.

Definition usiw_send_wqe_queue_init (max_send_wr max_send_sge : Z) (al : wq_allocs)
  : Z * option usiw_send_wqe_queue :=
  if negb (al_ring al) then (- al_werrno al, None) else
  match rte_ring_init (Z.to_nat (u32 (max_send_wr + 1))) with
  | None => (-EINVAL, None)
  | Some r =>
      if negb (al_wfree al) then (- al_werrno al, None) else
      match rte_ring_init (Z.to_nat (u32 (max_send_wr + 1))) with
      | None => (-EINVAL, None)
      | Some f =>
          if negb (al_storage al) then (- al_werrno al, None) else
          (0, Some {| sq_ring := r; sq_free_ring := fill_free f 0 (Z.to_nat max_send_wr);
                      sq_active := [];
                      sq_storage := replicate (Z.to_nat max_send_wr) zero_send_wqe;
                      sq_max_wr := max_send_wr; sq_max_sge := max_send_sge;
                      sq_max_inline := 0 |})
      end
  end.

Definition usiw_recv_wqe_queue_init (max_recv_wr max_recv_sge : Z) (al : wq_allocs)
  : Z * option usiw_recv_wqe_queue :=
  if negb (al_ring al) then (- al_werrno al, None) else
  match rte_ring_init (Z.to_nat (u32 (max_recv_wr + 1))) with
  | None => (-EINVAL, None)
  | Some r =>
      if negb (al_wfree al) then (- al_werrno al, None) else
      match rte_ring_init (Z.to_nat (u32 (max_recv_wr + 1))) with
      | None => (-EINVAL, None)
      | Some f =>
          if negb (al_storage al) then (- al_werrno al, None) else
          (0, Some {| rq_ring := r; rq_free_ring := fill_free f 0 (Z.to_nat max_recv_wr);
                      rq_active := []; rq_next_msn := 1;
                      rq_storage := replicate (Z.to_nat max_recv_wr + 1) zero_recv_wqe;
                      rq_max_wr := max_recv_wr; rq_max_sge := max_recv_sge |})
      end
  end.

Definition usiw_send_wqe_queue_add_active (q : usiw_send_wqe_queue) (i : nat)
  : usiw_send_wqe_queue := q <| sq_active ::= fun l => l ++ [i] |>.
Definition usiw_send_wqe_queue_del_active (q : usiw_send_wqe_queue) (i : nat)
  : outcome usiw_send_wqe_queue :=
  l ← list_del i (sq_active q); Ok (q <| sq_active := l |>).

Definition usiw_recv_wqe_queue_add_active (q : usiw_recv_wqe_queue) (i : nat)
  : usiw_recv_wqe_queue := q <| rq_active ::= fun l => l ++ [i] |>.
Definition usiw_recv_wqe_queue_del_active (q : usiw_recv_wqe_queue) (i : nat)
  : outcome usiw_recv_wqe_queue :=
  l ← list_del i (rq_active q); Ok (q <| rq_active := l |>).

(** The key by which an active send entry is looked up. *)
Definition send_wqe_key (w : usiw_send_wqe) : Z :=
  match s_opcode w with
  | usiw_wr_send => s_msn w
  | usiw_wr_write => s_rkey w
  | usiw_wr_read => s_local_stag w
  end.

Fixpoint send_lookup_loop (st : list usiw_send_wqe) (l : list nat)
    (wr_opcode : usiw_send_opcode) (wr_key_data : Z) : outcome (Z * option nat) :=
  match l with
  | [] => Ok (-ENOENT, None)
  | lptr :: next =>
      w ← deref (st !! lptr);
      if decide (s_opcode w = wr_opcode) then
        if wr_key_data =? send_wqe_key w then Ok (0, Some lptr)
        else send_lookup_loop st next wr_opcode wr_key_data
      else send_lookup_loop st next wr_opcode wr_key_data
  end.
Definition usiw_send_wqe_queue_lookup (q : usiw_send_wqe_queue)
    (wr_opcode : usiw_send_opcode) (wr_key_data : Z) : outcome (Z * option nat) :=
  send_lookup_loop (sq_storage q) (sq_active q) wr_opcode wr_key_data.

Fixpoint recv_lookup_loop (st : list usiw_recv_wqe) (l : list nat) (msn : Z)
  : outcome (Z * option nat) :=
  match l with
  | [] => Ok (-ENOENT, None)
  | lptr :: next =>
      w ← deref (st !! lptr);
      if r_msn w =? msn then Ok (0, Some lptr) else recv_lookup_loop st next msn
  end.
Definition usiw_recv_wqe_queue_lookup (q : usiw_recv_wqe_queue) (msn : Z)
  : outcome (Z * option nat) := recv_lookup_loop (rq_storage q) (rq_active q) msn.

(** ** Operations on the queue pair *)

(** [qp_free_send_wqe]; the result of the enqueue is not looked at. *)
Definition sq_free (q : usiw_send_wqe_queue) (i : nat) (still_active : bool)
  : outcome usiw_send_wqe_queue :=
  q1 ← (if still_active then usiw_send_wqe_queue_del_active q i else Ok q);
  Ok (q1 <| sq_free_ring ::= fun r => snd (rte_ring_enqueue r i) |>).
Definition qp_free_send_wqe (i : nat) (still_active : bool) : M unit :=
  qp ← the_qp;
  q ← lift (sq_free (qp_sq qp) i still_active);
  upd_qp (fun qp => qp <| qp_sq := q |>).

Definition rq_free (q : usiw_recv_wqe_queue) (i : nat) : outcome usiw_recv_wqe_queue :=
  q1 ← usiw_recv_wqe_queue_del_active q i;
  Ok (q1 <| rq_free_ring ::= fun r => snd (rte_ring_enqueue r i) |>).
Definition qp_free_recv_wqe (i : nat) : M unit :=
  qp ← the_qp;
  q ← lift (rq_free (qp_rq0 qp) i);
  upd_qp (fun qp => qp <| qp_rq0 := q |>).

Definition qp_get_next_send_wqe (q : usiw_send_wqe_queue)
  : Z * option nat * usiw_send_wqe_queue :=
  match rte_ring_dequeue (sq_free_ring q) with
  | None => (-ENOSPC, None, q)
  | Some (i, r) => (0, Some i, q <| sq_free_ring := r |>)
  end.
Definition qp_get_next_recv_wqe (q : usiw_recv_wqe_queue)
  : Z * option nat * usiw_recv_wqe_queue :=
  match rte_ring_dequeue (rq_free_ring q) with
  | None => (-ENOSPC, None, q)
  | Some (i, r) => (0, Some i, q <| rq_free_ring := r |>)
  end.

(** ** Posting completions *)

Definition get_cq (c : nat) : M usiw_cq := fun w => v ← deref (w_cqs w !! c); Ok (v, w).
Definition put_cq (c : nat) (v : usiw_cq) : M unit := modify (update w_cqs (fun l => <[c := v]> l)).

(** The end of [finish_post_cqe]: the completion event goes to the kernel. *)
Definition write_event (ev : bool) (cq : usiw_cq) : M unit :=
  modify (fun w => if ev then w <| w_events ::= fun l => l ++ [cq_id cq] |> else w).

(** The part that [post_recv_cqe] and [post_send_cqe] share: acquire a
    completion of queue [c], fill it in, give the entry back, publish. *)
Definition post_cqe (c : nat) (fill : usiw_wc -> usiw_wc) (free_wqe : M unit) : M Z :=
  cq ← get_cq c;
  match get_next_cqe cq with
  | (ret, None, cq1) => put_cq c cq1;; mret ret
  | (_, Some cqe, cq1) =>
      put_cq c (cq1 <| cq_storage ::= alter fill cqe |>);;
      free_wqe;;
      cq2 ← get_cq c;
      '(ev, cq3) ← lift (finish_post_cqe cq2 cqe);
      put_cq c cq3;; write_event ev cq3;; mret 0
  end.

Definition recv_cqe (wqe : usiw_recv_wqe) (status : ibv_wc_status) (num : Z) (c : usiw_wc) : usiw_wc :=
  c <| wc_wr_context := r_wr_context wqe |> <| wc_status := status |>
    <| wc_opcode := IBV_WC_RECV |> <| wc_byte_len := r_input_size wqe |>
    <| wc_qp_num := num |>.

Definition post_recv_cqe (i : nat) (status : ibv_wc_status) : M Z :=
  qp ← the_qp; wqe ← get_rwqe i;
  post_cqe (qp_recv_cq qp) (recv_cqe wqe status (qp_num qp)) (qp_free_recv_wqe i).

Definition get_ibv_send_wc_opcode (ours : usiw_send_opcode) : ibv_wc_opcode :=
  match ours with
  | usiw_wr_send => IBV_WC_SEND
  | usiw_wr_write => IBV_WC_RDMA_WRITE
  | usiw_wr_read => IBV_WC_RDMA_READ
  end.

(** [byte_len] keeps the value of the last use of the completion. *)
Definition send_cqe (wqe : usiw_send_wqe) (status : ibv_wc_status) (num : Z) (c : usiw_wc) : usiw_wc :=
  c <| wc_wr_context := s_wr_context wqe |> <| wc_status := status |>
    <| wc_opcode := get_ibv_send_wc_opcode (s_opcode wqe) |> <| wc_qp_num := num |>.

Definition post_send_cqe (i : nat) (status : ibv_wc_status) : M Z :=
  qp ← the_qp; wqe ← get_swqe i;
  post_cqe (qp_send_cq qp) (send_cqe wqe status (qp_num qp)) (qp_free_send_wqe i true).

(** ** Flushing *)

(** The first loop of [sq_flush]; the ring holds at most [max_wr] entries. *)
Fixpoint sq_drain (fuel : nat) (q : usiw_send_wqe_queue) : outcome usiw_send_wqe_queue :=
  match rte_ring_dequeue (sq_ring q) with
  | None => Ok q
  | Some (i, r) =>
      match fuel with
      | O => Fault OutOfFuel
      | S fuel' => sq_drain fuel' (usiw_send_wqe_queue_add_active (q <| sq_ring := r |>) i)
      end
  end.

Fixpoint rq_drain (fuel : nat) (q : usiw_recv_wqe_queue) : outcome usiw_recv_wqe_queue :=
  match rte_ring_dequeue (rq_ring q) with
  | None => Ok q
  | Some (i, r) =>
      match fuel with
      | O => Fault OutOfFuel
      | S fuel' =>
          let q1 := q <| rq_ring := r |>
                      <| rq_storage ::= alter (fun w => w <| r_msn := rq_next_msn q |>) i |>
                      <| rq_next_msn ::= fun m => u32 (m + 1) |> in
          rq_drain fuel' (usiw_recv_wqe_queue_add_active q1 i)
      end
  end.

(** [list_for_each_safe] over the active list; the body unlinks at most the
    current entry. *)
Fixpoint for_each {A} (l : list A) (body : A -> M unit) : M unit :=
  match l with
  | [] => mret tt
  | i :: r => body i;; for_each r body
  end.

Definition sq_flush : M unit :=
  qp ← the_qp;
  q ← lift (sq_drain (Z.to_nat (sq_max_wr (qp_sq qp))) (qp_sq qp));
  upd_qp (fun qp => qp <| qp_sq := q |>);;
  for_each (sq_active q) (fun i => post_send_cqe i IBV_WC_WR_FLUSH_ERR;; mret tt).

Definition rq_flush : M unit :=
  qp ← the_qp;
  q ← lift (rq_drain (Z.to_nat (rq_max_wr (qp_rq0 qp))) (qp_rq0 qp));
  upd_qp (fun qp => qp <| qp_rq0 := q |>);;
  for_each (rq_active q) (fun i => post_recv_cqe i IBV_WC_WR_FLUSH_ERR;; mret tt).
End Wqe.

(** ** Conservation of entries *)

Section Inv.
Context {D : Dpdk} {L : DpdkLaws D}.
Implicit Types (r f : ring) (act held : list nat) (w : world).

(** Each of the [n] entries is in exactly one place: posted, free, active or
    held by the application; both rings have room for all of them. *)
Record wq_inv r f act held (n : nat) : Prop := {
  wq_perm : ring_elems r ++ ring_elems f ++ act ++ held ≡ₚ seq 0 n;
  wq_cap_r : ring_cap r = n;
  wq_cap_f : ring_cap f = n
}.

Definition sq_wf held (q : usiw_send_wqe_queue) : Prop :=
  wq_inv (sq_ring q) (sq_free_ring q) (sq_active q) held (Z.to_nat (sq_max_wr q)) /\
  length (sq_storage q) = Z.to_nat (sq_max_wr q).
Definition rq_wf held (q : usiw_recv_wqe_queue) : Prop :=
  wq_inv (rq_ring q) (rq_free_ring q) (rq_active q) held (Z.to_nat (rq_max_wr q)) /\
  length (rq_storage q) = S (Z.to_nat (rq_max_wr q)).

Lemma wq_nodup r f act held n :
  wq_inv r f act held n ->
  NoDup (ring_elems r ++ ring_elems f ++ act ++ held) /\
  (length (ring_elems r) + (length (ring_elems f) + (length act + length held)) = n)%nat.
Proof.
  intros [Hp _ _]. split; [rewrite Hp; apply NoDup_seq|].
  rewrite <- !length_app, Hp. apply length_seq.
Qed.

Lemma wq_bound r f act held n i : wq_inv r f act held n -> i ∈ act -> (i < n)%nat.
Proof.
  intros [Hp _ _] Hi. assert (i ∈ seq 0 n) as H by (rewrite <- Hp; set_solver).
  apply elem_of_seq in H. lia.
Qed.

(** A free entry can be acquired until all are in use. *)
Lemma wq_get r f act held n :
  wq_inv r f act held n ->
  (rte_ring_dequeue f = None /\ (length (ring_elems r) + (length act + length held) = n)%nat) \/
  exists i f', rte_ring_dequeue f = Some (i, f') /\ wq_inv r f' act (i :: held) n.
Proof.
  intros H. destruct (ring_elems f) as [|i l] eqn:E.
  - left. split; [by apply ring_dequeue_nil|]. apply wq_nodup in H as [_ H].
    rewrite E in H. done.
  - right. destruct (ring_dequeue_law f i l E) as (f' & Ef & El & Hc).
    exists i, f'. split; [done|]. destruct H as [Hp Hr Hf].
    split; [|done|congruence]. rewrite <- Hp, E, El. solve_Permutation.
Qed.

(** Posting a held entry never fails and keeps the order of the ring. *)
Lemma wq_post r f act i held n :
  wq_inv r f act (i :: held) n ->
  exists r', rte_ring_enqueue r i = (0, r') /\ ring_elems r' = ring_elems r ++ [i] /\
    wq_inv r' f act held n.
Proof.
  intros H. pose proof (wq_nodup _ _ _ _ _ H) as [_ Hlen]. destruct H as [Hp Hr Hf].
  destruct (ring_enqueue_law r i) as (r' & E & El & Hc); [simpl in Hlen; lia|].
  exists r'. split_and!; [done..|]. split; [|congruence|done].
  rewrite <- Hp, El. solve_Permutation.
Qed.

(** The oldest posted entry becomes the last active one. *)
Lemma wq_activate r f act held n i r' l :
  wq_inv r f act held n -> ring_elems r = i :: l ->
  ring_elems r' = l -> ring_cap r' = ring_cap r -> wq_inv r' f (act ++ [i]) held n.
Proof.
  intros [Hp Hr Hf] E El Hc. split; [|congruence|done].
  rewrite <- Hp, E, El. solve_Permutation.
Qed.

Lemma filter_ne_notin (i : nat) (l : list nat) : i ∉ l -> filter (fun j => j <> i) l = l.
Proof.
  induction l as [|x l IH]; [done|]. intros H%not_elem_of_cons.
  rewrite filter_cons_True by naive_solver. by rewrite IH by naive_solver.
Qed.

Lemma filter_ne_perm (i : nat) (l : list nat) :
  NoDup l -> i ∈ l -> l ≡ₚ i :: filter (fun j => j <> i) l.
Proof.
  intros Hnd Hi. induction Hnd as [|x l Hx Hnd IH]; [by apply elem_of_nil in Hi|].
  apply elem_of_cons in Hi as [->|Hi].
  - rewrite filter_cons_False by tauto. by rewrite filter_ne_notin.
  - rewrite filter_cons_True by (intros ->; done). rewrite (IH Hi) at 1. constructor.
Qed.

(** Freeing an active entry never fails. *)
Lemma wq_free r f act held n i :
  wq_inv r f act held n -> i ∈ act ->
  exists f', rte_ring_enqueue f i = (0, f') /\ ring_elems f' = ring_elems f ++ [i] /\
    list_del i act = Ok (filter (fun j => j <> i) act) /\
    wq_inv r f' (filter (fun j => j <> i) act) held n.
Proof.
  intros H Hi. pose proof (wq_nodup _ _ _ _ _ H) as [Hnd Hlen]. destruct H as [Hp Hr Hf].
  assert (NoDup act) as Hnda.
  { apply NoDup_app in Hnd as (_ & _ & Hnd). apply NoDup_app in Hnd as (_ & _ & Hnd).
    by apply NoDup_app in Hnd as (? & _). }
  pose proof (filter_ne_perm i act Hnda Hi) as Hperm.
  destruct (ring_enqueue_law f i) as (f' & E & El & Hc).
  { rewrite Hperm in Hlen. simpl in Hlen. lia. }
  exists f'. split_and!; [done..| |].
  - unfold list_del. by rewrite decide_True.
  - split; [|done|congruence]. rewrite <- Hp, El.
    generalize dependent (filter (fun j => j <> i) act). intros F ->. solve_Permutation.
Qed.

Lemma wq_free_held r f act i held n :
  wq_inv r f act (i :: held) n ->
  exists f', rte_ring_enqueue f i = (0, f') /\ wq_inv r f' act held n.
Proof.
  intros H. pose proof (wq_nodup _ _ _ _ _ H) as [_ Hlen]. destruct H as [Hp Hr Hf].
  destruct (ring_enqueue_law f i) as (f' & E & El & Hc); [simpl in Hlen; lia|].
  exists f'. split; [done|]. split; [|done|congruence].
  rewrite <- Hp, El. solve_Permutation.
Qed.

Lemma wq_init n :
  (exists k, S n = 2 ^ k)%nat ->
  exists r f, rte_ring_init (S n) = Some r /\ wq_inv r (fill_free f 0 n) [] [] n /\
    rte_ring_init (S n) = Some f /\ ring_elems r = [].
Proof.
  intros Hk. destruct (ring_init_law (S n) Hk) as (r & Er & El & Hc).
  exists r, r. destruct (fill_free_elems n r 0%nat) as [Ef Hf].
  { rewrite El, Hc. simpl. lia. }
  split_and!; [done| |done|done].
  split; rewrite ?Ef, ?Hf, ?El, ?Hc, ?app_nil_r; simpl; done || lia.
Qed.

(** ** Completions at the level of the queue pair *)

Definition events_after (ev : bool) (cq : usiw_cq) (l : list Z) : list Z :=
  if ev then l ++ [cq_id cq] else l.

Lemma post_cqe_full c fill free_wqe w cq :
  w_cqs w !! c = Some cq -> cq_wf cq -> length (cq_queue cq) = cq_cap cq ->
  post_cqe c fill free_wqe w = Ok (-ENOENT, w).
Proof.
  intros Hc Hwf Hfull. pose proof (cq_post_full cq fill Hwf Hfull) as H.
  unfold cq_post in H. unfold post_cqe, get_cq. cbv [mbind M_bind]. rewrite Hc. simpl.
  destruct (get_next_cqe cq) as [[ret [p|]] cq1].
  - destruct (finish_post_cqe _ _) as [[]|]; simplify_eq/=.
  - simplify_eq/=. rewrite list_insert_id by done. by destruct w.
Qed.

Lemma post_cqe_room c fill free_wqe w cq qp1 :
  w_cqs w !! c = Some cq -> cq_wf cq -> (length (cq_queue cq) < cq_cap cq)%nat ->
  (forall l, free_wqe (w <| w_cqs := l |>) = Ok (tt, w <| w_qp := qp1 |> <| w_cqs := l |>)) ->
  exists cq' old, post_cqe c fill free_wqe w =
      Ok (0, w <| w_qp := qp1 |> <| w_cqs := <[c := cq']> (w_cqs w) |>
               <| w_events ::= events_after (cq_notify_flag cq) cq |>) /\
    cq_wf cq' /\ cq_cap cq' = cq_cap cq /\ cq_abs cq' = (cq_queue cq ++ [fill old], false).
Proof.
  intros Hc Hwf Hroom Hfree.
  destruct (cq_post_room cq fill Hwf Hroom) as (cq' & old & H & Hwf' & Hcap & Ha).
  exists cq', old. split; [|done]. unfold cq_post in H. unfold post_cqe, get_cq.
  cbv [mbind M_bind]. rewrite Hc. simpl.
  pose proof (lookup_lt_Some _ _ _ Hc) as Hlt.
  unfold get_next_cqe in *.
  destruct (rte_ring_dequeue (cq_free_ring cq)) as [[p r1]|]; [|discriminate H].
  set (cq1 := cq <| cq_free_ring := r1 |>) in *.
  specialize (Hfree (<[c := cq1 <| cq_storage ::= alter fill p |>]> (w_cqs w))).
  simpl in *. rewrite Hfree. simpl. rewrite list_lookup_insert_eq by done. simpl.
  destruct (finish_post_cqe _ p) as [[ev cq3]|] eqn:Ef; [|done].
  assert (cq_id cq3 = cq_id cq) as Hid3.
  { unfold finish_post_cqe in Ef. destruct (rte_ring_enqueue _ p) as [z rr]. simpl in Ef.
    destruct (c_assert _); simplify_eq/=. done. }
  simpl in *. simplify_eq. unfold lift, write_event, modify. simpl.
  rewrite list_insert_insert_eq, Hid3. destruct (cq_notify_flag cq); done.
Qed.

Lemma sq_free_active held q i :
  sq_wf held q -> i ∈ sq_active q ->
  exists f', sq_free q i true =
      Ok (q <| sq_active := filter (fun j => j <> i) (sq_active q) |> <| sq_free_ring := f' |>) /\
    ring_elems f' = ring_elems (sq_free_ring q) ++ [i] /\
    sq_wf held (q <| sq_active := filter (fun j => j <> i) (sq_active q) |> <| sq_free_ring := f' |>).
Proof.
  intros [Hinv Hst] Hi. destruct (wq_free _ _ _ _ _ _ Hinv Hi) as (f' & E & El & Ed & Hinv').
  exists f'. unfold sq_free, usiw_send_wqe_queue_del_active. rewrite Ed. simpl. rewrite E.
  split_and!; done.
Qed.

Lemma rq_free_active held q i :
  rq_wf held q -> i ∈ rq_active q ->
  exists f', rq_free q i =
      Ok (q <| rq_active := filter (fun j => j <> i) (rq_active q) |> <| rq_free_ring := f' |>) /\
    ring_elems f' = ring_elems (rq_free_ring q) ++ [i] /\
    rq_wf held (q <| rq_active := filter (fun j => j <> i) (rq_active q) |> <| rq_free_ring := f' |>).
Proof.
  intros [Hinv Hst] Hi. destruct (wq_free _ _ _ _ _ _ Hinv Hi) as (f' & E & El & Ed & Hinv').
  exists f'. unfold rq_free, usiw_recv_wqe_queue_del_active. rewrite Ed. simpl. rewrite E.
  split_and!; done.
Qed.

(** What the application sees of a completion of a send entry. *)
Definition wc_view (c : usiw_wc) : Z * ibv_wc_status * ibv_wc_opcode * Z :=
  (wc_wr_context c, wc_status c, wc_opcode c, wc_qp_num c).

(** The state after completions of queue [c] changed it to [cq'] and the send
    queue to [q]. *)
Definition after_sq w (c : nat) (cq' : usiw_cq) (q : usiw_send_wqe_queue) (ev : list Z) : world :=
  w <| w_qp ::= update qp_sq (fun _ => q) |> <| w_cqs := <[c := cq']> (w_cqs w) |>
    <| w_events := ev |>.

Lemma post_send_cqe_room held w i wqe cq status (q := qp_sq (w_qp w)) (c := qp_send_cq (w_qp w)) :
  sq_wf held q -> i ∈ sq_active q -> sq_storage q !! i = Some wqe ->
  w_cqs w !! c = Some cq -> cq_wf cq -> (length (cq_queue cq) < cq_cap cq)%nat ->
  exists cq' f' old ev,
    let q' := q <| sq_active := filter (fun j => j <> i) (sq_active q) |> <| sq_free_ring := f' |> in
    post_send_cqe i status w = Ok (0, after_sq w c cq' q' ev) /\
    sq_wf held q' /\ cq_wf cq' /\ cq_cap cq' = cq_cap cq /\
    cq_queue cq' = cq_queue cq ++ [send_cqe wqe status (qp_num (w_qp w)) old].
Proof.
  intros Hq Hi Hwqe Hc Hwf Hroom.
  destruct (sq_free_active held q i Hq Hi) as (f' & Ef & El & Hq').
  destruct (post_cqe_room c (send_cqe wqe status (qp_num (w_qp w))) (qp_free_send_wqe i true) w cq
    (w_qp w <| qp_sq := q <| sq_active := filter (fun j => j <> i) (sq_active q) |>
                          <| sq_free_ring := f' |> |>) Hc Hwf Hroom)
    as (cq' & old & E & Hwf' & Hcap & Ha).
  { intros l. unfold qp_free_send_wqe. cbv [mbind M_bind the_qp gets]. simpl. fold q.
    rewrite Ef. done. }
  exists cq', f', old, (events_after (cq_notify_flag cq) cq (w_events w)). split_and!; try done.
  - unfold post_send_cqe. cbv [mbind M_bind the_qp gets get_swqe]. fold q. rewrite Hwqe.
    simpl. fold c. rewrite E. done.
  - by injection Ha.
Qed.

Definition after_rq w (c : nat) (cq' : usiw_cq) (q : usiw_recv_wqe_queue) (ev : list Z) : world :=
  w <| w_qp := w_qp w <| qp_rq0 := q |> |> <| w_cqs := <[c := cq']> (w_cqs w) |> <| w_events := ev |>.

Lemma post_recv_cqe_room held w i wqe cq status (q := qp_rq0 (w_qp w)) (c := qp_recv_cq (w_qp w)) :
  rq_wf held q -> i ∈ rq_active q -> rq_storage q !! i = Some wqe ->
  w_cqs w !! c = Some cq -> cq_wf cq -> (length (cq_queue cq) < cq_cap cq)%nat ->
  exists cq' f' old ev,
    let q' := q <| rq_active := filter (fun j => j <> i) (rq_active q) |> <| rq_free_ring := f' |> in
    post_recv_cqe i status w = Ok (0, after_rq w c cq' q' ev) /\
    rq_wf held q' /\ cq_wf cq' /\ cq_cap cq' = cq_cap cq /\
    cq_queue cq' = cq_queue cq ++ [recv_cqe wqe status (qp_num (w_qp w)) old].
Proof.
  intros Hq Hi Hwqe Hc Hwf Hroom.
  destruct (rq_free_active held q i Hq Hi) as (f' & Ef & El & Hq').
  destruct (post_cqe_room c (recv_cqe wqe status (qp_num (w_qp w))) (qp_free_recv_wqe i) w cq
    (w_qp w <| qp_rq0 := q <| rq_active := filter (fun j => j <> i) (rq_active q) |>
                           <| rq_free_ring := f' |> |>) Hc Hwf Hroom)
    as (cq' & old & E & Hwf' & Hcap & Ha).
  { intros l. unfold qp_free_recv_wqe. cbv [mbind M_bind the_qp gets]. simpl. fold q.
    rewrite Ef. done. }
  exists cq', f', old, (events_after (cq_notify_flag cq) cq (w_events w)). split_and!; try done.
  - unfold post_recv_cqe. cbv [mbind M_bind the_qp gets get_rwqe]. fold q. rewrite Hwqe.
    simpl. fold c. rewrite E. done.
  - by injection Ha.
Qed.

Lemma post_send_cqe_full w i wqe cq status (q := qp_sq (w_qp w)) (c := qp_send_cq (w_qp w)) :
  sq_storage q !! i = Some wqe -> w_cqs w !! c = Some cq -> cq_wf cq ->
  length (cq_queue cq) = cq_cap cq -> post_send_cqe i status w = Ok (-ENOENT, w).
Proof.
  intros Hwqe Hc Hwf Hfull. unfold post_send_cqe.
  cbv [mbind M_bind the_qp gets get_swqe]. fold q. rewrite Hwqe. simpl. fold c.
  by apply (post_cqe_full c _ _ w cq).
Qed.

(** ** Flushing *)

Lemma sq_drain_ok fuel : forall held q,
  sq_wf held q -> (length (ring_elems (sq_ring q)) <= fuel)%nat ->
  exists r', let q' := q <| sq_ring := r' |> <| sq_active ::= fun l => l ++ ring_elems (sq_ring q) |> in
    sq_drain fuel q = Ok q' /\ ring_elems r' = [] /\ sq_wf held q'.
Proof.
  induction fuel as [|fuel IH]; intros held q [Hinv Hst] Hlen; simpl;
    destruct (ring_elems (sq_ring q)) as [|i l] eqn:E; simpl in Hlen; try lia.
  1,2: rewrite (ring_dequeue_nil _ E); exists (sq_ring q); rewrite app_nil_r;
    split_and!; destruct q; done.
  destruct (ring_dequeue_law _ _ _ E) as (r1 & -> & El & Hc).
  set (q1 := usiw_send_wqe_queue_add_active (q <| sq_ring := r1 |>) i).
  destruct (IH held q1) as (r2 & E2 & El2 & Hwf2).
  - split; [|done]. simpl. by eapply wq_activate.
  - simpl. rewrite El. lia.
  - exists r2. simpl in *. rewrite El in E2, Hwf2. rewrite <- app_assoc in E2, Hwf2. done.
Qed.

Lemma rq_drain_ok fuel : forall held q,
  rq_wf held q -> (length (ring_elems (rq_ring q)) <= fuel)%nat ->
  exists q', rq_drain fuel q = Ok q' /\ ring_elems (rq_ring q') = [] /\ rq_wf held q' /\
    rq_active q' = rq_active q ++ ring_elems (rq_ring q) /\
    (forall i x, rq_storage q !! i = Some x ->
       exists m, rq_storage q' !! i = Some (x <| r_msn := m |>)).
Proof.
  induction fuel as [|fuel IH]; intros held q [Hinv Hst] Hlen; simpl;
    destruct (ring_elems (rq_ring q)) as [|i l] eqn:E; simpl in Hlen; try lia.
  1,2: rewrite (ring_dequeue_nil _ E); exists q; rewrite app_nil_r; split_and!; try done;
    intros j x Hx; exists (r_msn x); by destruct x.
  destruct (ring_dequeue_law _ _ _ E) as (r1 & -> & El & Hc).
  match goal with |- context [rq_drain fuel ?q1] => set (q2 := q1) end.
  destruct (IH held q2) as (q' & E2 & El2 & Hwf2 & Hact & Hsto).
  - split; [simpl; by eapply wq_activate|]. simpl. by rewrite length_alter.
  - simpl. rewrite El. lia.
  - exists q'. split_and!; try done.
    + rewrite Hact. simpl. rewrite El, <- app_assoc. done.
    + intros j x Hx. destruct (decide (i = j)) as [->|Hne].
      * destruct (Hsto j (x <| r_msn := rq_next_msn q |>)) as [m Hm]; [|by exists m].
        simpl. by rewrite list_lookup_alter_eq, Hx.
      * apply Hsto. simpl. by rewrite list_lookup_alter_ne.
Qed.

(** The second loop of a flush, for a posting function whose effect is
    described by [I rest completed room]. *)
Section Loop.
Context {V : Type} (post : nat -> M Z) (view : nat -> V).
Context (I : list nat -> list V -> nat -> world -> Prop).
Hypothesis post_room : forall i l q room w, I (i :: l) q (S room) w ->
  exists w', post i w = Ok (0, w') /\ I l (q ++ [view i]) room w'.
Hypothesis post_full : forall i l q w, I l q 0 w -> i ∈ l -> post i w = Ok (-ENOENT, w).

Lemma flush_loop_full l l' q w :
  I l q 0 w -> (forall i, i ∈ l' -> i ∈ l) ->
  for_each l' (fun i => post i;; mret tt) w = Ok (tt, w).
Proof using post_full.
  intros HI. induction l' as [|i l' IH]; intros Hin; [done|].
  simpl. cbv [mbind M_bind].
  rewrite (post_full i l q w HI) by (apply Hin; by left).
  apply IH. intros j Hj. apply Hin. by right.
Qed.

Lemma flush_loop l : forall q room w,
  I l q room w ->
  let n := Nat.min (length l) room in
  exists w', for_each l (fun i => post i;; mret tt) w = Ok (tt, w') /\
    I (drop n l) (q ++ (view <$> take n l)) (room - n) w'.
Proof using post_room post_full.
  induction l as [|i l IH]; intros q room w HI n; subst n.
  { exists w. simpl. rewrite app_nil_r, Nat.sub_0_r. done. }
  destruct room as [|room].
  - exists w. rewrite Nat.min_0_r. cbn [drop take fmap list_fmap]. rewrite app_nil_r.
    split; [|done]. by apply (flush_loop_full (i :: l) _ q).
  - destruct (post_room i l q room w HI) as (w1 & E & HI1).
    destruct (IH _ _ _ HI1) as (w2 & E2 & HI2). exists w2. split.
    + simpl. cbv [mbind M_bind]. rewrite E. exact E2.
    + rewrite <- app_assoc in HI2. exact HI2.
Qed.
End Loop.

Definition sq_view (st : list usiw_send_wqe) (status : ibv_wc_status) (num : Z) (i : nat)
  : Z * ibv_wc_status * ibv_wc_opcode * Z :=
  let w := default zero_send_wqe (st !! i) in
  (s_wr_context w, status, get_ibv_send_wc_opcode (s_opcode w), num).

Lemma after_sq_after w c cq1 q1 ev1 cq2 q2 ev2 :
  after_sq (after_sq w c cq1 q1 ev1) c cq2 q2 ev2 = after_sq w c cq2 q2 ev2.
Proof. unfold after_sq. simpl. by rewrite list_insert_insert_eq. Qed.

(** State in the middle of [sq_flush] started in [w0]. *)
Definition sq_flushing held (w0 : world) (cap : nat) (st : list usiw_send_wqe)
    (l : list nat) (done : list (Z * ibv_wc_status * ibv_wc_opcode * Z)) (room : nat) w : Prop :=
  exists cq q ev, w = after_sq w0 (qp_send_cq (w_qp w0)) cq q ev /\
    sq_wf held q /\ sq_active q = l /\ sq_storage q = st /\ ring_elems (sq_ring q) = [] /\
    cq_wf cq /\ cq_cap cq = cap /\ wc_view <$> cq_queue cq = done /\
    (room = cap - length done)%nat /\ (qp_send_cq (w_qp w0) < length (w_cqs w0))%nat.

Lemma after_sq_cq w c cq q ev :
  (c < length (w_cqs w))%nat -> w_cqs (after_sq w c cq q ev) !! c = Some cq.
Proof. intros. simpl. by apply list_lookup_insert_eq. Qed.

Lemma filter_head (i : nat) l : NoDup (i :: l) -> filter (fun j => j <> i) (i :: l) = l.
Proof.
  intros [Hi _]%NoDup_cons. rewrite filter_cons_False by tauto. by apply filter_ne_notin.
Qed.

Lemma sq_wf_active held q :
  sq_wf held q -> NoDup (sq_active q) /\ forall i, i ∈ sq_active q -> is_Some (sq_storage q !! i).
Proof.
  intros [Hinv Hst]. split.
  - apply wq_nodup in Hinv as [Hnd _].
    apply NoDup_app in Hnd as (_ & _ & Hnd). apply NoDup_app in Hnd as (_ & _ & Hnd).
    by apply NoDup_app in Hnd as (? & _).
  - intros i Hi. apply lookup_lt_is_Some. rewrite Hst. by eapply wq_bound.
Qed.

Lemma sq_flushing_room held w0 cap st i l q room w :
  sq_flushing held w0 cap st (i :: l) q (S room) w ->
  exists w', post_send_cqe i IBV_WC_WR_FLUSH_ERR w = Ok (0, w') /\
    sq_flushing held w0 cap st l
      (q ++ [sq_view st IBV_WC_WR_FLUSH_ERR (qp_num (w_qp w0)) i]) room w'.
Proof.
  intros (cq & sq & ev & -> & Hq & Hact & Hst & Hr & Hwf & Hcap & <- & Hroom & Hlt).
  rewrite length_fmap in Hroom.
  destruct (sq_wf_active held sq Hq) as [Hnd Hsome]. rewrite Hact in Hnd.
  destruct (Hsome i ltac:(rewrite Hact; set_solver)) as [wqe Hwqe].
  destruct (post_send_cqe_room held (after_sq w0 (qp_send_cq (w_qp w0)) cq sq ev) i wqe cq
    IBV_WC_WR_FLUSH_ERR) as (cq' & f' & old & ev' & E & Hq' & Hwf' & Hcap' & Hqu); simpl; try done.
  { rewrite Hact. set_solver. }
  { by apply list_lookup_insert_eq. }
  { lia. }
  simpl in E. eexists. split; [exact E|]. rewrite after_sq_after.
  simpl in Hq'. rewrite Hact, filter_head in Hq' by done.
  eexists _, _, _. split; [done|]. simpl. rewrite Hact, filter_head by done.
  split_and!; try done.
  - congruence.
  - rewrite Hqu, fmap_app. unfold sq_view. rewrite <- Hst, Hwqe. done.
  - rewrite length_app, length_fmap. simpl. lia.
Qed.

Lemma sq_flushing_full held w0 cap st i l q w :
  sq_flushing held w0 cap st l q 0 w -> i ∈ l ->
  post_send_cqe i IBV_WC_WR_FLUSH_ERR w = Ok (-ENOENT, w).
Proof.
  intros (cq & sq & ev & -> & Hq & Hact & Hst & Hr & Hwf & Hcap & <- & Hroom & Hlt) Hi.
  rewrite length_fmap in Hroom. destruct (sq_wf_active held sq Hq) as [_ Hsome].
  destruct (Hsome i ltac:(by rewrite Hact)) as [wqe Hwqe].
  apply (post_send_cqe_full _ i wqe cq); simpl; try done.
  - by apply list_lookup_insert_eq.
  - pose proof (cq_wf_bound cq Hwf). rewrite cq_queue_length in * by done. lia.
Qed.

(** C21: Flushing the send queue completes the outstanding requests, active
    ones first and then the posted ones in order, with WR_FLUSH_ERR, as far as
    the completion queue has room; the rest stays active, and the queue stays
    well formed. *)
Theorem sq_flush_completes (held : list nat) (w : world) (cq : usiw_cq)
    (q := qp_sq (w_qp w)) (c := qp_send_cq (w_qp w)) :
  sq_wf held q -> w_cqs w !! c = Some cq -> cq_wf cq ->
  let outstanding := sq_active q ++ ring_elems (sq_ring q) in
  let n := Nat.min (length outstanding) (cq_cap cq - length (cq_queue cq)) in
  exists cq' q' ev, sq_flush w = Ok (tt, after_sq w c cq' q' ev) /\
    sq_wf held q' /\ cq_wf cq' /\
    ring_elems (sq_ring q') = [] /\ sq_active q' = drop n outstanding /\
    wc_view <$> cq_queue cq' = (wc_view <$> cq_queue cq) ++
      (sq_view (sq_storage q) IBV_WC_WR_FLUSH_ERR (qp_num (w_qp w)) <$> take n outstanding).
Proof.
  intros Hq Hc Hwf outstanding n. pose proof (lookup_lt_Some _ _ _ Hc) as Hlt.
  destruct (sq_drain_ok (Z.to_nat (sq_max_wr q)) held q Hq) as (r' & E & El & Hq1).
  { destruct Hq as [[_ Hr _] _]. rewrite <- Hr. apply ring_bound. }
  set (q1 := q <| sq_ring := r' |> <| sq_active ::= fun l => l ++ ring_elems (sq_ring q) |>) in *.
  set (w1 := after_sq w c cq q1 (w_events w)).
  destruct (flush_loop (fun i => post_send_cqe i IBV_WC_WR_FLUSH_ERR) _
    (sq_flushing held w (cq_cap cq) (sq_storage q))
    (fun i l qq room => sq_flushing_room held w (cq_cap cq) (sq_storage q) i l qq room)
    (fun i l qq => sq_flushing_full held w (cq_cap cq) (sq_storage q) i l qq)
    (sq_active q1) (wc_view <$> cq_queue cq) (cq_cap cq - length (cq_queue cq)) w1)
    as (w2 & E2 & (cq2 & q2 & ev2 & -> & Hq2 & Hact & _ & Hr2 & Hwf2 & _ & Hqu & _ & _)).
  { exists cq, q1, (w_events w). unfold q1. simpl. rewrite length_fmap. split_and!; done. }
  exists cq2, q2, ev2. split_and!; try done.
  unfold sq_flush. cbv [mbind M_bind the_qp gets]. fold q. rewrite E. simpl.
  unfold w1, after_sq in E2. rewrite list_insert_id in E2 by done. exact E2.
Qed.
End Inv.
