(* ===== verification/Frame.v ===== *)
(** * Transmission of UDP datagrams (src/liburdma/interface.c)

    The functions that put UDP, IPv4 and Ethernet headers in front of a
    datagram, compute the checksums in software when the port does not, queue
    the frame and flush the transmit queue.  A frame is the byte string of its
    mbuf chain.  Multi-byte fields that the code keeps in network byte order
    are 16- or 32-bit integers whose little-endian memory image is the wire
    image. *)
From S2P Require Import Prelude Dpdk Binheap Iov State.

Definition IP_HDR_PROTO_UDP : Z := 17.
Definition ETHER_TYPE_IPv4 : Z := 0x0800.

(** [rte_cpu_to_be_16] on a little-endian host. *)
Definition rte_cpu_to_be_16 (x : Z) : Z := le_decode (be_encode 2 x).

(** [struct udp_hdr] and [struct ipv4_hdr] of DPDK, the fields as stored. *)
Record udp_hdr := UdpHdr { src_port : Z; dst_port : Z; dgram_len : Z; dgram_cksum : Z }.
#[export] Instance udp_hdr_settable : Settable udp_hdr := fun u =>
  UdpHdr (src_port u) (dst_port u) (dgram_len u) (dgram_cksum u).

Record ipv4_hdr := Ipv4Hdr {
  total_length : Z; next_proto_id : Z; hdr_checksum : Z; src_addr : Z; dst_addr : Z
}.
#[export] Instance ipv4_hdr_settable : Settable ipv4_hdr := fun i =>
  Ipv4Hdr (total_length i) (next_proto_id i) (hdr_checksum i) (src_addr i) (dst_addr i).

Definition udp_bytes (u : udp_hdr) : bytes :=
  le_encode 2 (src_port u) ++ le_encode 2 (dst_port u) ++ le_encode 2 (dgram_len u)
  ++ le_encode 2 (dgram_cksum u).

(** Version and header length 0x45, type of service, length, packet id and
    fragment offset 0, time to live 64. *)
Definition ipv4_bytes (i : ipv4_hdr) : bytes :=
  [0x45; 0] ++ le_encode 2 (total_length i) ++ [0; 0; 0; 0; 64; u8 (next_proto_id i)]
  ++ le_encode 2 (hdr_checksum i) ++ le_encode 4 (src_addr i) ++ le_encode 4 (dst_addr i).

Arguments rte_cpu_to_be_16 : simpl never.
Arguments udp_bytes : simpl never.
Arguments ipv4_bytes : simpl never.

Section Frame.
Context {D : Dpdk}.

Definition prepend_udp_header (payload_length src dst : Z) : udp_hdr :=
  {| src_port := src; dst_port := dst; dgram_cksum := 0;
     dgram_len := rte_cpu_to_be_16 (8 + payload_length) |}.

Definition prepend_ipv4_header (payload_length proto src dst ol_flags : Z) : ipv4_hdr :=
  let ip := {| total_length := rte_cpu_to_be_16 (20 + payload_length);
               next_proto_id := proto; hdr_checksum := 0;
               src_addr := src; dst_addr := dst |} in
  if negb (has ol_flags PKT_TX_IP_CKSUM)
  then ip <| hdr_checksum := rte_ipv4_cksum (ipv4_bytes ip) |> else ip.

(** The loop of [flush_tx_queue] over the frames between [begin] and
    [txq_end]. *)
Fixpoint tx_loop (fuel : nat) (begin : list bytes) : M unit :=
  match fuel with
  | O => fail OutOfFuel
  | S fuel' =>
      e ← gets w_env;
      let '(ret, e') := rte_eth_tx_burst e begin in
      modify (fun w => w <| w_env := e' |> <| w_wire ::= fun l => l ++ take ret begin |>);;
      if decide (drop ret begin = []) then mret tt else tx_loop fuel' (drop ret begin)
  end.

Definition flush_tx_queue : M unit :=
  n ← gets w_tx_bound;
  qp ← the_qp;
  tx_loop n (qp_txq qp);;
  upd_qp (fun qp => qp <| qp_txq := [] |>).

Definition enqueue_ether_frame (packet : bytes) (ether_type : Z) (dst : bytes) : M unit :=
  qp ← the_qp;
  let frame := dst ++ dev_ether_addr (qp_dev qp) ++ be_encode 2 ether_type ++ packet in
  (if len (qp_txq qp) <? tx_burst_size (shm_qp qp) then mret tt else fail OutOfBounds);;
  upd_qp (fun qp => qp <| qp_txq ::= fun l => l ++ [frame] |>);;
  if len (qp_txq qp) + 1 =? tx_burst_size (shm_qp qp) then flush_tx_queue else mret tt.

(** [while (raw_cksum > UINT16_MAX)]: two rounds reduce any 32-bit sum. *)
Fixpoint fold_cksum (fuel : nat) (raw : Z) : outcome Z :=
  if raw >? UINT16_MAX then
    match fuel with
    | O => Fault OutOfFuel
    | S fuel' => fold_cksum fuel' (u32 (Z.shiftr raw 16 + Z.land raw 0xffff))
    end
  else Ok raw.

(** The headers of [send_udp_dgram], without the Ethernet header. *)
Definition udp_ip_headers (qp : usiw_qp) (payload_length raw_cksum : Z)
  : outcome (ipv4_hdr * udp_hdr) :=
  let ol_flags := if has (dev_flags (qp_dev qp)) port_checksum_offload
    then set_bits 0 (Z.lor (Z.lor PKT_TX_UDP_CKSUM PKT_TX_IPV4) PKT_TX_IP_CKSUM) else 0 in
  let udp := prepend_udp_header payload_length (local_udp_port (shm_qp qp))
               (remote_udp_port (shm_qp qp)) in
  let ip := prepend_ipv4_header (8 + payload_length) IP_HDR_PROTO_UDP
              (dev_ipv4_addr (qp_dev qp)) (remote_ipv4_addr (shm_qp qp)) ol_flags in
  let udp1 := udp <| dgram_cksum := rte_ipv4_phdr_cksum (ipv4_bytes ip) ol_flags |> in
  if negb (has ol_flags PKT_TX_UDP_CKSUM) then
    raw ← fold_cksum 2 (u32 (raw_cksum + (dgram_cksum udp1 + src_port udp1
                                          + dst_port udp1 + dgram_len udp1)));
    Ok (ip, udp1 <| dgram_cksum := if raw =? UINT16_MAX then UINT16_MAX
                                   else u16 (Z.lnot raw) |>)
  else Ok (ip, udp1).

Arguments fold_cksum : simpl never.

Definition send_udp_dgram (sendmsg : bytes) (raw_cksum : Z) : M unit :=
  qp ← the_qp;
  '(ip, udp) ← lift (udp_ip_headers qp (len sendmsg) raw_cksum);
  enqueue_ether_frame (ipv4_bytes ip ++ udp_bytes udp ++ sendmsg) ETHER_TYPE_IPv4
    (remote_ether_addr (shm_qp qp)).
End Frame.

(** ** Checksums *)

Lemma sum16_app a b : Nat.Even (length a) -> sum16 (a ++ b) = sum16 a + sum16 b.
Proof.
  intros [n Hn]. revert a Hn. induction n as [|n IH]; intros a Hn.
  { destruct a; [done|simpl in Hn; lia]. }
  destruct a as [|x [|y a]]; simpl in Hn; try lia.
  simpl. rewrite IH by lia. lia.
Qed.

Lemma sum16_le2 x : in_range 16 x -> sum16 (le_encode 2 x) = x.
Proof.
  intros H. simpl. wrap_lia.
Qed.

Lemma fold_cksum_ok raw :
  in_range 32 raw ->
  exists r, fold_cksum 2 raw = Ok r /\ in_range 16 r /\ r mod 65535 = raw mod 65535.
Proof.
  intros H. assert (forall z, 0 <= z < 2 ^ 32 -> Z.shiftr z 16 + Z.land z 0xffff = z / 65536 + z mod 65536) as E.
  { intros z _. rewrite Z.shiftr_div_pow2 by lia. change 0xffff with (Z.ones 16).
    by rewrite Z.land_ones by lia. }
  unfold fold_cksum, UINT16_MAX.
  destruct (Z.gtb_spec raw 65535) as [H1|H1].
  2: { eexists. split; [done|]. wrap_lia. }
  rewrite E by done.
  assert (u32 (raw / 65536 + raw mod 65536) = raw / 65536 + raw mod 65536) as -> by wrap_lia.
  set (r1 := raw / 65536 + raw mod 65536).
  assert (r1 mod 65535 = raw mod 65535 /\ 0 <= r1 <= 131070) as [Hr1 Hb1].
  { subst r1. wrap_lia. }
  clearbody r1.
  destruct (Z.gtb_spec r1 65535) as [H2|H2].
  2: { eexists. split; [done|]. wrap_lia. }
  rewrite E by lia.
  assert (u32 (r1 / 65536 + r1 mod 65536) = r1 / 65536 + r1 mod 65536) as -> by wrap_lia.
  destruct (Z.gtb_spec (r1 / 65536 + r1 mod 65536) 65535) as [H3|H3].
  - exfalso. wrap_lia.
  - eexists. split; [done|]. wrap_lia.
Qed.

Lemma rte_cpu_to_be_16_range x : in_range 16 (rte_cpu_to_be_16 x).
Proof. unfold rte_cpu_to_be_16. cbn [be_encode le_decode]. wrap_lia. Qed.

Lemma u16_lnot r : in_range 16 r -> u16 (Z.lnot r) = 65535 - r.
Proof. intros. unfold Z.lnot. wrap_lia. Qed.

Section Checksum.
Context {D : Dpdk} {L : DpdkLaws D}.

Definition ipv4_before (i : ipv4_hdr) : bytes :=
  [0x45; 0] ++ le_encode 2 (total_length i) ++ [0; 0; 0; 0; 64; u8 (next_proto_id i)].
Definition ipv4_after (i : ipv4_hdr) : bytes :=
  le_encode 4 (src_addr i) ++ le_encode 4 (dst_addr i).

Lemma ipv4_bytes_sum i :
  in_range 16 (hdr_checksum i) ->
  sum16 (ipv4_bytes i) = sum16 (ipv4_before i) + (hdr_checksum i + sum16 (ipv4_after i)).
Proof.
  intros H. assert (ipv4_bytes i = ipv4_before i ++ le_encode 2 (hdr_checksum i) ++ ipv4_after i) as -> by done.
  rewrite sum16_app by (exists 5%nat; done).
  rewrite sum16_app, sum16_le2 by (done || (exists 1%nat; done)). done.
Qed.

(** The IPv4 header checksum verifies when the port does not compute it. *)
Lemma prepend_ipv4_header_cksum n proto src dst ol :
  has ol PKT_TX_IP_CKSUM = false ->
  sum16 (ipv4_bytes (prepend_ipv4_header n proto src dst ol)) mod 65535 = 0.
Proof using L.
  intros H. unfold prepend_ipv4_header. rewrite H. cbn [negb].
  set (ip := {| total_length := _; next_proto_id := _; hdr_checksum := 0;
                src_addr := _; dst_addr := _ |}).
  destruct (ipv4_cksum_law (ipv4_bytes ip)) as [Hr Hc].
  set (c := rte_ipv4_cksum (ipv4_bytes ip)) in *. unfold UINT16_MAX in Hr.
  rewrite ipv4_bytes_sum by (simpl; unfold in_range; lia). simpl hdr_checksum.
  change (ipv4_before (ip <| hdr_checksum := c |>)) with (ipv4_before ip).
  change (ipv4_after (ip <| hdr_checksum := c |>)) with (ipv4_after ip).
  rewrite take_ge, ipv4_bytes_sum in Hc by (done || (simpl; unfold in_range; lia)).
  simpl hdr_checksum in Hc. rewrite <- Hc. f_equal. lia.
Qed.

(** Without checksum offload the IPv4 header and the UDP datagram that
    send_udp_dgram builds pass the receiver's checksum test, and the UDP
    checksum field is never 0, the value that means that there is none. *)
Theorem udp_checksum_verifies (qp : usiw_qp) (payload : bytes) (raw : Z) :
  has (dev_flags (qp_dev qp)) port_checksum_offload = false ->
  in_range 16 (local_udp_port (shm_qp qp)) -> in_range 16 (remote_udp_port (shm_qp qp)) ->
  in_range 31 raw -> raw mod 65535 = sum16 payload mod 65535 ->
  exists ip udp, udp_ip_headers qp (len payload) raw = Ok (ip, udp) /\
    sum16 (ipv4_bytes ip) mod 65535 = 0 /\
    (sum16 (udp_pseudo_header (ipv4_bytes ip)) + sum16 (udp_bytes udp ++ payload)) mod 65535 = 0 /\
    0 < dgram_cksum udp <= UINT16_MAX.
Proof using L.
  intros Hoff Hlp Hrp Hraw Hsum. unfold udp_ip_headers. rewrite Hoff.
  change (has 0 PKT_TX_UDP_CKSUM) with false. cbn [negb].
  set (ip := prepend_ipv4_header _ _ _ _ _).
  destruct (ipv4_phdr_cksum_law (ipv4_bytes ip)) as [Hpr Hp].
  pose proof (rte_cpu_to_be_16_range (8 + len payload)) as Hlen.
  cbn [prepend_udp_header update dgram_cksum src_port dst_port dgram_len].
  set (dl := rte_cpu_to_be_16 (8 + len payload)) in *.
  set (ph := rte_ipv4_phdr_cksum (ipv4_bytes ip) 0) in *. unfold UINT16_MAX in Hpr.
  set (s := raw + (ph + local_udp_port (shm_qp qp) + remote_udp_port (shm_qp qp) + dl)).
  assert (u32 s = s /\ in_range 32 s) as [Es Hs].
  { split; unfold s; change (2 ^ 31) with 2147483648 in *; wrap_lia. }
  rewrite Es. destruct (fold_cksum_ok s Hs) as (r & -> & Hr & Hmod).
  cbn [mbind outcome_bind].
  eexists ip, _. split; [done|]. split.
  { apply prepend_ipv4_header_cksum. done. }
  set (ck := if r =? UINT16_MAX then UINT16_MAX else u16 (Z.lnot r)).
  assert (0 < ck <= UINT16_MAX /\ (r + ck) mod 65535 = 0) as [Hck Hsumck].
  { unfold ck, UINT16_MAX. rewrite u16_lnot by done.
    destruct (Z.eqb_spec r 65535) as [->|Hne]; [done|]. unfold in_range in Hr.
    split; [lia|]. by replace (r + (65535 - r)) with 65535 by lia. }
  split; [|done]. unfold UINT16_MAX in Hck.
  rewrite sum16_app by (exists 4%nat; done). unfold udp_bytes. simpl src_port. simpl dst_port.
  simpl dgram_len. simpl dgram_cksum.
  rewrite !sum16_app, !sum16_le2 by (done || (exists 1%nat; done) || (unfold in_range; lia)).
  rewrite <- Hsumck, (Zplus_mod r ck), Hmod, <- Zplus_mod. unfold s.
  rewrite (Zplus_mod (sum16 (udp_pseudo_header _))), <- Hp, <- Zplus_mod.
  replace (ph + (local_udp_port (shm_qp qp) + (remote_udp_port (shm_qp qp) + (dl + ck)) + sum16 payload))
    with (sum16 payload + (ph + local_udp_port (shm_qp qp) + remote_udp_port (shm_qp qp) + dl + ck)) by lia.
  rewrite Zplus_mod, <- Hsum, <- Zplus_mod. f_equal. lia.
Qed.

(** ** The transmit queue *)

(** Frames handed to the port followed by the frames still queued. *)
Definition out (w : world) : list bytes := w_wire w ++ qp_txq (w_qp w).

(** [n] transmit calls are enough for the port to take the frames [fs]. *)
Fixpoint drains (n : nat) (e : env) (fs : list bytes) : Prop :=
  match n with
  | O => False
  | S n' =>
      let '(ret, e') := rte_eth_tx_burst e fs in
      drop ret fs = [] \/ drains n' e' (drop ret fs)
  end.

(** [w'] is [w] after transmissions: the frames [fs] went to the end of the
    output and nothing else changed. *)
Definition sent (w w' : world) (fs : list bytes) : Prop :=
  out w' = out w ++ fs /\
  exists q l e, w' = w <| w_qp ::= update qp_txq (fun _ => q) |> <| w_wire := l |> <| w_env := e |>.

Lemma tx_loop_ok n : forall fs w,
  drains n (w_env w) fs ->
  exists e, tx_loop n fs w = Ok (tt, w <| w_env := e |> <| w_wire ::= fun l => l ++ fs |>).
Proof.
  induction n as [|n IH]; intros fs w Hd; [done|]. simpl in Hd |- *.
  cbv [mbind M_bind gets]. destruct (rte_eth_tx_burst (w_env w) fs) as [ret e'].
  unfold modify. simpl. destruct Hd as [Hd|Hd]; case_decide as Hdec; try done.
  1,2: exists e'; rewrite take_ge; [done|];
    apply (f_equal length) in Hdec; rewrite length_drop in Hdec; simpl in Hdec; lia.
  match goal with |- context [tx_loop n _ ?w1] =>
    destruct (IH (drop ret fs) w1 Hd) as [e2 E] end.
  exists e2. rewrite E. simpl. by rewrite <- app_assoc, take_drop.
Qed.

Lemma flush_ok w :
  drains (w_tx_bound w) (w_env w) (qp_txq (w_qp w)) ->
  exists w', flush_tx_queue w = Ok (tt, w') /\ sent w w' [] /\ qp_txq (w_qp w') = [] /\
    w_wire w' = w_wire w ++ qp_txq (w_qp w).
Proof.
  intros Hd. destruct (tx_loop_ok _ _ _ Hd) as [e E].
  unfold flush_tx_queue. cbv [mbind M_bind gets the_qp]. rewrite E.
  eexists. split; [done|]. split; [split|done].
  - unfold out. simpl. by rewrite !app_nil_r.
  - eexists _, _, _. done.
Qed.
End Checksum.

Section Transmit.
Context {D : Dpdk} {P : LivePort D}.

Lemma drains_live n : forall e fs,
  env_live e -> (length fs <= n)%nat -> drains (S n) e fs.
Proof using P.
  induction n as [|n IH]; intros e fs He Hlen; simpl;
    pose proof (live_tx e fs He) as Htx; pose proof (live_tx_keep e fs He) as Hk;
    destruct (rte_eth_tx_burst e fs) as [ret e']; simpl in Htx, Hk.
  - left. destruct fs; [by rewrite drop_nil|simpl in Hlen; lia].
  - destruct fs as [|f fs]; [left; by rewrite drop_nil|].
    specialize (Htx ltac:(done)). right. apply IH; [done|].
    rewrite length_drop. simpl in *. lia.
Qed.

(** The transmit queue is not full and the model's bound covers a flush of a
    full one. *)
Definition tx_ready (w : world) : Prop :=
  env_live (w_env w) /\ len (qp_txq (w_qp w)) < tx_burst_size (shm_qp (w_qp w)) /\
  tx_burst_size (shm_qp (w_qp w)) < Z.of_nat (w_tx_bound w).

Lemma tx_loop_live n : forall fs w e,
  env_live (w_env w) ->
  tx_loop n fs w = Ok (tt, w <| w_env := e |> <| w_wire ::= fun l => l ++ fs |>) -> env_live e.
Proof using P.
  induction n as [|n IH]; intros fs w e Hl H; [done|]. simpl in H.
  cbv [mbind M_bind gets] in H. pose proof (live_tx_keep (w_env w) fs Hl) as Hk.
  destruct (rte_eth_tx_burst (w_env w) fs) as [ret e'] eqn:E. unfold modify in H. simpl in *.
  case_decide as Hdec; [by injection H as <-|].
  match type of H with tx_loop n _ ?w1 = _ => apply (IH (drop ret fs) w1); [done|] end.
  rewrite H. simpl. by rewrite <- app_assoc, take_drop.
Qed.

Lemma flush_ready w :
  env_live (w_env w) -> 0 < tx_burst_size (shm_qp (w_qp w)) < Z.of_nat (w_tx_bound w) ->
  len (qp_txq (w_qp w)) <= tx_burst_size (shm_qp (w_qp w)) ->
  exists w', flush_tx_queue w = Ok (tt, w') /\ sent w w' [] /\ qp_txq (w_qp w') = [] /\
    w_wire w' = w_wire w ++ qp_txq (w_qp w) /\ tx_ready w'.
Proof using P.
  intros Hl Hb Hlen.
  assert (drains (w_tx_bound w) (w_env w) (qp_txq (w_qp w))) as Hd.
  { destruct (w_tx_bound w) as [|n]; [simpl in Hb; lia|]. apply drains_live; [done|lia]. }
  destruct (tx_loop_ok _ _ _ Hd) as [e E]. pose proof (tx_loop_live _ _ _ _ Hl E) as Hl'.
  unfold flush_tx_queue. cbv [mbind M_bind gets the_qp]. rewrite E.
  eexists. split; [done|]. split; [split|]; [|eexists _, _, _; done|].
  - unfold out. simpl. by rewrite !app_nil_r.
  - split_and!; simpl; done || lia.
Qed.

Definition ether_frame (qp : usiw_qp) (packet : bytes) (ether_type : Z) (dst : bytes) : bytes :=
  dst ++ dev_ether_addr (qp_dev qp) ++ be_encode 2 ether_type ++ packet.

Lemma sent_trans w1 w2 w3 a b : sent w1 w2 a -> sent w2 w3 b -> sent w1 w3 (a ++ b).
Proof.
  intros [E1 (q1 & l1 & e1 & ->)] [E2 (q2 & l2 & e2 & ->)]. split.
  - by rewrite E2, E1, app_assoc.
  - eexists _, _, _. done.
Qed.

Lemma enqueue_sent w packet ty dst :
  tx_ready w ->
  exists w', enqueue_ether_frame packet ty dst w = Ok (tt, w') /\
    sent w w' [ether_frame (w_qp w) packet ty dst] /\ tx_ready w'.
Proof using P.
  intros (Hl & Hq & Hb). unfold enqueue_ether_frame.
  cbv [mbind M_bind the_qp gets upd_qp modify mret M_ret].
  rewrite (proj2 (Z.ltb_lt _ _) Hq). fold (ether_frame (w_qp w) packet ty dst).
  set (fr := ether_frame (w_qp w) packet ty dst).
  set (w1 := w <| w_qp ::= update qp_txq (fun l => l ++ [fr]) |>).
  assert (sent w w1 [fr]) as Hs1.
  { split; [unfold out, w1; simpl; by rewrite app_assoc|].
    eexists (qp_txq (w_qp w) ++ [fr]), (w_wire w), (w_env w). done. }
  assert (len (qp_txq (w_qp w1)) = len (qp_txq (w_qp w)) + 1) as Hlen.
  { unfold w1. simpl. rewrite length_app. simpl. lia. }
  destruct (Z.eqb_spec (len (qp_txq (w_qp w)) + 1) (tx_burst_size (shm_qp (w_qp w)))) as [He|Hne].
  - destruct (flush_ready w1) as (w2 & E2 & Hs2 & _ & _ & Hr).
    + done.
    + change (shm_qp (w_qp w1)) with (shm_qp (w_qp w)).
      change (w_tx_bound w1) with (w_tx_bound w). lia.
    + change (shm_qp (w_qp w1)) with (shm_qp (w_qp w)). lia.
    + exists w2. split_and!; [done| |done]. by apply (sent_trans _ _ _ _ _ Hs1 Hs2).
  - exists w1. split_and!; [done..|]. split_and!; [done| |done].
    change (shm_qp (w_qp w1)) with (shm_qp (w_qp w)). lia.
Qed.

Lemma udp_ip_headers_ok qp n raw : exists ip udp, udp_ip_headers qp n raw = Ok (ip, udp).
Proof.
  unfold udp_ip_headers. destruct (negb _); [|eauto].
  match goal with |- context [fold_cksum 2 (u32 ?x)] =>
    destruct (fold_cksum_ok (u32 x)) as (r & -> & _); [by apply wrap_in_range|] end.
  eexists _, _. done.
Qed.

(** The frame that [send_udp_dgram] queues. *)
Definition udp_frame (qp : usiw_qp) (payload : bytes) (raw_cksum : Z) : bytes :=
  match udp_ip_headers qp (len payload) raw_cksum with
  | Ok (ip, udp) =>
      ether_frame qp (ipv4_bytes ip ++ udp_bytes udp ++ payload) ETHER_TYPE_IPv4
        (remote_ether_addr (shm_qp qp))
  | Fault _ => []
  end.

Lemma send_udp_sent w payload raw :
  tx_ready w ->
  exists w', send_udp_dgram payload raw w = Ok (tt, w') /\
    sent w w' [udp_frame (w_qp w) payload raw] /\ tx_ready w'.
Proof using P.
  intros Hr. destruct (udp_ip_headers_ok (w_qp w) (len payload) raw) as (ip & udp & E).
  unfold send_udp_dgram, udp_frame. cbv [mbind M_bind the_qp gets]. rewrite E. simpl lift.
  cbv [lift]. by apply enqueue_sent.
Qed.

(** Queueing several packets and flushing. *)
Fixpoint enqueue_all (ps : list (bytes * Z * bytes)) : M unit :=
  match ps with
  | [] => mret tt
  | (p, ty, dst) :: r => enqueue_ether_frame p ty dst;; enqueue_all r
  end.

Lemma sent_frames w w' fs p ty dst :
  sent w w' fs -> ether_frame (w_qp w') p ty dst = ether_frame (w_qp w) p ty dst.
Proof. intros [_ (q & l & e & ->)]. done. Qed.

Lemma enqueue_all_sent ps : forall w,
  tx_ready w ->
  exists w', enqueue_all ps w = Ok (tt, w') /\ tx_ready w' /\
    sent w w' ((fun '(p, ty, dst) => ether_frame (w_qp w) p ty dst) <$> ps).
Proof using P.
  induction ps as [|[[p ty] dst] ps IH]; intros w Hr.
  { exists w. split_and!; [done..|]. split; [by rewrite app_nil_r|].
    exists (qp_txq (w_qp w)), (w_wire w), (w_env w). by destruct w as [[]]. }
  destruct (enqueue_sent w p ty dst Hr) as (w1 & E1 & Hs1 & Hr1).
  destruct (IH w1 Hr1) as (w2 & E2 & Hr2 & Hs2). exists w2.
  simpl. cbv [mbind M_bind]. rewrite E1, E2. split_and!; [done..|].
  apply (sent_trans _ w1 _ [_]); [done|].
  erewrite list_fmap_ext; [exact Hs2|]. intros i [[p' ty'] dst'] _.
  symmetry. by eapply sent_frames.
Qed.

End Transmit.
