(* ===== verification/TrpTx.v ===== *)
(** * TRP sender (src/liburdma/interface.c)

    Transmission, retransmission and acknowledgement of DDP segments.  A
    segment stays in the slot of [tx_pending] that its sequence number
    selects until it is acknowledged; a pointer to it is the index of the
    slot. *)
From S2P Require Import Prelude Serial Dpdk Binheap Proto Iov State Cq Wqe Frame.

Section TrpTx.
Context {D : Dpdk}.

(** [tx_pending_entry]: the index of the slot. *)
Definition tx_pending_entry (ep : ee_state) (psn : Z) : nat :=
  Z.to_nat (Z.land psn (tx_pending_size ep - 1)).

Definition get_slot (i : nat) : M tx_slot :=
  ep ← the_ep;
  match tx_pending ep !! i with Some s => mret s | None => fail OutOfBounds end.
Definition put_slot (i : nat) (s : tx_slot) : M unit :=
  upd_ep (fun ep => ep <| tx_pending ::= fun l => <[i := s]> l |>).

(** The mbuf a slot points to. *)
Definition slot_mbuf (s : tx_slot) : M tx_mbuf :=
  match s with Null => fail NullDeref | Wild _ => fail BadPointer | Seg m => mret m end.

Definition get_timer : M Z := fun w =>
  let '(now, e) := rte_get_timer_cycles (w_env w) in Ok (now, w <| w_env := e |>).
Definition alloc_mbuf : M (option Z) := fun w =>
  match rte_pktmbuf_alloc (w_env w) with
  | Some (a, e) => Ok (Some a, w <| w_env := e |>)
  | None => Ok (None, w)
  end.
(** An allocation whose result is used without a test for NULL. *)
Definition alloc_mbuf_unchecked : M Z :=
  o ← alloc_mbuf; match o with Some a => mret a | None => fail NullDeref end.

(** [if (!qp->dev->flags & port_checksum_offload)]: the negation binds
    tighter than the mask. *)
Definition sw_checksum_test (dev : usiw_device) : bool :=
  has (if dev_flags dev =? 0 then 1 else 0) port_checksum_offload.

(** [if (!(ep->trp_flags & trp_recv_missing)) ep->trp_flags &= ~trp_ack_update] *)
Definition clear_ack_update (ep : ee_state) : ee_state :=
  if has (trp_flags ep) trp_recv_missing then ep
  else ep <| trp_flags ::= fun f => clear_bits f trp_ack_update |>.

Definition resend_ddp_segment (sendmsg : nat) : M Z :=
  s ← get_slot sendmsg;
  m ← slot_mbuf s;
  now ← get_timer;
  let info := mb_info m <| p_next_retransmit := u64 (now + rte_get_timer_hz / 100) |> in
  let count := p_transmit_count info in
  let info := info <| p_transmit_count := u16 (count + 1) |> in
  put_slot sendmsg (Seg (m <| mb_info := info |>));;
  if count >? RETRANSMIT_MAX then mret (-EIO) else
  hdr ← alloc_mbuf;
  match hdr with
  | None => mret (-ENOMEM)
  | Some _ =>
      alloc_mbuf_unchecked;;
      ep ← the_ep;
      let trp := trp_bytes {| trp_psn := p_psn info; trp_ack_psn := recv_ack_psn ep;
                              trp_opcode := 0 |} in
      upd_ep clear_ack_update;;
      qp ← the_qp;
      let cksum := if sw_checksum_test (qp_dev qp)
        then u32 (p_ddp_raw_cksum info + rte_raw_cksum trp) else 0 in
      send_udp_dgram (trp ++ mb_data m) cksum;;
      mret 0
  end.

(** [send_ddp_segment]: [sendmsg] is the address of the mbuf and its data.
    The checksum field keeps what the private area held when it is not
    computed; it is not read then. *)
Definition send_ddp_segment (sendmsg : Z * bytes) (readresp wqe : option nat)
    (payload_length : Z) : M Z :=
  ep ← the_ep;
  let psn := send_next_psn ep in
  upd_ep (fun ep => ep <| send_next_psn ::= fun p => u32 (p + 1) |>);;
  qp ← the_qp;
  let pending :=
    {| p_next_retransmit := 0; p_wqe := wqe; p_readresp := readresp;
       p_transmit_count := 0; p_ddp_length := u16 payload_length;
       p_ddp_raw_cksum := if sw_checksum_test (qp_dev qp)
                          then rte_raw_cksum (snd sendmsg) else 0;
       p_psn := psn |} in
  let e := tx_pending_entry ep psn in
  s ← get_slot e;
  lift (c_assert (is_null s));;
  put_slot e (Seg {| mb_addr := fst sendmsg; mb_data := snd sendmsg; mb_info := pending |});;
  resend_ddp_segment e;;
  mret psn.

(** A TRP packet without a DDP segment. *)
Definition send_trp_only (h : trp_hdr) : M unit :=
  qp ← the_qp;
  send_udp_dgram (trp_bytes h)
    (if has (dev_flags (qp_dev qp)) port_checksum_offload then 0
     else rte_raw_cksum (trp_bytes h)).

Definition send_trp_sack : M unit :=
  ep ← the_ep;
  lift (c_assert (has (trp_flags ep) trp_recv_missing));;
  alloc_mbuf_unchecked;;
  upd_ep (fun ep => ep <| trp_flags ::= fun f => clear_bits f trp_ack_update |>);;
  send_trp_only {| trp_psn := psn_min (recv_sack_psn ep);
                   trp_ack_psn := psn_max (recv_sack_psn ep); trp_opcode := trp_sack |}.

Definition send_trp_fin : M unit :=
  ep ← the_ep;
  alloc_mbuf_unchecked;;
  upd_ep clear_ack_update;;
  send_trp_only {| trp_psn := send_next_psn ep; trp_ack_psn := recv_ack_psn ep;
                   trp_opcode := trp_fin |};;
  flush_tx_queue.

Definition send_trp_ack : M unit :=
  ep ← the_ep;
  lift (c_assert (negb (has (trp_flags ep) trp_recv_missing)));;
  alloc_mbuf_unchecked;;
  upd_ep (fun ep => ep <| trp_flags ::= fun f => clear_bits f trp_ack_update |>);;
  send_trp_only {| trp_psn := send_next_psn ep; trp_ack_psn := recv_ack_psn ep;
                   trp_opcode := 0 |}.

(** ** Acknowledgements *)

(** [assert(qp->ord_active > 0); qp->ord_active--] *)
Definition ord_release : M unit :=
  qp ← the_qp;
  lift (c_assert (ord_active qp >? 0));;
  upd_qp (fun qp => qp <| ord_active ::= fun n => n - 1 |>).

Definition try_complete_wqe (i : nat) : M unit :=
  qp ← the_qp;
  if decide (head (sq_active (qp_sq qp)) = Some i) then
    wqe ← get_swqe i;
    (if has (s_flags wqe) usiw_send_signaled
     then post_send_cqe i IBV_WC_SUCCESS;; mret tt
     else qp_free_send_wqe i true);;
    if decide (s_opcode wqe = usiw_wr_read) then ord_release else mret tt
  else mret tt.

Definition do_process_ack (i : nat) (pending : pending_datagram_info) : M unit :=
  upd_swqe i (fun w => w <| s_bytes_acked ::= fun b => u64 (b + p_ddp_length pending) |>);;
  wqe ← get_swqe i;
  lift (c_assert (s_bytes_acked wqe <=? s_bytes_sent wqe));;
  if negb (bool_decide (s_opcode wqe = usiw_wr_read))
     && (s_bytes_acked wqe =? s_total_length wqe) then
    lift (c_assert (bool_decide (s_state wqe = SEND_WQE_WAIT)));;
    upd_swqe i (fun w => w <| s_state := SEND_WQE_COMPLETE |>);;
    try_complete_wqe i
  else mret tt.

Definition maybe_sack_pending (pending : pending_datagram_info) (min max : Z)
  : pending_datagram_info :=
  if ((min =? p_psn pending) || serial_less_32 min (p_psn pending))
     && serial_less_32 (p_psn pending) max
  then pending <| p_next_retransmit := UINT64_MAX |> else pending.

(** [++p == end ? tx_pending : p] *)
Definition next_slot (ep : ee_state) (p : nat) : nat :=
  if Z.of_nat (S p) =? tx_pending_size ep then 0%nat else S p.

(** [process_trp_sack] casts [sendmsg + 1] to a pending_datagram_info pointer
    where [sendmsg] points to the slot, not to the mbuf: the structure
    overlays the slots that follow.  Its psn field, at offset 32, is the low half of slot
    [i + 5]; next_retransmit, at offset 0, is slot [i + 1]. *)
Definition sack_slot (l : list tx_slot) (i : nat) (min max : Z) : outcome (list tx_slot) :=
  match l !! (i + 5)%nat, l !! (i + 1)%nat with
  | Some s5, Some s1 =>
      let info := {| p_next_retransmit := slot_word s1; p_wqe := None; p_readresp := None;
                     p_transmit_count := 0; p_ddp_length := 0; p_ddp_raw_cksum := 0;
                     p_psn := u32 (slot_word s5) |} in
      let info' := maybe_sack_pending info min max in
      Ok (if p_next_retransmit info' =? slot_word s1 then l
          else <[(i + 1)%nat := Wild (p_next_retransmit info')]> l)
  | _, _ => Fault OutOfBounds
  end.

(** The loop visits each slot at most once. *)
Fixpoint sack_loop (fuel : nat) (ep : ee_state) (l : list tx_slot) (sendmsg : nat) (min max : Z)
  : outcome (list tx_slot) :=
  match fuel with
  | O => Fault OutOfFuel
  | S fuel' =>
      l1 ← sack_slot l sendmsg min max;
      let next := next_slot ep sendmsg in
      if (next =? tx_head ep)%nat then Ok l1
      else match l1 !! next with
           | None => Fault OutOfBounds
           | Some s => if is_null s then Ok l1 else sack_loop fuel' ep l1 next min max
           end
  end.

Definition process_trp_sack (ep : ee_state) (min max : Z) : outcome ee_state :=
  match tx_pending ep !! tx_head ep with
  | None => Fault OutOfBounds
  | Some s =>
      if is_null s then Ok ep else
      l ← sack_loop (length (tx_pending ep)) ep (tx_pending ep) (tx_head ep) min max;
      Ok (ep <| tx_pending := l |>)
  end.

(** First loop of [sweep_unacked_packets]; [fuel] is [tx_pending_size -
    count], the result is the same difference. *)
Fixpoint sweep_acked (fuel : nat) : M nat :=
  match fuel with
  | O => mret O
  | S fuel' =>
      ep ← the_ep;
      s ← get_slot (tx_head ep);
      if is_null s then mret fuel else
      m ← slot_mbuf s;
      if serial_less_32 (p_psn (mb_info m)) (send_last_acked_psn ep) then
        match p_wqe (mb_info m) with
        | Some i => do_process_ack i (mb_info m)
        | None => mret tt
        end;;
        put_slot (tx_head ep) Null;;
        upd_ep (fun ep => ep <| tx_head := next_slot ep (tx_head ep) |>);;
        sweep_acked fuel'
      else mret fuel
  end.

(** Second loop: retransmissions that are due. *)
Definition sweep_failed (p : nat) (m : tx_mbuf) (ret : Z) : M unit :=
  let cstatus := if ret =? -EIO then IBV_WC_RETRY_EXC_ERR else IBV_WC_FATAL_ERR in
  match p_wqe (mb_info m) with
  | Some i => post_send_cqe i cstatus;; mret tt
  | None => mret tt
  end;;
  upd_qp (fun qp => qp <| shm_qp ::= update conn_state (fun _ => usiw_qp_error) |>);;
  ep ← the_ep;
  if (p =? tx_head ep)%nat then
    put_slot p Null;;
    upd_ep (fun ep => ep <| tx_head := next_slot ep (tx_head ep) |>)
  else
    s ← get_slot p;
    m' ← slot_mbuf s;
    put_slot p (Seg (m' <| mb_info ::= update p_next_retransmit (fun _ => UINT64_MAX) |>)).

Fixpoint sweep_due (fuel : nat) (p : nat) (now : Z) : M unit :=
  match fuel with
  | O => mret tt
  | S fuel' =>
      s ← get_slot p;
      if is_null s then mret tt else
      m ← slot_mbuf s;
      (if now >? p_next_retransmit (mb_info m) then
         ret ← resend_ddp_segment p;
         if ret <? 0 then sweep_failed p m ret else mret tt
       else mret tt);;
      ep ← the_ep;
      sweep_due fuel' (next_slot ep p) now
  end.

Definition sweep_unacked_packets (now : Z) : M unit :=
  ep ← the_ep;
  s ← get_slot (tx_head ep);
  if is_null s then mret tt else
  left ← sweep_acked (Z.to_nat (tx_pending_size ep));
  ep ← the_ep;
  sweep_due left (tx_head ep) now.
End TrpTx.
