(* ===== verification/Window.v ===== *)
(** * The transmit window

    [tx_pending] is a circular buffer indexed by the low bits of the packet
    sequence number.  It refines a FIFO of the segments sent and not yet
    swept: [send_ddp_segment] appends to it, the acknowledgement sweep removes
    from its front. *)
From S2P Require Import Prelude Serial Dpdk Binheap Proto Iov State Cq Wqe Frame TrpTx.

(** The slot of a sequence number. *)
Definition slot (ep : ee_state) (p : Z) : nat := Z.to_nat (p mod tx_pending_size ep).

(** [ep] holds the segments [pend], whose numbers start at [h]. *)
Record tx_rep (ep : ee_state) (h : Z) (pend : list tx_mbuf) : Prop := {
  tr_size : exists k, 0 <= k <= 30 /\ tx_pending_size ep = 2 ^ k;
  tr_len : length (tx_pending ep) = Z.to_nat (tx_pending_size ep);
  tr_bound : len pend <= tx_pending_size ep;
  tr_next : send_next_psn ep = u32 (h + len pend);
  tr_head : tx_head ep = slot ep h;
  tr_pending (j : nat) m : pend !! j = Some m ->
    tx_pending ep !! slot ep (h + Z.of_nat j) = Some (Seg m) /\
    p_psn (mb_info m) = u32 (h + Z.of_nat j);
  tr_free p : h + len pend <= p < h + tx_pending_size ep ->
    tx_pending ep !! slot ep p = Some Null
}.

Section Slots.
Variables (ep : ee_state) (h : Z) (pend : list tx_mbuf).
Hypothesis Hrep : tx_rep ep h pend.

Lemma size_pos : 0 < tx_pending_size ep.
Proof using Hrep. destruct (tr_size _ _ _ Hrep) as (k & Hk & ->). lia. Qed.

Lemma slot_lt p : (slot ep p < length (tx_pending ep))%nat.
Proof using Hrep.
  pose proof size_pos. rewrite (tr_len _ _ _ Hrep). unfold slot.
  pose proof (Z.mod_pos_bound p (tx_pending_size ep)). lia.
Qed.

Lemma slot_inj p q :
  h <= p < h + tx_pending_size ep -> h <= q < h + tx_pending_size ep ->
  slot ep p = slot ep q -> p = q.
Proof using Hrep.
  intros Hp Hq. unfold slot. pose proof size_pos as Hs.
  destruct (tr_size _ _ _ Hrep) as (k & Hk & Ek). rewrite Ek in *. intros E.
  apply (wrap_inj_window k); [lia| |lia]. unfold wrap.
  pose proof (Z.mod_pos_bound p (2 ^ k)). pose proof (Z.mod_pos_bound q (2 ^ k)). lia.
Qed.

Lemma slot_periodic p : slot ep (p + tx_pending_size ep) = slot ep p.
Proof using Hrep.
  unfold slot. f_equal. pose proof size_pos.
  rewrite <- (Z.mul_1_l (tx_pending_size ep)) at 1. by apply Z.mod_add; lia.
Qed.

(** Masking with the size selects the slot. *)
Lemma tx_pending_entry_slot p : tx_pending_entry ep (u32 p) = slot ep p.
Proof using Hrep.
  unfold tx_pending_entry, slot. destruct (tr_size _ _ _ Hrep) as (k & Hk & ->). f_equal.
  rewrite Z.sub_1_r, <- Z.ones_equiv, Z.land_ones by lia. unfold wrap.
  apply Z.mod_mod_divide. exists (2 ^ (32 - k)). rewrite <- Z.pow_add_r by lia. f_equal. lia.
Qed.

Lemma next_slot_slot p : next_slot ep (slot ep p) = slot ep (p + 1).
Proof using Hrep.
  pose proof size_pos as Hs. unfold next_slot, slot.
  pose proof (Z.mod_pos_bound p (tx_pending_size ep) Hs) as Hb.
  rewrite Nat2Z.inj_succ, Z2Nat.id by lia.
  destruct (Z.eqb_spec (Z.succ (p mod tx_pending_size ep)) (tx_pending_size ep)) as [E|E].
  - rewrite <- Zplus_mod_idemp_l. replace (p mod tx_pending_size ep + 1) with (tx_pending_size ep) by lia.
    by rewrite Z.mod_same by lia.
  - rewrite <- Zplus_mod_idemp_l. rewrite (Z.mod_small (p mod tx_pending_size ep + 1)) by lia. lia.
Qed.
End Slots.

(** The representation reads four fields only. *)
Lemma tx_rep_ext ep ep' h pend :
  tx_pending_size ep' = tx_pending_size ep -> tx_pending ep' = tx_pending ep ->
  send_next_psn ep' = send_next_psn ep -> tx_head ep' = tx_head ep ->
  tx_rep ep h pend -> tx_rep ep' h pend.
Proof.
  intros E1 E2 E3 E4 [H1 H2 H3 H4 H5 H6 H7].
  split; unfold slot in *; rewrite ?E1, ?E2, ?E3, ?E4; done.
Qed.

Lemma tx_rep_push ep h pend m :
  tx_rep ep h pend -> len pend < tx_pending_size ep -> p_psn (mb_info m) = u32 (h + len pend) ->
  tx_rep (ep <| send_next_psn ::= fun p => u32 (p + 1) |>
             <| tx_pending ::= fun l => <[slot ep (h + len pend) := Seg m]> l |>) h (pend ++ [m]).
Proof.
  intros Hrep Hlt Hm. pose proof (slot_lt ep h pend Hrep) as Hsl.
  pose proof (slot_inj ep h pend Hrep) as Hinj. destruct Hrep as [H1 H2 H3 H4 H5 H6 H7].
  split; unfold slot in *; simpl; rewrite ?length_app, ?length_insert; simpl; try done.
  - lia.
  - rewrite H4, wrap_add_l. f_equal. lia.
  - intros j m' Hj. destruct (decide (j = length pend)) as [->|Hne].
    + rewrite list_lookup_middle in Hj by done. simplify_eq.
      by rewrite list_lookup_insert_eq by apply Hsl.
    + pose proof (lookup_lt_Some _ _ _ Hj) as Hjl. rewrite length_app in Hjl. simpl in Hjl.
      rewrite lookup_app_l in Hj by lia. destruct (H6 j m' Hj) as [Hs Hp]. split; [|done].
      rewrite list_lookup_insert_ne; [done|]. intros E. apply Hinj in E; lia.
  - intros p Hp. rewrite list_lookup_insert_ne; [apply H7; lia|].
    intros E. apply Hinj in E; lia.
Qed.

Lemma tx_rep_update ep h pend (j : nat) m m' :
  tx_rep ep h pend -> pend !! j = Some m -> p_psn (mb_info m') = p_psn (mb_info m) ->
  tx_rep (ep <| tx_pending ::= fun l => <[slot ep (h + Z.of_nat j) := Seg m']> l |>) h
    (<[j := m']> pend).
Proof.
  intros Hrep Hj Hm. pose proof (slot_lt ep h pend Hrep) as Hsl.
  pose proof (slot_inj ep h pend Hrep) as Hinj. destruct Hrep as [H1 H2 H3 H4 H5 H6 H7].
  pose proof (lookup_lt_Some _ _ _ Hj) as Hjl.
  split; unfold slot in *; simpl; rewrite ?length_insert; simpl; try done.
  - intros j' m0 Hj'. destruct (decide (j' = j)) as [->|Hne].
    + rewrite list_lookup_insert_eq in Hj' by done. simplify_eq.
      rewrite list_lookup_insert_eq by apply Hsl. split; [done|]. rewrite Hm. by apply H6.
    + rewrite list_lookup_insert_ne in Hj' by done.
      pose proof (lookup_lt_Some _ _ _ Hj'). destruct (H6 j' m0 Hj') as [Hs Hp]. split; [|done].
      rewrite list_lookup_insert_ne; [done|]. intros E. apply Hinj in E; lia.
  - intros p Hp. rewrite list_lookup_insert_ne; [apply H7; lia|]. intros E. apply Hinj in E; lia.
Qed.

Lemma tx_rep_pop ep h m pend :
  tx_rep ep h (m :: pend) ->
  tx_rep (ep <| tx_pending ::= fun l => <[tx_head ep := Null]> l |>
             <| tx_head := next_slot ep (tx_head ep) |>) (h + 1) pend.
Proof.
  intros Hrep. pose proof (slot_lt ep h _ Hrep) as Hsl.
  pose proof (slot_inj ep h _ Hrep) as Hinj. pose proof (slot_periodic ep h _ Hrep) as Hper.
  pose proof (next_slot_slot ep h _ Hrep h) as Hnext. pose proof (size_pos ep h _ Hrep) as Hpos.
  destruct Hrep as [H1 H2 H3 H4 H5 H6 H7]. simpl length in *. rewrite H5, Hnext.
  split; unfold slot in *; simpl; rewrite ?length_insert; try done.
  - lia.
  - rewrite H4. f_equal. lia.
  - intros j m' Hj. destruct (H6 (S j) m' Hj) as [Hs Hp].
    replace (h + 1 + Z.of_nat j) with (h + Z.of_nat (S j)) by lia. split; [|done].
    pose proof (lookup_lt_Some _ _ _ Hj).
    rewrite list_lookup_insert_ne; [done|]. intros E. apply Hinj in E; lia.
  - intros p Hp. destruct (decide (p = h + tx_pending_size ep)) as [->|Hne].
    + rewrite Hper. by rewrite list_lookup_insert_eq by apply Hsl.
    + rewrite list_lookup_insert_ne; [apply H7; lia|]. intros E. apply Hinj in E; lia.
Qed.

(** ** Sending *)

Section Send.
Context {D : Dpdk} {P : LivePort D}.

(** [w'] is [w] after transmissions of the frames [fs] that left the endpoint
    in state [ep']. *)
Definition tx_step (w w' : world) (fs : list bytes) (ep' : ee_state) : Prop :=
  out w' = out w ++ fs /\
  exists q l e, w' = w <| w_qp ::= fun qp => qp <| qp_txq := q |> <| remote_ep := ep' |> |>
                       <| w_wire := l |> <| w_env := e |>.

Lemma tx_step_trans w1 w2 w3 f1 f2 e1 e2 :
  tx_step w1 w2 f1 e1 -> tx_step w2 w3 f2 e2 -> tx_step w1 w3 (f1 ++ f2) e2.
Proof.
  intros [E1 (q1 & l1 & v1 & ->)] [E2 (q2 & l2 & v2 & ->)]. split.
  - by rewrite E2, E1, app_assoc.
  - eexists _, _, _. done.
Qed.

Lemma tx_step_ep w w' fs ep' : tx_step w w' fs ep' -> remote_ep (w_qp w') = ep'.
Proof. by intros [_ (q & l & e & ->)]. Qed.

(** The checksum argument [resend_ddp_segment] passes on. *)
Definition segment_cksum (dev : usiw_device) (info : pending_datagram_info) (trp : bytes) : Z :=
  if sw_checksum_test dev then u32 (p_ddp_raw_cksum info + rte_raw_cksum trp) else 0.

(** The packet of a pending segment: TRP header and data. *)
Definition segment_trp (ep : ee_state) (m : tx_mbuf) : bytes :=
  trp_bytes {| trp_psn := p_psn (mb_info m); trp_ack_psn := recv_ack_psn ep; trp_opcode := 0 |}.
Definition segment_frame (qp : usiw_qp) (ep : ee_state) (m : tx_mbuf) : bytes :=
  udp_frame qp (segment_trp ep m ++ mb_data m)
    (segment_cksum (qp_dev qp) (mb_info m) (segment_trp ep m)).

(** A segment after one more transmission at time [now]. *)
Definition retransmitted (m : tx_mbuf) (now : Z) : tx_mbuf :=
  m <| mb_info ::= fun i => i <| p_next_retransmit := u64 (now + rte_get_timer_hz / 100) |>
                              <| p_transmit_count ::= fun c => u16 (c + 1) |> |>.

Lemma timer_ready w :
  tx_ready w -> exists now e, get_timer w = Ok (now, w <| w_env := e |>) /\ tx_ready (w <| w_env := e |>).
Proof using P.
  intros (Hl & Hq & Hb). unfold get_timer. pose proof (live_timer_keep _ Hl) as Hk.
  destruct (rte_get_timer_cycles (w_env w)) as [now e]. exists now, e. done.
Qed.

Lemma alloc_ready w :
  tx_ready w -> exists a e, alloc_mbuf w = Ok (Some a, w <| w_env := e |>) /\
    alloc_mbuf_unchecked w = Ok (a, w <| w_env := e |>) /\ tx_ready (w <| w_env := e |>).
Proof using P.
  intros (Hl & Hq & Hb). destruct (live_alloc _ Hl) as (a & e & E & Hk). exists a, e.
  unfold alloc_mbuf_unchecked, alloc_mbuf. cbv [mbind M_bind]. rewrite E. done.
Qed.

Lemma get_slot_eq w i s : tx_pending (remote_ep (w_qp w)) !! i = Some s -> get_slot i w = Ok (s, w).
Proof. intros H. unfold get_slot. cbv [mbind M_bind the_ep gets]. by rewrite H. Qed.

(** A segment within the limit is transmitted again. *)
Lemma resend_ok w i m (ep := remote_ep (w_qp w)) :
  tx_ready w -> tx_pending ep !! i = Some (Seg m) ->
  p_transmit_count (mb_info m) <= RETRANSMIT_MAX ->
  exists w' now, resend_ddp_segment i w = Ok (0, w') /\ tx_ready w' /\
    tx_step w w' [segment_frame (w_qp w) ep m]
      (clear_ack_update (ep <| tx_pending ::= fun l => <[i := Seg (retransmitted m now)]> l |>)).
Proof using P.
  intros Hr Hs Hc. unfold resend_ddp_segment.
  cbv [mbind M_bind]. rewrite (get_slot_eq w i _ Hs). cbn [slot_mbuf mret M_ret].
  destruct (timer_ready w Hr) as (now & e & -> & Hr1).
  unfold put_slot, upd_ep, upd_qp, modify.
  match goal with |- context [?c >? RETRANSMIT_MAX] => change c with (p_transmit_count (mb_info m)) end.
  destruct (Z.gtb_spec (p_transmit_count (mb_info m)) RETRANSMIT_MAX); [lia|].
  match goal with |- context [alloc_mbuf ?x] => set (w2 := x) end.
  assert (tx_ready w2) as Hr2 by exact Hr1.
  destruct (alloc_ready w2 Hr2) as (a1 & e1 & -> & _ & Hr3).
  match goal with |- context [alloc_mbuf_unchecked ?x] => set (w3 := x) end.
  destruct (alloc_ready w3 Hr3) as (a2 & e2 & _ & -> & Hr4).
  cbn [the_ep gets the_qp]. unfold gets.
  match goal with |- context [send_udp_dgram ?p ?c ?x] =>
    set (ck := c); set (pl := p); set (w4 := x) end.
  assert (tx_ready w4) as Hr5 by exact Hr4.
  destruct (send_udp_sent w4 pl ck Hr5) as (w5 & -> & [Ho (q & l & e5 & ->)] & Hr6).
  eexists _, now. split; [done|]. split; [done|]. split.
  - rewrite Ho. f_equal.
  - eexists _, _, _. reflexivity.
Qed.


(** The segment that [send_ddp_segment] stores, before its transmission. *)
Definition new_segment (qp : usiw_qp) (sendmsg : Z * bytes) (readresp wqe : option nat)
    (payload_length psn : Z) : tx_mbuf :=
  {| mb_addr := fst sendmsg; mb_data := snd sendmsg;
     mb_info := {| p_next_retransmit := 0; p_wqe := wqe; p_readresp := readresp;
       p_transmit_count := 0; p_ddp_length := u16 payload_length;
       p_ddp_raw_cksum := if sw_checksum_test (qp_dev qp)
                          then rte_raw_cksum (snd sendmsg) else 0;
       p_psn := psn |} |}.

Lemma clear_ack_rep ep h pend : tx_rep ep h pend -> tx_rep (clear_ack_update ep) h pend.
Proof. unfold clear_ack_update. destruct (has _ _); [done|]. by apply tx_rep_ext. Qed.

(** A segment sent inside the window gets the next number, goes to the end of
    the pending queue and is transmitted once. *)
Lemma send_ddp_ok w h pend sendmsg rr wqe n (ep := remote_ep (w_qp w))
    (m := new_segment (w_qp w) sendmsg rr wqe n (u32 (h + len pend))) :
  tx_ready w -> tx_rep ep h pend -> len pend < tx_pending_size ep ->
  exists w' ep' now, send_ddp_segment sendmsg rr wqe n w = Ok (u32 (h + len pend), w') /\
    tx_ready w' /\ tx_step w w' [segment_frame (w_qp w) ep m] ep' /\
    tx_rep ep' h (pend ++ [retransmitted m now]) /\
    send_max_psn ep' = send_max_psn ep /\ recv_ack_psn ep' = recv_ack_psn ep /\
    tx_pending_size ep' = tx_pending_size ep.
Proof using P.
  intros Hr Hrep Hlt. pose proof (tx_pending_entry_slot ep h pend Hrep) as Hent.
  pose proof (slot_lt ep h pend Hrep) as Hsl.
  pose proof (tr_free _ _ _ Hrep (h + len pend) ltac:(lia)) as Hnull.
  unfold send_ddp_segment. cbv [mbind M_bind the_ep gets the_qp upd_ep upd_qp modify].
  fold ep. rewrite (tr_next _ _ _ Hrep), Hent.
  match goal with |- context [get_slot _ ?x] => set (w1 := x) end.
  rewrite (get_slot_eq w1 _ Null Hnull). simpl c_assert. cbv [lift].
  fold (new_segment (w_qp w) sendmsg rr wqe n (u32 (h + len pend))). fold m.
  cbv [put_slot upd_ep upd_qp modify].
  match goal with |- context [resend_ddp_segment _ ?x] => set (w2 := x) end.
  set (s := slot ep (h + len pend)) in *.
  assert (remote_ep (w_qp w2) = ep <| send_next_psn ::= fun p => u32 (p + 1) |>
            <| tx_pending ::= fun l => <[s := Seg m]> l |>) as Eep by done.
  assert (tx_rep (remote_ep (w_qp w2)) h (pend ++ [m])) as Hrep2.
  { rewrite Eep. by apply tx_rep_push. }
  destruct (resend_ok w2 s m) as (w3 & now & E3 & Hr3 & Ht).
  { exact Hr. }
  { rewrite Eep. simpl. apply list_lookup_insert_eq. apply Hsl. }
  { done. }
  rewrite E3. eexists w3, _, now. split; [done|]. split; [done|]. split.
  { destruct Ht as [Ho (q & l & e & ->)]. split; [exact Ho|]. eexists _, _, _. reflexivity. }
  split; [|unfold clear_ack_update; destruct (has _ _); done].
  apply clear_ack_rep. rewrite Eep in *.
  pose proof (tx_rep_update _ h (pend ++ [m]) (length pend) m (retransmitted m now) Hrep2
    ltac:(by rewrite list_lookup_middle) ltac:(done)) as Hu.
  rewrite insert_app_r_alt, Nat.sub_diag in Hu by done. exact Hu.
Qed.


(** ** Selective acknowledgements *)

Lemma sack_slot_never_marks l i min max l' :
  sack_slot l i min max = Ok l' ->
  length l' = length l /\ forall j s, l' !! j = Some s -> l !! j = Some s \/ s = Wild UINT64_MAX.
Proof.
  unfold sack_slot. intros H. destruct (l !! (i + 5)%nat) as [s5|]; [|done].
  destruct (l !! (i + 1)%nat) as [s1|] eqn:E1; [|done]. injection H as <-.
  unfold maybe_sack_pending. destruct (_ && _); cbn [p_next_retransmit update].
  2: { rewrite Z.eqb_refl. auto. }
  destruct (UINT64_MAX =? slot_word s1); [auto|]. split; [by rewrite length_insert|].
  intros j s Hj. destruct (decide (j = i + 1)%nat) as [->|Hne].
  - rewrite list_lookup_insert_eq in Hj by (eapply lookup_lt_Some; eassumption).
    right. by simplify_eq.
  - rewrite list_lookup_insert_ne in Hj by done. auto.
Qed.

Lemma sack_loop_never_marks fuel : forall ep l p min max l',
  sack_loop fuel ep l p min max = Ok l' ->
  length l' = length l /\ forall j s, l' !! j = Some s -> l !! j = Some s \/ s = Wild UINT64_MAX.
Proof.
  induction fuel as [|fuel IH]; intros ep l p min max l' H; [done|]. simpl in H.
  apply bind_ok in H as (l1 & H1 & H). apply sack_slot_never_marks in H1 as [Hl1 H1].
  destruct (_ =? _)%nat; [by inv_ok|]. destruct (l1 !! next_slot ep p) as [s0|]; [|done].
  destruct (is_null s0); [by inv_ok|]. apply IH in H as [Hl H]. split; [congruence|].
  intros j s Hj. destruct (H j s Hj) as [Hj'|]; [|by right]. by apply H1.
Qed.

End Send.
