(* ===== verification/Rdmap.v ===== *)
(** * RDMAP and DDP (src/liburdma/interface.c)

    Segmentation of SEND and RDMA WRITE messages, RDMA READ requests and
    responses, TERMINATE messages, and the handlers of received DDP segments.
    The segment a handler works on is the content of its mbuf from the DDP
    header to the end of the data room: reading past the segment yields what
    the room holds, reading past the room is a fault. *)
From S2P Require Import Prelude Serial Dpdk Binheap Proto Iov State Cq Mr Wqe Frame TrpTx.

(** [struct packet_context]; [ctx_rdmap] is the data room from the header. *)
Record packet_context := Ctx { ctx_seg_length : Z; ctx_rdmap : bytes; ctx_psn : Z }.

(** The memory image of a scatter/gather list. *)
Definition iov_image (l : list iovec) : bytes :=
  concat ((fun v => le_encode 8 (iov_base v) ++ le_encode 8 (iov_len v)) <$> l).

Section Rdmap.
Context {D : Dpdk}.

(** ** Senders *)

(** [n] bytes of a request's data from [off]: the bytes stored in the entry
    for an inline request, or the application's buffers. *)
Definition wqe_payload (wqe : usiw_send_wqe) (off n : Z) : M bytes :=
  m ← gets w_mem;
  if has (s_flags wqe) usiw_send_inline then
    lift (buf_load (match s_data wqe with WInline bs => bs | WIov l => iov_image l end) off n)
  else
    match s_data wqe with
    | WIov l => lift (memcpy_from_iov m (replicate (Z.to_nat n) 0) l off)
    | WInline _ => fail BadPointer
    end.

(** A round of the loops of [do_rdmap_send] and [do_rdmap_write]: the header
    depends on the entry and on whether this is the last segment. *)
Definition send_segment (i : nat) (hdr : usiw_send_wqe -> bool -> bytes) (wqe : usiw_send_wqe)
    (mtu : Z) : M unit :=
  a ← alloc_mbuf_unchecked;
  let payload_length := Z.min mtu (s_total_length wqe - s_bytes_sent wqe) in
  let last := s_total_length wqe - s_bytes_sent wqe <=? mtu in
  payload ← wqe_payload wqe (s_bytes_sent wqe) payload_length;
  send_ddp_segment (a, hdr wqe last ++ payload) None (Some i) payload_length;;
  upd_swqe i (fun w => w <| s_bytes_sent ::= fun b => u64 (b + payload_length) |>).

(** Each round takes a slot of the transmit window. *)
Fixpoint segment_loop (fuel : nat) (i : nat) (hdr : usiw_send_wqe -> bool -> bytes) (mtu : Z)
  : M unit :=
  wqe ← get_swqe i;
  ep ← the_ep;
  if (s_bytes_sent wqe <? s_total_length wqe)
     && serial_less_32 (send_next_psn ep) (send_max_psn ep) then
    match fuel with
    | O => fail OutOfFuel
    | S fuel' => send_segment i hdr wqe mtu;; segment_loop fuel' i hdr mtu
    end
  else mret tt.

Definition window_fuel (ep : ee_state) : nat := S (length (tx_pending ep)).

Definition set_wait_if_sent (i : nat) : M unit :=
  wqe ← get_swqe i;
  if s_bytes_sent wqe =? s_total_length wqe
  then upd_swqe i (fun w => w <| s_state := SEND_WQE_WAIT |>) else mret tt.

Definition send_header (wqe : usiw_send_wqe) (last : bool) : bytes :=
  untagged_bytes {|
    untagged_head := {| ddp_flags := if last then DDP_V1_UNTAGGED_LAST_DF else DDP_V1_UNTAGGED_DF;
                        rdmap_info := Z.lor rdmap_opcode_send RDMAP_V1; sink_stag := 0 |};
    untagged_qn := 0; untagged_msn := s_msn wqe; untagged_mo := u32 (s_bytes_sent wqe) |}.

Definition do_rdmap_send (i : nat) : M unit :=
  qp ← the_qp;
  segment_loop (window_fuel (remote_ep qp)) i send_header (shm_mtu (shm_qp qp));;
  set_wait_if_sent i.

Definition write_header (wqe : usiw_send_wqe) (last : bool) : bytes :=
  tagged_bytes {|
    tagged_head := {| ddp_flags := if last then DDP_V1_TAGGED_LAST_DF else DDP_V1_TAGGED_DF;
                      rdmap_info := Z.lor RDMAP_V1 rdmap_opcode_rdma_write;
                      sink_stag := s_rkey wqe |};
    tagged_offset := u64 (s_remote_addr wqe + s_bytes_sent wqe) |}.

Definition do_rdmap_write (i : nat) : M unit :=
  qp ← the_qp;
  segment_loop (window_fuel (remote_ep qp)) i write_header (shm_mtu (shm_qp qp));;
  set_wait_if_sent i.

(** The first scatter/gather element of a read request. *)
Definition first_iov (wqe : usiw_send_wqe) : outcome iovec :=
  match s_data wqe with WIov (v :: _) => Ok v | _ => Fault BadPointer end.

Definition readreq_header (wqe : usiw_send_wqe) (v : iovec) : bytes :=
  readreq_bytes {|
    readreq_untagged := {|
      untagged_head := {| ddp_flags := DDP_V1_UNTAGGED_LAST_DF;
                          rdmap_info := Z.lor rdmap_opcode_rdma_read_request RDMAP_V1;
                          sink_stag := s_local_stag wqe |};
      untagged_qn := 1; untagged_msn := s_msn wqe; untagged_mo := 0 |};
    readreq_sink_offset := iov_base v; read_msg_size := u32 (iov_len v);
    source_stag := s_rkey wqe; source_offset := s_remote_addr wqe |}.

Definition do_rdmap_read_request (i : nat) : M unit :=
  wqe ← get_swqe i;
  qp ← the_qp;
  let ep := remote_ep qp in
  if negb (bool_decide (s_state wqe = SEND_WQE_TRANSFER)) then mret tt
  else if ord_active qp >=? ord_max (shm_qp qp) then mret tt
  else if (send_next_psn ep =? send_max_psn ep)
          || serial_greater_32 (send_next_psn ep) (send_max_psn ep) then mret tt
  else
    upd_qp (fun qp => qp <| ord_active ::= fun n => u8 (n + 1) |>);;
    a ← alloc_mbuf_unchecked;
    v ← lift (first_iov wqe);
    send_ddp_segment (a, readreq_header wqe v) None (Some i) 0;;
    upd_swqe i (fun w => w <| s_state := SEND_WQE_WAIT |>).

(** ** TERMINATE *)

(** [terminate_append_ddp_header] reserves the size of the DDP header only,
    and copies the header behind the two bytes of the length field: the last
    two bytes of the copy are not part of the packet. *)
Definition terminate_append_ddp_header (orig : packet_context) : outcome bytes :=
  h ← get_rdmap (ctx_rdmap orig);
  let hdr_size := if negb (DDP_GET_T (ddp_flags h) =? 0) then sizeof_tagged else sizeof_untagged in
  p ← buf_load (ctx_rdmap orig) 0 (Z.of_nat hdr_size);
  Ok (take (hdr_size - 2) p).

Definition rdmap_hdrct_md : Z := Z.lor rdmap_hdrct_m rdmap_hdrct_d.

(** The header count and the payload, without its length field. *)
Definition terminate_payload (orig : option packet_context) (errcode : Z)
  : outcome (Z * option (Z * bytes)) :=
  let need (f : packet_context -> outcome (Z * option (Z * bytes))) :=
    match orig with Some o => f o | None => Fault NullDeref end in
  let append o := p ← terminate_append_ddp_header o;
                  Ok (rdmap_hdrct_md, Some (ctx_seg_length o, p)) in
  let class := Z.land errcode 0xff00 in
  if class =? 0x0100 then need (fun o =>
    p ← buf_load (ctx_rdmap o) 0 (Z.of_nat sizeof_readreq);
    Ok (Z.lor rdmap_hdrct_md rdmap_hdrct_r, Some (ctx_seg_length o, p)))
  else if (class =? 0x0200) || (class =? 0x1200) then
    match orig with Some o => append o | None => Ok (0, None) end
  else if (class =? 0x1000) || (class =? 0x1100) then need append
  else Ok (0, None).

Definition terminate_message (errcode : Z) (hc : Z) (payload : option (Z * bytes)) : bytes :=
  terminate_bytes {|
    terminate_untagged := {|
      untagged_head := {| ddp_flags := DDP_V1_UNTAGGED_LAST_DF;
                          rdmap_info := Z.lor rdmap_opcode_terminate RDMAP_V1; sink_stag := 0 |};
      untagged_qn := 2; untagged_msn := 1; untagged_mo := 0 |};
    error_code := errcode; hdrct := hc; reserved := 0 |}
  ++ match payload with Some (n, p) => be_encode 2 n ++ p | None => [] end.

Definition do_rdmap_terminate (orig : option packet_context) (errcode : Z) : M unit :=
  a ← alloc_mbuf_unchecked;
  '(hc, payload) ← lift (terminate_payload orig errcode);
  send_ddp_segment (a, terminate_message errcode hc payload) None None 0;;
  mret tt.

(** ** Untagged messages *)

(** The inner loop of [dequeue_recv_wqes]. *)
Fixpoint activate_recv_wqes (l : list nat) (q : usiw_recv_wqe_queue) : usiw_recv_wqe_queue :=
  match l with
  | [] => q
  | i :: r =>
      let q1 := q <| rq_storage ::= alter (fun w => w <| r_msn := rq_next_msn q |>) i |>
                  <| rq_next_msn ::= fun m => u32 (m + 1) |> in
      activate_recv_wqes r (usiw_recv_wqe_queue_add_active q1 i)
  end.

(** The first burst empties the ring, the second one ends the loop. *)
Fixpoint dequeue_loop (fuel : nat) (q : usiw_recv_wqe_queue) : outcome usiw_recv_wqe_queue :=
  match fuel with
  | O => Fault OutOfFuel
  | S fuel' =>
      let '(wqe, r) := rte_ring_dequeue_burst (rq_ring q) (S (Z.to_nat (rq_max_wr q))) in
      match wqe with
      | [] => Ok (q <| rq_ring := r |>)
      | _ => dequeue_loop fuel' (activate_recv_wqes wqe (q <| rq_ring := r |>))
      end
  end.
Definition dequeue_recv_wqes : M unit :=
  qp ← the_qp;
  q ← lift (dequeue_loop 2 (qp_rq0 qp));
  upd_qp (fun qp => qp <| qp_rq0 := q |>).

(** The loop that posts the completions at the head of the queue. *)
Fixpoint complete_recv_loop (fuel : nat) : M unit :=
  qp ← the_qp;
  match rq_active (qp_rq0 qp) with
  | [] => mret tt
  | i :: _ =>
      wqe ← get_rwqe i;
      if r_complete wqe then
        match fuel with
        | O => fail OutOfFuel
        | S fuel' => post_recv_cqe i IBV_WC_SUCCESS;; complete_recv_loop fuel'
        end
      else mret tt
  end.

(** [process_send] once the receive entry is found, up to the completion of
    the entry; the result is false when the function returns early. *)
Definition place_data (i : nat) (orig : packet_context) (rdmap : rdmap_untagged_packet) : M bool :=
  wqe ← get_rwqe i;
  let offset := untagged_mo rdmap in
  let payload_length := u64 (ctx_seg_length orig - Z.of_nat sizeof_untagged) in
  if u64 (offset + payload_length) >? r_total_request_size wqe then
    do_rdmap_terminate (Some orig) ddp_error_untagged_message_too_long;; mret false
  else
    let last := negb (DDP_GET_L (ddp_flags (untagged_head rdmap)) =? 0) in
    if last && negb (r_input_size wqe =? 0) then mret false else
    (if last then upd_rwqe i (fun w => w <| r_input_size := u64 (offset + payload_length) |>)
     else mret tt);;
    m ← gets w_mem;
    m' ← lift (memcpy_to_iov m (r_iov wqe) (drop sizeof_untagged (ctx_rdmap orig))
                 payload_length offset);
    modify (fun w => w <| w_mem := m' |>);;
    upd_rwqe i (fun w => w <| r_recv_size ::= fun n => u64 (n + payload_length) |>);;
    wqe ← get_rwqe i;
    lift (c_assert ((r_input_size wqe =? 0) || (r_recv_size wqe <=? r_input_size wqe)));;
    (if r_recv_size wqe =? r_input_size wqe
     then upd_rwqe i (fun w => w <| r_complete := true |>) else mret tt);;
    mret true.

Definition place_send (i : nat) (orig : packet_context) (rdmap : rdmap_untagged_packet) : M unit :=
  go ← place_data i orig rdmap;
  qp ← the_qp;
  if go && serial_less_32 (ctx_psn orig) (recv_ack_psn (remote_ep qp))
  then complete_recv_loop (S (Z.to_nat (rq_max_wr (qp_rq0 qp)))) else mret tt.

Definition process_send (orig : packet_context) : M unit :=
  rdmap ← lift (get_untagged (ctx_rdmap orig));
  qp ← the_qp;
  (if decide (rq_active (qp_rq0 qp) = []) then dequeue_recv_wqes else mret tt);;
  qp ← the_qp;
  '(ret, wqe) ← lift (usiw_recv_wqe_queue_lookup (qp_rq0 qp) (untagged_msn rdmap));
  lift (c_assert (negb (ret =? -EINVAL)));;
  match wqe with
  | None =>
      if decide (rq_active (qp_rq0 qp) = []) then
        lift (c_assert (rte_ring_empty (rq_ring (qp_rq0 qp))));;
        do_rdmap_terminate (Some orig) ddp_error_untagged_no_buffer
      else do_rdmap_terminate (Some orig) ddp_error_untagged_invalid_msn
  | Some i => place_send i orig rdmap
  end.

(** [vaddr < addr || vaddr + rdma_length > addr + length], in the width of a
    pointer. *)
Definition outside_mr (mr : usiw_mr) (vaddr rdma_length : Z) : bool :=
  (vaddr <? mr_addr mr) || (u64 (vaddr + rdma_length) >? u64 (mr_addr mr + mr_length mr)).

Definition process_rdma_read_request (orig : packet_context) : M unit :=
  rdmap ← lift (get_readreq (ctx_rdmap orig));
  qp ← the_qp;
  let msn := untagged_msn (readreq_untagged rdmap) in
  let terminate := do_rdmap_terminate (Some orig) in
  if (msn <? expected_read_msn (remote_ep qp))
     || (msn >=? u32 (readresp_head_msn qp + ird_max (shm_qp qp)))
  then terminate ddp_error_untagged_invalid_msn else
  (if msn =? expected_read_msn (remote_ep qp)
   then upd_ep (fun ep => ep <| expected_read_msn ::= fun m => u32 (m + 1) |>) else mret tt);;
  pd ← gets w_pd;
  c ← lift (usiw_mr_lookup pd (source_stag rdmap));
  match c with
  | None => terminate rdmap_error_stag_invalid
  | Some c =>
      mr ← lift (mr_deref pd c);
      if outside_mr mr (source_offset rdmap) (read_msg_size rdmap)
      then terminate rdmap_error_base_or_bounds_violation else
      let slot := Z.to_nat (msn mod ird_max (shm_qp qp)) in
      readresp ← lift (deref (readresp_store qp !! slot));
      if rr_active readresp then terminate rdmap_error_remote_stream_catastrophic else
      upd_qp (fun qp => qp <| readresp_store ::= fun l =>
        <[slot := {| rr_active := true; rr_vaddr := source_offset rdmap;
                     rr_msg_size := read_msg_size rdmap;
                     rr_sink_stag := sink_stag (untagged_head (readreq_untagged rdmap));
                     rr_sink_offset := readreq_sink_offset rdmap |}]> l |>)
  end.

(** ** RDMA READ responses *)

Definition response_header (rr : read_response_state) (last : bool) : bytes :=
  tagged_bytes {|
    tagged_head := {| ddp_flags := if last then DDP_V1_TAGGED_LAST_DF else DDP_V1_TAGGED_DF;
                      rdmap_info := Z.lor RDMAP_V1 rdmap_opcode_rdma_read_response;
                      sink_stag := rr_sink_stag rr |};
    tagged_offset := rr_sink_offset rr |}.

Definition get_readresp (slot : nat) : M read_response_state :=
  qp ← the_qp; lift (deref (readresp_store qp !! slot)).
Definition upd_readresp (slot : nat) (f : read_response_state -> read_response_state) : M unit :=
  upd_qp (fun qp => qp <| readresp_store ::= alter f slot |>).

(** The inner loop: segments of one response, while the window is open. *)
Fixpoint respond_loop (fuel : nat) (slot : nat) (mtu : Z) (count : Z) : M Z :=
  rr ← get_readresp slot;
  ep ← the_ep;
  if (rr_msg_size rr >? 0) && serial_less_32 (send_next_psn ep) (send_max_psn ep) then
    match fuel with
    | O => fail OutOfFuel
    | S fuel' =>
        a ← alloc_mbuf_unchecked;
        let payload_length := Z.min mtu (rr_msg_size rr) in
        m ← gets w_mem;
        payload ← lift (mem_load m (rr_vaddr rr) payload_length);
        send_ddp_segment (a, response_header rr (rr_msg_size rr <=? mtu) ++ payload)
          (Some slot) None payload_length;;
        upd_readresp slot (fun rr => rr <| rr_vaddr ::= fun v => u64 (v + payload_length) |>
                                        <| rr_msg_size ::= fun s => s - payload_length |>
                                        <| rr_sink_offset ::= fun o => u64 (o + payload_length) |>);;
        respond_loop fuel' slot mtu (count + 1)
    end
  else mret count.

(** The outer loop, over the [n] message numbers from [msn] on. *)
Fixpoint respond_all (n : nat) (msn : Z) (count : Z) : M Z :=
  match n with
  | O => mret count
  | S n' =>
      qp ← the_qp;
      let slot := Z.to_nat (msn mod ird_max (shm_qp qp)) in
      readresp ← get_readresp slot;
      if negb (rr_active readresp) then mret count else
      count ← respond_loop (window_fuel (remote_ep qp)) slot (shm_mtu (shm_qp qp)) count;
      readresp ← get_readresp slot;
      (if rr_msg_size readresp =? 0 then
         upd_readresp slot (fun rr => rr <| rr_active := false |>);;
         upd_qp (fun qp => qp <| readresp_head_msn ::= fun m => u32 (m + 1) |>)
       else mret tt);;
      respond_all n' (msn + 1) count
  end.
Definition respond_rdma_read : M Z :=
  qp ← the_qp;
  respond_all (Z.to_nat (ird_max (shm_qp qp))) (readresp_head_msn qp) 0.

Fixpoint find_read_loop (st : list usiw_send_wqe) (l : list nat) : outcome (option nat) :=
  match l with
  | [] => Ok None
  | i :: r =>
      w ← deref (st !! i);
      if decide (s_opcode w = usiw_wr_read) then Ok (Some i) else find_read_loop st r
  end.
Definition find_first_rdma_read (q : usiw_send_wqe_queue) : outcome (option nat) :=
  find_read_loop (sq_storage q) (sq_active q).

Definition process_rdma_read_response (orig : packet_context) : M unit :=
  rdmap ← lift (get_tagged (ctx_rdmap orig));
  qp ← the_qp;
  '(ret, wqe) ← lift (usiw_send_wqe_queue_lookup (qp_sq qp) usiw_wr_read
                        (sink_stag (tagged_head rdmap)));
  match wqe with
  | None => do_rdmap_terminate (Some orig) rdmap_error_opcode_unexpected
  | Some _ =>
      if negb (DDP_GET_L (ddp_flags (tagged_head rdmap)) =? 0) then
        '(_, h) ← lift (binheap_insert (recv_rresp_last_psn (remote_ep qp)) (ctx_psn orig));
        upd_ep (fun ep => ep <| recv_rresp_last_psn := h |>)
      else mret tt
  end.

Definition ddp_place_tagged_data (orig : packet_context) : M unit :=
  rdmap ← lift (get_tagged (ctx_rdmap orig));
  let rkey := sink_stag (tagged_head rdmap) in
  pd ← gets w_pd;
  c ← lift (usiw_mr_lookup pd rkey);
  match c with
  | None => do_rdmap_terminate (Some orig) ddp_error_tagged_stag_invalid
  | Some c =>
      mr ← lift (mr_deref pd c);
      let vaddr := tagged_offset rdmap in
      let rdma_length := u32 (ctx_seg_length orig - Z.of_nat sizeof_tagged) in
      if outside_mr mr vaddr rdma_length
      then do_rdmap_terminate (Some orig) ddp_error_tagged_base_or_bounds_violation else
      payload ← lift (buf_load (drop sizeof_tagged (ctx_rdmap orig)) 0 rdma_length);
      m ← gets w_mem;
      m' ← lift (mem_store m vaddr payload);
      modify (fun w => w <| w_mem := m' |>);;
      let opcode := RDMAP_GET_OPCODE (rdmap_info (tagged_head rdmap)) in
      if opcode =? rdmap_opcode_rdma_write then mret tt
      else if opcode =? rdmap_opcode_rdma_read_response then process_rdma_read_response orig
      else do_rdmap_terminate (Some orig) rdmap_error_opcode_unexpected
  end.

(** ** Termination of the stream *)

(** The result of [ibv_cmd_modify_qp] is not looked at. *)
Definition qp_shutdown : M unit :=
  send_trp_fin;;
  upd_qp (fun qp => qp <| shm_qp ::= update conn_state (fun _ => usiw_qp_error) |>);;
  sq_flush;;
  rq_flush.

(** The entry a TERMINATE message names, if the handler goes on: [None] when
    it returns early, [Some None] when no entry is concerned. *)
Definition terminate_target (rdmap : rdmap_terminate_packet) (buf : bytes) : M (option (option nat)) :=
  qp ← the_qp;
  let class := Z.land (error_code rdmap) 0xff00 in
  let rest := drop sizeof_terminate buf in
  if negb (has (hdrct rdmap) rdmap_hdrct_d) then mret (Some None)
  else if class =? 0x0100 then
    rreq ← lift (get_rdmap rest);
    '(ret, wqe) ← lift (usiw_send_wqe_queue_lookup (qp_sq qp) usiw_wr_read (sink_stag rreq));
    match wqe with
    | None => mret None
    | Some i =>
        w ← get_swqe i;
        pd ← gets w_pd;
        mr ← lift (usiw_mr_lookup pd (STAG_RDMA_READ (s_msn w)));
        match mr with
        | Some c => modify (fun w => w <| w_pd ::= fun t => usiw_dereg_mr_real t c |>)
        | None => mret tt
        end;;
        mret (Some (Some i))
    end
  else if class =? 0x1100 then
    t ← lift (get_rdmap rest);
    let opcode := RDMAP_GET_OPCODE (rdmap_info t) in
    if opcode =? rdmap_opcode_rdma_write then
      '(ret, wqe) ← lift (usiw_send_wqe_queue_lookup (qp_sq qp) usiw_wr_write (sink_stag t));
      match wqe with None => mret None | Some i => mret (Some (Some i)) end
    else mret None
  else mret (Some None).

Definition process_terminate (orig : packet_context) : M unit :=
  rdmap ← lift (get_terminate (ctx_rdmap orig));
  t ← terminate_target rdmap (ctx_rdmap orig);
  match t with
  | None => mret tt
  | Some (Some i) => post_send_cqe i IBV_WC_REM_ACCESS_ERR;; mret tt
  | Some None => qp_shutdown
  end.
End Rdmap.
