(* ===== verification/Segment.v ===== *)
(** * Segmentation of messages

    [do_rdmap_send] and [do_rdmap_write] cut the data of a request into
    segments of at most the MTU and hand them to the transmit window in
    order, as far as it is open. *)
From S2P Require Import Prelude Serial Dpdk Binheap Proto Iov State Cq Mr Wqe Frame TrpTx Window Rdmap.

(** The segments of [data], the rest of a message from offset [off]: offset,
    payload and whether it is the last one.  [fuel] bounds their number. *)
Fixpoint segs (fuel : nat) (mtu : nat) (off : Z) (data : bytes) : list (Z * bytes * bool) :=
  match fuel, data with
  | S fuel', _ :: _ =>
      (off, take mtu data, bool_decide (length data <= mtu)%nat)
      :: segs fuel' mtu (off + Z.of_nat mtu) (drop mtu data)
  | _, _ => []
  end.
Definition segments (mtu : nat) (off : Z) (data : bytes) : list (Z * bytes * bool) :=
  segs (length data) mtu off data.

Definition seg_payload (s : Z * bytes * bool) : bytes := snd (fst s).

Lemma segs_fuel f1 : forall f2 mtu off data,
  (0 < mtu)%nat -> (length data <= f1)%nat -> (length data <= f2)%nat ->
  segs f1 mtu off data = segs f2 mtu off data.
Proof.
  induction f1 as [|f1 IH]; intros [|f2] mtu off data Hm H1 H2; destruct data as [|b data];
    simpl in H1, H2; try done; try lia.
  simpl. f_equal. apply IH; [done|..]; rewrite length_drop; simpl; lia.
Qed.

Lemma segments_cons mtu off data :
  (0 < mtu)%nat -> data <> [] ->
  segments mtu off data = (off, take mtu data, bool_decide (length data <= mtu)%nat)
    :: segments mtu (off + Z.of_nat mtu) (drop mtu data).
Proof.
  intros Hm Hd. unfold segments. destruct data as [|b data]; [done|]. simpl length. cbn [segs].
  f_equal. apply segs_fuel; [done|..]; rewrite length_drop; simpl; lia.
Qed.

(** The payloads make up the data, the offsets are those of the payloads, and
    exactly the final segment is marked. *)
Lemma segments_concat mtu : (0 < mtu)%nat -> forall data off,
  concat (seg_payload <$> segments mtu off data) = data.
Proof.
  intros Hm data. remember (length data) as n. revert data Heqn.
  induction (lt_wf n) as [n _ IH]. intros data -> off.
  destruct (decide (data = [])) as [->|Hd]; [done|].
  rewrite segments_cons by done. cbn [fmap list_fmap concat]. unfold seg_payload at 1. simpl.
  rewrite (IH (length (drop mtu data))); [by rewrite take_drop| |done].
  rewrite length_drop. destruct data; [done|simpl; lia].
Qed.

Section Segment.
Context {D : Dpdk} {P : LivePort D}.

(** The data of request [x] is [msg], given application memory [m]. *)
Definition request_data (m : gmap Z Z) (x : usiw_send_wqe) (msg : bytes) : Prop :=
  s_total_length x = len msg /\ len msg < 2 ^ 32 /\
  if has (s_flags x) usiw_send_inline then s_data x = WInline msg
  else exists l, s_data x = WIov l /\ iov_wf l /\ iov_total l = len msg /\
         gather m (iov_addrs l) = Ok msg.

Lemma wqe_payload_ok w x msg off n :
  request_data (w_mem w) x msg -> 0 <= off -> 0 <= n -> off + n <= len msg ->
  wqe_payload x off n w = Ok (sub (Z.to_nat off) (Z.to_nat n) msg, w).
Proof.
  intros (Ht & H32 & Hd) Ho Hn Hle. unfold wqe_payload. cbv [mbind M_bind gets].
  destruct (has _ _).
  - rewrite Hd. rewrite buf_load_in by lia. done.
  - destruct Hd as (l & -> & Hwf & Htot & Hg). unfold lift.
    rewrite memcpy_from_iov_ref by (done || unfold in_range; rewrite ?length_replicate; lia).
    rewrite length_replicate, (gather_sub _ _ _ _ _ Hg). cbn [mbind outcome_bind].
    rewrite drop_ge, app_nil_r; [done|]. rewrite length_replicate, sub_length; lia.
Qed.

(** [w'] is [w] after the transmission of segments: frames [fs], endpoint
    state [ep'] and entry [i] replaced by [x']. *)
Definition seg_step (w w' : world) (fs : list bytes) (ep' : ee_state) (i : nat) (x' : usiw_send_wqe)
  : Prop :=
  out w' = out w ++ fs /\
  exists q l e, w' = w <| w_qp ::= fun qp => qp <| qp_txq := q |> <| remote_ep := ep' |>
                              <| qp_sq ::= update sq_storage (fun s => <[i := x']> s) |> |>
                       <| w_wire := l |> <| w_env := e |>.

Lemma seg_step_trans w1 w2 w3 f1 f2 e1 e2 i x1 x2 :
  seg_step w1 w2 f1 e1 i x1 -> seg_step w2 w3 f2 e2 i x2 -> seg_step w1 w3 (f1 ++ f2) e2 i x2.
Proof.
  intros [E1 (q1 & l1 & v1 & ->)] [E2 (q2 & l2 & v2 & ->)]. split.
  - by rewrite E2, E1, app_assoc.
  - eexists _, _, _. simpl. by rewrite list_insert_insert_eq.
Qed.

(** The header of a segment depends on the entry and its offset. *)
Definition seg_data (hdr : usiw_send_wqe -> bool -> bytes) (x : usiw_send_wqe)
    (s : Z * bytes * bool) : bytes :=
  let '(off, p, last) := s in hdr (x <| s_bytes_sent := off |>) last ++ p.

(** What a segment of entry [i] looks like in the window. *)
Definition is_segment (hdr : usiw_send_wqe -> bool -> bytes) (x : usiw_send_wqe) (i : nat)
    (s : Z * bytes * bool) (m : tx_mbuf) : Prop :=
  mb_data m = seg_data hdr x s /\ p_wqe (mb_info m) = Some i /\
  p_ddp_length (mb_info m) = len (seg_payload s).

Section Loop.
Variables (i : nat) (hdr : usiw_send_wqe -> bool -> bytes) (mtu : Z) (msg : bytes) (h mx : Z).
Hypothesis Hmtu : 0 < mtu < 2 ^ 16.

(** State of the loop: entry [x] has sent [s_bytes_sent x] bytes. *)
Definition loop_inv (w : world) (x : usiw_send_wqe) (pend : list tx_mbuf) : Prop :=
  let ep := remote_ep (w_qp w) in
  tx_ready w /\ tx_rep ep h pend /\ send_max_psn ep = u32 mx /\
  mx <= h + tx_pending_size ep /\ h + len pend <= mx /\
  sq_storage (qp_sq (w_qp w)) !! i = Some x /\ request_data (w_mem w) x msg /\
  0 <= s_bytes_sent x <= len msg.

Definition rest_segments (x : usiw_send_wqe) : list (Z * bytes * bool) :=
  segments (Z.to_nat mtu) (s_bytes_sent x) (drop (Z.to_nat (s_bytes_sent x)) msg).

Lemma loop_guard w x pend :
  loop_inv w x pend ->
  serial_less_32 (send_next_psn (remote_ep (w_qp w))) (send_max_psn (remote_ep (w_qp w))) =
  (h + len pend <? mx).
Proof.
  intros (_ & Hrep & Hmx & Hsz & Hn & _). rewrite Hmx, (tr_next _ _ _ Hrep).
  apply serial_less_wrap. destruct (tr_size _ _ _ Hrep) as (k & Hk & Ek).
  assert (2 ^ k <= 2 ^ 30) by (apply Z.pow_le_mono_r; lia). assert (2 ^ 30 < 2 ^ 31) by done. lia.
Qed.

(** One round sends the first of the remaining segments. *)
Lemma send_segment_ok w x pend :
  loop_inv w x pend -> s_bytes_sent x < len msg -> h + len pend < mx ->
  exists w' fs ep' m s x', send_segment i hdr x mtu w = Ok (tt, w') /\
    seg_step w w' fs ep' i x' /\ loop_inv w' x' (pend ++ [m]) /\
    rest_segments x = s :: rest_segments x' /\ is_segment hdr x i s m /\
    x' = x <| s_bytes_sent := s_bytes_sent x' |> /\ length fs = 1%nat.
Proof using Hmtu P.
  intros (Hr & Hrep & Hmx & Hsz & Hn & Hx & Hdata & Hb) Hlt Hwin.
  pose proof Hdata as (Htot & H32 & _).
  set (b := s_bytes_sent x) in *. set (n := Z.min mtu (len msg - b)).
  assert (drop (Z.to_nat b) msg <> []) as Hne.
  { intros E. apply (f_equal length) in E. rewrite length_drop in E. simpl in E. lia. }
  unfold send_segment. cbv [mbind M_bind]. destruct (alloc_ready w Hr) as (a & e & _ & -> & Hr1).
  rewrite Htot. fold b. fold n.
  match goal with |- context [wqe_payload _ _ _ ?v] => set (w1 := v) end.
  rewrite (wqe_payload_ok w1 x msg b n Hdata) by lia.
  destruct (send_ddp_ok w1 h pend (a, hdr x (len msg - b <=? mtu) ++ sub (Z.to_nat b) (Z.to_nat n) msg)
    None (Some i) n Hr1 Hrep ltac:(simpl; lia)) as
    (w2 & ep' & now & -> & Hr2 & [Ho (q & l & e2 & ->)] & Hrep' & Emx & _ & Esz).
  set (m := retransmitted _ _) in *. cbv [upd_swqe upd_sq upd_qp modify].
  set (x' := x <| s_bytes_sent := b + n |>).
  match goal with |- context [alter ?g i] => set (f := g) end.
  assert (alter f i (sq_storage (qp_sq (w_qp w))) = <[i := x']> (sq_storage (qp_sq (w_qp w)))) as Ealt.
  { rewrite (alter_insert _ i _ x Hx). f_equal. unfold f, x'. simpl. fold b. unfold wrap.
    by rewrite Z.mod_small by lia. }
  eexists _, _, ep', m, (b, take (Z.to_nat mtu) (drop (Z.to_nat b) msg),
    bool_decide (length (drop (Z.to_nat b) msg) <= Z.to_nat mtu)%nat), x'.
  split; [done|]. split_and!.
  - split; [exact Ho|]. eexists q, l, e2. simpl. by rewrite Ealt.
  - split_and!; simpl; try done.
    + by rewrite Emx.
    + rewrite Esz. done.
    + rewrite length_app. simpl. lia.
    + rewrite Ealt. apply list_lookup_insert_eq. by eapply lookup_lt_Some.
    + lia.
    + lia.
  - unfold rest_segments. fold b. rewrite segments_cons by (done || lia). f_equal.
    simpl s_bytes_sent. rewrite drop_drop.
    assert (Z.to_nat b + Z.to_nat mtu = Z.to_nat (b + mtu))%nat as -> by lia.
    destruct (decide (len msg - b <= mtu)) as [Hlast|Hlast].
    + rewrite !drop_ge by lia. done.
    + replace n with mtu by lia. rewrite Z2Nat.id by lia. done.
  - unfold is_segment, seg_data, seg_payload. simpl. split_and!; [|done|].
    + f_equal.
      * f_equal; [by destruct x|]. rewrite length_drop.
        destruct (Z.leb_spec (len msg - b) mtu); [rewrite bool_decide_true|rewrite bool_decide_false]; done || lia.
      * unfold sub, n. destruct (decide (len msg - b <= mtu)).
        -- rewrite !take_ge by (rewrite length_drop; lia). done.
        -- f_equal. lia.
    + rewrite length_take, length_drop. unfold wrap. rewrite Z.mod_small; lia.
  - done.
  - done.
Qed.

Lemma bytes_sent_eta x : x = x <| s_bytes_sent := s_bytes_sent x |>.
Proof. by destruct x. Qed.

(** The loop goes on as long as there is a segment and room for it. *)
Lemma loop_count w x pend :
  loop_inv w x pend ->
  Nat.min (length (rest_segments x)) (Z.to_nat (mx - (h + len pend))) = 0%nat <->
  (s_bytes_sent x <? s_total_length x) && (h + len pend <? mx) = false.
Proof using Hmtu.
  intros (_ & _ & _ & _ & Hn & _ & (Htot & _) & Hb). rewrite Htot, andb_false_iff, !Z.ltb_ge.
  unfold rest_segments. pose proof (length_drop msg (Z.to_nat (s_bytes_sent x))) as Hl.
  destruct (drop (Z.to_nat (s_bytes_sent x)) msg) as [|c cs] eqn:E; cbn [length] in Hl.
  - unfold segments. cbn [length segs]. lia.
  - rewrite segments_cons by (done || lia). cbn [length]. lia.
Qed.

Lemma segment_loop_ok fuel : forall w x pend,
  loop_inv w x pend ->
  let cnt := Nat.min (length (rest_segments x)) (Z.to_nat (mx - (h + len pend))) in
  (cnt <= fuel)%nat ->
  exists w' fs ep' ms x', segment_loop fuel i hdr mtu w = Ok (tt, w') /\
    seg_step w w' fs ep' i x' /\ loop_inv w' x' (pend ++ ms) /\
    rest_segments x' = drop cnt (rest_segments x) /\
    Forall2 (is_segment hdr x i) (take cnt (rest_segments x)) ms /\
    x' = x <| s_bytes_sent := s_bytes_sent x' |> /\ length fs = cnt.
Proof using Hmtu P.
  induction fuel as [|fuel IH]; intros w x pend HI cnt Hcnt;
    pose proof (loop_guard w x pend HI) as Hg;
    pose proof HI as (Hr & Hrep & Hmx & Hsz & Hn & Hx & Hdata & Hb);
    pose proof Hdata as (Htot & H32 & _);
    simpl; cbv [mbind M_bind the_ep gets]; unfold get_swqe; rewrite Hx; cbn [deref mbind outcome_bind];
    rewrite Hg.
  all: assert (exists fs ep', seg_step w w fs ep' i x /\ length fs = 0%nat) as (fs0 & ep0 & Hs0 & Hl0)
    by (exists [], (remote_ep (w_qp w)); split; [|done]; split; [by rewrite app_nil_r|];
        exists (qp_txq (w_qp w)), (w_wire w), (w_env w); simpl; rewrite list_insert_id by done;
        by destruct w as [[? ? ? ? ? ? ? []]]).
  all: pose proof (loop_count w x pend HI) as Hz; fold cnt in Hz.
  - rewrite (proj1 Hz) by lia. exists w, fs0, ep0, [], x. rewrite app_nil_r.
    replace cnt with 0%nat by lia. split_and!; try done; apply bytes_sent_eta.
  - destruct ((s_bytes_sent x <? s_total_length x) && (h + len pend <? mx)) eqn:Ec.
    2: { rewrite (proj2 Hz eq_refl). exists w, fs0, ep0, [], x. rewrite app_nil_r.
         split_and!; try done; apply bytes_sent_eta. }
    apply andb_true_iff in Ec as [Ec1%Z.ltb_lt Ec2%Z.ltb_lt]. rewrite Htot in Ec1.
    destruct (send_segment_ok w x pend HI Ec1 Ec2) as
      (w1 & fs1 & ep1 & m & s & x1 & -> & Hs1 & HI1 & Hrest & Hseg & Hx1 & Hl1).
    assert (exists cnt', cnt = S cnt' /\
      cnt' = Nat.min (length (rest_segments x1)) (Z.to_nat (mx - (h + len (pend ++ [m]))))) as (cnt' & -> & Hcnt').
    { eexists. split; [|done]. unfold cnt. rewrite Hrest, length_app. cbn [length]. lia. }
    destruct (IH w1 x1 (pend ++ [m]) HI1) as (w2 & fs2 & ep2 & ms & x2 & E2 & Hs2 & HI2 & Hr2 & Hf2 & Hx2 & Hl2).
    { lia. }
    exists w2, (fs1 ++ fs2), ep2, (m :: ms), x2. rewrite <- app_assoc in HI2.
    split; [exact E2|]. split; [by eapply seg_step_trans|]. split; [exact HI2|].
    rewrite Hrest. cbn [drop take]. rewrite Hcnt'. split_and!.
    + done.
    + constructor; [done|]. eapply Forall2_impl; [exact Hf2|]. intros [[o p] la] m' (Hd & ? & ?).
      split_and!; [|done..]. rewrite Hd. unfold seg_data. rewrite Hx1. by destruct x.
    + rewrite Hx2, Hx1. by destruct x.
    + rewrite length_app. lia.
Qed.

Lemma rest_segments_nil w x pend :
  loop_inv w x pend -> rest_segments x = [] <-> s_bytes_sent x = s_total_length x.
Proof using Hmtu.
  intros (_ & _ & _ & _ & _ & _ & (Htot & _) & Hb). unfold rest_segments.
  pose proof (length_drop msg (Z.to_nat (s_bytes_sent x))) as Hl.
  destruct (drop (Z.to_nat (s_bytes_sent x)) msg) as [|c cs] eqn:E; cbn [length] in Hl.
  - split; [lia|done].
  - rewrite segments_cons by (done || lia). split; [done|lia].
Qed.

(** The loop and the state change after it. *)
Lemma rdmap_segments_ok w x pend :
  loop_inv w x pend ->
  let todo := rest_segments x in
  let cnt := Nat.min (length todo) (Z.to_nat (mx - (h + len pend))) in
  exists w' fs ms x',
    (segment_loop (window_fuel (remote_ep (w_qp w))) i hdr mtu;; set_wait_if_sent i) w = Ok (tt, w') /\
    tx_rep (remote_ep (w_qp w')) h (pend ++ ms) /\
    Forall2 (is_segment hdr x i) (take cnt todo) ms /\
    sq_storage (qp_sq (w_qp w')) !! i = Some x' /\ rest_segments x' = drop cnt todo /\
    (drop cnt todo = [] -> s_bytes_sent x' = s_total_length x' /\ s_state x' = SEND_WQE_WAIT) /\
    (drop cnt todo <> [] -> s_bytes_sent x' < s_total_length x' /\ s_state x' = s_state x) /\
    out w' = out w ++ fs /\ length fs = cnt.
Proof using Hmtu P.
  intros HI todo cnt. pose proof HI as (_ & Hrep & _ & Hsz & Hn & _).
  destruct (segment_loop_ok (window_fuel (remote_ep (w_qp w))) w x pend HI) as
    (w1 & fs & ep' & ms & x1 & E & [Ho (q & l & e & Ew1)] & HI1 & Hrest & Hseg & Hx1 & Hl).
  { unfold window_fuel. rewrite (tr_len _ _ _ Hrep). lia. }
  fold todo cnt in Hrest, Hseg, Hl.
  pose proof (rest_segments_nil w1 x1 _ HI1) as Hnil.
  pose proof HI1 as (_ & Hrep1 & _ & _ & _ & Hs1 & (Htot1 & _) & Hb1).
  cbv [mbind M_bind]. rewrite E. unfold set_wait_if_sent. cbv [mbind M_bind].
  unfold get_swqe. rewrite Hs1. cbn [deref mbind outcome_bind].
  destruct (Z.eqb_spec (s_bytes_sent x1) (s_total_length x1)) as [Heq|Hneq].
  - eexists _, fs, ms, (x1 <| s_state := SEND_WQE_WAIT |>). split; [done|].
    split_and!; try done.
    + simpl. by rewrite list_lookup_alter_eq, Hs1.
    + intros Hne. rewrite <- Hrest in Hne. by apply Hnil in Heq.
  - exists w1, fs, ms, x1. split_and!; try done.
    + intros Hn0. rewrite <- Hrest in Hn0. by apply Hnil in Hn0.
    + intros _. split; [lia|]. by rewrite Hx1.
Qed.
End Loop.

End Segment.
