(* ===== verification/Progress.v ===== *)
(** * Progress of a queue pair (src/liburdma/interface.c)

    Dispatch of received packets, the progress function and the body of the
    progress thread's loop for one queue pair.  The packets that
    [rte_eth_rx_burst], or the ring fed by another queue, delivers in an
    iteration are an argument. *)
From S2P Require Import Prelude Serial Dpdk Binheap Proto Iov State TrpRx Cq Mr Wqe Frame TrpTx Rdmap.

(** A received mbuf: its offload flags and its data room from the Ethernet
    header. *)
Record rx_mbuf := RxMbuf { rx_ol_flags : Z; rx_data : bytes }.

Section Progress.
Context {D : Dpdk}.

(** The end of [process_data_packet]: validation and dispatch of a DDP
    segment that the TRP layer accepted. *)
Definition ddp_dispatch (ctx : packet_context) : M unit :=
  h ← lift (get_rdmap (ctx_rdmap ctx));
  let tagged := negb (DDP_GET_T (ddp_flags h) =? 0) in
  if negb (DDP_GET_DV (ddp_flags h) =? 1) then
    do_rdmap_terminate (Some ctx)
      (if tagged then ddp_error_tagged_version_invalid else ddp_error_untagged_version_invalid)
  else if negb (RDMAP_GET_RV (rdmap_info h) =? 1) then
    do_rdmap_terminate (Some ctx) rdmap_error_version_invalid
  else if tagged then ddp_place_tagged_data ctx
  else
    let opcode := RDMAP_GET_OPCODE (rdmap_info h) in
    if (opcode =? rdmap_opcode_send) || (opcode =? rdmap_opcode_send_inv)
       || (opcode =? rdmap_opcode_send_se) || (opcode =? rdmap_opcode_send_se_inv)
    then process_send ctx
    else if opcode =? rdmap_opcode_rdma_read_request then process_rdma_read_request ctx
    else if opcode =? rdmap_opcode_terminate then process_terminate ctx
    else do_rdmap_terminate (Some ctx) rdmap_error_opcode_unexpected.

(** The acknowledgement number of a packet, taken as it is. *)
Definition accept_ack (ack : Z) (ep : ee_state) : ee_state :=
  ep <| send_last_acked_psn := ack |>
     <| send_max_psn := u32 (ack + tx_pending_size ep - 1) |>.

(** A packet that is not a control packet. *)
Definition process_trp_data (trp : trp_hdr) (dgram_length : Z) (rest : bytes) : M unit :=
  upd_ep (accept_ack (trp_ack_psn trp));;
  if dgram_length <=? 18 then mret tt else
  qp ← the_qp;
  let '(deliver, ep, st) := trp_rx (remote_ep qp) (qp_stats qp) (trp_psn trp) in
  upd_qp (fun qp => qp <| remote_ep := ep |> <| qp_stats := st |>);;
  if deliver then
    ddp_dispatch {| ctx_seg_length := dgram_length - 18; ctx_rdmap := drop sizeof_trp_hdr rest;
                    ctx_psn := trp_psn trp |}
  else mret tt.

(** [process_data_packet]: 14 bytes of Ethernet, 20 of IPv4 and 8 of UDP
    header precede the TRP header.  The tests of the protocol, the address
    and the port only log. *)
Definition process_data_packet (mbuf : rx_mbuf) : M unit :=
  if has (rx_ol_flags mbuf) (Z.lor PKT_RX_L4_CKSUM_BAD PKT_RX_IP_CKSUM_BAD) then mret tt else
  dgram_length ← lift (get_be (rx_data mbuf) (14 + 20 + 4) 2);
  let rest := drop (14 + 20 + 8) (rx_data mbuf) in
  trp ← lift (get_trp rest);
  let opcode := Z.land (trp_opcode trp) trp_opcode_mask in
  if opcode =? 0 then process_trp_data trp dgram_length rest
  else if opcode =? trp_sack then
    upd_qp (fun qp => qp <| qp_stats ::= update recv_sack_count (fun c => u64 (c + 1)) |>);;
    ep ← the_ep;
    ep' ← lift (process_trp_sack ep (trp_psn trp) (trp_ack_psn trp));
    upd_ep (fun _ => ep')
  else if opcode =? trp_fin then qp_shutdown
  else mret tt.

Definition progress_send_wqe (i : nat) : M unit :=
  wqe ← get_swqe i;
  if decide (s_state wqe = SEND_WQE_COMPLETE) then try_complete_wqe i else
  match s_opcode wqe with
  | usiw_wr_send => do_rdmap_send i
  | usiw_wr_write => do_rdmap_write i
  | usiw_wr_read => do_rdmap_read_request i
  end.

Fixpoint process_packets (rx : list rx_mbuf) : M unit :=
  match rx with
  | [] => mret tt
  | p :: r => process_data_packet p;; process_packets r
  end.

(** [process_receive_queue] returns the time. *)
Definition process_receive_queue (rx : list rx_mbuf) : M Z :=
  qp ← the_qp;
  (if decide (length rx < length (recv_count_histo (qp_stats qp)))%nat then
     upd_qp (fun qp => qp <| qp_stats ::= update recv_count_histo
       (alter (fun c => u64 (c + 1)) (length rx)) |>)
   else fail OutOfBounds);;
  now ← get_timer;
  process_packets rx;;
  mret now.

(** Completion of the RDMA READ requests whose last response segment was
    received and precedes the cumulative acknowledgement. *)
Fixpoint complete_reads (fuel : nat) : M unit :=
  qp ← the_qp;
  let h := recv_rresp_last_psn (remote_ep qp) in
  if binheap_empty h then mret tt else
  '(_, psn) ← lift (binheap_peek h);
  psn ← lift (deref psn);
  if psn <? recv_ack_psn (remote_ep qp) then
    match fuel with
    | O => fail OutOfFuel
    | S fuel' =>
        wqe ← lift (find_first_rdma_read (qp_sq qp));
        match wqe with
        | Some i =>
            upd_swqe i (fun w => w <| s_state := SEND_WQE_COMPLETE |>);;
            try_complete_wqe i
        | None => mret tt
        end;;
        '(_, h') ← lift (binheap_pop h);
        upd_ep (fun ep => ep <| recv_rresp_last_psn := h' |>);;
        complete_reads fuel'
    end
  else mret tt.

(** The loop over the active entries; the result counts those that have data
    left to send. *)
Fixpoint progress_active (l : list nat) (scount : Z) : M Z :=
  match l with
  | [] => mret scount
  | i :: r =>
      wqe ← get_swqe i;
      lift (c_assert (negb (bool_decide (s_state wqe = SEND_WQE_INIT))));;
      progress_send_wqe i;;
      wqe ← get_swqe i;
      progress_active r (if decide (s_state wqe = SEND_WQE_TRANSFER) then scount + 1 else scount)
  end.

(** A posted entry becomes active and gets its message sequence number. *)
Definition activate_send_wqe (i : nat) : M unit :=
  wqe ← get_swqe i;
  lift (c_assert (bool_decide (s_state wqe = SEND_WQE_INIT)));;
  upd_swqe i (fun w => w <| s_state := SEND_WQE_TRANSFER |>);;
  ep ← the_ep;
  match s_opcode wqe with
  | usiw_wr_send =>
      upd_swqe i (fun w => w <| s_msn := next_send_msn ep |>);;
      upd_ep (fun ep => ep <| next_send_msn ::= fun m => u32 (m + 1) |>)
  | usiw_wr_read =>
      upd_swqe i (fun w => w <| s_msn := next_read_msn ep |>);;
      upd_ep (fun ep => ep <| next_read_msn ::= fun m => u32 (m + 1) |>)
  | usiw_wr_write => mret tt
  end.

(** The next posted entry is started. *)
Definition start_next_wqe : M Z :=
  qp ← the_qp;
  match rte_ring_dequeue (sq_ring (qp_sq qp)) with
  | None => mret 0
  | Some (i, r) =>
      upd_sq (fun q => q <| sq_ring := r |>);;
      activate_send_wqe i;;
      upd_sq (fun q => usiw_send_wqe_queue_add_active q i);;
      progress_send_wqe i;;
      mret 1
  end.

Definition progress_qp (rx : list rx_mbuf) : M unit :=
  now ← process_receive_queue rx;
  sweep_unacked_packets now;;
  qp ← the_qp;
  complete_reads (bh_size (recv_rresp_last_psn (remote_ep qp)));;
  qp ← the_qp;
  scount ← progress_active (sq_active (qp_sq qp)) 0;
  (if scount =? 0 then start_next_wqe;; mret tt else mret tt);;
  respond_rdma_read;;
  ep ← the_ep;
  (if has (trp_flags ep) trp_ack_update then
     if has (trp_flags ep) trp_recv_missing then send_trp_sack else send_trp_ack
   else mret tt);;
  flush_tx_queue.

(** ** The progress thread *)

(** The allocations of [start_qp] that succeed, in their order; the heap's
    cells are uninitialised. *)
Record start_allocs := StartAllocs {
  al_readresp : bool; al_pending : bool; al_heap : bool; al_txq : bool; al_histo : bool;
  al_cells : list Z
}.

Definition zero_readresp : read_response_state := ReadResp 0 0 0 0 false.

Definition set_conn_state (s : urdma_qp_state) (qp : usiw_qp) : usiw_qp :=
  qp <| shm_qp ::= update conn_state (fun _ => s) |>.

(** The part of [start_qp] that concerns the queue pair: whether it was set up,
    and its fields; those set before a failure stay. *)
Definition start_setup (al : start_allocs) (qp : usiw_qp) : outcome (bool * usiw_qp) :=
  let err := set_conn_state usiw_qp_error in
  if negb (al_readresp al) then Ok (false, err qp) else
  let qp1 := qp <| readresp_store := replicate (Z.to_nat (ird_max (shm_qp qp))) zero_readresp |> in
  let size := tx_desc_count (shm_qp qp) / 2 in
  let qp2 := qp1 <| remote_ep ::= fun ep => ep <| send_max_psn := size |>
                                               <| tx_pending_size := size |> |> in
  if negb (al_pending al) then Ok (false, err qp2) else
  let qp3 := qp2 <| remote_ep ::= fun ep => ep <| tx_pending := replicate (Z.to_nat size) Null |>
                                               <| tx_head := 0%nat |> |> in
  h ← binheap_new (Z.to_nat (ord_max (shm_qp qp))) (al_cells al);
  if negb (al_heap al) then Ok (false, err qp3) else
  let qp4 := qp3 <| remote_ep ::= fun ep => ep <| recv_rresp_last_psn := h |> |> in
  if negb (al_txq al) then Ok (false, err qp4) else
  let qp5 := qp4 <| qp_txq := [] |> in
  if negb (al_histo al) then Ok (false, err qp5) else
  let qp6 := qp5 <| qp_stats ::= update recv_count_histo
               (fun _ => replicate (S (Z.to_nat (rx_burst_size (shm_qp qp)))) 0) |> in
  Ok (true, if decide (conn_state (shm_qp qp) = usiw_qp_connected)
            then set_conn_state usiw_qp_running qp6 else qp6).

Definition start_qp (al : start_allocs) : M unit :=
  qp ← the_qp;
  '(ok, qp1) ← lift (start_setup al qp);
  upd_qp (fun _ => qp1);;
  if (ok : bool) then modify (fun w => w <| w_ctx ::= update qp_init_count (fun n => u32 (n - 1)) |>)
  else mret tt.

(** [usiw_do_destroy_qp]: references to the completion queues are dropped;
    the result tells which of the two are freed (receive, send). *)
Definition usiw_do_destroy_qp : M (bool * bool) :=
  qp ← the_qp;
  let drop_ref c :=
    cq ← get_cq c;
    put_cq c (cq <| cq_refcnt ::= fun r => r - 1 |>);;
    mret (cq_refcnt cq =? 1) in
  a ← drop_ref (qp_recv_cq qp);
  b ← (if (qp_send_cq qp =? qp_recv_cq qp)%nat then mret false else drop_ref (qp_send_cq qp));
  mret (a, b).

(** What the thread does with the queue pair after the switch. *)
Inductive kni_result := KniKeep | KniRemoved (destroyed : bool).

(** The queue pair leaves the list of its context and a reference is dropped. *)
Definition kni_release : M kni_result :=
  qp ← the_qp;
  modify (fun w => w <| w_ctx ::= update qp_active (filter (fun n => n <> qp_num qp)) |>);;
  upd_qp (fun qp => qp <| qp_refcnt ::= fun r => r - 1 |>);;
  if qp_refcnt qp =? 1 then usiw_do_destroy_qp;; mret (KniRemoved true)
  else mret (KniRemoved false).

(** The switch of [kni_loop] on the connection state of one queue pair. *)
Definition kni_qp_step (al : start_allocs) (rx : list rx_mbuf) : M kni_result :=
  qp ← the_qp;
  match conn_state (shm_qp qp) with
  | usiw_qp_connected =>
      start_qp al;;
      qp1 ← the_qp;
      if decide (conn_state (shm_qp qp1) = usiw_qp_error) then mret KniKeep
      else progress_qp rx;; mret KniKeep
  | usiw_qp_running => progress_qp rx;; mret KniKeep
  | usiw_qp_shutdown => qp_shutdown;; kni_release
  | usiw_qp_error => kni_release
  | usiw_qp_unbound => mret KniKeep
  end.
End Progress.
