(* ===== verification/Verbs.v ===== *)
(** * The verbs (src/liburdma/verbs.c)

    Posting of work requests through the verbs and through the accelerated
    interface, creation and destruction of queue pairs, and queries.  Work
    requests are lists: the [next] pointers of the C structures. *)
From S2P Require Import Prelude Serial Dpdk Binheap Proto Iov State Cq Mr Wqe Rdmap Progress.

Definition MAX_SEND_WR : Z := 1023.
Definition MAX_RECV_WR : Z := 1023.
Definition DPDK_VERBS_IOV_LEN_MAX : Z := 32.
Definition DPDK_VERBS_RDMA_READ_IOV_LEN_MAX : Z := 1.
Definition USIW_IRD_MAX : Z := 128.
Definition USIW_ORD_MAX : Z := 128.
Definition INT_MAX : Z := 2147483647.
Definition sizeof_iovec : Z := 16.
Definition URDMA_VENDOR_ID : Z := 0x626d74.
Definition URDMA_VENDOR_PART_ID : Z := 0x0816.

(** Constants of libibverbs. *)
Definition IBV_SEND_SIGNALED : Z := 2.
Definition IBV_SEND_INLINE : Z := 8.
Definition IBV_ACCESS_LOCAL_WRITE : Z := 1.
Definition IBV_ACCESS_REMOTE_WRITE : Z := 2.
Definition IBV_ACCESS_REMOTE_READ : Z := 4.
Definition IBV_MTU_1024 : Z := 3.
Definition IBV_QP_STATE : Z := 1.

Inductive ibv_wr_opcode := IBV_WR_SEND | IBV_WR_RDMA_WRITE | IBV_WR_RDMA_READ | IBV_WR_OTHER.
Inductive ibv_qp_type := IBV_QPT_RC | IBV_QPT_UC | IBV_QPT_UD.
Inductive ibv_qp_state := IBV_QPS_RESET | IBV_QPS_INIT | IBV_QPS_RTR | IBV_QPS_RTS | IBV_QPS_SQD
| IBV_QPS_SQE | IBV_QPS_ERR.

#[export] Instance wr_opcode_eq_dec : EqDecision ibv_wr_opcode.
Proof. solve_decision. Defined.
#[export] Instance qp_type_eq_dec : EqDecision ibv_qp_type.
Proof. solve_decision. Defined.

(** Scatter/gather elements and work requests; [num_sge] is the length of
    the list. *)
Record ibv_sge := Sge { sge_addr : Z; sge_length : Z; sge_lkey : Z }.
Record ibv_send_wr := SendWr {
  wr_id : Z; wr_sg_list : list ibv_sge; wr_opcode : ibv_wr_opcode; wr_send_flags : Z;
  wr_remote_addr : Z; wr_rkey : Z
}.
Record ibv_recv_wr := RecvWr { rwr_id : Z; rwr_sg_list : list ibv_sge }.

Definition sge_iov (s : ibv_sge) : iovec := Iovec (sge_addr s) (sge_length s).

(** [total_length += iov_len] over a list, in a [size_t]. *)
Fixpoint sum_len (acc : Z) (l : list iovec) : Z :=
  match l with [] => acc | v :: r => sum_len (u64 (acc + iov_len v)) r end.

Section Verbs.
Context {D : Dpdk}.

(** ** Posting *)

Definition qp_connected (qp : usiw_qp) : bool :=
  match conn_state (shm_qp qp) with usiw_qp_connected | usiw_qp_running => true | _ => false end.

(** The entry is queued; the ring has room for all entries. *)
Definition enqueue_send (i : nat) : M unit :=
  qp ← the_qp;
  let '(x, r) := rte_ring_enqueue (sq_ring (qp_sq qp)) i in
  upd_sq (fun q => q <| sq_ring := r |>);;
  lift (c_assert (x =? 0)).
Definition enqueue_recv (i : nat) : M unit :=
  qp ← the_qp;
  let '(x, r) := rte_ring_enqueue (rq_ring (qp_rq0 qp)) i in
  upd_rq (fun q => q <| rq_ring := r |>);;
  lift (c_assert (x =? 0)).

Definition take_send_wqe : M (Z * option nat) :=
  qp ← the_qp;
  let '(ret, wqe, q) := qp_get_next_send_wqe (qp_sq qp) in
  upd_qp (fun qp => qp <| qp_sq := q |>);; mret (ret, wqe).
Definition take_recv_wqe : M (Z * option nat) :=
  qp ← the_qp;
  let '(ret, wqe, q) := qp_get_next_recv_wqe (qp_rq0 qp) in
  upd_qp (fun qp => qp <| qp_rq0 := q |>);; mret (ret, wqe).

(** [memcpy] of the elements into an entry with room for [max_sge]. *)
Definition fits (n : nat) (max_sge : Z) : M unit :=
  if Z.of_nat n <=? max_sge then mret tt else fail OutOfBounds.

Definition urdma_accl_post_recvv (iov : list iovec) (context : Z) : M Z :=
  if len iov >? DPDK_VERBS_IOV_LEN_MAX then mret (-EINVAL) else
  '(x, wqe) ← take_recv_wqe;
  match wqe with
  | None => mret x
  | Some i =>
      qp ← the_qp;
      fits (length iov) (rq_max_sge (qp_rq0 qp));;
      upd_rwqe i (fun w => w <| r_wr_context := context |> <| r_iov := iov |>
                             <| r_total_request_size := sum_len 0 iov |> <| r_msn := 0 |>
                             <| r_recv_size := 0 |> <| r_input_size := 0 |> <| r_complete := false |>);;
      enqueue_recv i;; mret 0
  end.
Definition urdma_accl_post_recv (addr length_ context : Z) : M Z :=
  urdma_accl_post_recvv [Iovec addr length_] context.

(** The flags of the entry keep the value of its last use. *)
Definition urdma_accl_post_sendv (iov : list iovec) (ah : bool) (context : Z) : M Z :=
  qp ← the_qp;
  if negb ah && negb (qp_connected qp) then mret (-EINVAL) else
  if len iov >? DPDK_VERBS_IOV_LEN_MAX then mret (-EINVAL) else
  '(x, wqe) ← take_send_wqe;
  match wqe with
  | None => mret x
  | Some i =>
      fits (length iov) (sq_max_sge (qp_sq qp));;
      upd_swqe i (fun w => w <| s_opcode := usiw_wr_send |> <| s_wr_context := context |>
                             <| s_data := WIov iov |> <| s_state := SEND_WQE_INIT |> <| s_msn := 0 |>
                             <| s_total_length := sum_len 0 iov |> <| s_bytes_sent := 0 |>
                             <| s_bytes_acked := 0 |>);;
      enqueue_send i;; mret 0
  end.
Definition urdma_accl_post_send (addr length_ : Z) (ah : bool) (context : Z) : M Z :=
  urdma_accl_post_sendv [Iovec addr length_] ah context.

Definition urdma_accl_post_write (addr length_ : Z) (ah : bool) (remote_addr rkey context : Z) : M Z :=
  qp ← the_qp;
  if negb ah && negb (qp_connected qp) then mret (-EINVAL) else
  '(x, wqe) ← take_send_wqe;
  match wqe with
  | None => mret x
  | Some i =>
      upd_swqe i (fun w => w <| s_opcode := usiw_wr_write |> <| s_wr_context := context |>
                             <| s_data := WIov [Iovec addr length_] |>
                             <| s_remote_addr := remote_addr |> <| s_rkey := rkey |>
                             <| s_state := SEND_WQE_INIT |> <| s_msn := 0 |> <| s_bytes_sent := 0 |>
                             <| s_bytes_acked := 0 |> <| s_total_length := length_ |>);;
      enqueue_send i;; mret 0
  end.

Definition urdma_accl_post_read (addr length_ : Z) (ah : bool) (remote_addr rkey context : Z) : M Z :=
  qp ← the_qp;
  if negb ah && negb (qp_connected qp) then mret (-EINVAL) else
  '(x, wqe) ← take_send_wqe;
  match wqe with
  | None => mret x
  | Some i =>
      upd_swqe i (fun w => w <| s_opcode := usiw_wr_read |> <| s_wr_context := context |>
                             <| s_data := WIov [Iovec addr length_] |>
                             <| s_remote_addr := remote_addr |> <| s_rkey := rkey |>
                             <| s_state := SEND_WQE_INIT |> <| s_msn := 0 |> <| s_local_stag := 0 |>
                             <| s_total_length := length_ |> <| s_bytes_sent := 0 |>);;
      enqueue_send i;; mret 0
  end.

(** The loop of [do_inline]: [acc] is what was copied, [offset] bytes.  The
    bound is checked in 32 bits; a copy past the entry is a fault. *)
Fixpoint inline_loop (m : gmap Z Z) (max_inline room : Z) (sgl : list ibv_sge) (offset : Z)
    (acc : bytes) : outcome (Z * Z * bytes) :=
  match sgl with
  | [] => Ok (0, offset, acc)
  | sge :: r =>
      if u32 (offset + sge_length sge) >? max_inline then Ok (EINVAL, offset, acc) else
      if offset + sge_length sge >? room then Fault OutOfBounds else
      bs ← mem_load m (sge_addr sge) (sge_length sge);
      inline_loop m max_inline room r (u32 (offset + sge_length sge)) (acc ++ bs)
  end.

Definition do_inline (i : nat) (wr : ibv_send_wr) : M Z :=
  upd_swqe i (fun w => w <| s_flags ::= fun f => set_bits f usiw_send_inline |>);;
  qp ← the_qp; m ← gets w_mem;
  '(ret, offset, bs) ← lift (inline_loop m (sq_max_inline (qp_sq qp))
      (sq_max_sge (qp_sq qp) * sizeof_iovec) (wr_sg_list wr) 0 []);
  upd_swqe i (fun w => w <| s_data := WInline bs |>);;
  (if ret =? 0 then upd_swqe i (fun w => w <| s_total_length := offset |>) else mret tt);;
  mret ret.

(** How the [switch] over the opcode is left: to the rest of the loop body, to
    [errout] or to [free_wqe]. *)
Inductive post_exit := PostGo | PostErr (ret : Z) | PostFree (ret : Z).

Definition post_inline (i : nat) (wr : ibv_send_wr) : M post_exit :=
  if has (wr_send_flags wr) IBV_SEND_INLINE then
    ret ← do_inline i wr;
    mret (if ret =? 0 then PostGo else PostErr ret)
  else mret PostGo.

Definition post_switch (i : nat) (wr : ibv_send_wr) : M post_exit :=
  match wr_opcode wr with
  | IBV_WR_SEND =>
      upd_swqe i (fun w => w <| s_opcode := usiw_wr_send |>);; post_inline i wr
  | IBV_WR_RDMA_WRITE =>
      upd_swqe i (fun w => w <| s_opcode := usiw_wr_write |>
                             <| s_remote_addr := wr_remote_addr wr |> <| s_rkey := wr_rkey wr |>);;
      post_inline i wr
  | IBV_WR_RDMA_READ =>
      if has (wr_send_flags wr) IBV_SEND_INLINE then mret (PostErr EINVAL) else
      upd_swqe i (fun w => w <| s_opcode := usiw_wr_read |>
                             <| s_remote_addr := wr_remote_addr wr |> <| s_rkey := wr_rkey wr |>);;
      pd ← gets w_pd;
      match wr_sg_list wr with
      | [] => fail BadPointer
      | sge :: _ =>
          c ← lift (usiw_mr_lookup pd (sge_lkey sge));
          match c with
          | None => mret (PostFree EINVAL)
          | Some c =>
              mr ← lift (mr_deref pd c);
              if negb (has (mr_access mr) IBV_ACCESS_REMOTE_WRITE) then mret (PostFree EINVAL) else
              upd_swqe i (fun w => w <| s_local_stag := mr_rkey mr |>);; mret PostGo
          end
      end
  | IBV_WR_OTHER => mret (PostFree EOPNOTSUPP)
  end.

(** The rest of the body, for the entry [w]. *)
Definition fill_send (wr : ibv_send_wr) (w : usiw_send_wqe) : usiw_send_wqe :=
  let w1 := w <| s_wr_context := wr_id wr |> <| s_state := SEND_WQE_INIT |> <| s_msn := 0 |>
              <| s_bytes_sent := 0 |> <| s_bytes_acked := 0 |> in
  if has (s_flags w) usiw_send_inline then w1
  else w1 <| s_data := WIov (sge_iov <$> wr_sg_list wr) |>
          <| s_total_length := sum_len 0 (sge_iov <$> wr_sg_list wr) |>.

(** One work request of [usiw_post_send]. *)
Definition post_send_wr (wr : ibv_send_wr) : M Z :=
  qp ← the_qp;
  let sge_limit := if decide (wr_opcode wr = IBV_WR_RDMA_READ) then 1 else sq_max_sge (qp_sq qp) in
  if len (wr_sg_list wr) >? sge_limit then mret EINVAL else
  '(ret, wqe) ← take_send_wqe;
  match wqe with
  | None => mret ret
  | Some i =>
      upd_swqe i (fun w => w <| s_flags :=
        if has (wr_send_flags wr) IBV_SEND_SIGNALED || has (qp_flags qp) usiw_qp_sig_all
        then usiw_send_signaled else 0 |>);;
      e ← post_switch i wr;
      match e with
      | PostErr ret => mret ret
      | PostFree ret => qp_free_send_wqe i false;; mret ret
      | PostGo => upd_swqe i (fill_send wr);; enqueue_send i;; mret 0
      end
  end.

(** The result and [*bad_wr]. *)
Fixpoint post_send_loop (wrs : list ibv_send_wr) : M (Z * list ibv_send_wr) :=
  match wrs with
  | [] => mret (0, [])
  | wr :: next =>
      ret ← post_send_wr wr;
      if ret =? 0 then post_send_loop next else mret (ret, wrs)
  end.
Definition usiw_post_send (wrs : list ibv_send_wr) : M (Z * list ibv_send_wr) :=
  qp ← the_qp;
  match wrs, conn_state (shm_qp qp) with
  | [], _ => mret (EINVAL, [])
  | _, (usiw_qp_shutdown | usiw_qp_error) => mret (EINVAL, wrs)
  | _, _ => post_send_loop wrs
  end.

Definition fill_recv (wr : ibv_recv_wr) (w : usiw_recv_wqe) : usiw_recv_wqe :=
  w <| r_wr_context := rwr_id wr |> <| r_iov := sge_iov <$> rwr_sg_list wr |>
    <| r_total_request_size := sum_len 0 (sge_iov <$> rwr_sg_list wr) |> <| r_msn := 0 |>
    <| r_recv_size := 0 |> <| r_input_size := 0 |> <| r_complete := false |>.

Definition post_recv_wr (wr : ibv_recv_wr) : M Z :=
  qp ← the_qp;
  if len (rwr_sg_list wr) >? rq_max_sge (qp_rq0 qp) then mret EINVAL else
  '(ret, wqe) ← take_recv_wqe;
  match wqe with
  | None => mret (-ret)
  | Some i => upd_rwqe i (fill_recv wr);; enqueue_recv i;; mret 0
  end.
Fixpoint post_recv_loop (wrs : list ibv_recv_wr) : M (Z * list ibv_recv_wr) :=
  match wrs with
  | [] => mret (0, [])
  | wr :: next =>
      ret ← post_recv_wr wr;
      if ret =? 0 then post_recv_loop next else mret (ret, wrs)
  end.
Definition usiw_post_recv (wrs : list ibv_recv_wr) : M (Z * list ibv_recv_wr) :=
  qp ← the_qp;
  match conn_state (shm_qp qp) with
  | usiw_qp_error => mret (EINVAL, wrs)
  | _ => post_recv_loop wrs
  end.

(** ** Queue pairs *)

Record ibv_qp_cap := QpCap {
  max_send_wr : Z; max_recv_wr : Z; max_send_sge : Z; max_recv_sge : Z; max_inline_data : Z
}.
Record ibv_qp_init_attr := QpInitAttr {
  ia_send_cq : nat; ia_recv_cq : nat; ia_cap : ibv_qp_cap; ia_qp_type : ibv_qp_type;
  ia_sq_sig_all : bool
}.

(** The checks and adjustments at the start of [usiw_create_qp]: the caps that
    are written back, or EINVAL. *)
Definition create_qp_caps (qp_type : ibv_qp_type) (cap : ibv_qp_cap) : outcome (option ibv_qp_cap) :=
  if (negb (bool_decide (qp_type = IBV_QPT_UD)) && negb (bool_decide (qp_type = IBV_QPT_RC)))
     || (max_send_wr cap >? MAX_SEND_WR) || (max_recv_wr cap >? MAX_RECV_WR)
     || (max_send_sge cap >? DPDK_VERBS_IOV_LEN_MAX) || (max_recv_sge cap >? DPDK_VERBS_IOV_LEN_MAX)
     || (max_inline_data cap >? sizeof_iovec * DPDK_VERBS_IOV_LEN_MAX)
  then Ok None else
  s ← next_pow2 (max_send_wr cap + 1);
  r ← next_pow2 (max_recv_wr cap + 1);
  let send_sge := if max_send_sge cap =? 0 then 3 else max_send_sge cap in
  let recv_sge := if max_recv_sge cap =? 0 then 3 else max_recv_sge cap in
  let sz := send_sge * sizeof_iovec in
  let '(inline, send_sge) :=
    if max_inline_data cap <? sz then (sz, send_sge)
    else if max_inline_data cap >? sz
         then (max_inline_data cap, (max_inline_data cap - 1) / sizeof_iovec + 1)
         else (max_inline_data cap, send_sge) in
  Ok (Some {| max_send_wr := Z.max (s - 1) 63; max_recv_wr := Z.max (r - 1) 63;
              max_send_sge := send_sge; max_recv_sge := recv_sge; max_inline_data := inline |}).

(** The state of a queue pair from [calloc] on. *)
Definition new_ep : ee_state :=
  {| expected_read_msn := 1; next_send_msn := 1; next_read_msn := 1; send_last_acked_psn := 0;
     send_next_psn := 0; send_max_psn := 0; recv_ack_psn := 0;
     recv_rresp_last_psn := {| bh_size := 0; bh_capacity := 0; bh_arr := [] |};
     trp_flags := 0; recv_sack_psn := PsnRange 0 0; tx_pending := []; tx_head := 0;
     tx_pending_size := 0 |}.

(** A reference of a queue pair to completion queue [c]. *)
Definition ref_cq (c : nat) (cqs : list usiw_cq) : list usiw_cq :=
  alter (fun q => q <| cq_qp_count ::= fun n => n + 1 |> <| cq_refcnt ::= fun n => n + 1 |>) c cqs.

(** What the calls of [usiw_create_qp] return: [calloc], the daemon, the
    kernel (an error or the number), and the allocations of the queues. *)
Record qp_allocs := QpAllocs {
  al_qp : bool; al_shm : option urdmad_qp; al_kernel : Z + Z; al_sq : wq_allocs; al_rq : wq_allocs
}.

(** Result: [errno] if the function sets it, the queue pair, the completion
    queues and the context. *)
Definition usiw_create_qp (dev : usiw_device) (attr : ibv_qp_init_attr) (al : qp_allocs)
    (cqs : list usiw_cq) (ctx : usiw_context)
  : outcome (option Z * option usiw_qp * list usiw_cq * usiw_context) :=
  caps ← create_qp_caps (ia_qp_type attr) (ia_cap attr);
  match caps with
  | None => Ok (Some EINVAL, None, cqs, ctx)
  | Some cap =>
      if negb (al_qp al) then Ok (None, None, cqs, ctx) else
      match al_shm al with
      | None => Ok (None, None, cqs, ctx)
      | Some shm =>
          match al_kernel al with
          | inr err => Ok (Some err, None, cqs, ctx)
          | inl num =>
              let cqs1 := ref_cq (ia_send_cq attr) cqs in
              let cqs2 := if (ia_send_cq attr =? ia_recv_cq attr)%nat then cqs1
                          else ref_cq (ia_recv_cq attr) cqs1 in
              match usiw_send_wqe_queue_init (max_send_wr cap) (max_send_sge cap) (al_sq al) with
              | (ret, None) => Ok (Some (-ret), None, cqs2, ctx)
              | (_, Some sq) =>
                  match usiw_recv_wqe_queue_init (max_recv_wr cap) (max_recv_sge cap) (al_rq al) with
                  | (ret, None) => Ok (Some (-ret), None, cqs2, ctx)
                  | (_, Some rq) =>
                      let qp := {|
                        qp_refcnt := 2;
                        shm_qp := shm <| ird_max := USIW_IRD_MAX |> <| ord_max := USIW_ORD_MAX |>
                                      <| conn_state := usiw_qp_unbound |>;
                        qp_flags := if ia_sq_sig_all attr then usiw_qp_sig_all else 0;
                        qp_dev := dev; qp_send_cq := ia_send_cq attr; qp_recv_cq := ia_recv_cq attr;
                        qp_txq := []; qp_sq := sq <| sq_max_inline := max_inline_data cap |>;
                        qp_rq0 := rq; qp_stats := Stats [] 0 0 0; readresp_store := [];
                        readresp_head_msn := 1; ord_active := 0; remote_ep := new_ep; qp_num := num |} in
                      Ok (None, Some qp, cqs2,
                          {| qp_init_count := u32 (qp_init_count ctx + 1); ctx_qp := num :: ctx_qp ctx;
                             qp_active := qp_active ctx ++ [num] |})
                  end
              end
          end
      end
  end.

(** The attributes [usiw_query_qp] cannot report: CUR_STATE,
    EN_SQD_ASYNC_NOTIFY, PKEY_INDEX, QKEY, AV, RQ_PSN, ALT_PATH, SQ_PSN,
    PATH_MIG_STATE and DEST_QPN. *)
Definition query_unsupported : Z :=
  foldr Z.lor 0 ((fun b => Z.shiftl 1 b) <$> [1; 2; 4; 6; 7; 12; 14; 16; 18; 20]).

Definition qp_state_of (s : urdma_qp_state) : ibv_qp_state :=
  match s with
  | usiw_qp_unbound => IBV_QPS_INIT
  | usiw_qp_connected | usiw_qp_running => IBV_QPS_RTS
  | usiw_qp_shutdown => IBV_QPS_SQD
  | usiw_qp_error => IBV_QPS_ERR
  end.

(** What [usiw_query_qp] writes to [*attr]. *)
Record ibv_qp_attr := QpAttr {
  qa_qp_state : ibv_qp_state; qa_path_mtu : Z; qa_qp_access_flags : Z; qa_cap : ibv_qp_cap;
  qa_sq_draining : Z; qa_max_rd_atomic : Z; qa_max_dest_rd_atomic : Z; qa_rnr_retry : Z;
  qa_retry_cnt : Z; qa_timeout : Z
}.

(** The attributes and the [sq_sig_all] of [*init_attr]; the other fields of
    the latter are copied from libibverbs' own structure.  [attr] tells whether
    the pointer is not NULL. *)
Definition usiw_query_qp (qp : usiw_qp) (attr : bool) (attr_mask : Z)
  : Z * option (ibv_qp_attr * bool) :=
  if negb attr then (-EINVAL, None) else
  if has attr_mask query_unsupported then (-EOPNOTSUPP, None) else
  (0, Some (
    {| qa_qp_state := qp_state_of (conn_state (shm_qp qp)); qa_path_mtu := IBV_MTU_1024;
       qa_qp_access_flags := Z.lor (Z.lor IBV_ACCESS_LOCAL_WRITE IBV_ACCESS_REMOTE_WRITE)
                               IBV_ACCESS_REMOTE_READ;
       qa_cap := {| max_send_wr := sq_max_wr (qp_sq qp); max_recv_wr := rq_max_wr (qp_rq0 qp);
                    max_send_sge := sq_max_sge (qp_sq qp); max_recv_sge := rq_max_sge (qp_rq0 qp);
                    max_inline_data := sq_max_inline (qp_sq qp) |};
       qa_sq_draining := 0; qa_max_rd_atomic := 1; qa_max_dest_rd_atomic := 1; qa_rnr_retry := 0;
       qa_retry_cnt := 0; qa_timeout := 0 |},
    has (qp_flags qp) usiw_qp_sig_all)).

(** The state after the loop of [usiw_modify_qp], once the exchange succeeds. *)
Definition modify_next (cur : urdma_qp_state) : urdma_qp_state :=
  match cur with
  | usiw_qp_unbound | usiw_qp_connected => usiw_qp_error
  | usiw_qp_error => usiw_qp_error
  | usiw_qp_running | usiw_qp_shutdown => usiw_qp_shutdown
  end.

Definition usiw_modify_qp (qp_state : ibv_qp_state) (attr_mask kernel_ret : Z) : M Z :=
  if negb (kernel_ret =? 0) then mret kernel_ret else
  if negb (has attr_mask IBV_QP_STATE) then mret 0 else
  match qp_state with
  | IBV_QPS_SQD | IBV_QPS_ERR =>
      upd_qp (fun qp => qp <| shm_qp ::= update conn_state modify_next |>);; mret 0
  | _ => mret 0
  end.

(** A queue pair in the INIT state no longer counts as such. *)
Definition uncount_init (cur_state : urdma_qp_state) : M unit :=
  match cur_state with
  | usiw_qp_unbound =>
      ctx ← gets w_ctx;
      lift (c_assert (negb (qp_init_count ctx =? 0)));;
      modify (fun w => w <| w_ctx ::= update qp_init_count (fun n => u32 (n - 1)) |>)
  | _ => mret tt
  end.

(** [usiw_destroy_qp] with the result of [ibv_cmd_destroy_qp]: the result and
    whether the structure was freed. *)
Definition usiw_destroy_qp (kernel_ret : Z) : M (Z * bool) :=
  qp ← the_qp;
  let cur_state := conn_state (shm_qp qp) in
  uncount_init cur_state;;
  let unref c := modify (fun w => w <| w_cqs ::= alter (fun q => q <| cq_qp_count ::= fun n => n - 1 |>) c |>) in
  unref (qp_recv_cq qp);;
  (if (qp_send_cq qp =? qp_recv_cq qp)%nat then mret tt else unref (qp_send_cq qp));;
  (match cur_state with
   | usiw_qp_connected | usiw_qp_running =>
       upd_qp (fun qp => qp <| shm_qp ::= update conn_state (fun _ => usiw_qp_error) |>)
   | _ => mret tt
   end);;
  modify (fun w => w <| w_ctx ::= update ctx_qp (filter (fun n => n <> qp_num qp)) |>);;
  upd_qp (fun qp => qp <| qp_refcnt ::= fun n => n - 1 |>);;
  if qp_refcnt qp =? 1 then usiw_do_destroy_qp;; mret (kernel_ret, true)
  else mret (kernel_ret, false).

(** ** Device *)

(** The numbers that [usiw_query_device] sets to something else than 0. *)
Record device_attr := DeviceAttr {
  da_max_mr_size : Z; da_page_size_cap : Z; da_vendor_id : Z; da_vendor_part_id : Z; da_max_qp : Z; da_max_qp_wr : Z; da_max_sge : Z;
  da_max_sge_rd : Z; da_max_cq : Z; da_max_cqe : Z; da_max_mr : Z; da_max_pd : Z;
  da_max_qp_rd_atom : Z; da_max_ee_rd_atom : Z; da_max_res_rd_atom : Z; da_max_qp_init_rd_atom : Z;
  da_max_ee_init_rd_atom : Z; da_phys_port_cnt : Z
}.

Definition usiw_query_device (dev : usiw_device) (args : bool) (kernel_ret : Z)
  : Z * option device_attr :=
  if negb args then (-EINVAL, None) else
  if negb (kernel_ret =? 0) then (kernel_ret, None) else
  (0, Some {| da_max_mr_size := MAX_MR_SIZE; da_page_size_cap := 4096;
     da_vendor_id := URDMA_VENDOR_ID; da_vendor_part_id := URDMA_VENDOR_PART_ID;
     da_max_qp := dev_max_qp dev;
     da_max_qp_wr := Z.min MAX_SEND_WR MAX_RECV_WR; da_max_sge := DPDK_VERBS_IOV_LEN_MAX;
     da_max_sge_rd := DPDK_VERBS_RDMA_READ_IOV_LEN_MAX; da_max_cq := INT_MAX;
     da_max_cqe := Z.min INT_MAX SIZE_POW2_MAX; da_max_mr := INT_MAX; da_max_pd := INT_MAX;
     da_max_qp_rd_atom := USIW_ORD_MAX; da_max_ee_rd_atom := 1; da_max_res_rd_atom := USIW_ORD_MAX;
     da_max_qp_init_rd_atom := USIW_IRD_MAX; da_max_ee_init_rd_atom := USIW_IRD_MAX;
     da_phys_port_cnt := 1 |}).

(** The result and [max_msg_sz]. *)
Definition usiw_query_port (args : bool) (port_num : Z) : Z * option Z :=
  if negb args || negb (port_num =? 1) then (-EINVAL, None) else (0, Some UINT32_MAX).
End Verbs.
