(* ===== verification/Conserve.v ===== *)
(** * Conservation through the progress thread

    An invariant of the work queues and completion queues that every function
    of the progress thread preserves, whatever packets arrive: no work queue
    entry and no completion is lost, duplicated or used after it was given
    back.  The proofs compose [preserves] along the structure of the code. *)
From S2P Require Import Prelude Serial Dpdk Binheap Proto Iov State TrpRx Cq Mr Wqe Frame TrpTx Rdmap Progress.

Section Preserves.
Context {D : Dpdk}.

(** [m] keeps [I] whenever it returns. *)
Definition preserves (I : world -> Prop) {A} (m : M A) : Prop :=
  forall w a w', I w -> m w = Ok (a, w') -> I w'.

Context (I : world -> Prop).

Lemma pres_ret {A} (a : A) : preserves I (mret a).
Proof. by intros w b w' HI [= _ <-]. Qed.

Lemma pres_bind {A B} (m : M A) (f : A -> M B) :
  preserves I m -> (forall a, preserves I (f a)) -> preserves I (m ≫= f).
Proof.
  intros Hm Hf w b w' HI H. apply M_bind_ok in H as (a & w1 & H1 & H2).
  exact (Hf a w1 b w' (Hm w a w1 HI H1) H2).
Qed.

Lemma pres_gets {A} (f : world -> A) : preserves I (gets f).
Proof. by intros w b w' HI [= _ <-]. Qed.

Lemma pres_the_qp : preserves I the_qp.
Proof. apply pres_gets. Qed.

Lemma pres_the_ep : preserves I the_ep.
Proof. apply pres_gets. Qed.

Lemma pres_lift {A} (o : outcome A) : preserves I (lift o).
Proof. intros w b w' HI. unfold lift. destruct o; [|done]. by intros [= _ <-]. Qed.

Lemma pres_fail {A} f : preserves I (fail (A:=A) f).
Proof. by intros w b w' HI. Qed.

Lemma pres_get_swqe i : preserves I (get_swqe i).
Proof.
  intros w b w' HI. unfold get_swqe. destruct (_ !! i); simpl; [|done]. by intros [= _ <-].
Qed.

Lemma pres_get_rwqe i : preserves I (get_rwqe i).
Proof.
  intros w b w' HI. unfold get_rwqe. destruct (_ !! i); simpl; [|done]. by intros [= _ <-].
Qed.

Lemma pres_for_each {A} (l : list A) body : (forall i, preserves I (body i)) -> preserves I (for_each l body).
Proof.
  intros Hb. induction l as [|i l IH]; [apply pres_ret|]. apply pres_bind; [apply Hb|by intros []].
Qed.
End Preserves.

Create HintDb preserve.
#[export] Hint Resolve pres_ret pres_gets pres_the_qp pres_the_ep pres_lift pres_fail
  pres_get_swqe pres_get_rwqe : preserve.

(** [pres] walks over the code of a function, case by case. *)
Ltac pres_step :=
  match goal with
  | |- preserves _ (_ ≫= _) => apply pres_bind; [|intros ?]
  | |- preserves _ (if decide ?b then _ else _) => destruct (decide b)
  | |- preserves _ (if ?b then _ else _) => destruct b
  | |- preserves _ (let '(_, _) := ?x in _) => destruct x
  | |- preserves _ (match ?x with _ => _ end) => destruct x
  end.
Ltac pres := repeat (pres_step || (progress cbn beta iota)); auto with preserve.

(** ** Invariants that do not depend on the transport state *)

(** The parts of a queue pair that only few functions change. *)
Definition core {D : Dpdk} (qp : usiw_qp) := (qp_sq qp, qp_rq0 qp, shm_qp qp, ord_active qp).

(** What has to be checked of an invariant [I] of the work and completion
    queues, the connection state, the count of outstanding reads and the
    memory for it to hold through the progress thread. *)
Record stable {D : Dpdk} (I : world -> Prop) : Prop := {
  st_core w w' : I w -> core (w_qp w') = core (w_qp w) -> w_cqs w' = w_cqs w ->
    w_mem w' = w_mem w -> w_pd w' = w_pd w -> I w';
  st_swqe i f : preserves I (upd_swqe i f);
  st_rwqe i f : (forall x, r_iov (f x) = r_iov x) -> preserves I (upd_rwqe i f);
  st_store_iov w i x src n off m' : I w -> i ∈ rq_active (qp_rq0 (w_qp w)) ->
    rq_storage (qp_rq0 (w_qp w)) !! i = Some x ->
    memcpy_to_iov (w_mem w) (r_iov x) src n off = Ok m' -> I (w <| w_mem := m' |>);
  st_store_mr w c mr vaddr bs m' : I w -> mr_deref (w_pd w) c = Ok mr -> in_range 64 vaddr ->
    len bs < 2 ^ 32 -> outside_mr mr vaddr (len bs) = false ->
    mem_store (w_mem w) vaddr bs = Ok m' -> I (w <| w_mem := m' |>);
  st_dereg c : preserves I (modify (fun w => w <| w_pd ::= fun t => usiw_dereg_mr_real t c |>));
  st_error : preserves I (upd_qp (fun qp => qp <| shm_qp ::= update conn_state (fun _ => usiw_qp_error) |>));
  st_ord_inc w : I w -> ord_active (w_qp w) < ord_max (shm_qp (w_qp w)) ->
    I (w <| w_qp ::= fun qp => qp <| ord_active ::= fun n => u8 (n + 1) |> |>);
  st_ord_dec w : I w -> 0 < ord_active (w_qp w) ->
    I (w <| w_qp ::= fun qp => qp <| ord_active ::= fun n => n - 1 |> |>);
  st_free_send i : preserves I (qp_free_send_wqe i true);
  st_post_send i s : preserves I (post_send_cqe i s);
  st_post_recv i s : preserves I (post_recv_cqe i s);
  st_sq_flush : preserves I sq_flush;
  st_rq_flush : preserves I rq_flush;
  st_dequeue : preserves I dequeue_recv_wqes;
  st_start_next : (forall i, preserves I (progress_send_wqe i)) -> preserves I start_next_wqe;
  st_destroy : preserves I usiw_do_destroy_qp
}.

Section Stable.
Context {D : Dpdk} (I : world -> Prop) (HS : stable I).
Abbreviation pq := (preserves I).

Lemma pq_modify f :
  (forall w, core (w_qp (f w)) = core (w_qp w) /\ w_cqs (f w) = w_cqs w /\
     w_mem (f w) = w_mem w /\ w_pd (f w) = w_pd w) -> pq (modify f).
Proof using HS.
  intros Hf w [] w' HI [= <-]. destruct (Hf w) as (? & ? & ? & ?). by apply (st_core I HS w).
Qed.

Lemma pq_upd_qp f : (forall qp, core (f qp) = core qp) -> pq (upd_qp f).
Proof using HS. intros Hf. apply pq_modify. intros w. by rewrite <- (Hf (w_qp w)). Qed.

Lemma pq_upd_ep f : pq (upd_ep f).
Proof using HS. by apply pq_upd_qp. Qed.

Lemma pq_upd_swqe i f : pq (upd_swqe i f).
Proof using HS. apply (st_swqe I HS). Qed.
Lemma pq_upd_rwqe i f : (forall x, r_iov (f x) = r_iov x) -> pq (upd_rwqe i f).
Proof using HS. apply (st_rwqe I HS). Qed.
Lemma pq_dereg c : pq (modify (fun w => w <| w_pd ::= fun t => usiw_dereg_mr_real t c |>)).
Proof using HS. apply (st_dereg I HS). Qed.
Lemma pq_error :
  pq (upd_qp (fun qp => qp <| shm_qp ::= update conn_state (fun _ => usiw_qp_error) |>)).
Proof using HS. apply (st_error I HS). Qed.
Lemma pq_free_send i : pq (qp_free_send_wqe i true).
Proof using HS. apply (st_free_send I HS). Qed.
Lemma pq_post_send i s : pq (post_send_cqe i s).
Proof using HS. apply (st_post_send I HS). Qed.
Lemma pq_post_recv i s : pq (post_recv_cqe i s).
Proof using HS. apply (st_post_recv I HS). Qed.
Lemma pq_sq_flush : pq sq_flush.
Proof using HS. apply (st_sq_flush I HS). Qed.
Lemma pq_rq_flush : pq rq_flush.
Proof using HS. apply (st_rq_flush I HS). Qed.
Lemma pq_dequeue : pq dequeue_recv_wqes.
Proof using HS. apply (st_dequeue I HS). Qed.

Lemma pq_readresp i f : pq (upd_readresp i f).
Proof using HS. by apply pq_upd_qp. Qed.

Lemma pq_get_readresp i : pq (get_readresp i).
Proof. unfold get_readresp. pres. Qed.

Lemma pq_timer : pq get_timer.
Proof using HS.
  intros w a w' H. unfold get_timer. destruct (rte_get_timer_cycles _). intros [= _ <-].
  by apply (st_core I HS w).
Qed.

Lemma pq_alloc : pq alloc_mbuf.
Proof using HS.
  intros w a w' H. unfold alloc_mbuf.
  destruct (rte_pktmbuf_alloc _) as [[]|]; intros [= _ <-]; [|done]. by apply (st_core I HS w).
Qed.

#[local] Hint Resolve pq_upd_ep pq_upd_swqe pq_upd_rwqe pq_dereg pq_readresp pq_get_readresp
  pq_timer pq_alloc pq_error pq_free_send pq_post_send pq_post_recv pq_sq_flush pq_rq_flush
  pq_dequeue : preserve.
#[local] Hint Extern 1 (pq (upd_qp _)) => (apply pq_upd_qp; by intros []) : preserve.
#[local] Hint Extern 1 (pq (modify _)) => (apply pq_modify; by intros []) : preserve.

Lemma pq_alloc_unchecked : pq alloc_mbuf_unchecked.
Proof using HS. unfold alloc_mbuf_unchecked. pres. Qed.
Lemma pq_get_slot i : pq (get_slot i).
Proof using HS. unfold get_slot. pres. Qed.
Lemma pq_put_slot i s : pq (put_slot i s).
Proof using HS. unfold put_slot. pres. Qed.
Lemma pq_slot_mbuf s : pq (slot_mbuf s).
Proof using HS. unfold slot_mbuf. pres. Qed.
#[local] Hint Resolve pq_alloc_unchecked pq_get_slot pq_put_slot pq_slot_mbuf : preserve.

Lemma pq_tx_loop n : forall fs, pq (tx_loop n fs).
Proof using HS. induction n as [|n IH]; intros fs; simpl; pres. Qed.
#[local] Hint Resolve pq_tx_loop : preserve.

Lemma pq_flush : pq flush_tx_queue.
Proof using HS. unfold flush_tx_queue. pres. Qed.
#[local] Hint Resolve pq_flush : preserve.

Lemma pq_enqueue p ty d : pq (enqueue_ether_frame p ty d).
Proof using HS. unfold enqueue_ether_frame. pres. Qed.
#[local] Hint Resolve pq_enqueue : preserve.

Lemma pq_send_udp p c : pq (send_udp_dgram p c).
Proof using HS. unfold send_udp_dgram. pres. Qed.
#[local] Hint Resolve pq_send_udp : preserve.

Lemma pq_resend i : pq (resend_ddp_segment i).
Proof using HS. unfold resend_ddp_segment. pres. Qed.
#[local] Hint Resolve pq_resend : preserve.

Lemma pq_send_ddp m rr wqe n : pq (send_ddp_segment m rr wqe n).
Proof using HS. unfold send_ddp_segment. pres. Qed.
#[local] Hint Resolve pq_send_ddp : preserve.

Lemma pq_trp_only h : pq (send_trp_only h).
Proof using HS. unfold send_trp_only. pres. Qed.
#[local] Hint Resolve pq_trp_only : preserve.

Lemma pq_trp_sack : pq send_trp_sack.
Proof using HS. unfold send_trp_sack. pres. Qed.
Lemma pq_trp_fin : pq send_trp_fin.
Proof using HS. unfold send_trp_fin. pres. Qed.
Lemma pq_trp_ack : pq send_trp_ack.
Proof using HS. unfold send_trp_ack. pres. Qed.
#[local] Hint Resolve pq_trp_sack pq_trp_fin pq_trp_ack : preserve.

Lemma pq_shutdown : pq qp_shutdown.
Proof using HS. unfold qp_shutdown. pres. Qed.
#[local] Hint Resolve pq_shutdown : preserve.

(** ** Acknowledgements and retransmission *)

Lemma pq_ord_release : pq ord_release.
Proof using HS.
  intros w a w' HI H. unfold ord_release in H.
  apply M_bind_ok in H as (qp & w0 & [= <- <-] & H).
  apply M_bind_ok in H as (u & w1 & H1 & H). unfold lift in H1.
  destruct (c_assert _) eqn:E; [|done]. injection H1 as <- <-. apply c_assert_ok in E.
  injection H as <- <-. apply (st_ord_dec I HS); [done|lia].
Qed.
#[local] Hint Resolve pq_ord_release : preserve.

Lemma pq_try_complete i : pq (try_complete_wqe i).
Proof using HS. unfold try_complete_wqe. pres. Qed.
#[local] Hint Resolve pq_try_complete : preserve.

Lemma pq_process_ack i p : pq (do_process_ack i p).
Proof using HS. unfold do_process_ack. pres. Qed.
#[local] Hint Resolve pq_process_ack : preserve.

Lemma pq_sweep_acked n : pq (sweep_acked n).
Proof using HS. induction n as [|n IH]; simpl; pres. Qed.

Lemma pq_sweep_failed p m ret : pq (sweep_failed p m ret).
Proof using HS. unfold sweep_failed. pres. Qed.
#[local] Hint Resolve pq_sweep_acked pq_sweep_failed : preserve.

Lemma pq_sweep_due n : forall p now, pq (sweep_due n p now).
Proof using HS. induction n as [|n IH]; intros p now; simpl; pres. Qed.
#[local] Hint Resolve pq_sweep_due : preserve.

Lemma pq_sweep now : pq (sweep_unacked_packets now).
Proof using HS. unfold sweep_unacked_packets. pres. Qed.
#[local] Hint Resolve pq_sweep : preserve.

(** ** Messages *)

Lemma pq_payload wqe off n : pq (wqe_payload wqe off n).
Proof using HS. unfold wqe_payload. pres. Qed.
#[local] Hint Resolve pq_payload : preserve.

Lemma pq_segment i hdr wqe mtu : pq (send_segment i hdr wqe mtu).
Proof using HS. unfold send_segment. pres. Qed.
#[local] Hint Resolve pq_segment : preserve.

Lemma pq_segment_loop n : forall i hdr mtu, pq (segment_loop n i hdr mtu).
Proof using HS. induction n as [|n IH]; intros i hdr mtu; simpl; pres. Qed.
Lemma pq_set_wait i : pq (set_wait_if_sent i).
Proof using HS. unfold set_wait_if_sent. pres. Qed.
#[local] Hint Resolve pq_segment_loop pq_set_wait : preserve.

Lemma pq_rdmap_send i : pq (do_rdmap_send i).
Proof using HS. unfold do_rdmap_send. pres. Qed.
Lemma pq_rdmap_write i : pq (do_rdmap_write i).
Proof using HS. unfold do_rdmap_write. pres. Qed.
Lemma pq_read_request i : pq (do_rdmap_read_request i).
Proof using HS.
  intros w a w' HI H. unfold do_rdmap_read_request in H.
  apply M_bind_ok in H as (wqe & w0 & Hg & H).
  pose proof (pres_get_swqe I i _ _ _ HI Hg) as HI0.
  apply M_bind_ok in H as (qp & w1 & [= <- <-] & H).
  destruct (negb _); [by injection H as <- <-|].
  destruct (Z.geb_spec (ord_active (w_qp w0)) (ord_max (shm_qp (w_qp w0)))) as [|Hlt];
    [by injection H as <- <-|].
  destruct (_ || _); [by injection H as <- <-|].
  apply M_bind_ok in H as ([] & w2 & Hu & H).
  assert (I w2) as HI2 by (injection Hu as <-; by apply (st_ord_inc I HS)).
  match type of H with ?m w2 = _ => assert (pq m) as Hm by pres end. by eapply Hm.
Qed.
Lemma pq_terminate o e : pq (do_rdmap_terminate o e).
Proof using HS. unfold do_rdmap_terminate. pres. Qed.
#[local] Hint Resolve pq_rdmap_send pq_rdmap_write pq_read_request pq_terminate : preserve.

Lemma pq_complete_recv n : pq (complete_recv_loop n).
Proof using HS. induction n as [|n IH]; simpl; pres. Qed.
#[local] Hint Resolve pq_complete_recv : preserve.

Lemma place_data_stable i c r w a w' :
  I w -> i ∈ rq_active (qp_rq0 (w_qp w)) -> place_data i c r w = Ok (a, w') -> I w'.
Proof using HS.
  intros HI Hi H. unfold place_data in H.
  apply M_bind_ok in H as (x & w0 & Hg & H).
  unfold get_rwqe in Hg. destruct (_ !! i) as [x0|] eqn:Hx; [|done]. injection Hg as -> <-.
  destruct (_ >? _).
  { match type of H with ?m w = _ => assert (pq m) as Hm by pres end. by eapply Hm. }
  destruct (_ && _); [by injection H as <- <-|].
  apply M_bind_ok in H as ([] & w1 & Hin & H).
  assert (I w1 /\ i ∈ rq_active (qp_rq0 (w_qp w1)) /\
    exists x1, rq_storage (qp_rq0 (w_qp w1)) !! i = Some x1 /\ r_iov x1 = r_iov x)
    as (HI1 & Hi1 & x1 & Hx1 & Eiov).
  { destruct (negb _); [|injection Hin as <-; eauto]. split; [by eapply pq_upd_rwqe in Hin|].
    injection Hin as <-. split; [done|]. simpl. rewrite list_lookup_alter_eq, Hx. by eexists. }
  apply M_bind_ok in H as (m & w2 & [= <- <-] & H). rewrite <- Eiov in H.
  apply M_bind_ok in H as (m' & w3 & Hc & H). unfold lift in Hc.
  destruct (memcpy_to_iov _ _ _ _ _) as [m2|] eqn:Em; [|done]. injection Hc as -> <-.
  apply M_bind_ok in H as ([] & w4 & Hs & H).
  assert (I w4) as HI4 by (injection Hs as <-; by eapply (st_store_iov I HS)).
  match type of H with ?m w4 = _ => assert (pq m) as Hm by pres end. by eapply Hm.
Qed.

Lemma recv_lookup_active st l msn ret i : recv_lookup_loop st l msn = Ok (ret, Some i) -> i ∈ l.
Proof.
  induction l as [|j l IH]; simpl; [done|]. intros H. apply bind_ok in H as (x & _ & H).
  destruct (_ =? _); [injection H as <- <-; by left|]. right. by apply IH.
Qed.

Lemma pq_process_send c : pq (process_send c).
Proof using HS.
  intros w a w' HI H. unfold process_send in H.
  apply M_bind_ok in H as (t & w0 & Ht & H). apply (pres_lift I _ w) in Ht; [|done]. clear HI.
  apply M_bind_ok in H as (qp & w1 & [= <- <-] & H).
  apply M_bind_ok in H as ([] & w1 & Hd & H).
  assert (I w1) as HI1.
  { match type of Hd with ?m w0 = _ => assert (pq m) as Hm by pres end. by eapply Hm. }
  apply M_bind_ok in H as (qp & w2 & [= <- <-] & H).
  apply M_bind_ok in H as ([ret o] & w2 & Hl & H). unfold lift in Hl.
  destruct (usiw_recv_wqe_queue_lookup _ _) as [[ret1 o1]|] eqn:El; [|done]. injection Hl as -> -> <-.
  apply M_bind_ok in H as ([] & w2 & Ha & H).
  assert (w2 = w1) as -> by (unfold lift in Ha; destruct (c_assert _) as [[]|]; [by injection Ha as <-|done]).
  destruct o as [i|].
  - apply recv_lookup_active in El. unfold place_send in H.
    apply M_bind_ok in H as (go & w3 & Hp & H). apply place_data_stable in Hp; [|done..].
    match type of H with ?m w3 = _ => assert (pq m) as Hm by pres end. exact (Hm _ _ _ Hp H).
  - match type of H with ?m w1 = _ => assert (pq m) as Hm by pres end. by eapply Hm.
Qed.
Lemma pq_process_read_request c : pq (process_rdma_read_request c).
Proof using HS. unfold process_rdma_read_request. pres. Qed.

Lemma pq_respond_loop n : forall slot mtu count, pq (respond_loop n slot mtu count).
Proof using HS. induction n as [|n IH]; intros slot mtu count; simpl; pres. Qed.
#[local] Hint Resolve pq_respond_loop : preserve.

Lemma pq_respond_all n : forall msn count, pq (respond_all n msn count).
Proof using HS. induction n as [|n IH]; intros msn count; simpl; pres. Qed.
#[local] Hint Resolve pq_respond_all : preserve.

Lemma pq_respond : pq respond_rdma_read.
Proof using HS. unfold respond_rdma_read. pres. Qed.
Lemma pq_process_read_response c : pq (process_rdma_read_response c).
Proof using HS. unfold process_rdma_read_response. pres. Qed.
#[local] Hint Resolve pq_process_read_response : preserve.

Lemma pq_place_tagged c : pq (ddp_place_tagged_data c).
Proof using HS.
  intros w a w' HI H. unfold ddp_place_tagged_data in H.
  apply M_bind_ok in H as (t & w0 & Ht & H). unfold lift in Ht.
  destruct (get_tagged _) as [t0|] eqn:Et; [|done]. injection Ht as -> <-.
  apply M_bind_ok in H as (pd & w0 & [= <- <-] & H).
  apply M_bind_ok in H as ([c0|] & w0 & Hl & H); unfold lift in Hl;
    destruct (usiw_mr_lookup _ _) as [c1|] eqn:El; try done; injection Hl as -> <-.
  2: by eapply pq_terminate in H.
  apply M_bind_ok in H as (mr & w0 & Hm & H). unfold lift in Hm.
  destruct (mr_deref _ _) as [mr0|] eqn:Em; [|done]. injection Hm as -> <-.
  destruct (outside_mr _ _ _) eqn:Eo; [by eapply pq_terminate in H|].
  apply M_bind_ok in H as (bs & w0 & Hb & H). unfold lift in Hb.
  destruct (buf_load _ _ _) as [b0|] eqn:Eb; [|done]. injection Hb as -> <-.
  apply M_bind_ok in H as (m & w0 & [= <- <-] & H).
  apply M_bind_ok in H as (m' & w0 & Hs & H). unfold lift in Hs.
  destruct (mem_store _ _ _) as [m0|] eqn:Es; [|done]. injection Hs as -> <-.
  apply M_bind_ok in H as ([] & w1 & Hw & H).
  apply buf_load_ok in Eb as (_ & Hn0 & Hnl & ->).
  set (n := u32 _) in *. assert (len (sub (Z.to_nat 0) (Z.to_nat n) (drop sizeof_tagged (ctx_rdmap c))) = n)
    as Hlen. { rewrite sub_length; simpl; lia. }
  assert (I w1) as HI1.
  { injection Hw as <-. eapply (st_store_mr I HS); [done|exact Em| | |rewrite Hlen; exact Eo|exact Es].
    - by eapply get_tagged_range.
    - rewrite Hlen. by apply wrap_range. }
  match type of H with ?m w1 = _ => assert (pq m) as Hm by pres end. by eapply Hm.
Qed.

Lemma pq_terminate_target r b : pq (terminate_target r b).
Proof using HS. unfold terminate_target. pres. Qed.
#[local] Hint Resolve pq_terminate_target : preserve.

Lemma pq_process_terminate c : pq (process_terminate c).
Proof using HS. unfold process_terminate. pres. Qed.
#[local] Hint Resolve pq_process_send pq_process_read_request pq_place_tagged
  pq_process_terminate : preserve.

Lemma pq_dispatch c : pq (ddp_dispatch c).
Proof using HS. unfold ddp_dispatch. pres. Qed.
#[local] Hint Resolve pq_dispatch : preserve.

Lemma pq_trp_data t n b : pq (process_trp_data t n b).
Proof using HS. unfold process_trp_data. pres. Qed.
#[local] Hint Resolve pq_trp_data : preserve.

Lemma pq_data_packet p : pq (process_data_packet p).
Proof using HS. unfold process_data_packet. pres. Qed.
#[local] Hint Resolve pq_data_packet : preserve.

Lemma pq_packets rx : pq (process_packets rx).
Proof using HS. induction rx as [|p rx IH]; simpl; pres. Qed.
#[local] Hint Resolve pq_packets : preserve.

Lemma pq_receive rx : pq (process_receive_queue rx).
Proof using HS. unfold process_receive_queue. pres. Qed.

Lemma pq_complete_reads n : pq (complete_reads n).
Proof using HS. induction n as [|n IH]; simpl; pres. Qed.

Lemma pq_progress_wqe i : pq (progress_send_wqe i).
Proof using HS. unfold progress_send_wqe. pres. Qed.
#[local] Hint Resolve pq_progress_wqe : preserve.

Lemma pq_progress_active l : forall n, pq (progress_active l n).
Proof using HS. induction l as [|i l IH]; intros n; simpl; pres. Qed.


Lemma pq_start_next : pq start_next_wqe.
Proof using HS. apply (st_start_next I HS). intros i. auto with preserve. Qed.
#[local] Hint Resolve pq_start_next pq_progress_active pq_complete_reads pq_receive
  pq_respond : preserve.

Lemma pq_progress rx : pq (progress_qp rx).
Proof using HS. unfold progress_qp. pres. Qed.
#[local] Hint Resolve pq_progress : preserve.

Lemma pq_destroy : pq usiw_do_destroy_qp.
Proof using HS. apply (st_destroy I HS). Qed.
#[local] Hint Resolve pq_destroy : preserve.

Lemma pq_release : pq kni_release.
Proof using HS. unfold kni_release. pres. Qed.
#[local] Hint Resolve pq_release : preserve.

Lemma pq_start al :
  (forall w ok qp', I w -> start_setup al (w_qp w) = Ok (ok, qp') -> I (w <| w_qp := qp' |>)) ->
  pq (start_qp al).
Proof using HS.
  intros Hstart w r w' HI H. unfold start_qp in H.
  apply M_bind_ok in H as (qp & w0 & [= <- <-] & H).
  apply M_bind_ok in H as ([ok qp1] & w1 & H1 & H). unfold lift in H1.
  destruct (start_setup al (w_qp w)) as [[ok2 qp2]|] eqn:Es; [|done]. injection H1 as <- <- <-.
  apply M_bind_ok in H as ([] & w2 & Hu & H).
  assert (I w2) as HI2 by (injection Hu as <-; by eapply Hstart).
  match type of H with ?m w2 = _ => assert (pq m) as Hm by pres end. exact (Hm _ _ _ HI2 H).
Qed.

Lemma pq_kni_step al rx :
  (forall w ok qp', I w -> start_setup al (w_qp w) = Ok (ok, qp') -> I (w <| w_qp := qp' |>)) ->
  pq (kni_qp_step al rx).
Proof using HS. intros Hstart%pq_start. unfold kni_qp_step. pres. Qed.
End Stable.

(** ** The queues *)

Section Conserve.
Context {D : Dpdk} {L : DpdkLaws D}.
Context (hs hr : list nat).

(** The work queues hold every entry exactly once, [hs] and [hr] being the
    entries that the application has acquired and not posted yet, and the
    completion queues hold every completion exactly once. *)
Definition queues_ok (w : world) : Prop :=
  sq_wf hs (qp_sq (w_qp w)) /\ rq_wf hr (qp_rq0 (w_qp w)) /\ Forall cq_wf (w_cqs w).

Lemma list_del_ok i l l' : list_del i l = Ok l' -> i ∈ l /\ l' = filter (fun j => j <> i) l.
Proof. unfold list_del. case_decide; [|done]. by intros [= <-]. Qed.

(** Freeing an entry changes the queue pair only. *)
Definition frees (m : M unit) : Prop :=
  forall w w', sq_wf hs (qp_sq (w_qp w)) -> rq_wf hr (qp_rq0 (w_qp w)) -> m w = Ok (tt, w') ->
    sq_wf hs (qp_sq (w_qp w')) /\ rq_wf hr (qp_rq0 (w_qp w')) /\ w_cqs w' = w_cqs w.

Lemma frees_send i : frees (qp_free_send_wqe i true).
Proof.
  intros w w' H1 H2 H. unfold qp_free_send_wqe in H. cbv [mbind M_bind the_qp gets] in H.
  destruct (sq_free (qp_sq (w_qp w)) i true) as [q|] eqn:E; [|done].
  simpl in H. injection H as <-. split_and!; [|done..]. simpl.
  unfold sq_free, usiw_send_wqe_queue_del_active in E. inv_ok.
  match goal with H : list_del _ _ = _ |- _ => apply list_del_ok in H as [Hi ->] end.
  destruct (sq_free_active hs _ i H1 Hi) as (f' & E' & _ & Hwf).
  destruct H1 as [Hinv Hst]. destruct (wq_free _ _ _ _ _ _ Hinv Hi) as (f2 & Ef & _ & _ & Hinv2).
  split; [|done]. simpl. by rewrite Ef.
Qed.

Lemma frees_recv i : frees (qp_free_recv_wqe i).
Proof.
  intros w w' H1 H2 H. unfold qp_free_recv_wqe in H. cbv [mbind M_bind the_qp gets] in H.
  destruct (rq_free (qp_rq0 (w_qp w)) i) as [q|] eqn:E; [|done].
  simpl in H. injection H as <-. split_and!; [done| |done]. simpl.
  unfold rq_free, usiw_recv_wqe_queue_del_active in E. inv_ok.
  match goal with H : list_del _ _ = _ |- _ => apply list_del_ok in H as [Hi ->] end.
  destruct H2 as [Hinv Hst]. destruct (wq_free _ _ _ _ _ _ Hinv Hi) as (f2 & Ef & _ & _ & Hinv2).
  split; [|done]. simpl. by rewrite Ef.
Qed.

Lemma qk_free_send i : preserves queues_ok (qp_free_send_wqe i true).
Proof.
  intros w [] w' (H1 & H2 & H3) H. destruct (frees_send i w w' H1 H2 H) as (? & ? & E).
  split_and!; [done..|]. by rewrite E.
Qed.

Lemma qk_post_cqe c fill m : frees m -> preserves queues_ok (post_cqe c fill m).
Proof.
  intros Hm w ret w' (H1 & H2 & H3) H. unfold post_cqe, get_cq in H.
  apply M_bind_ok in H as (cq & w0 & Hg & H).
  destruct (w_cqs w !! c) as [cq0|] eqn:Hc; [|done]. simpl in Hg. injection Hg as -> <-.
  pose proof (proj1 (Forall_lookup _ _) H3 c cq Hc) as Hwf.
  pose proof (lookup_lt_Some _ _ _ Hc) as Hlt.
  assert (length (cq_queue cq) <= cq_cap cq)%nat as Hle.
  { rewrite cq_queue_length by done. pose proof (cq_wf_bound cq Hwf). lia. }
  unfold get_next_cqe in H. destruct (rte_ring_dequeue (cq_free_ring cq)) as [[p r1]|] eqn:Ed.
  2: { cbv [mbind M_bind put_cq modify mret M_ret] in H. injection H as <- <-.
       split_and!; [done..|]. simpl. by rewrite list_insert_id. }
  destruct (decide (length (cq_queue cq) = cq_cap cq)) as [Hf|Hf].
  { pose proof (cq_post_full cq fill Hwf Hf) as Hp. unfold cq_post, get_next_cqe in Hp.
    rewrite Ed in Hp. apply bind_ok in Hp as ([] & _ & Hp). done. }
  destruct (cq_post_room cq fill Hwf ltac:(lia)) as (cq' & old & Hp & Hwf' & _).
  unfold cq_post, get_next_cqe in Hp. rewrite Ed in Hp.
  apply bind_ok in Hp as ([ev cqx] & Hfin & Hp). injection Hp as -> <-.
  apply M_bind_ok in H as ([] & w1 & Hp1 & H). injection Hp1 as <-.
  apply M_bind_ok in H as ([] & w2 & Hp2 & H).
  edestruct Hm as (H1' & H2' & E2); [| |exact Hp2|]; [exact H1|exact H2|].
  apply M_bind_ok in H as (cq2 & w3 & Hg2 & H). simpl in E2. rewrite E2 in Hg2.
  rewrite list_lookup_insert_eq in Hg2 by done. simpl in Hg2. injection Hg2 as <- <-.
  cbv [mbind M_bind lift] in H. simpl in Hfin. rewrite Hfin in H.
  cbv [put_cq modify write_event mret M_ret] in H.
  destruct (cq_notify_flag cq); injection H as <- <-; split_and!; try done; simpl;
    rewrite E2, list_insert_insert_eq; by apply Forall_insert.
Qed.

Lemma qk_post_send i s : preserves queues_ok (post_send_cqe i s).
Proof. unfold post_send_cqe. pres. apply qk_post_cqe, frees_send. Qed.
Lemma qk_post_recv i s : preserves queues_ok (post_recv_cqe i s).
Proof. unfold post_recv_cqe. pres. apply qk_post_cqe, frees_recv. Qed.
#[local] Hint Resolve qk_free_send qk_post_send qk_post_recv : preserve.

Lemma qk_sq_flush : preserves queues_ok sq_flush.
Proof.
  intros w a w' (H1 & H2 & H3) H. unfold sq_flush in H.
  apply M_bind_ok in H as (qp & w0 & [= <- <-] & H).
  destruct (sq_drain_ok (Z.to_nat (sq_max_wr (qp_sq (w_qp w)))) hs _ H1) as (r' & E & _ & Hwf).
  { destruct H1 as [[_ Hr _] _]. rewrite <- Hr. apply ring_bound. }
  rewrite E in H. apply M_bind_ok in H as (q1 & w1 & [= <- <-] & H).
  apply M_bind_ok in H as ([] & w2 & [= <-] & H).
  eapply (pres_for_each queues_ok); [| |exact H]; [intros; pres|done].
Qed.

Lemma qk_rq_flush : preserves queues_ok rq_flush.
Proof.
  intros w a w' (H1 & H2 & H3) H. unfold rq_flush in H.
  apply M_bind_ok in H as (qp & w0 & [= <- <-] & H).
  destruct (rq_drain_ok (Z.to_nat (rq_max_wr (qp_rq0 (w_qp w)))) hr _ H2) as (q' & E & _ & Hwf & _).
  { destruct H2 as [[_ Hr _] _]. rewrite <- Hr. apply ring_bound. }
  rewrite E in H. apply M_bind_ok in H as (q1 & w1 & [= <- <-] & H).
  apply M_bind_ok in H as ([] & w2 & [= <-] & H).
  eapply (pres_for_each queues_ok); [| |exact H]; [intros; pres|done].
Qed.
#[local] Hint Resolve qk_sq_flush qk_rq_flush : preserve.


Lemma activate_wf l : forall q,
  wq_inv (rq_ring q) (rq_free_ring q) (rq_active q) (l ++ hr) (Z.to_nat (rq_max_wr q)) ->
  length (rq_storage q) = S (Z.to_nat (rq_max_wr q)) ->
  let q' := activate_recv_wqes l q in
  rq_wf hr q' /\ rq_ring q' = rq_ring q /\ rq_max_wr q' = rq_max_wr q /\
  rq_active q' = rq_active q ++ l.
Proof.
  induction l as [|i l IH]; intros q Hinv Hst; simpl.
  { rewrite app_nil_r. done. }
  destruct (IH (usiw_recv_wqe_queue_add_active
    (q <| rq_storage ::= alter (fun w => w <| r_msn := rq_next_msn q |>) i |>
       <| rq_next_msn ::= fun m => u32 (m + 1) |>) i)) as (Hwf & Hr & Hm & Ha).
  - simpl. destruct Hinv as [Hp Hcr Hcf]. split; [|done..]. rewrite <- Hp. solve_Permutation.
  - simpl. by rewrite length_alter.
  - simpl in *. split_and!; [done..|]. rewrite Ha. by rewrite <- app_assoc.
Qed.

(** Two rounds of the loop of [dequeue_recv_wqes] are enough. *)
Lemma dequeue_loop_ok q :
  rq_wf hr q ->
  exists q', dequeue_loop 2 q = Ok q' /\ rq_wf hr q' /\ ring_elems (rq_ring q') = [] /\
    rq_active q' = rq_active q ++ ring_elems (rq_ring q).
Proof.
  intros [Hinv Hst]. set (n := S (Z.to_nat (rq_max_wr q))).
  assert (length (ring_elems (rq_ring q)) < n)%nat as Hlt.
  { pose proof (ring_bound (rq_ring q)). destruct Hinv as [_ Hr _]. unfold n. lia. }
  destruct (ring_dequeue_burst_law (rq_ring q) n) as (r' & E & El & Hc).
  rewrite take_ge in E by lia. rewrite drop_ge in El by lia.
  cbn [dequeue_loop]. fold n. rewrite E.
  assert (wq_inv r' (rq_free_ring q) (rq_active q) (ring_elems (rq_ring q) ++ hr)
            (Z.to_nat (rq_max_wr q))) as Hinv'.
  { destruct Hinv as [Hp Hcr Hcf]. split; [|congruence|done]. rewrite El, <- Hp. solve_Permutation. }
  set (q0 := q <| rq_ring := r' |>).
  destruct (activate_wf (ring_elems (rq_ring q)) q0 Hinv' Hst)
    as (Hwf & Hr & Hm & Ha). simpl in Hr, Hm, Ha.
  destruct (ring_elems (rq_ring q)) as [|i l] eqn:Er.
  - eexists. split; [done|]. split_and!; [done..|]. simpl. by rewrite app_nil_r.
  - set (q1 := activate_recv_wqes (i :: l) q0) in *.
    destruct (ring_dequeue_burst_law (rq_ring q1) (S (Z.to_nat (rq_max_wr q1)))) as (r2 & E2 & El2 & Hc2).
    rewrite E2, Hr, El. cbn [take].
    eexists. split; [done|]. rewrite Hr, El, drop_nil in El2. split_and!; try done.
    destruct Hwf as [[Hp Hcr Hcf] Hs]. split; [|done]. simpl.
    split; simpl; [|congruence|done]. by rewrite El2, <- Hp, Hr, El.
Qed.

Lemma qk_dequeue : preserves queues_ok dequeue_recv_wqes.
Proof.
  intros w a w' (H1 & H2 & H3) H. unfold dequeue_recv_wqes in H.
  cbv [mbind M_bind the_qp gets] in H.
  destruct (dequeue_loop_ok _ H2) as (q' & E & Hwf & _). rewrite E in H. simpl in H.
  injection H as <- <-. done.
Qed.
#[local] Hint Resolve qk_dequeue : preserve.



Lemma activate_queues i w w' :
  sq_wf (i :: hs) (qp_sq (w_qp w)) -> activate_send_wqe i w = Ok (tt, w') ->
  sq_wf (i :: hs) (qp_sq (w_qp w')) /\ qp_rq0 (w_qp w') = qp_rq0 (w_qp w) /\ w_cqs w' = w_cqs w.
Proof.
  set (J := fun v => sq_wf (i :: hs) (qp_sq (w_qp v)) /\ qp_rq0 (w_qp v) = qp_rq0 (w_qp w) /\
                     w_cqs v = w_cqs w).
  assert (forall f, preserves J (upd_swqe i f)) as Hs.
  { intros f v [] v' ((Hi & Hst) & ? & ?) [= <-]. split_and!; [|done..]. split; [done|].
    simpl. by rewrite length_alter. }
  assert (forall f, preserves J (upd_ep f)) as He.
  { by intros f v [] v' HJ [= <-]. }
  intros Hwf H. assert (preserves J (activate_send_wqe i)) as Hp.
  { unfold activate_send_wqe. pres. }
  by apply (Hp w tt w').
Qed.

Lemma qk_start_next :
  (forall i, preserves queues_ok (progress_send_wqe i)) -> preserves queues_ok start_next_wqe.
Proof.
  intros Hprog w a w' (H1 & H2 & H3) H. unfold start_next_wqe in H.
  apply M_bind_ok in H as (qp & w0 & [= <- <-] & H).
  destruct (ring_elems (sq_ring (qp_sq (w_qp w)))) as [|i l] eqn:E.
  { rewrite (ring_dequeue_nil _ E) in H. by injection H as <- <-. }
  destruct (ring_dequeue_law _ _ _ E) as (r & Er & El & Hc). rewrite Er in H.
  apply M_bind_ok in H as ([] & w1 & Hu & H).
  apply M_bind_ok in H as ([] & w2 & Ha & H).
  apply activate_queues in Ha as (H1' & E2 & E3).
  2: { injection Hu as <-. destruct H1 as [[Hp Hcr Hcf] Hst].
       split; [|done]. simpl. split; [|congruence|done]. rewrite <- Hp, E, El. solve_Permutation. }
  apply M_bind_ok in H as ([] & w3 & Hu3 & H).
  assert (queues_ok w3) as HI3.
  { injection Hu as <-. injection Hu3 as <-. destruct H1' as [[Hp Hcr Hcf] Hst].
    split_and!; simpl; [|by rewrite E2|by rewrite E3].
    split; [|done]. simpl. split; [|done..]. rewrite <- Hp. solve_Permutation. }
  apply M_bind_ok in H as (u & w4 & Hp & H).
  pose proof (Hprog i _ _ _ HI3 Hp). by injection H as <- <-.
Qed.

Lemma qk_destroy : preserves queues_ok usiw_do_destroy_qp.
Proof.
  assert (forall c, preserves queues_ok (cq ← get_cq c;
    put_cq c (cq <| cq_refcnt ::= fun r => r - 1 |>);; mret (cq_refcnt cq =? 1))) as Hd.
  { intros c w a w' (H1 & H2 & H3) H. unfold get_cq in H. apply M_bind_ok in H as (cq & w0 & Hg & H).
    destruct (w_cqs w !! c) as [cq0|] eqn:Hc; [|done]. simpl in Hg. injection Hg as -> <-.
    injection H as <- <-. split_and!; [done..|]. simpl. apply Forall_insert; [done|].
    exact (proj1 (Forall_lookup _ _) H3 c cq Hc). }
  unfold usiw_do_destroy_qp. apply pres_bind; [pres|intros qp]. apply pres_bind; [apply Hd|intros a].
  apply pres_bind; [|intros b; pres]. destruct (_ =? _)%nat; [pres|apply Hd].
Qed.

Lemma queues_stable : stable queues_ok.
Proof.
  split.
  - intros w w' (H1 & H2 & H3) [= E1 E2 _ _] E3 _ _. unfold queues_ok. by rewrite E1, E2, E3.
  - intros i f w [] w' (H1 & H2 & H3) [= <-]. split_and!; [|done..]. destruct H1 as [Hi Hs].
    split; [done|]. simpl. by rewrite length_alter.
  - intros i f _ w [] w' (H1 & H2 & H3) [= <-]. split_and!; [done| |done]. destruct H2 as [Hi Hs].
    split; [done|]. simpl. by rewrite length_alter.
  - done.
  - done.
  - by intros c w [] w' HI [= <-].
  - by intros w [] w' HI [= <-].
  - done.
  - done.
  - apply qk_free_send.
  - apply qk_post_send.
  - apply qk_post_recv.
  - apply qk_sq_flush.
  - apply qk_rq_flush.
  - apply qk_dequeue.
  - apply qk_start_next.
  - apply qk_destroy.
Qed.

Lemma start_setup_queues al qp ok qp' :
  start_setup al qp = Ok (ok, qp') -> qp_sq qp' = qp_sq qp /\ qp_rq0 qp' = qp_rq0 qp.
Proof. unfold start_setup. intros H. repeat (case_match; inv_ok; try done). Qed.

Lemma kni_step_queues (w w' : world) (al : start_allocs) (rx : list rx_mbuf) (r : kni_result) :
  queues_ok w -> kni_qp_step al rx w = Ok (r, w') -> queues_ok w'.
Proof.
  apply (pq_kni_step _ queues_stable). intros w0 ok qp' (H1 & H2 & H3) Hs.
  apply start_setup_queues in Hs as [E1 E2]. unfold queues_ok. simpl. by rewrite E1, E2.
Qed.

(** An iteration of the progress thread neither loses nor duplicates a
    send or receive work queue entry nor a completion queue entry: each of
    them is in exactly one place afterwards if it was before, whatever packets
    arrive. *)
Theorem kni_step_conserves (w w' : world) (al : start_allocs) (rx : list rx_mbuf) (r : kni_result) :
  queues_ok w -> kni_qp_step al rx w = Ok (r, w') -> queues_ok w'.
Proof. apply kni_step_queues. Qed.
End Conserve.

(** ** Connection state and outstanding reads *)

Section Machine.
Context {D : Dpdk}.

Section Shm.
Context (P : urdmad_qp -> Z -> Prop).
Hypothesis P_error : forall s n, P s n -> P (s <| conn_state := usiw_qp_error |>) n.
Hypothesis P_inc : forall s n, P s n -> n < ord_max s -> P s (u8 (n + 1)).
Hypothesis P_dec : forall s n, P s n -> 0 < n -> P s (n - 1).

Definition shm_inv (w : world) : Prop := P (shm_qp (w_qp w)) (ord_active (w_qp w)).

Lemma shm_modify f :
  (forall w, shm_qp (w_qp (f w)) = shm_qp (w_qp w) /\ ord_active (w_qp (f w)) = ord_active (w_qp w)) ->
  preserves shm_inv (modify f).
Proof.
  intros Hf w [] w' HI [= <-]. destruct (Hf w) as [E1 E2]. unfold shm_inv. by rewrite E1, E2.
Qed.

#[local] Hint Extern 1 (preserves shm_inv (modify _)) => (apply shm_modify; done) : preserve.
#[local] Hint Extern 1 (preserves shm_inv (upd_qp _)) => (apply shm_modify; done) : preserve.
#[local] Hint Extern 1 (preserves shm_inv (upd_sq _)) => (apply shm_modify; done) : preserve.
#[local] Hint Extern 1 (preserves shm_inv (upd_ep _)) => (apply shm_modify; done) : preserve.
#[local] Hint Extern 1 (preserves shm_inv (upd_swqe _ _)) => (apply shm_modify; done) : preserve.
#[local] Hint Extern 1 (preserves shm_inv (put_cq _ _)) => (apply shm_modify; done) : preserve.

Lemma shm_get_cq c : preserves shm_inv (get_cq c).
Proof.
  intros w a w' HI. unfold get_cq. destruct (_ !! c); simpl; [|done]. by intros [= _ <-].
Qed.
Lemma shm_write_event ev cq : preserves shm_inv (write_event ev cq).
Proof. apply shm_modify. intros w. by destruct ev. Qed.
#[local] Hint Resolve shm_get_cq shm_write_event : preserve.

Lemma shm_free_send i : preserves shm_inv (qp_free_send_wqe i true).
Proof. unfold qp_free_send_wqe. pres. Qed.
Lemma shm_free_recv i : preserves shm_inv (qp_free_recv_wqe i).
Proof. unfold qp_free_recv_wqe. pres. Qed.
#[local] Hint Resolve shm_free_send shm_free_recv : preserve.

Lemma shm_post_cqe c f m : preserves shm_inv m -> preserves shm_inv (post_cqe c f m).
Proof. intros Hm. unfold post_cqe. pres. Qed.
Lemma shm_post_send i s : preserves shm_inv (post_send_cqe i s).
Proof. unfold post_send_cqe. pres. apply shm_post_cqe. pres. Qed.
Lemma shm_post_recv i s : preserves shm_inv (post_recv_cqe i s).
Proof. unfold post_recv_cqe. pres. apply shm_post_cqe. pres. Qed.
#[local] Hint Resolve shm_post_send shm_post_recv pres_for_each : preserve.

Lemma shm_stable : stable shm_inv.
Proof using P_error P_inc P_dec.
  split.
  - intros w w' HI [= _ _ E1 E2] _ _ _. unfold shm_inv. by rewrite E1, E2.
  - intros. by apply shm_modify.
  - intros. by apply shm_modify.
  - done.
  - done.
  - intros. by apply shm_modify.
  - intros w [] w' HI [= <-]. by apply P_error.
  - intros w HI Hlt. by apply P_inc.
  - intros w HI Hlt. by apply P_dec.
  - apply shm_free_send.
  - apply shm_post_send.
  - apply shm_post_recv.
  - unfold sq_flush. pres. apply pres_for_each. intros i. pres.
  - unfold rq_flush. pres. apply pres_for_each. intros i. pres.
  - unfold dequeue_recv_wqes. pres.
  - intros Hp. unfold start_next_wqe. pres. unfold activate_send_wqe. pres.
  - unfold usiw_do_destroy_qp. pres.
Qed.
End Shm.

(** The transitions of the connection state that the progress thread makes in
    one iteration, with the fate of the queue pair. *)
Inductive kni_transition : urdma_qp_state -> kni_result -> urdma_qp_state -> Prop :=
| kt_unbound : kni_transition usiw_qp_unbound KniKeep usiw_qp_unbound
| kt_connected s : s = usiw_qp_running \/ s = usiw_qp_error ->
    kni_transition usiw_qp_connected KniKeep s
| kt_running s : s = usiw_qp_running \/ s = usiw_qp_error ->
    kni_transition usiw_qp_running KniKeep s
| kt_shutdown b : kni_transition usiw_qp_shutdown (KniRemoved b) usiw_qp_error
| kt_error b : kni_transition usiw_qp_error (KniRemoved b) usiw_qp_error.

Abbreviation conn w := (conn_state (shm_qp (w_qp w))).

Lemma conn_stable s : stable (fun w => conn w = s \/ conn w = usiw_qp_error).
Proof. apply (shm_stable (fun q _ => conn_state q = s \/ conn_state q = usiw_qp_error)); auto. Qed.

Lemma start_setup_conn al qp ok qp' :
  start_setup al qp = Ok (ok, qp') -> conn_state (shm_qp qp) = usiw_qp_connected ->
  conn_state (shm_qp qp') = if ok then usiw_qp_running else usiw_qp_error.
Proof. unfold start_setup. intros H Hc. repeat (case_match; inv_ok; try done). Qed.

Lemma start_qp_conn al w r w' :
  start_qp al w = Ok (r, w') -> conn w = usiw_qp_connected ->
  conn w' = usiw_qp_running \/ conn w' = usiw_qp_error.
Proof.
  unfold start_qp. intros H Hc. apply M_bind_ok in H as (qp & w0 & [= <- <-] & H).
  apply M_bind_ok in H as ([ok qp1] & w1 & H1 & H). unfold lift in H1.
  destruct (start_setup al (w_qp w)) as [[ok2 qp2]|] eqn:Es; [|done]. injection H1 as <- <- <-.
  apply start_setup_conn in Es; [|done].
  destruct ok2; injection H as <- <-; simpl; auto.
Qed.

Lemma release_conn w r w' : kni_release w = Ok (r, w') ->
  conn w = usiw_qp_error -> conn w' = usiw_qp_error /\ exists b, r = KniRemoved b.
Proof.
  intros H Hc. split.
  - assert (conn w' = usiw_qp_error \/ conn w' = usiw_qp_error); [|tauto].
    eapply (pq_release _ (conn_stable usiw_qp_error)); [|exact H]. auto.
  - unfold kni_release in H. apply M_bind_ok in H as (qp & w0 & _ & H).
    apply M_bind_ok in H as ([] & w1 & _ & H). apply M_bind_ok in H as ([] & w2 & _ & H).
    destruct (qp_refcnt qp =? 1); [apply M_bind_ok in H as (u & w3 & _ & H)|]; injection H as <- <-; eauto.
Qed.

Lemma kni_transition_ok (w w' : world) (al : start_allocs) (rx : list rx_mbuf) (r : kni_result) :
  kni_qp_step al rx w = Ok (r, w') -> kni_transition (conn w) r (conn w').
Proof.
  intros H. unfold kni_qp_step in H. apply M_bind_ok in H as (qp & w0 & [= <- <-] & H).
  pose proof (fun rx => pq_progress _ (conn_stable usiw_qp_running) rx) as Hprog.
  destruct (conn w) eqn:Ec.
  - injection H as <- <-. rewrite Ec. constructor.
  - apply M_bind_ok in H as ([] & w2 & H1 & H).
    pose proof (start_qp_conn _ _ _ _ H1 Ec) as Hs2.
    apply M_bind_ok in H as (qp1 & w3 & [= <- <-] & H).
    case_decide; [injection H as <- <-; by constructor|].
    apply M_bind_ok in H as ([] & w3 & Hp & H). injection H as <- <-. constructor.
    by eapply Hprog.
  - apply M_bind_ok in H as ([] & w3 & Hp & H). injection H as <- <-. constructor.
    eapply Hprog; [|exact Hp]. auto.
  - apply M_bind_ok in H as ([] & w3 & Hp & H).
    assert (conn w3 = usiw_qp_error) as E3.
    { unfold qp_shutdown in Hp. apply M_bind_ok in Hp as ([] & wa & _ & Hp).
      apply M_bind_ok in Hp as ([] & wb & Hb & Hp).
      assert (preserves (fun w => conn w = usiw_qp_error \/ conn w = usiw_qp_error)
        (sq_flush;; rq_flush)) as Hf.
      { apply pres_bind; [|intros _]; apply (conn_stable usiw_qp_error). }
      destruct (Hf wb tt w3); [|done..]. left. by injection Hb as <-. }
    apply release_conn in H as [-> [b ->]]; [constructor|done].
  - apply release_conn in H as [-> [b ->]]; [constructor|done].
Qed.

(** C24: An iteration of the progress thread makes only the transitions of the
    connection state machine: a connected queue pair becomes running or
    failed, a running one stays or fails, and it is let go of exactly in the
    shutdown and error states, which end in error. *)
Theorem kni_step_transition (w w' : world) (al : start_allocs) (rx : list rx_mbuf) (r : kni_result) :
  kni_qp_step al rx w = Ok (r, w') -> kni_transition (conn w) r (conn w').
Proof. apply kni_transition_ok. Qed.

(** The number of outstanding RDMA READ requests stays between 0 and the
    negotiated maximum through an iteration of the progress thread, whatever
    packets arrive. *)
Theorem kni_step_ord_bound (w w' : world) (al : start_allocs) (rx : list rx_mbuf) (r : kni_result) :
  0 <= ord_active (w_qp w) <= ord_max (shm_qp (w_qp w)) -> ord_max (shm_qp (w_qp w)) < 256 ->
  kni_qp_step al rx w = Ok (r, w') ->
  0 <= ord_active (w_qp w') <= ord_max (shm_qp (w_qp w')) /\
  ord_max (shm_qp (w_qp w')) = ord_max (shm_qp (w_qp w)).
Proof.
  intros H1 H2. set (m := ord_max (shm_qp (w_qp w))) in *.
  assert (stable (shm_inv (fun s n => 0 <= n <= m /\ ord_max s = m))) as HS.
  { apply shm_stable; [done| |].
    - intros s n [? Hm] Hlt. split; [|done]. unfold wrap. rewrite Z.mod_small by (simpl; lia). lia.
    - intros s n [? Hm] Hlt. split; [lia|done]. }
  intros H. enough (shm_inv (fun s n => 0 <= n <= m /\ ord_max s = m) w') as [? E].
  { by rewrite E. }
  revert H. apply (pq_kni_step _ HS); [|done].
  intros w0 ok qp' [? ?] Hs. unfold start_setup in Hs. repeat (case_match; inv_ok; try done).
Qed.
End Machine.
