(* ===== verification/Demo.v ===== *)
(** * A concrete queue pair

    A queue pair in the running state over the list model of DPDK, built with
    the creation functions of the model.  It serves as the input on which
    theorems are applied to concrete values. *)
From S2P Require Import Prelude Serial Dpdk Binheap Proto Iov State TrpRx Cq Mr Wqe Frame TrpTx Window Rdmap Progress Verbs.

Definition get {A} (d : A) (o : option A) : A := match o with Some a => a | None => d end.
Definition get_ok {A} (d : A) (o : outcome A) : A := match o with Ok a => a | Fault _ => d end.

(** A call that is known to return [a]. *)
Definition returns {A B} (o : outcome (A * B)) (a : A) : Prop :=
  match o with Ok (x, _) => x = a | Fault _ => False end.
Lemma get_ok_snd {A B} (o : outcome (A * B)) (a : A) (d : A * B) :
  returns o a -> o = Ok (a, snd (get_ok d o)).
Proof. destruct o as [[x y]|]; simpl; [by intros ->|done]. Qed.

Definition demo_ring : @ring list_dpdk := get (LRing 0 [] I) (rte_ring_init 4).

Definition demo_cq : @usiw_cq list_dpdk :=
  get (Cq demo_ring demo_ring [] 0 0 0 0 false)
    (snd (get_ok (0, None) (usiw_create_cq 7 (CqAllocs true true true 0) (inl 1) demo_wc))).

Definition demo_sq : @usiw_send_wqe_queue list_dpdk :=
  get (SendQueue demo_ring demo_ring [] [] 0 0 0)
    (snd (usiw_send_wqe_queue_init 3 2 (WqAllocs true true true 0))).

Definition demo_rq : @usiw_recv_wqe_queue list_dpdk :=
  get (RecvQueue demo_ring demo_ring [] 0 [] 0 0)
    (snd (usiw_recv_wqe_queue_init 3 2 (WqAllocs true true true 0))).

Definition demo_shm : urdmad_qp :=
  {| conn_state := usiw_qp_connected; ord_max := 2; ird_max := 2; shm_dev_id := 0; shm_qp_id := 1;
     local_udp_port := 4660; remote_udp_port := 22136; remote_ipv4_addr := 16777226;
     remote_ether_addr := [2; 0; 0; 0; 0; 2]; tx_desc_count := 16; rx_burst_size := 4;
     tx_burst_size := 4; shm_mtu := 4 |}.

Definition demo_dev (flags : Z) : usiw_device :=
  {| dev_portid := 0; dev_max_qp := 4; dev_flags := flags;
     dev_ether_addr := [2; 0; 0; 0; 0; 1]; dev_ipv4_addr := 33554442 |}.

Definition demo_ep : ee_state :=
  {| expected_read_msn := 1; next_send_msn := 1; next_read_msn := 1; send_last_acked_psn := 0;
     send_next_psn := 0; send_max_psn := 0; recv_ack_psn := 0;
     recv_rresp_last_psn := {| bh_size := 0; bh_capacity := 0; bh_arr := [] |};
     trp_flags := 0; recv_sack_psn := PsnRange 0 0; tx_pending := []; tx_head := 0;
     tx_pending_size := 0 |}.

Definition demo_stats : urdma_qp_stats := Stats [] 0 0 0.

Definition demo_allocs : start_allocs := StartAllocs true true true true true [].

(** A connected queue pair, both completion queues the same. *)
Definition connected_qp (flags : Z) : @usiw_qp list_dpdk :=
  {| qp_refcnt := 2; shm_qp := demo_shm; qp_flags := 0; qp_dev := demo_dev flags;
     qp_send_cq := 0; qp_recv_cq := 0; qp_txq := []; qp_sq := demo_sq; qp_rq0 := demo_rq;
     qp_stats := demo_stats; readresp_store := []; readresp_head_msn := 1; ord_active := 0;
     remote_ep := demo_ep; qp_num := 5 |}.

(** The same queue pair once the progress thread has started it. *)
Definition running_qp (flags : Z) : @usiw_qp list_dpdk :=
  snd (get_ok (false, connected_qp flags) (start_setup demo_allocs (connected_qp flags))).

Definition world_of (qp : @usiw_qp list_dpdk) : world :=
  {| w_qp := qp; w_cqs := [demo_cq]; w_pd := demo_pd; w_mem := demo_mem;
     w_env := LEnv 2 None 65536 0; w_wire := []; w_events := [];
     w_ctx := Context_ 0 [5] [5]; w_tx_bound := 6 |}.

Definition connected_world : world := world_of (connected_qp 0).
Definition running_world : world := world_of (running_qp 0).

(** A send request of [n] bytes of [demo_mem]. *)
Definition demo_request (n : Z) : usiw_send_wqe :=
  zero_send_wqe <| s_data := WIov [Iovec 100 n] |> <| s_total_length := n |>
    <| s_flags := usiw_send_signaled |> <| s_wr_context := 77 |>.

(** The running queue pair with that request posted. *)
Definition posted_world (n : Z) : world :=
  running_world <| w_qp ::= update qp_sq (fun q =>
    match qp_get_next_send_wqe q with
    | (_, Some i, q1) =>
        q1 <| sq_storage ::= alter (fun _ => demo_request n) i |>
           <| sq_ring ::= fun r => snd (rte_ring_enqueue r i) |>
    | (_, None, q1) => q1
    end) |>.

Lemma demo_cq_wf : cq_wf demo_cq.
Proof. by vm_compute. Qed.

Lemma demo_sq_wf : sq_wf [] demo_sq.
Proof. split; [|done]. by split; vm_compute. Qed.

Lemma demo_rq_wf : rq_wf [] demo_rq.
Proof. split; [|done]. by split; vm_compute. Qed.

(** The queue pair once the three segments of a posted request of 10 bytes
    have been sent, and those segments. *)
Definition sent_world : world :=
  snd (get_ok (KniKeep, running_world) (kni_qp_step demo_allocs [] (posted_world 10))).

Definition sent_pend : list tx_mbuf :=
  omap (fun s => match s with Seg m => Some m | _ => None end) (tx_pending (remote_ep (w_qp sent_world))).

(** Evaluation of a bounded universal statement on integers. *)
Lemma forall_range (P : Z -> Prop) (a n : Z) :
  Forall P (seqZ a n) -> forall p, a <= p < a + n -> P p.
Proof. intros H p Hp. rewrite Forall_forall in H. apply H, elem_of_seqZ. lia. Qed.

Lemma tx_rep_empty ep :
  tx_pending_size ep = 8 -> tx_pending ep = replicate 8 Null -> send_next_psn ep = 0 ->
  tx_head ep = 0%nat -> tx_rep ep 0 [].
Proof.
  intros E1 E2 E3 E4. split.
  - exists 3. by rewrite E1.
  - by rewrite E1, E2.
  - by rewrite E1.
  - by rewrite E3.
  - rewrite E4. unfold slot. by rewrite E1.
  - done.
  - rewrite E1. apply (forall_range _ 0 8). change (seqZ 0 8) with [0; 1; 2; 3; 4; 5; 6; 7].
    unfold slot. rewrite E1, E2. by repeat constructor.
Qed.

Lemma sent_tx_rep : tx_rep (remote_ep (w_qp sent_world)) 0 sent_pend.
Proof.
  split; [exists 3; split; [lia|by vm_compute]|by vm_compute|by vm_compute|by vm_compute|by vm_compute| |].
  - intros j m Hj. assert (length sent_pend = 3)%nat as Hlen by (by vm_compute).
    pose proof (lookup_lt_Some _ _ _ Hj) as Hlt. rewrite Hlen in Hlt.
    destruct j as [|[|[|j]]]; [..|lia]; vm_compute in Hj; injection Hj as <-; split; by vm_compute.
  - replace (0 + tx_pending_size _) with (0 + len sent_pend + 5) by (by vm_compute).
    apply forall_range. replace (seqZ (0 + len sent_pend) 5) with [3; 4; 5; 6; 7] by (by vm_compute).
    repeat constructor; by vm_compute.
Qed.

(** A receiver with one posted buffer of 10 bytes, and what it receives: the
    frames on the wire after the request was sent. *)
Definition recv_world : world :=
  snd (get_ok ((0, []), running_world) (usiw_post_recv [RecvWr 88 [Sge 102 10 0]] running_world)).

Definition recv_rx : list rx_mbuf := RxMbuf 0 <$> w_wire sent_world.

Definition received_world : world :=
  snd (get_ok (KniKeep, running_world) (kni_qp_step demo_allocs recv_rx recv_world)).

Lemma sent_step : kni_qp_step demo_allocs [] (posted_world 10) = Ok (KniKeep, sent_world).
Proof. apply get_ok_snd. vm_compute. reflexivity. Qed.

Lemma received_step : kni_qp_step demo_allocs recv_rx recv_world = Ok (KniKeep, received_world).
Proof. apply get_ok_snd. vm_compute. reflexivity. Qed.

(** The message arrives in the buffer and a completion is posted. *)
Lemma received_message :
  mem_load (w_mem received_world) 102 10 = Ok [0; 1; 2; 3; 4; 5; 6; 7; 8; 9] /\
  cq_queue <$> w_cqs received_world = [[Wc 88 IBV_WC_SUCCESS IBV_WC_RECV 10 5]].
Proof. split; vm_compute; reflexivity. Qed.
