(* ===== verification/Ack.v ===== *)
(** * Acknowledgement of segments

    The first loop of [sweep_unacked_packets]: it removes exactly the
    segments below the cumulative acknowledgement from the window, credits
    their bytes to the work queue entries they belong to, and completes an
    entry when all its bytes are acknowledged; none of the assertions on the
    way can fail. *)
From S2P Require Import Prelude Serial Dpdk Binheap Proto Iov State TrpRx Cq Mr Wqe Frame TrpTx Window Rdmap Progress Conserve.

(** Bytes of entry [i] in the segments [pend]. *)
Definition outstanding (i : nat) (pend : list tx_mbuf) : Z :=
  foldr (fun m s => (if decide (p_wqe (mb_info m) = Some i) then p_ddp_length (mb_info m) else 0) + s)
    0 pend.

(** Entry [x] accounts for its segments in [pend]: what was sent and not yet
    acknowledged is outstanding. *)
Definition acct_wqe (x : usiw_send_wqe) (i : nat) (pend : list tx_mbuf) : Prop :=
  0 <= s_bytes_acked x /\ s_bytes_sent x < 2 ^ 64 /\
  if decide (s_opcode x = usiw_wr_read) then
    s_bytes_acked x <= s_bytes_sent x /\
    (forall m, m ∈ pend -> p_wqe (mb_info m) = Some i -> p_ddp_length (mb_info m) = 0)
  else
    s_bytes_acked x + outstanding i pend = s_bytes_sent x /\ s_bytes_sent x <= s_total_length x /\
    (s_bytes_sent x = s_total_length x -> s_state x = SEND_WQE_WAIT) /\
    (forall m, m ∈ pend -> p_wqe (mb_info m) = Some i -> 0 < p_ddp_length (mb_info m)).

Definition acct (st : list usiw_send_wqe) (pend : list tx_mbuf) : Prop :=
  forall i m, m ∈ pend -> p_wqe (mb_info m) = Some i ->
    exists x, st !! i = Some x /\ acct_wqe x i pend.

(** The effect of one acknowledged segment on the entries. *)
Definition ack_wqe (n : Z) (x : usiw_send_wqe) : usiw_send_wqe :=
  let y := x <| s_bytes_acked := s_bytes_acked x + n |> in
  if negb (bool_decide (s_opcode x = usiw_wr_read)) && (s_bytes_acked x + n =? s_total_length x)
  then y <| s_state := SEND_WQE_COMPLETE |> else y.
Definition ack_segment (m : tx_mbuf) (st : list usiw_send_wqe) : list usiw_send_wqe :=
  match p_wqe (mb_info m) with
  | Some i => alter (ack_wqe (p_ddp_length (mb_info m))) i st
  | None => st
  end.

Lemma outstanding_cons i m pend :
  outstanding i (m :: pend) =
  (if decide (p_wqe (mb_info m) = Some i) then p_ddp_length (mb_info m) else 0) + outstanding i pend.
Proof. done. Qed.

Lemma outstanding_nonneg i pend :
  (forall m, m ∈ pend -> p_wqe (mb_info m) = Some i -> 0 < p_ddp_length (mb_info m)) ->
  0 <= outstanding i pend /\
  (outstanding i pend = 0 -> forall m, m ∈ pend -> p_wqe (mb_info m) <> Some i).
Proof.
  induction pend as [|m pend IH]; intros H; [split; [done|]; by intros _ m ?%elem_of_nil|].
  destruct IH as [IH1 IH2]; [intros m' Hm'; apply H; by right|]. rewrite outstanding_cons.
  destruct (decide (p_wqe (mb_info m) = Some i)) as [E|E].
  - pose proof (H m ltac:(by left) E). split; [lia|]. intros. lia.
  - split; [lia|]. intros E0 m' Hm'. apply elem_of_cons in Hm' as [->|Hm']; [done|].
    apply IH2; [lia|done].
Qed.

Lemma acct_wqe_other x i m pend :
  p_wqe (mb_info m) <> Some i -> acct_wqe x i (m :: pend) -> acct_wqe x i pend.
Proof.
  intros Hne (H0 & H64 & Hr). unfold acct_wqe. split_and!; [done..|].
  rewrite outstanding_cons, (decide_False (P := p_wqe (mb_info m) = Some i)) in Hr by done.
  case_decide; [destruct Hr as [? Hz]|destruct Hr as (? & ? & ? & Hz)]; split_and!; try done.
  - intros m0 Hm0. apply Hz. by right.
  - intros m0 Hm0. apply Hz. by right.
Qed.

(** Accounting is kept when the first segment is acknowledged. *)
Lemma acct_ack st m pend : acct st (m :: pend) -> acct (ack_segment m st) pend.
Proof.
  intros Ha i m' Hm' Hi. destruct (Ha i m') as (x & Hx & Hacct); [by right|done|].
  unfold ack_segment. destruct (p_wqe (mb_info m)) as [j|] eqn:Ej.
  2: { exists x. split; [done|]. eapply acct_wqe_other; [|done]. congruence. }
  destruct (decide (j = i)) as [->|Hne].
  2: { exists x. rewrite list_lookup_alter_ne by done. split; [done|].
       eapply acct_wqe_other; [|done]. congruence. }
  exists (ack_wqe (p_ddp_length (mb_info m)) x). rewrite list_lookup_alter_eq, Hx. split; [done|].
  destruct Hacct as (H0 & H64 & Hr). unfold acct_wqe, ack_wqe.
  destruct (decide (s_opcode x = usiw_wr_read)) as [Er|Er].
  - rewrite bool_decide_true by done. simpl. rewrite decide_True by done.
    destruct Hr as [Hle Hz]. rewrite (Hz m) by (done || by left). split_and!; [lia..|lia|].
    intros m0 Hm0. apply Hz. by right.
  - rewrite bool_decide_false by done. destruct Hr as (Hsum & Htot & Hw & Hpos).
    rewrite outstanding_cons, (decide_True (P := p_wqe (mb_info m) = Some i)) in Hsum by done.
    pose proof (Hpos m (list_elem_of_here m pend) Ej).
    destruct (outstanding_nonneg i pend) as [Hnn Hz]; [intros; apply Hpos; [by right|done]|].
    cbn [negb andb]. destruct (Z.eqb_spec (s_bytes_acked x + p_ddp_length (mb_info m)) (s_total_length x)) as [E|E].
    + exfalso. apply (Hz ltac:(lia) m' Hm' Hi).
    + simpl. split_and!; [lia|done|]. destruct (decide (s_opcode x = usiw_wr_read)); [done|].
      split_and!; [lia..| |].
      * intros Es. by apply Hw.
      * intros m0 Hm0. apply Hpos. by right.
Qed.

Section Sweep.
Context {D : Dpdk} {L : DpdkLaws D}.
Context (hs hr : list nat).

(** [w'] is [w] with other work and completion queues, the entries being
    [st]; completed entries left the head of the active list. *)
Definition sq_step (w w' : world) (st : list usiw_send_wqe) : Prop :=
  exists sq cqs ev, w' = w <| w_qp ::= update qp_sq (fun _ => sq) |> <| w_cqs := cqs |>
                          <| w_events := ev |> /\
    sq_storage sq = st /\ length cqs = length (w_cqs w) /\
    exists k, sq_active sq = drop k (sq_active (qp_sq (w_qp w))).

Lemma sq_step_trans w1 w2 w3 s1 s2 : sq_step w1 w2 s1 -> sq_step w2 w3 s2 -> sq_step w1 w3 s2.
Proof.
  intros (q1 & c1 & e1 & -> & _ & Hl1 & k1 & Ha1) (q2 & c2 & e2 & -> & Hs & Hl2 & k2 & Ha2).
  exists q2, c2, e2. simpl in *. split_and!; [done..|congruence|].
  exists (k1 + k2)%nat. rewrite Ha2, Ha1. by rewrite drop_drop.
Qed.

Definition cq_valid (w : world) : Prop := (qp_send_cq (w_qp w) < length (w_cqs w))%nat.

Lemma try_complete_ok w i x :
  queues_ok hs hr w -> cq_valid w -> sq_storage (qp_sq (w_qp w)) !! i = Some x ->
  s_opcode x <> usiw_wr_read ->
  exists w', try_complete_wqe i w = Ok (tt, w') /\ queues_ok hs hr w' /\
    sq_step w w' (sq_storage (qp_sq (w_qp w))).
Proof.
  intros HI Hcq Hx Hop.
  enough (exists w', try_complete_wqe i w = Ok (tt, w') /\
    sq_step w w' (sq_storage (qp_sq (w_qp w)))) as (w' & E & Hs).
  { exists w'. split_and!; [done| |done]. by eapply (pq_try_complete _ (queues_stable hs hr)). }
  assert (sq_step w w (sq_storage (qp_sq (w_qp w)))) as Hrefl.
  { exists (qp_sq (w_qp w)), (w_cqs w), (w_events w). split_and!; [by destruct w as [[]]|done..|].
    by exists 0%nat. }
  destruct HI as (H1 & H2 & H3). unfold try_complete_wqe.
  cbv [mbind M_bind the_qp gets]. case_decide as Hhd; [|exists w; done].
  destruct (sq_active (qp_sq (w_qp w))) as [|i' act] eqn:Eact; [done|]. simplify_eq/=.
  assert (i ∈ sq_active (qp_sq (w_qp w))) as Hi by (rewrite Eact; by left).
  destruct (sq_wf_active _ _ H1) as [Hnd _]. rewrite Eact in Hnd.
  unfold get_swqe. rewrite Hx. simpl. destruct (has _ _).
  - destruct (lookup_lt_is_Some_2 _ _ Hcq) as [cq Hcqs].
    pose proof (proj1 (Forall_lookup _ _) H3 _ _ Hcqs) as Hwf.
    destruct (decide (length (cq_queue cq) = cq_cap cq)) as [Hf|Hf].
    + rewrite (post_send_cqe_full w i x cq) by done. rewrite decide_False by done. by exists w.
    + assert (length (cq_queue cq) <= cq_cap cq)%nat as Hle.
      { rewrite cq_queue_length by done. pose proof (cq_wf_bound cq Hwf). lia. }
      destruct (post_send_cqe_room hs w i x cq IBV_WC_SUCCESS H1 Hi Hx Hcqs Hwf ltac:(lia))
        as (cq' & f' & old & ev & -> & _).
      rewrite decide_False by done. eexists. split; [done|].
      eexists _, _, _. split; [reflexivity|]. split_and!; [done|by rewrite length_insert|].
      exists 1%nat. simpl. by rewrite Eact, filter_head.
  - destruct (sq_free_active hs _ i H1 Hi) as (f' & E & _).
    unfold qp_free_send_wqe. cbv [mbind M_bind the_qp gets]. rewrite E. simpl.
    rewrite decide_False by done. eexists. split; [done|].
    eexists _, (w_cqs w), (w_events w). split; [reflexivity|]. split_and!; [done..|].
    exists 1%nat. simpl. by rewrite Eact, filter_head.
Qed.

Lemma upd_swqe_step w i f :
  sq_step w (w <| w_qp ::= update qp_sq (update sq_storage (alter f i)) |>)
    (alter f i (sq_storage (qp_sq (w_qp w)))).
Proof.
  eexists _, (w_cqs w), (w_events w). split; [reflexivity|]. split_and!; [done..|].
  by exists 0%nat.
Qed.

Lemma upd_swqe_queues w i f :
  queues_ok hs hr w ->
  queues_ok hs hr (w <| w_qp ::= update qp_sq (update sq_storage (alter f i)) |>).
Proof. intros HI. by eapply (pq_upd_swqe _ (queues_stable hs hr) i f _ tt). Qed.

Lemma alter_compose_eq {A} (f g h : A -> A) i (l : list A) x :
  l !! i = Some x -> f (g x) = h x -> alter f i (alter g i l) = alter h i l.
Proof.
  intros Hx E. rewrite (alter_insert g i l x Hx), (alter_insert h i l x Hx).
  rewrite (alter_insert f i _ (g x)).
  - by rewrite list_insert_insert_eq, E.
  - apply list_lookup_insert_eq. by eapply lookup_lt_Some.
Qed.

(** One segment is credited to its entry. *)
Lemma do_process_ack_ok w m i x pend :
  queues_ok hs hr w -> cq_valid w ->
  p_wqe (mb_info m) = Some i -> sq_storage (qp_sq (w_qp w)) !! i = Some x ->
  acct_wqe x i (m :: pend) -> 0 <= p_ddp_length (mb_info m) ->
  exists w', do_process_ack i (mb_info m) w = Ok (tt, w') /\ queues_ok hs hr w' /\
    sq_step w w' (ack_segment m (sq_storage (qp_sq (w_qp w)))).
Proof.
  intros HI Hcq Hi Hx (H0 & H64 & Hr) Hlen. set (n := p_ddp_length (mb_info m)) in *.
  unfold ack_segment. rewrite Hi. fold n.
  assert (0 <= s_bytes_acked x + n <= s_bytes_sent x /\
    (s_opcode x <> usiw_wr_read -> s_bytes_acked x + n = s_total_length x -> s_state x = SEND_WQE_WAIT))
    as [Hle Hst].
  { destruct (decide (s_opcode x = usiw_wr_read)) as [Er|Er].
    - destruct Hr as [? Hz]. unfold n. rewrite (Hz m) by (done || by left). split; [lia|done].
    - destruct Hr as (Hs & Ht & Hw & Hp). rewrite outstanding_cons, (decide_True (P := p_wqe (mb_info m) = Some i)) in Hs by done.
      destruct (outstanding_nonneg i pend) as [Hnn _]; [intros; apply Hp; [by right|done]|].
      fold n in Hs. split; [lia|]. intros _ E. apply Hw. lia. }
  unfold do_process_ack. fold n.
  set (f1 := fun w0 : usiw_send_wqe => w0 <| s_bytes_acked ::= fun b => u64 (b + n) |>).
  cbv [mbind M_bind upd_swqe upd_sq upd_qp modify].
  set (w1 := w <| w_qp ::= update qp_sq (update sq_storage (alter f1 i)) |>).
  assert (queues_ok hs hr w1) as HI1 by (by apply upd_swqe_queues).
  assert (f1 x = x <| s_bytes_acked := s_bytes_acked x + n |>) as Ef1.
  { unfold f1. simpl. unfold wrap. by rewrite Z.mod_small by lia. }
  assert (sq_storage (qp_sq (w_qp w1)) !! i = Some (f1 x)) as Hx1.
  { simpl. by rewrite list_lookup_alter_eq, Hx. }
  unfold get_swqe. rewrite Hx1, Ef1. simpl deref. cbn [mbind outcome_bind].
  cbn [s_bytes_acked s_bytes_sent s_opcode s_total_length s_state update].
  rewrite (proj2 (Z.leb_le _ _) (proj2 Hle)). simpl c_assert. cbv [lift].
  destruct (negb (bool_decide (s_opcode x = usiw_wr_read)) && (s_bytes_acked x + n =? s_total_length x)) eqn:Ec.
  - apply andb_true_iff in Ec as [Eop Etot]. apply negb_true_iff, bool_decide_eq_false in Eop.
    apply Z.eqb_eq in Etot. rewrite bool_decide_true by (by apply Hst). simpl c_assert. cbv [lift].
    set (f2 := fun w0 : usiw_send_wqe => w0 <| s_state := SEND_WQE_COMPLETE |>).
    set (w2 := w1 <| w_qp ::= update qp_sq (update sq_storage (alter f2 i)) |>).
    assert (queues_ok hs hr w2) as HI2 by (by apply upd_swqe_queues).
    assert (sq_storage (qp_sq (w_qp w2)) = alter (ack_wqe n) i (sq_storage (qp_sq (w_qp w)))) as Est.
    { simpl. eapply alter_compose_eq; [exact Hx|]. rewrite Ef1. unfold ack_wqe, f2.
      rewrite bool_decide_false, (proj2 (Z.eqb_eq _ _) Etot) by done. done. }
    destruct (try_complete_ok w2 i (f2 (f1 x)) HI2) as (w3 & E3 & HI3 & Hs3).
    { done. }
    { simpl. rewrite list_lookup_alter_eq, list_lookup_alter_eq, Hx. done. }
    { done. }
    rewrite Est in Hs3. exists w3. split_and!; [done..|].
    eapply sq_step_trans; [apply upd_swqe_step|]. eapply sq_step_trans; [apply upd_swqe_step|done].
  - exists w1. split_and!; [done..|].
    assert (alter (ack_wqe n) i (sq_storage (qp_sq (w_qp w))) = alter f1 i (sq_storage (qp_sq (w_qp w)))) as ->.
    { rewrite !(alter_insert _ i _ x Hx), Ef1. unfold ack_wqe. by rewrite Ec. }
    apply upd_swqe_step.
Qed.

(** [w'] is [w] with another send queue, other completion queues and another
    endpoint state. *)
Definition ack_step (w w' : world) (ep' : ee_state) (st : list usiw_send_wqe) : Prop :=
  exists sq cqs ev,
    w' = w <| w_qp ::= fun qp => qp <| qp_sq := sq |> <| remote_ep := ep' |> |>
           <| w_cqs := cqs |> <| w_events := ev |> /\
    sq_storage sq = st /\ length cqs = length (w_cqs w) /\
    exists k, sq_active sq = drop k (sq_active (qp_sq (w_qp w))).

Lemma ack_step_sq w1 w2 w3 st st' ep' :
  sq_step w1 w2 st -> ack_step w2 w3 ep' st' -> ack_step w1 w3 ep' st'.
Proof.
  intros (q1 & c1 & e1 & -> & _ & Hl1 & k1 & Ha1) (q2 & c2 & e2 & -> & Hs & Hl2 & k2 & Ha2).
  exists q2, c2, e2. simpl in *. split_and!; [done..|congruence|].
  exists (k1 + k2)%nat. rewrite Ha2, Ha1. by rewrite drop_drop.
Qed.

Definition pop_slot (ep : ee_state) : ee_state :=
  ep <| tx_pending ::= fun l => <[tx_head ep := Null]> l |>
     <| tx_head := next_slot ep (tx_head ep) |>.

Lemma ack_step_pop w w' ep' st :
  ack_step (w <| w_qp ::= update remote_ep pop_slot |>) w' ep' st -> ack_step w w' ep' st.
Proof. intros (q & c & e & -> & H). exists q, c, e. done. Qed.

(** The credit of the first segment, whether it belongs to an entry or not. *)
Lemma ack_head_ok w m pend :
  queues_ok hs hr w -> cq_valid w -> acct (sq_storage (qp_sq (w_qp w))) (m :: pend) ->
  0 <= p_ddp_length (mb_info m) ->
  exists w', match p_wqe (mb_info m) with
             | Some i => do_process_ack i (mb_info m) | None => mret tt end w = Ok (tt, w') /\
    queues_ok hs hr w' /\ sq_step w w' (ack_segment m (sq_storage (qp_sq (w_qp w)))).
Proof.
  intros HI Hcq Ha Hn. unfold ack_segment. destruct (p_wqe (mb_info m)) as [i|] eqn:Ei.
  - destruct (Ha i m ltac:(by left) Ei) as (x & Hx & Hax).
    destruct (do_process_ack_ok w m i x pend HI Hcq Ei Hx Hax Hn) as (w' & E & HI' & Hs).
    unfold ack_segment in Hs. rewrite Ei in Hs. eauto.
  - exists w. split_and!; [done..|]. exists (qp_sq (w_qp w)), (w_cqs w), (w_events w).
    split_and!; [by destruct w as [[]]|done..|by exists 0%nat].
Qed.

Lemma sweep_acked_ok (k : nat) : forall fuel w h pend (ep := remote_ep (w_qp w)),
  queues_ok hs hr w -> cq_valid w -> tx_rep ep h pend ->
  send_last_acked_psn ep = u32 (h + Z.of_nat k) -> (k <= length pend)%nat -> (k <= fuel)%nat ->
  acct (sq_storage (qp_sq (w_qp w))) pend -> Forall (fun m => 0 <= p_ddp_length (mb_info m)) pend ->
  exists w' ep', sweep_acked fuel w = Ok ((fuel - k)%nat, w') /\ queues_ok hs hr w' /\
    ack_step w w' ep' (foldl (fun st m => ack_segment m st) (sq_storage (qp_sq (w_qp w))) (take k pend)) /\
    tx_rep ep' (h + Z.of_nat k) (drop k pend) /\
    send_last_acked_psn ep' = send_last_acked_psn ep.
Proof.
  induction k as [|k IH]; intros fuel w h pend ep HI Hcq Hrep Hack Hk Hfuel Ha Hlen.
  - exists w, ep. rewrite Z.add_0_r in *. rewrite Nat.sub_0_r, drop_0. split_and!; try done.
    + destruct fuel as [|fuel]; [done|]. cbn [sweep_acked].
      cbv [mbind M_bind the_ep gets]. fold ep. rewrite (tr_head _ _ _ Hrep).
      destruct pend as [|m pend].
      * rewrite (get_slot_eq w _ Null); [done|]. apply (tr_free _ _ _ Hrep).
        pose proof (size_pos _ _ _ Hrep). simpl. lia.
      * destruct (tr_pending _ _ _ Hrep 0%nat m) as [Hs Hp]; [done|]. rewrite Z.add_0_r in Hs, Hp.
        rewrite (get_slot_eq w _ (Seg m) Hs). cbn [is_null slot_mbuf mret M_ret].
        by rewrite Hp, Hack, serial_less_irrefl.
    + exists (qp_sq (w_qp w)), (w_cqs w), (w_events w).
      split_and!; [by destruct w as [[]]|done..|by exists 0%nat].
  - destruct pend as [|m pend]; [simpl in Hk; lia|]. destruct fuel as [|fuel]; [lia|].
    apply Forall_cons in Hlen as [Hm Hlen]. simpl in Hk.
    destruct (tr_pending _ _ _ Hrep 0%nat m) as [Hs Hp]; [done|]. rewrite Z.add_0_r in Hs, Hp.
    assert (serial_less_32 (p_psn (mb_info m)) (send_last_acked_psn ep) = true) as Hser.
    { rewrite Hp, Hack, serial_less_wrap, Z.ltb_lt; [lia|].
      destruct (tr_size _ _ _ Hrep) as (j & Hj & Ej). pose proof (tr_bound _ _ _ Hrep) as Hb.
      simpl length in Hb. assert (2 ^ j <= 2 ^ 30) by (apply Z.pow_le_mono_r; lia).
      assert (2 ^ 30 < 2 ^ 31) by done. lia. }
    destruct (ack_head_ok w m pend HI Hcq Ha Hm) as (w1 & E1 & HI1 & Hs1).
    pose proof Hs1 as (sq1 & c1 & e1 & Ew1 & Est1 & Hl1 & _).
    set (w2 := w1 <| w_qp ::= update remote_ep pop_slot |>).
    assert (remote_ep (w_qp w2) = pop_slot ep) as Eep2 by (unfold w2; rewrite Ew1; done).
    assert (sq_storage (qp_sq (w_qp w2)) = ack_segment m (sq_storage (qp_sq (w_qp w)))) as Est2.
    { unfold w2. rewrite Ew1. done. }
    destruct (IH fuel w2 (h + 1) pend) as (w' & ep' & E' & HI' & Hst' & Hrep' & Hla').
    { by apply (st_core _ (queues_stable hs hr) w1). }
    { unfold w2, cq_valid. rewrite Ew1. simpl. by rewrite Hl1. }
    { rewrite Eep2. by apply tx_rep_pop with m. }
    { rewrite Eep2. simpl. rewrite Hack. f_equal. lia. }
    { lia. } { lia. }
    { rewrite Est2. by apply acct_ack. }
    { done. }
    exists w', ep'. rewrite Est2 in Hst'. split_and!; try done.
    + cbn [sweep_acked]. cbv [mbind M_bind the_ep gets]. fold ep. rewrite (tr_head _ _ _ Hrep).
      rewrite (get_slot_eq w _ (Seg m) Hs). cbn [is_null slot_mbuf mret M_ret]. rewrite Hser.
      rewrite E1. cbv [put_slot upd_ep upd_qp modify].
      rewrite <- (tr_head _ _ _ Hrep). replace (S fuel - S k)%nat with (fuel - k)%nat by lia. rewrite <- E'. f_equal. unfold w2. rewrite Ew1. done.
    + eapply ack_step_sq; [exact Hs1|]. by apply ack_step_pop.
    + replace (h + Z.of_nat (S k)) with (h + 1 + Z.of_nat k) by lia. done.
    + rewrite Hla', Eep2. done.
Qed.

Lemma acct_acked (k : nat) : forall st pend,
  acct st pend ->
  acct (foldl (fun st m => ack_segment m st) st (take k pend)) (drop k pend).
Proof.
  induction k as [|k IH]; intros st pend Ha; [done|].
  destruct pend as [|m pend]; [done|]. simpl. apply IH. by apply acct_ack.
Qed.

(** C7: The sweep after an acknowledgement takes exactly the acknowledged
    segments off the transmit window, in order, credits each of them to its
    work request, completes a request when its last segment is acknowledged,
    and leaves the accounting of the remaining segments balanced. *)
Theorem ack_sweep_exact (w : world) (h : Z) (pend : list tx_mbuf) (k : nat)
    (ep := remote_ep (w_qp w)) (st := sq_storage (qp_sq (w_qp w))) :
  queues_ok hs hr w -> cq_valid w -> tx_rep ep h pend ->
  send_last_acked_psn ep = u32 (h + Z.of_nat k) -> (k <= length pend)%nat ->
  acct st pend -> Forall (fun m => 0 <= p_ddp_length (mb_info m)) pend ->
  exists left w' st', sweep_acked (Z.to_nat (tx_pending_size ep)) w = Ok (left, w') /\
    queues_ok hs hr w' /\ sq_storage (qp_sq (w_qp w')) = st' /\
    tx_rep (remote_ep (w_qp w')) (h + Z.of_nat k) (drop k pend) /\
    st' = foldl (fun st m => ack_segment m st) st (take k pend) /\ acct st' (drop k pend) /\
    exists j, sq_active (qp_sq (w_qp w')) = drop j (sq_active (qp_sq (w_qp w))).
Proof.
  intros HI Hcq Hrep Hack Hk Ha Hlen.
  destruct (sweep_acked_ok k (Z.to_nat (tx_pending_size ep)) w h pend) as
    (w' & ep' & E & HI' & Hs & Hrep' & _); try done.
  { pose proof (tr_bound _ _ _ Hrep). lia. }
  destruct Hs as (sq & cqs & ev & -> & Est & _ & j & Hact).
  eexists _, _, _. split; [exact E|]. split; [exact HI'|]. split; [exact Est|].
  split_and!; [done..| |by exists j]. by apply acct_acked.
Qed.
End Sweep.
