(* ===== verification/Safe.v ===== *)
(** * Memory safety of the progress thread

    Whatever packets arrive, an iteration of the progress thread for a queue
    pair writes application memory only inside registered memory regions and
    posted receive buffers.  The bounds check of [ddp_place_tagged_data] does
    not exclude that the end of the segment wraps around: such a segment
    passes it, and the copy then touches the end of the address space. *)
From S2P Require Import Prelude Serial Dpdk Binheap Proto Iov State TrpRx Cq Mr Wqe Frame TrpTx Rdmap Progress Conserve.

(** ** What the stores touch *)

Lemma elem_drop {A} (x : A) n l : x ∈ drop n l -> x ∈ l.
Proof. intros H. rewrite <- (take_drop n l). apply elem_of_app. by right. Qed.

Lemma elem_take {A} (x : A) n l : x ∈ take n l -> x ∈ l.
Proof. intros H. rewrite <- (take_drop n l). apply elem_of_app. by left. Qed.

Section Stores.
Implicit Types m : gmap Z Z.

(** [m'] differs from [m] at most at addresses in [l], and maps the same
    addresses. *)
Definition same_but (l : list Z) m m' : Prop :=
  (forall a, a ∉ l -> m' !! a = m !! a) /\ forall a, is_Some (m' !! a) <-> is_Some (m !! a).

Lemma same_but_refl l m : same_but l m m.
Proof. done. Qed.

Lemma same_but_trans l m1 m2 m3 : same_but l m1 m2 -> same_but l m2 m3 -> same_but l m1 m3.
Proof.
  intros [F1 D1] [F2 D2]. split; [|intros a; by rewrite D2, D1].
  intros a Ha. by rewrite F2, F1.
Qed.

Lemma same_but_mono l1 l2 m m' : l1 ⊆ l2 -> same_but l1 m m' -> same_but l2 m m'.
Proof. intros Hl [F D]. split; [|done]. intros a Ha. apply F. set_solver. Qed.

Lemma scatter_same m l vs m' : scatter m l vs = Ok m' -> same_but l m m'.
Proof. intros H. split; intros a; [by eapply scatter_frame|by eapply scatter_dom]. Qed.

Lemma to_iov_loop_same l : forall m src n prev pos offset m',
  Forall (fun v => 0 <= iov_len v) l -> 0 <= prev -> prev + iov_total l < 2 ^ 64 ->
  to_iov_loop m l src n prev pos offset = Ok m' -> same_but (iov_addrs l) m m'.
Proof.
  induction l as [|v l IH]; intros m src n prev pos offset m' Hl Hp Hs H; simpl in H.
  { injection H as ->. apply same_but_refl. }
  apply Forall_cons in Hl as [Hv Hl]. rewrite iov_total_cons in Hs. rewrite iov_addrs_cons.
  pose proof (iov_total_nonneg l Hl).
  rewrite (wrap_small 64 (prev + iov_len v)) in H by (unfold in_range; lia).
  destruct (negb _); [injection H as ->; apply same_but_refl|].
  destruct (_ && _) eqn:Ein.
  - apply andb_true_iff in Ein as [H1%Z.leb_le H2%Z.ltb_lt].
    rewrite (wrap_small 64 (prev + iov_len v - offset)) in H by (unfold in_range; lia).
    set (cur := Z.min _ _) in H.
    apply bind_ok in H as (bs & Eb & H). apply bind_ok in H as (m1 & Em & H).
    apply buf_load_ok in Eb as (? & ? & ? & ->).
    eapply same_but_trans; [|eapply same_but_mono; [|eapply IH; [..|exact H]]; [set_solver|done|lia|lia]].
    unfold mem_store in Em. apply scatter_same in Em. eapply same_but_mono; [|exact Em].
    rewrite sub_length by lia. rewrite Z2Nat.id, wrap_sub_l, addrs_wrap by lia.
    replace (iov_base v + offset - prev) with (iov_base v + (offset - prev)) by lia.
    rewrite <- (addrs_sub _ (iov_len v)) by lia.
    intros a Ha. apply elem_of_app. left. by eapply elem_of_sub.
  - eapply same_but_mono; [|eapply IH; [..|exact H]]; [set_solver|done|lia|lia].
Qed.

Lemma memcpy_to_iov_same m l src n off m' :
  iov_wf l -> memcpy_to_iov m l src n off = Ok m' -> same_but (iov_addrs l) m m'.
Proof. intros [Hl Ht] H. by eapply to_iov_loop_same in H. Qed.

(** An application maps no memory in the last 4 GiB of the address space. *)
Definition user_space m : Prop := forall a, is_Some (m !! a) -> a < 2 ^ 64 - 2 ^ 32.

Lemma elem_of_addrs a n b : 0 <= a -> a + n < 2 ^ 64 -> b ∈ addrs a n -> a <= b < a + n.
Proof.
  intros Ha Hn H. unfold addrs in H. apply list_elem_of_fmap in H as (i & -> & Hi).
  apply elem_of_seqZ in Hi. rewrite wrap_small; unfold in_range; lia.
Qed.

(** A store that the bounds check accepts stays inside the region, unless it
    faults. *)
Lemma mem_store_inside m mr vaddr bs m' :
  user_space m -> 0 <= mr_addr mr -> 0 <= mr_length mr -> mr_addr mr + mr_length mr < 2 ^ 64 ->
  in_range 64 vaddr -> len bs < 2 ^ 32 -> outside_mr mr vaddr (len bs) = false ->
  mem_store m vaddr bs = Ok m' ->
  exists l, same_but l m m' /\ forall a, a ∈ l -> mr_addr mr <= a < mr_addr mr + mr_length mr.
Proof.
  intros Hu Ha Hn Hwrap Hv Hlen Ho H. unfold outside_mr in Ho.
  apply orb_false_iff in Ho as [H1%Z.ltb_ge H2]. rewrite Z.gtb_ltb in H2. apply Z.ltb_ge in H2.
  rewrite (wrap_small 64 (mr_addr mr + mr_length mr)) in H2 by (unfold in_range; lia).
  exists (addrs vaddr (len bs)). unfold mem_store in H. split; [by eapply scatter_same|].
  destruct (decide (vaddr + len bs < 2 ^ 64)) as [Hlt|Hge].
  - rewrite wrap_small in H2 by (unfold in_range in *; lia). intros a Hin.
    apply elem_of_addrs in Hin; [lia|apply Hv|done].
  - exfalso. unfold in_range in Hv. destruct bs as [|b bs]; [simpl in Hge; lia|].
    assert (addrs vaddr (len (b :: bs)) = u64 (vaddr + 0) :: tail (addrs vaddr (len (b :: bs)))) as E.
    { unfold addrs. rewrite seqZ_cons by (simpl; lia). done. }
    rewrite E in H. cbn [scatter] in H. apply bind_ok in H as (o & Hd & _). apply deref_ok in Hd.
    rewrite Z.add_0_r, wrap_small in Hd by done.
    specialize (Hu vaddr ltac:(by eexists)). simpl in *. lia.
Qed.
End Stores.

(** ** The invariant *)

Section Safe.
Context {D : Dpdk} {L : DpdkLaws D}.
Context (A : Z -> Prop) (m0 : gmap Z Z).

(** The entries that have been posted and not completed. *)
Definition posted (q : usiw_recv_wqe_queue) : list nat := ring_elems (rq_ring q) ++ rq_active q.

Definition region_ok (mr : usiw_mr) : Prop :=
  0 <= mr_addr mr /\ 0 <= mr_length mr /\ mr_addr mr + mr_length mr < 2 ^ 64 /\
  forall a, mr_addr mr <= a < mr_addr mr + mr_length mr -> A a.

Definition recv_ok (q : usiw_recv_wqe_queue) : Prop :=
  forall i x, i ∈ posted q -> rq_storage q !! i = Some x ->
    iov_wf (r_iov x) /\ forall a, a ∈ iov_addrs (r_iov x) -> A a.

(** All regions and posted buffers are inside [A], and the memory is still
    [m0] outside of it. *)
Record confined (w : world) : Prop := {
  cf_pd : forall c mr, mr_deref (w_pd w) c = Ok mr -> region_ok mr;
  cf_rq : recv_ok (qp_rq0 (w_qp w));
  cf_mem : forall a, ~ A a -> w_mem w !! a = m0 !! a;
  cf_dom : forall a, is_Some (w_mem w !! a) <-> is_Some (m0 !! a)
}.

Lemma cf_modify f :
  (forall w, qp_rq0 (w_qp (f w)) = qp_rq0 (w_qp w) /\ w_mem (f w) = w_mem w /\ w_pd (f w) = w_pd w) ->
  preserves confined (modify f).
Proof.
  intros Hf w [] w' [H1 H2 H3 H4] [= <-]. destruct (Hf w) as (E1 & E2 & E3).
  split; by rewrite ?E1, ?E2, ?E3.
Qed.

Lemma cf_rq_step w q : confined w -> recv_ok q -> confined (w <| w_qp ::= update qp_rq0 (fun _ => q) |>).
Proof. by intros [? ? ? ?] ?. Qed.

Lemma cf_store w l m' :
  confined w -> same_but l (w_mem w) m' -> (forall a, a ∈ l -> A a) -> confined (w <| w_mem := m' |>).
Proof.
  intros [H1 H2 H3 H4] [F Dm] Hl. split; simpl; try done.
  - intros a Ha. rewrite F; [by apply H3|]. intros Hin. by apply Ha, Hl.
  - intros a. by rewrite Dm.
Qed.

#[local] Hint Extern 1 (preserves confined (modify _)) => (apply cf_modify; done) : preserve.
#[local] Hint Extern 1 (preserves confined (upd_qp _)) => (apply cf_modify; done) : preserve.
#[local] Hint Extern 1 (preserves confined (upd_sq _)) => (apply cf_modify; done) : preserve.
#[local] Hint Extern 1 (preserves confined (upd_ep _)) => (apply cf_modify; done) : preserve.
#[local] Hint Extern 1 (preserves confined (upd_swqe _ _)) => (apply cf_modify; done) : preserve.
#[local] Hint Extern 1 (preserves confined (put_cq _ _)) => (apply cf_modify; done) : preserve.

Lemma cf_get_cq c : preserves confined (get_cq c).
Proof.
  intros w a w' HI. unfold get_cq. destruct (_ !! c); simpl; [|done]. by intros [= _ <-].
Qed.
Lemma cf_write_event ev cq : preserves confined (write_event ev cq).
Proof. apply cf_modify. intros w. by destruct ev. Qed.
#[local] Hint Resolve cf_get_cq cf_write_event : preserve.

Lemma cf_free_send i : preserves confined (qp_free_send_wqe i true).
Proof. unfold qp_free_send_wqe. pres. Qed.

Lemma cf_free_recv i : preserves confined (qp_free_recv_wqe i).
Proof.
  intros w [] w' HI H. unfold qp_free_recv_wqe in H. cbv [mbind M_bind the_qp gets] in H.
  destruct (rq_free (qp_rq0 (w_qp w)) i) as [q|] eqn:E; [|done]. injection H as <-.
  apply cf_rq_step; [done|]. unfold rq_free, usiw_recv_wqe_queue_del_active in E. inv_ok.
  match goal with H : list_del _ _ = _ |- _ => apply list_del_ok in H as [_ ->] end.
  intros j x Hj. apply (cf_rq w HI). unfold posted in *. simpl in Hj.
  apply elem_of_app in Hj as [Hj|[_ Hj]%list_elem_of_filter]; apply elem_of_app; auto.
Qed.
#[local] Hint Resolve cf_free_send cf_free_recv : preserve.

Lemma cf_post_cqe c f m : preserves confined m -> preserves confined (post_cqe c f m).
Proof. intros Hm. unfold post_cqe. pres. Qed.
Lemma cf_post_send i s : preserves confined (post_send_cqe i s).
Proof. unfold post_send_cqe. pres. apply cf_post_cqe. pres. Qed.
Lemma cf_post_recv i s : preserves confined (post_recv_cqe i s).
Proof. unfold post_recv_cqe. pres. apply cf_post_cqe. pres. Qed.
#[local] Hint Resolve cf_post_send cf_post_recv : preserve.

(** [q'] posts no new entry and keeps the buffers of [q]. *)
Definition recv_sub (q q' : usiw_recv_wqe_queue) : Prop :=
  posted q' ⊆ posted q /\
  forall i x', rq_storage q' !! i = Some x' ->
    exists x, rq_storage q !! i = Some x /\ r_iov x' = r_iov x.

Lemma recv_sub_refl q : recv_sub q q.
Proof. split; [done|eauto]. Qed.

Lemma recv_sub_trans q1 q2 q3 : recv_sub q1 q2 -> recv_sub q2 q3 -> recv_sub q1 q3.
Proof.
  intros [P1 S1] [P2 S2]. split; [set_solver|]. intros i x3 H3.
  destruct (S2 _ _ H3) as (x2 & H2 & E2). destruct (S1 _ _ H2) as (x1 & H1 & E1). exists x1. split; congruence.
Qed.

Lemma recv_ok_sub q q' : recv_ok q -> recv_sub q q' -> recv_ok q'.
Proof.
  intros H [P S] i x' Hi Hx'. destruct (S _ _ Hx') as (x & Hx & ->). apply (H i x); [set_solver|done].
Qed.

Lemma storage_alter (f : usiw_recv_wqe -> usiw_recv_wqe) j (st : list usiw_recv_wqe) i x' :
  (forall x, r_iov (f x) = r_iov x) -> alter f j st !! i = Some x' ->
  exists x, st !! i = Some x /\ r_iov x' = r_iov x.
Proof.
  intros Hf. destruct (decide (i = j)) as [->|Hne].
  - rewrite list_lookup_alter_eq. intros (x & -> & ->)%fmap_Some. eauto.
  - rewrite list_lookup_alter_ne by done. eauto.
Qed.

Lemma activate_sub l : forall q,
  rq_ring (activate_recv_wqes l q) = rq_ring q /\
  rq_active (activate_recv_wqes l q) = rq_active q ++ l /\
  forall i x', rq_storage (activate_recv_wqes l q) !! i = Some x' ->
    exists x, rq_storage q !! i = Some x /\ r_iov x' = r_iov x.
Proof.
  induction l as [|j l IH]; intros q; simpl.
  { rewrite app_nil_r. eauto. }
  match goal with |- context [activate_recv_wqes l ?q1] => destruct (IH q1) as (-> & -> & Hs) end.
  simpl. rewrite <- app_assoc. split_and!; [done..|]. intros i x' Hx'.
  destruct (Hs _ _ Hx') as (x1 & H1 & ->). simpl in H1. by eapply storage_alter in H1.
Qed.

Lemma dequeue_loop_sub n : forall q q', dequeue_loop n q = Ok q' -> recv_sub q q'.
Proof.
  induction n as [|n IH]; intros q q' H; cbn [dequeue_loop] in H; [done|].
  destruct (ring_dequeue_burst_law (rq_ring q) (S (Z.to_nat (rq_max_wr q)))) as (r' & E & El & _).
  rewrite E in H. destruct (take _ _) as [|i l] eqn:Et.
  - injection H as <-. split; [|eauto]. unfold posted. simpl. rewrite El.
    intros j. rewrite !elem_of_app. intros [Hj|]; [left|by right]. by eapply elem_drop in Hj.
  - eapply recv_sub_trans; [|by apply IH].
    match goal with |- recv_sub _ (activate_recv_wqes _ ?q1) =>
      destruct (activate_sub (i :: l) q1) as (E1 & E2 & E3) end. split; [|exact E3].
    unfold posted. rewrite E1, E2. simpl rq_ring. simpl rq_active. rewrite El, <- Et.
    rewrite <- (take_drop (S (Z.to_nat (rq_max_wr q))) (ring_elems (rq_ring q))) at 3. set_solver.
Qed.

Lemma rq_drain_sub n : forall q q', rq_drain n q = Ok q' -> recv_sub q q'.
Proof.
  induction n as [|n IH]; intros q q' H; simpl in H;
    destruct (ring_elems (rq_ring q)) as [|i l] eqn:E.
  1,3: rewrite (ring_dequeue_nil _ E) in H; injection H as <-; apply recv_sub_refl.
  all: destruct (ring_dequeue_law _ _ _ E) as (r & Er & El & _); rewrite Er in H; try done.
  eapply recv_sub_trans; [|by apply IH]. split.
  - unfold posted. simpl. rewrite El, E. set_solver.
  - intros j x'. by apply storage_alter.
Qed.

Lemma cf_dequeue : preserves confined dequeue_recv_wqes.
Proof.
  intros w a w' HI H. unfold dequeue_recv_wqes in H. cbv [mbind M_bind the_qp gets] in H.
  destruct (dequeue_loop 2 _) as [q'|] eqn:E; [|done]. injection H as <- <-.
  apply cf_rq_step; [done|]. eapply recv_ok_sub; [apply HI|by eapply dequeue_loop_sub].
Qed.

Lemma cf_rq_flush : preserves confined rq_flush.
Proof.
  intros w a w' HI H. unfold rq_flush in H.
  apply M_bind_ok in H as (qp & w0 & [= <- <-] & H).
  apply M_bind_ok in H as (q1 & w1 & Hl & H). unfold lift in Hl.
  destruct (rq_drain _ _) as [q'|] eqn:E; [|done]. injection Hl as -> <-.
  apply M_bind_ok in H as ([] & w2 & [= <-] & H).
  eapply (pres_for_each confined); [| |exact H]; [intros; pres|].
  apply cf_rq_step; [done|]. eapply recv_ok_sub; [apply HI|by eapply rq_drain_sub].
Qed.

Lemma cf_dereg c : preserves confined (modify (fun w => w <| w_pd ::= fun t => usiw_dereg_mr_real t c |>)).
Proof.
  intros w [] w' [H1 H2 H3 H4] [= <-]. split; simpl; try done. intros [b p] mr Hd.
  unfold mr_deref, usiw_dereg_mr_real in Hd. simpl in Hd. apply deref_ok in Hd.
  destruct (decide (b = fst c)) as [->|Hne].
  - rewrite list_lookup_alter_eq in Hd. destruct (mt_entries (w_pd w) !! fst c) as [l|] eqn:El; [|done].
    simpl in Hd. apply list_elem_of_lookup_2 in Hd.
    assert (mr ∈ l) as (p' & Hp')%list_elem_of_lookup_1.
    { apply elem_of_app in Hd as [Hd|Hd]; [by eapply elem_take in Hd|by eapply elem_drop in Hd]. }
    apply (H1 (fst c, p')). unfold mr_deref. simpl. by rewrite El; simpl; rewrite Hp'.
  - rewrite list_lookup_alter_ne in Hd by done. apply (H1 (b, p)). unfold mr_deref. simpl. by rewrite Hd.
Qed.

Lemma confined_stable : user_space m0 -> stable confined.
Proof using L.
  intros Hm0. split.
  - intros w w' [H1 H2 H3 H4] [= _ E2 _ _] _ Em Ep. split; by rewrite ?E2, ?Em, ?Ep.
  - intros i f. pres.
  - intros i f Hf w [] w' HI [= <-]. destruct HI as [H1 H2 H3 H4]. split; simpl; try done.
    eapply recv_ok_sub; [exact H2|]. split; [done|]. intros j x'. by apply storage_alter.
  - intros w i x src n off m' HI Hi Hx Hc.
    destruct (cf_rq w HI i x) as [Hwf HA]; [apply elem_of_app; by right|done|].
    eapply cf_store; [done|by eapply memcpy_to_iov_same|done].
  - intros w c mr vaddr bs m' HI Hc Hv Hl Ho Hs. destruct (cf_pd w HI c mr Hc) as (? & ? & ? & HA).
    destruct (mem_store_inside (w_mem w) mr vaddr bs m') as (l & Hsame & Hin); try done.
    { intros a Ha. apply Hm0. by apply (cf_dom w HI). }
    eapply cf_store; [done|exact Hsame|]. auto.
  - apply cf_dereg.
  - pres.
  - intros w [H1 H2 H3 H4] _. by split.
  - intros w [H1 H2 H3 H4] _. by split.
  - apply cf_free_send.
  - apply cf_post_send.
  - apply cf_post_recv.
  - unfold sq_flush. pres. apply pres_for_each. intros i. pres.
  - apply cf_rq_flush.
  - apply cf_dequeue.
  - intros Hp. unfold start_next_wqe. pres. unfold activate_send_wqe. pres.
  - unfold usiw_do_destroy_qp. pres.
Qed.
End Safe.

(** Whatever packets arrive, one iteration of the progress thread writes
    application memory only inside registered memory regions and posted
    receive buffers, provided that no region ends at or beyond the end of the
    address space. *)
Theorem kni_step_memory_safe {D : Dpdk} {L : DpdkLaws D} (w w' : world) (al : start_allocs)
    (rx : list rx_mbuf) (r : kni_result) (a : Z) (rq := qp_rq0 (w_qp w)) :
  (forall c mr, mr_deref (w_pd w) c = Ok mr ->
     0 <= mr_addr mr /\ 0 <= mr_length mr /\ mr_addr mr + mr_length mr < 2 ^ 64) ->
  (forall i x, i ∈ posted rq -> rq_storage rq !! i = Some x -> iov_wf (r_iov x)) ->
  user_space (w_mem w) ->
  kni_qp_step al rx w = Ok (r, w') ->
  (forall c mr, mr_deref (w_pd w) c = Ok mr -> ~ mr_addr mr <= a < mr_addr mr + mr_length mr) ->
  (forall i x, i ∈ posted rq -> rq_storage rq !! i = Some x -> a ∉ iov_addrs (r_iov x)) ->
  w_mem w' !! a = w_mem w !! a.
Proof.
  intros Hpd Hrq Hu H Hnmr Hnrq.
  set (A := fun b => b <> a). assert (stable (confined A (w_mem w))) as HS by (by apply confined_stable).
  enough (confined A (w_mem w) w') as HI by (apply (cf_mem _ _ _ HI); unfold A; lia).
  revert H. apply (pq_kni_step _ HS).
  - intros w0 ok qp' [H1 H2 H3 H4] [_ E]%start_setup_queues. split; simpl; try done. by rewrite E.
  - split; [| |done..].
    + intros c mr Hc. destruct (Hpd c mr Hc) as (? & ? & ?). split_and!; try done.
      intros b Hb ->. by apply (Hnmr c mr).
    + intros i x Hi Hx. split; [by apply (Hrq i x)|]. intros b Hb ->. by apply (Hnrq i x).
Qed.

(** C33: The bounds check of a tagged segment is done modulo 2^64: a segment
    whose end wraps around passes it, and the placement then faults on the
    first address outside the application's memory. *)
Theorem tagged_bounds_wrap {D : Dpdk} (w : world) (orig : packet_context)
    (t : rdmap_tagged_packet) (c : nat * nat) (mr : usiw_mr)
    (n := u32 (ctx_seg_length orig - Z.of_nat sizeof_tagged)) :
  get_tagged (ctx_rdmap orig) = Ok t ->
  usiw_mr_lookup (w_pd w) (sink_stag (tagged_head t)) = Ok (Some c) -> mr_deref (w_pd w) c = Ok mr ->
  mr_addr mr <= tagged_offset t -> 2 ^ 64 <= tagged_offset t + n ->
  tagged_offset t + n - 2 ^ 64 <= u64 (mr_addr mr + mr_length mr) ->
  w_mem w !! tagged_offset t = None ->
  Z.of_nat sizeof_tagged + n <= len (ctx_rdmap orig) ->
  ddp_place_tagged_data orig w = Fault BadPointer.
Proof.
  intros Ht Hl Hd H1 H2 H3 Hm Hlen. pose proof (get_tagged_range _ _ Ht) as Hr.
  assert (0 <= n < 2 ^ 32) as Hn by (by apply wrap_range). unfold in_range in Hr.
  unfold ddp_place_tagged_data. cbv [mbind M_bind]. unfold lift at 1. rewrite Ht.
  cbn [gets lift]. rewrite Hl. cbn [lift]. rewrite Hd. cbn [lift]. fold n.
  assert (outside_mr mr (tagged_offset t) n = false) as ->.
  { unfold outside_mr. apply orb_false_iff. split; [lia|]. rewrite Z.gtb_ltb. apply Z.ltb_ge.
    replace (u64 (tagged_offset t + n)) with (tagged_offset t + n - 2 ^ 64); [done|].
    unfold wrap. rewrite <- (Z_mod_plus_full _ (-1)), Z.mod_small; lia. }
  rewrite buf_load_in by (rewrite ?length_drop; lia). cbn [gets lift]. unfold mem_store.
  assert (exists b bs, sub (Z.to_nat 0) (Z.to_nat n) (drop sizeof_tagged (ctx_rdmap orig)) = b :: bs)
    as (b & bs & ->).
  { destruct (sub _ _ _) as [|b bs] eqn:E; [|eauto]. apply (f_equal length) in E.
    rewrite sub_length in E by (rewrite length_drop; simpl; lia). simpl in E. lia. }
  unfold addrs. rewrite seqZ_cons by (simpl; lia). cbn [fmap list_fmap scatter].
  rewrite Z.add_0_r, wrap_small by (unfold in_range; lia). by rewrite Hm.
Qed.
