(* ===== verification/Loop.v ===== *)
(** The loop of the progress thread over all contexts and queue pairs
    (kni_loop of src/liburdma/interface.c), and the contexts it learns of
    (urdma_alloc_context and urdma_free_context of src/liburdma/verbs.c,
    driver_add_context of src/liburdma/driver.c).

    The state holds every queue pair with its protection domain; a round runs
    the switch of kni_loop, [kni_qp_step], for each of them on the shared
    completion queues, memory and port.  What one iteration keeps for a queue
    pair, a round keeps for all of them; and the handles by which the thread
    reaches the contexts are never used after they were freed. *)
From S2P Require Import Prelude Dpdk Iov State Cq Mr Wqe Progress Conserve Safe.

Definition NEW_CTX_MAX : nat := 31.

Lemma filter_all {A} (P : A -> Prop) `{!forall x, Decision (P x)} (l : list A) :
  (forall x, x ∈ l -> P x) -> filter P l = l.
Proof.
  induction l as [|x l IH]; intros HP; [done|]. rewrite filter_cons_True by (apply HP; left).
  f_equal. apply IH. intros y Hy. apply HP. by right.
Qed.

Lemma NoDup_omap_inj {A B} (f : A -> option B) (l : list A) : NoDup l ->
  (forall x y z, f x = Some z -> f y = Some z -> x = y) -> NoDup (omap f l).
Proof.
  intros ND Hf. induction ND as [|x l Hx _ IH]; [constructor|]. simpl. destruct (f x) as [z|] eqn:E; [|done].
  apply NoDup_cons. split; [|done]. rewrite list_elem_of_omap. intros (y & Hy & Ey). by rewrite (Hf x y z E Ey) in Hx.
Qed.

Lemma filter_iff_in {A} (P Q : A -> Prop) `{!forall x, Decision (P x), !forall x, Decision (Q x)} (l : list A) :
  (forall x, x ∈ l -> P x <-> Q x) -> filter P l = filter Q l.
Proof.
  induction l as [|x l IH]; intros HP; [done|]. rewrite !filter_cons.
  rewrite IH by (intros y Hy; apply HP; by right). pose proof (HP x ltac:(left)). by do 2 case_decide; try tauto.
Qed.

Section Loop.
Context {D : Dpdk}.

(** ** State *)

(** Queue pairs by number, with their protection domain; protection domains;
    contexts that were given a handle, with it; handles that are allocated,
    with the context they point to ([None] for 0); the list [driver->ctxs] and
    the ring [driver->new_ctxs] of handles; the number of the next context; and
    what the queue pairs share.  Nothing in the library frees a context. *)
Record lib := Lib {
  lb_qps : gmap Z (usiw_qp * nat);
  lb_pds : gmap nat usiw_mr_table;
  lb_ctxs : gmap nat (usiw_context * nat);
  lb_handles : gmap nat (option nat);
  lb_list : list nat;
  lb_new : list nat;
  lb_next : nat;
  lb_cqs : list usiw_cq;
  lb_mem : gmap Z Z;
  lb_env : env;
  lb_wire : list bytes;
  lb_events : list Z;
  lb_tx_bound : nat
}.
#[export] Instance lib_settable : Settable lib := fun s =>
  Lib (lb_qps s) (lb_pds s) (lb_ctxs s) (lb_handles s) (lb_list s) (lb_new s) (lb_next s) (lb_cqs s)
    (lb_mem s) (lb_env s) (lb_wire s) (lb_events s) (lb_tx_bound s).

(** ** Contexts *)

Definition EDQUOT : Z := 122.
Definition ENOBUFS : Z := 105.

(** [rte_ring_enqueue] on the ring, which has room for [NEW_CTX_MAX] handles. *)
Definition enqueue (h : nat) (s : lib) : Z * lib :=
  if (length (lb_new s) <? NEW_CTX_MAX)%nat then (0, s <| lb_new ::= fun l => l ++ [h] |>) else (- ENOBUFS, s).

(** The loop of [driver_add_context] after the try with result [r]. *)
Fixpoint enqueue_again (i : nat) (h : nat) (r : Z * lib) : Z * lib :=
  match i with
  | O => r
  | S i => if r.1 =? - ENOBUFS then enqueue_again i h (enqueue h r.2) else r
  end.

(** [driver_add_context]; the progress thread does not run during the call. *)
Definition driver_add_context (h : nat) (s : lib) : Z * lib := enqueue_again 1000 h (enqueue h s).

(** [urdma_alloc_context]: whether the allocation of the context succeeds
    (its result is used without a test), the result of [ibv_cmd_get_context],
    and whether the allocation of the handle succeeds, are arguments.  The
    result is the context or the value of errno: 1 for any failure of
    [ibv_cmd_get_context], since the comparison is what is assigned.  When the
    ring is full the handle is freed and the context is not. *)
Definition urdma_alloc_context (ctx_ok : bool) (cmd_ret : Z) (h_ok : bool) (s : lib) : outcome ((nat + Z) * lib) :=
  if negb ctx_ok then Fault BadPointer else
  let c := lb_next s in
  let h := lb_next s in
  let ret := Z.b2z (negb (cmd_ret =? 0)) in
  if negb (ret =? 0) then Ok (inr ret, s) else
  if negb h_ok then Ok (inr ENOMEM, s) else
  let '(ret, s) := driver_add_context h (s <| lb_next ::= S |>
    <| lb_ctxs ::= <[c := (Context_ 0 [] [], h)]> |> <| lb_handles ::= <[h := Some c]> |>) in
  if (ret <? 0) && negb (ret =? - EDQUOT) then Ok (inr ret, s <| lb_handles ::= delete h |>)
  else Ok (inl c, s).

(** [urdma_free_context]: the handle may be gone if the context was closed
    before. *)
Definition urdma_free_context (c : nat) (s : lib) : outcome lib :=
  match lb_ctxs s !! c with
  | None => Fault BadPointer
  | Some (_, h) =>
      match lb_handles s !! h with
      | None => Fault BadPointer
      | Some _ => Ok (s <| lb_handles ::= <[h := None]> |>)
      end
  end.

(** ** A round of the loop *)

Section round.
Context (al : Z -> start_allocs) (rx : Z -> list rx_mbuf).

(** What [kni_qp_step] sees of the state for queue pair [n] of context [c]. *)
Definition qp_world (c : nat) (n : Z) (s : lib) : option (world * nat * nat) :=
  '(qp, pd) ← lb_qps s !! n;
  t ← lb_pds s !! pd;
  '(ctx, h) ← lb_ctxs s !! c;
  Some (World qp (lb_cqs s) t (lb_mem s) (lb_env s) (lb_wire s) (lb_events s) ctx (lb_tx_bound s), pd, h).

Definition put_world (c : nat) (n : Z) (pd h : nat) (w : world) (s : lib) : lib :=
  s <| lb_qps ::= <[n := (w_qp w, pd)]> |> <| lb_pds ::= <[pd := w_pd w]> |> <| lb_ctxs ::= <[c := (w_ctx w, h)]> |>
    <| lb_cqs := w_cqs w |> <| lb_mem := w_mem w |> <| lb_env := w_env w |> <| lb_wire := w_wire w |>
    <| lb_events := w_events w |>.

(** The body of the loop over queue pairs: one that was destroyed is gone. *)
Definition visit_qp (c : nat) (n : Z) (s : lib) : outcome lib :=
  match qp_world c n s with
  | None => Fault BadPointer
  | Some (w, pd, h) =>
      '(r, w') ← kni_qp_step (al n) (rx n) w;
      let s' := put_world c n pd h w' s in
      Ok (match r with KniRemoved true => s' <| lb_qps ::= delete n |> | _ => s' end)
  end.

(** The loop over the queue pairs that are on the list when it starts: the
    body removes the current one at most. *)
Fixpoint visit_qps (c : nat) (ns : list Z) (s : lib) : outcome lib :=
  match ns with
  | [] => Ok s
  | n :: ns => s ← visit_qp c n s; visit_qps c ns s
  end.

(** The body of the loop over handles. *)
Definition visit_handle (h : nat) (s : lib) : outcome lib :=
  match lb_handles s !! h with
  | None => Fault BadPointer
  | Some None => Ok (s <| lb_list ::= filter (fun h' => h' <> h) |> <| lb_handles ::= delete h |>)
  | Some (Some c) =>
      match lb_ctxs s !! c with
      | None => Fault BadPointer
      | Some (ctx, _) => visit_qps c (qp_active ctx) s
      end
  end.
Fixpoint visit_handles (hs : list nat) (s : lib) : outcome lib :=
  match hs with
  | [] => Ok s
  | h :: hs => s ← visit_handle h s; visit_handles hs s
  end.

(** The handles that are new join the list. *)
Definition add_new (s : lib) : lib :=
  s <| lb_list := lb_list s ++ take NEW_CTX_MAX (lb_new s) |> <| lb_new := drop NEW_CTX_MAX (lb_new s) |>.

(** One round of [kni_loop]. *)
Definition kni_round (s : lib) : outcome lib :=
  let s := add_new s in visit_handles (lb_list s) s.
End round.

(** ** Invariants of single steps, for all queue pairs *)

Section lift.
Context (al : Z -> start_allocs) (rx : Z -> list rx_mbuf).
(** [I] concerns a queue pair, a table of regions, the completion queues and
    memory, and a step for one queue pair keeps it. *)
Context (Iq : Z -> usiw_qp -> Prop) (It : usiw_mr_table -> Prop) (Ic : list usiw_cq -> Prop) (Im : gmap Z Z -> Prop).
Definition parts_ok (n : Z) (w : world) : Prop := Iq n (w_qp w) /\ It (w_pd w) /\ Ic (w_cqs w) /\ Im (w_mem w).
Definition lib_ok (s : lib) : Prop :=
  (forall n qp pd, lb_qps s !! n = Some (qp, pd) -> Iq n qp) /\ (forall pd t, lb_pds s !! pd = Some t -> It t) /\
  Ic (lb_cqs s) /\ Im (lb_mem s).
Hypothesis step_ok : forall n w r w', parts_ok n w -> kni_qp_step (al n) (rx n) w = Ok (r, w') -> parts_ok n w'.

Lemma visit_qp_lift c n s s' : lib_ok s -> visit_qp al rx c n s = Ok s' -> lib_ok s'.
Proof using step_ok.
  intros (H1 & H2 & H3 & H4) H. unfold visit_qp in H. destruct (qp_world c n s) as [[[w pd] h]|] eqn:Ew; [|done].
  apply bind_ok in H as ([r w'] & Hk & H). injection H as <-.
  assert (parts_ok n w) as Hw.
  { unfold qp_world in Ew. destruct (lb_qps s !! n) as [[qp pd']|] eqn:Eq; [|done]. simpl in Ew.
    destruct (lb_pds s !! pd') as [t|] eqn:Et; [|done]. simpl in Ew. destruct (lb_ctxs s !! c) as [[ctx h']|]; [|done].
    simpl in Ew. injection Ew as <- _ _. split; [by eapply H1|]. split; [by eapply H2|done]. }
  destruct (step_ok _ _ _ _ Hw Hk) as (W1 & W2 & W3 & W4).
  assert (lib_ok (put_world c n pd h w' s)) as (P1 & P2 & P3 & P4).
  { unfold lib_ok. simpl. split; [|split; [|done]].
    - intros m qp pd'. rewrite lookup_insert_Some. intros [[<- [= <- _]]|[_ ?]]; [done|by eapply H1].
    - intros pd' t. rewrite lookup_insert_Some. intros [[_ <-]|[_ ?]]; [done|by eapply H2]. }
  destruct r as [|[]]; [done| |done]. split; [|done]. intros m qp pd'. simpl. rewrite lookup_delete_Some.
  intros [_ Hm]. by eapply P1.
Qed.

Lemma visit_qps_lift c ns : forall s s', lib_ok s -> visit_qps al rx c ns s = Ok s' -> lib_ok s'.
Proof using step_ok.
  induction ns as [|n ns IH]; intros s s' Hs H; simpl in H; [by injection H as <-|].
  apply bind_ok in H as (s1 & H1 & H). by eapply IH, H; eapply visit_qp_lift.
Qed.

Lemma kni_round_lift s s' : lib_ok s -> kni_round al rx s = Ok s' -> lib_ok s'.
Proof using step_ok.
  unfold kni_round. generalize (lb_list (add_new s)) as hs. intros hs Hs.
  assert (lib_ok (add_new s)) as Ha by done. revert Ha. generalize (add_new s). clear s Hs.
  induction hs as [|h hs IH]; intros s Hs H; simpl in H; [by injection H as <-|].
  apply bind_ok in H as (s1 & H1 & H). eapply IH, H. unfold visit_handle in H1.
  destruct (lb_handles s !! h) as [[c|]|]; [|by injection H1 as <-|done].
  destruct (lb_ctxs s !! c) as [[ctx h']|]; [|done]. by eapply visit_qps_lift.
Qed.
End lift.

(** ** The handles *)

(** The context behind a handle, when it was not closed. *)
Definition live (s : lib) (h : nat) : option nat := lb_handles s !! h ≫= id.
Lemma live_handle s h c : live s h = Some c <-> lb_handles s !! h = Some (Some c).
Proof. unfold live. destruct (lb_handles s !! h) as [[]|]; simpl; split; by try intros [= ->]. Qed.

(** Every handle in the list or the ring is allocated, once, and points to its
    context or to none; the contexts that they point to are those that are
    open, [cs], in the order in which they were opened. *)
Record handles_ok (cs : list nat) (s : lib) : Prop := HandlesOk {
  ho_open : omap (live s) (lb_list s ++ lb_new s) = cs;
  ho_nodup : NoDup (lb_list s ++ lb_new s);
  ho_ring : (length (lb_new s) <= NEW_CTX_MAX)%nat;
  ho_dom : forall h, h ∈ lb_list s ++ lb_new s <-> is_Some (lb_handles s !! h);
  ho_ctx : forall h c, lb_handles s !! h = Some (Some c) -> exists ctx, lb_ctxs s !! c = Some (ctx, h);
  ho_fresh : forall h, is_Some (lb_handles s !! h) -> (h < lb_next s)%nat;
  ho_fresh_ctx : forall c, is_Some (lb_ctxs s !! c) -> (c < lb_next s)%nat
}.

(** What is not about handles may change. *)
Record same_handles (s s' : lib) : Prop := SameHandles {
  sh_list : lb_list s' = lb_list s;
  sh_new : lb_new s' = lb_new s;
  sh_handles : lb_handles s' = lb_handles s;
  sh_next : lb_next s' = lb_next s;
  sh_ctxs : forall c h, (exists ctx, lb_ctxs s' !! c = Some (ctx, h)) <-> exists ctx, lb_ctxs s !! c = Some (ctx, h)
}.
Lemma same_handles_refl s : same_handles s s.
Proof. done. Qed.
Lemma same_handles_trans s1 s2 s3 : same_handles s1 s2 -> same_handles s2 s3 -> same_handles s1 s3.
Proof. intros [? ? ? ? C1] [? ? ? ? C2]. split; [congruence..|]. intros c h. by rewrite C2, C1. Qed.

Lemma same_handles_ok cs s s' : handles_ok cs s -> same_handles s s' -> handles_ok cs s'.
Proof.
  intros [Ho H1 H0 H2 H3 H4 H5] [E1 E2 E3 E4 E5].
  assert (Ev : live s' = live s) by (unfold live; by rewrite E3). split; rewrite ?Ev, ?E1, ?E2, ?E3, ?E4; try done.
  - intros h c Hh. by apply E5, H3.
  - intros c [[ctx h] Hc]. destruct (proj1 (E5 c h)) as [ctx' Hc']; [eauto|]. apply H5. eauto.
Qed.

Section visits.
Context (al : Z -> start_allocs) (rx : Z -> list rx_mbuf).

Lemma visit_qp_handles c n s s' : visit_qp al rx c n s = Ok s' -> same_handles s s'.
Proof.
  unfold visit_qp. destruct (qp_world c n s) as [[[w pd] h]|] eqn:Ew; [|done]. intros H.
  apply bind_ok in H as ([r w'] & _ & H). injection H as <-.
  assert (exists ctx, lb_ctxs s !! c = Some (ctx, h)) as [ctx Hc].
  { unfold qp_world in Ew. destruct (lb_qps s !! n) as [[qp pd']|]; [|done]. simpl in Ew.
    destruct (lb_pds s !! pd'); [|done]. simpl in Ew. destruct (lb_ctxs s !! c) as [[ctx h']|]; [|done].
    simpl in Ew. injection Ew as _ _ <-. eauto. }
  assert (same_handles s (put_world c n pd h w' s)) as [? ? ? ? Hs].
  { split; try done. intros c' h'. simpl. destruct (decide (c = c')) as [<-|Hne].
    - rewrite lookup_insert_eq, Hc. split; intros [x [= _ <-]]; eauto.
    - by rewrite lookup_insert_ne. }
  by destruct r as [|[]].
Qed.

Lemma visit_qps_handles c ns : forall s s', visit_qps al rx c ns s = Ok s' -> same_handles s s'.
Proof.
  induction ns as [|n ns IH]; intros s s' H; simpl in H; [by injection H as <-|].
  apply bind_ok in H as (s1 & H1 & H). eapply same_handles_trans; [by eapply visit_qp_handles|by apply IH].
Qed.

(** A visit of queue pairs does not look at the handles. *)
Definition set_handles (l : list nat) (hs : gmap nat (option nat)) (s : lib) : lib :=
  s <| lb_list := l |> <| lb_handles := hs |>.

Lemma set_handles_id l hs s : l = lb_list s -> hs = lb_handles s -> set_handles l hs s = s.
Proof. intros -> ->. by destruct s. Qed.
Lemma set_handles_twice l l' hs hs' s : set_handles l hs (set_handles l' hs' s) = set_handles l hs s.
Proof. done. Qed.
Lemma set_handles_eq l l' hs hs' s : l = l' -> hs = hs' -> set_handles l hs s = set_handles l' hs' s.
Proof. by intros -> ->. Qed.

Lemma visit_qps_frame c l hs ns : forall s,
  visit_qps al rx c ns (set_handles l hs s) = (s' ← visit_qps al rx c ns s; Ok (set_handles l hs s')).
Proof.
  induction ns as [|n ns IH]; intros s; [done|]. cbn [visit_qps].
  assert (visit_qp al rx c n (set_handles l hs s) = (s' ← visit_qp al rx c n s; Ok (set_handles l hs s'))) as ->.
  { unfold visit_qp. change (qp_world c n (set_handles l hs s)) with (qp_world c n s).
    destruct (qp_world c n s) as [[[w pd] h]|]; [|done].
    destruct (kni_qp_step (al n) (rx n) w) as [[r w']|]; [|done]. simpl. by destruct r as [|[]]. }
  destruct (visit_qp al rx c n s) as [s1|]; [|done]. simpl. apply IH.
Qed.

(** The queue pairs of the contexts [cs], one context after the other. *)
Fixpoint visit_ctxs (cs : list nat) (s : lib) : outcome lib :=
  match cs with
  | [] => Ok s
  | c :: cs =>
      match lb_ctxs s !! c with
      | None => Fault BadPointer
      | Some (ctx, _) => s ← visit_qps al rx c (qp_active ctx) s; visit_ctxs cs s
      end
  end.

Lemma visit_ctxs_frame l hs cs : forall s,
  visit_ctxs cs (set_handles l hs s) = (s' ← visit_ctxs cs s; Ok (set_handles l hs s')).
Proof.
  induction cs as [|c cs IH]; intros s; [done|]. cbn [visit_ctxs].
  change (lb_ctxs (set_handles l hs s)) with (lb_ctxs s). destruct (lb_ctxs s !! c) as [[ctx h]|]; [|done].
  rewrite visit_qps_frame. destruct (visit_qps al rx c (qp_active ctx) s) as [s1|]; [|done]. simpl. apply IH.
Qed.

Lemma visit_ctxs_handles cs : forall s s', visit_ctxs cs s = Ok s' -> same_handles s s'.
Proof.
  induction cs as [|c cs IH]; intros s s' H; cbn [visit_ctxs] in H; [by injection H as <-|].
  destruct (lb_ctxs s !! c) as [[ctx h]|]; [|done]. apply bind_ok in H as (s1 & H1 & H).
  eapply same_handles_trans; [by eapply visit_qps_handles|by apply IH].
Qed.

Definition dead (s : lib) (hs : list nat) : list nat := filter (fun h => live s h = None) hs.

Lemma visit_handles_spec hs : forall s, NoDup hs ->
  (forall h, h ∈ hs -> is_Some (lb_handles s !! h)) ->
  (forall h c, lb_handles s !! h = Some (Some c) -> exists ctx, lb_ctxs s !! c = Some (ctx, h)) ->
  visit_handles al rx hs s = (s' ← visit_ctxs (omap (live s) hs) s;
    Ok (set_handles (filter (fun h => h ∉ dead s hs) (lb_list s))
          (filter (fun hc => hc.1 ∉ dead s hs) (lb_handles s)) s')).
Proof.
  induction hs as [|h hs IH]; intros s ND Hh Hc.
  { simpl. f_equal. symmetry. apply set_handles_id; [apply filter_all|apply map_filter_id]; set_solver. }
  apply NoDup_cons in ND as [Hn ND]. cbn [visit_handles]. unfold visit_handle.
  destruct (Hh h) as [[c|] Eh]; [left| |]; rewrite Eh.
  - destruct (Hc h c Eh) as [ctx Ex]. rewrite Ex.
    assert (omap (live s) (h :: hs) = c :: omap (live s) hs) as -> by (simpl; unfold live at 1; by rewrite Eh).
    assert (dead s (h :: hs) = dead s hs) as ->.
    { unfold dead. rewrite filter_cons_False; [done|]. unfold live. by rewrite Eh. }
    cbn [visit_ctxs]. rewrite Ex. destruct (visit_qps al rx c (qp_active ctx) s) as [s1|] eqn:E1; [|done]. simpl.
    destruct (visit_qps_handles _ _ _ _ E1) as [L1 _ H1 _ C1].
    assert (live s1 = live s) as El by (unfold live; by rewrite H1). unfold dead in *. rewrite <- El, <- L1, <- H1.
    apply IH; [done|rewrite H1; set_solver|]. intros h' c'. rewrite H1. intros E. by apply C1, Hc.
  - assert (omap (live s) (h :: hs) = omap (live s) hs) as -> by (simpl; unfold live at 1; by rewrite Eh).
    assert (dead s (h :: hs) = h :: dead s hs) as ->.
    { unfold dead. rewrite filter_cons_True; [done|]. unfold live. by rewrite Eh. }
    cbn [mbind outcome_bind].
    set (s1 := set_handles (filter (fun h' => h' <> h) (lb_list s)) (delete h (lb_handles s)) s).
    match goal with |- visit_handles _ _ _ ?x = _ => change x with s1 end.
    assert (El : forall h', h' ∈ hs -> live s1 h' = live s h').
    { intros h' Hin. unfold live. simpl. by rewrite lookup_delete_ne by set_solver. }
    rewrite (IH s1); [|done| |].
    + assert (omap (live s1) hs = omap (live s) hs) as -> by (by apply list_omap_ext, Forall_Forall2_diag, Forall_forall).
      assert (dead s1 hs = dead s hs) as ->.
      { unfold dead. clear -El. induction hs as [|x l IH]; [done|]. rewrite !filter_cons, El by left.
        rewrite IH; [done|]. intros h' Hh. apply El. by right. }
      assert (visit_ctxs (omap (live s) hs) s1 = (s' ← visit_ctxs (omap (live s) hs) s;
        Ok (set_handles (lb_list s1) (lb_handles s1) s'))) as -> by apply visit_ctxs_frame.
      destruct (visit_ctxs (omap (live s) hs) s) as [s2|]; [|done]. simpl. f_equal.
      rewrite set_handles_twice. apply set_handles_eq; [rewrite list_filter_filter; apply list_filter_iff; set_solver|].
      apply map_eq. intros i. apply option_eq. intros x. rewrite !map_lookup_filter_Some, lookup_delete_Some.
      simpl. set_solver.
    + intros h' Hin. simpl. rewrite lookup_delete_ne by set_solver. apply Hh. by right.
    + intros h' c. simpl. rewrite lookup_delete_Some. intros [_ E]. by apply Hc.
Qed.

(** The list and the handles without those whose context was freed. *)
Definition drop_dead (s : lib) : lib :=
  set_handles (filter (fun h => is_Some (live s h)) (lb_list s)) (filter (fun hc => is_Some hc.2) (lb_handles s)) s.

Lemma add_new_ok cs s : handles_ok cs s -> handles_ok cs (add_new s) /\ lb_new (add_new s) = [].
Proof.
  intros [Ho H1 H0 H2 H3 H4 H5]. unfold add_new. rewrite firstn_all2, skipn_all2 by done.
  split; [|done]. split; simpl; rewrite ?app_nil_r; done || lia.
Qed.

Lemma kni_round_ref cs s : handles_ok cs s ->
  kni_round al rx s = (s' ← visit_ctxs cs (add_new s); Ok (drop_dead s')).
Proof.
  intros Hs. destruct (add_new_ok cs s Hs) as [[Ho H1 _ H2 H3 _ _] En]. rewrite En, app_nil_r in *. unfold kni_round.
  rewrite (visit_handles_spec (lb_list (add_new s))); [|done|intros h; apply H2|intros h c; apply H3].
  rewrite Ho. destruct (visit_ctxs _ _) as [s'|] eqn:E; [|done]. simpl. f_equal.
  destruct (visit_ctxs_handles _ _ _ E) as [L1 _ Hh _ _]. unfold drop_dead.
  assert (Hv : live s' = live (add_new s)) by (unfold live; by rewrite Hh).
  assert (Hd : forall h, h ∈ lb_list (add_new s) ->
    h ∉ dead (add_new s) (lb_list (add_new s)) <-> is_Some (live (add_new s) h)).
  { intros h Hin. unfold dead. rewrite list_elem_of_filter, <- not_eq_None_Some. tauto. }
  apply set_handles_eq.
  - rewrite L1, Hv. by apply filter_iff_in.
  - rewrite Hh. apply map_filter_ext. intros h x Hx. simpl. rewrite Hd by (apply H2; by rewrite Hx).
    unfold live. by rewrite Hx.
Qed.

Lemma drop_dead_live s (l : list nat) : omap (live (drop_dead s)) (filter (fun h => is_Some (live s h)) l) = omap (live s) l.
Proof.
  induction l as [|h l IH]; [done|]. rewrite filter_cons. destruct (live s h) as [c|] eqn:E.
  - case_decide as Hd; [|by destruct Hd]. assert (live (drop_dead s) h = Some c) as E'.
    { apply live_handle. simpl. apply map_lookup_filter_Some. split; [by apply live_handle|done]. }
    simpl. rewrite E', E. f_equal. exact IH.
  - case_decide as Hd; [by destruct Hd|]. simpl. rewrite E. exact IH.
Qed.

Lemma drop_dead_handles cs s : handles_ok cs s -> lb_new s = [] -> handles_ok cs (drop_dead s).
Proof.
  intros [Ho H1 H0 H2 H3 H4 H5] En. rewrite En in *. rewrite app_nil_r in *.
  assert (lb_new (drop_dead s) = []) as En' by done.
  split; rewrite ?En', ?app_nil_r.
  - rewrite <- Ho. apply drop_dead_live.
  - by apply NoDup_filter.
  - simpl. lia.
  - intros h. simpl. rewrite list_elem_of_filter, H2. unfold live. split.
    + intros [Hl [x Hx]]. rewrite Hx in Hl. exists x. apply map_lookup_filter_Some. done.
    + intros [x [Hx Hs]%map_lookup_filter_Some]. rewrite Hx. done.
  - intros h c [Hx _]%map_lookup_filter_Some. by apply H3.
  - intros h [x [Hx _]%map_lookup_filter_Some]. apply H4. eauto.
  - done.
Qed.

Lemma kni_round_handles cs s s' : handles_ok cs s -> kni_round al rx s = Ok s' -> handles_ok cs s'.
Proof.
  intros Hs H. rewrite (kni_round_ref cs) in H by done. apply bind_ok in H as (s1 & H1 & H). injection H as <-.
  destruct (add_new_ok cs s Hs) as [Ha En]. pose proof (visit_ctxs_handles _ _ _ H1) as Hh.
  apply drop_dead_handles; [by eapply same_handles_ok|]. by rewrite (sh_new _ _ Hh).
Qed.
End visits.

(** Another try finds the ring as the first one did. *)
Lemma add_context_once h s : driver_add_context h s = enqueue h s.
Proof.
  unfold driver_add_context. generalize 1000%nat as i. induction i as [|i IH]; [done|]. simpl.
  unfold enqueue at 1 3. destruct (length (lb_new s) <? NEW_CTX_MAX)%nat eqn:E; simpl.
  - unfold enqueue. by rewrite E.
  - rewrite IH. done.
Qed.

Definition opened (cs : list nat) (r : nat + Z) : list nat :=
  match r with inl c => cs ++ [c] | inr _ => cs end.

Lemma alloc_handles ctx_ok cmd_ret h_ok cs s r s' : handles_ok cs s ->
  urdma_alloc_context ctx_ok cmd_ret h_ok s = Ok (r, s') -> handles_ok (opened cs r) s'.
Proof.
  intros Hs H. pose proof Hs as [Ho H1 H0 H2 H3 H4 H5]. unfold urdma_alloc_context in H.
  destruct ctx_ok; [|done]. destruct (cmd_ret =? 0); [|by injection H as <- <-].
  destruct h_ok; [|by injection H as <- <-]. simpl in H. rewrite add_context_once in H.
  assert (Hn : lb_handles s !! lb_next s = None) by (apply eq_None_not_Some; intros ?%H4; lia).
  assert (Hc : lb_ctxs s !! lb_next s = None) by (apply eq_None_not_Some; intros ?%H5; lia).
  assert (Hni : lb_next s ∉ lb_list s ++ lb_new s) by (rewrite H2, Hn; by intros [??]).
  unfold enqueue in H. simpl in H. destruct (Nat.ltb_spec (length (lb_new s)) NEW_CTX_MAX) as [Hlt|Hge];
    simpl in H; injection H as <- <-.
  - split; simpl; rewrite ?app_assoc.
    + rewrite omap_app, <- Ho. f_equal.
      * apply list_omap_ext, Forall_Forall2_diag, Forall_forall. intros h Hh. unfold live. simpl.
        by rewrite lookup_insert_ne by (intros E; by rewrite E in Hni).
      * simpl. unfold live. simpl. by rewrite lookup_insert_eq.
    + apply NoDup_app. split; [done|]. split; [set_solver|apply NoDup_singleton].
    + rewrite length_app. simpl. lia.
    + intros h. rewrite elem_of_app, H2, list_elem_of_singleton, lookup_insert_is_Some'. clear. naive_solver.
    + intros h c. setoid_rewrite lookup_insert_Some. intros [[<- [= <-]]|[_ [ctx Hx]%H3]]; [eauto|].
      exists ctx. right. split; [|done]. intros <-. by rewrite Hc in Hx.
    + intros h. rewrite lookup_insert_is_Some'. intros [<-|?%H4]; lia.
    + intros c. rewrite lookup_insert_is_Some'. intros [<-|?%H5]; lia.
  - split; simpl; unfold live; simpl; rewrite ?delete_insert_id by done; try done.
    + intros h c [ctx Hx]%H3. exists ctx. rewrite lookup_insert_ne; [done|]. intros <-. by rewrite Hc in Hx.
    + intros h ?%H4. lia.
    + intros c. rewrite lookup_insert_is_Some'. intros [<-|?%H5]; lia.
Qed.

(** An open context has a handle that points to it. *)
Lemma open_handle cs s c : handles_ok cs s -> c ∈ cs ->
  exists ctx h, lb_ctxs s !! c = Some (ctx, h) /\ lb_handles s !! h = Some (Some c).
Proof.
  intros Hs Hc. rewrite <- (ho_open _ _ Hs) in Hc. apply list_elem_of_omap in Hc as (h & _ & Hh%live_handle).
  destruct (ho_ctx _ _ Hs h c Hh) as [ctx Hx]. eauto.
Qed.

Lemma open_NoDup cs s : handles_ok cs s -> NoDup cs.
Proof.
  intros Hs. rewrite <- (ho_open _ _ Hs). apply NoDup_omap_inj; [apply Hs|].
  intros h1 h2 c E1%live_handle E2%live_handle.
  apply (ho_ctx _ _ Hs) in E1 as [ctx1 E1]. apply (ho_ctx _ _ Hs) in E2 as [ctx2 E2]. congruence.
Qed.

Lemma omap_close (f g : nat -> option nat) (c : nat) (l : list nat) :
  (forall h, f h = Some c -> g h = None) -> (forall h, f h <> Some c -> g h = f h) ->
  omap g l = filter (fun c' => c' <> c) (omap f l).
Proof.
  intros H1 H2. induction l as [|h l IH]; [done|]. simpl. destruct (decide (f h = Some c)) as [E|E].
  - rewrite (H1 h E), E. rewrite filter_cons_False by auto. exact IH.
  - rewrite (H2 h E). destruct (f h) as [c'|]; [|exact IH].
    rewrite filter_cons_True by congruence. f_equal. exact IH.
Qed.

Lemma free_handles cs c s s' : handles_ok cs s -> c ∈ cs -> urdma_free_context c s = Ok s' ->
  handles_ok (filter (fun c' => c' <> c) cs) s'.
Proof.
  intros Hs Hin H. destruct (open_handle cs s c Hs Hin) as (ctx & h & Ec & Eh). pose proof Hs as [Ho H1 H0 H2 H3 H4 H5].
  unfold urdma_free_context in H. rewrite Ec, Eh in H. injection H as <-. split; simpl; try done.
  - rewrite <- Ho. apply omap_close; intros h' Hx.
    + apply live_handle, H3 in Hx as [ctx' Hx]. assert (h = h') as <- by congruence.
      unfold live. simpl. by rewrite lookup_insert_eq.
    + unfold live. simpl. rewrite lookup_insert_ne; [done|]. intros <-. destruct Hx. by apply live_handle.
  - intros h'. rewrite lookup_insert_is_Some', H2. split; [by right|]. intros [<-|?]; [|done]. by rewrite Eh.
  - intros h' c'. rewrite lookup_insert_Some. intros [[_ ?]|[_ ?]]; [done|]. by apply H3.
  - intros h'. rewrite lookup_insert_is_Some'. intros [<-|?]; apply H4; [by rewrite Eh|done].
Qed.

(** ** Reachable states *)

(** The application opens contexts, and closes those that are open; it and the
    kernel change what is not about handles; and the progress thread makes
    rounds.  The list has the contexts that are open. *)
Inductive lib_reach (s0 : lib) : list nat -> lib -> Prop :=
| lib_start : lib_reach s0 [] s0
| lib_alloc ctx_ok cmd_ret h_ok cs s r s' : lib_reach s0 cs s ->
    urdma_alloc_context ctx_ok cmd_ret h_ok s = Ok (r, s') -> lib_reach s0 (opened cs r) s'
| lib_free c cs s s' : lib_reach s0 cs s -> c ∈ cs -> urdma_free_context c s = Ok s' ->
    lib_reach s0 (filter (fun c' => c' <> c) cs) s'
| lib_app cs s s' : lib_reach s0 cs s -> same_handles s s' -> lib_reach s0 cs s'
| lib_round al rx cs s s' : lib_reach s0 cs s -> kni_round al rx s = Ok s' -> lib_reach s0 cs s'.

(** The driver before the first context. *)
Definition no_context (s : lib) : Prop :=
  lb_list s = [] /\ lb_new s = [] /\ lb_handles s = ∅ /\ lb_ctxs s = ∅.

Lemma no_context_ok s : no_context s -> handles_ok [] s.
Proof.
  intros (E1 & E2 & E3 & E4). split; rewrite ?E1, ?E2, ?E3, ?E4; simpl.
  - done.
  - constructor.
  - lia.
  - intros h. rewrite lookup_empty. split; [by intros ?%elem_of_nil|by intros [??]].
  - intros h c. by rewrite lookup_empty.
  - intros h [x Hx]. by rewrite lookup_empty in Hx.
  - intros c [x Hx]. by rewrite lookup_empty in Hx.
Qed.

Lemma lib_reach_handles s0 cs s : no_context s0 -> lib_reach s0 cs s -> handles_ok cs s.
Proof.
  intros H0. induction 1; [by apply no_context_ok|by eapply alloc_handles|by eapply free_handles|
    by eapply same_handles_ok|by eapply kni_round_handles].
Qed.

(** C30: However contexts are opened, closed once each, and rounds are made, a
    round of the progress thread is the visit of the queue pairs of exactly
    the contexts that are open, each once, in the order in which they were
    opened, followed by the removal of the handles of the closed ones; and an
    open context can be closed without use of a freed handle. *)
Theorem kni_round_visits s0 cs s al rx : no_context s0 -> lib_reach s0 cs s ->
  NoDup cs /\
  (forall c, c ∈ cs -> is_Some (lb_ctxs s !! c) /\ exists s', urdma_free_context c s = Ok s') /\
  kni_round al rx s = (s' ← visit_ctxs al rx cs (add_new s); Ok (drop_dead s')).
Proof.
  intros H0 Hr. pose proof (lib_reach_handles s0 cs s H0 Hr) as Hs.
  split; [by eapply open_NoDup|]. split; [|by apply kni_round_ref].
  intros c Hc. destruct (open_handle cs s c Hs Hc) as (ctx & h & Ec & Eh). unfold urdma_free_context.
  rewrite Ec, Eh. eauto.
Qed.
End Loop.

(** ** What a round keeps *)

(** C2: Whatever packets arrive for whichever queue pairs, a round of the
    progress thread over all contexts and queue pairs that returns has written
    application memory only inside registered memory regions and posted
    receive buffers, provided that no region reaches the end of the address
    space, posted buffers are well formed and memory lies in user space. *)
Theorem kni_round_memory_safe {D : Dpdk} {L : DpdkLaws D} (al : Z -> start_allocs) (rx : Z -> list rx_mbuf)
    (s s' : lib) (a : Z) :
  (forall pd t c mr, lb_pds s !! pd = Some t -> mr_deref t c = Ok mr ->
     0 <= mr_addr mr /\ 0 <= mr_length mr /\ mr_addr mr + mr_length mr < 2 ^ 64) ->
  (forall n qp pd i x, lb_qps s !! n = Some (qp, pd) -> i ∈ posted (qp_rq0 qp) -> rq_storage (qp_rq0 qp) !! i = Some x ->
     iov_wf (r_iov x)) ->
  user_space (lb_mem s) ->
  kni_round al rx s = Ok s' ->
  (forall pd t c mr, lb_pds s !! pd = Some t -> mr_deref t c = Ok mr -> ~ mr_addr mr <= a < mr_addr mr + mr_length mr) ->
  (forall n qp pd i x, lb_qps s !! n = Some (qp, pd) -> i ∈ posted (qp_rq0 qp) -> rq_storage (qp_rq0 qp) !! i = Some x ->
     a ∉ iov_addrs (r_iov x)) ->
  lb_mem s' !! a = lb_mem s !! a.
Proof.
  intros Hpd Hrq Hu H Hnmr Hnrq. set (A := fun b => b <> a). set (m0 := lb_mem s).
  set (Im := fun m : gmap Z Z => (forall b, ~ A b -> m !! b = m0 !! b) /\ forall b, is_Some (m !! b) <-> is_Some (m0 !! b)).
  enough (lib_ok (fun _ qp => recv_ok A (qp_rq0 qp)) (fun t => forall c mr, mr_deref t c = Ok mr -> region_ok A mr)
    (fun _ => True) Im s') as (_ & _ & _ & Hm & _) by (apply Hm; unfold A; lia).
  revert H. apply kni_round_lift.
  - intros n w r w' (H1 & H2 & _ & H3 & H4) Hk.
    enough (confined A m0 w') as [C1 C2 C3 C4] by done.
    revert Hk. apply (pq_kni_step _ (confined_stable A m0 Hu)); [|by split].
    intros w0 ok qp' [C1 C2 C3 C4] [_ E]%start_setup_queues. split; simpl; try done. by rewrite E.
  - split; [|split; [|done]].
    + intros n qp pd Hn i x Hi Hx. split; [by eapply Hrq|]. intros b Hb ->. by eapply Hnrq.
    + intros pd t Ht c mr Hc. destruct (Hpd pd t c mr Ht Hc) as (? & ? & ?). split_and!; try done.
      intros b Hb ->. by eapply Hnmr.
Qed.

(** C8: A round of the progress thread over all contexts and queue pairs that
    returns neither loses nor duplicates a send or receive work queue entry of
    any queue pair nor an entry of any completion queue: each of them is in
    exactly one place afterwards if it was before, whatever packets arrive. *)
Theorem kni_round_conserves {D : Dpdk} {L : DpdkLaws D} (al : Z -> start_allocs) (rx : Z -> list rx_mbuf)
    (held : Z -> list nat * list nat) (s s' : lib) :
  (forall n qp pd, lb_qps s !! n = Some (qp, pd) -> sq_wf (held n).1 (qp_sq qp) /\ rq_wf (held n).2 (qp_rq0 qp)) ->
  Forall cq_wf (lb_cqs s) -> kni_round al rx s = Ok s' ->
  (forall n qp pd, lb_qps s' !! n = Some (qp, pd) -> sq_wf (held n).1 (qp_sq qp) /\ rq_wf (held n).2 (qp_rq0 qp)) /\
  Forall cq_wf (lb_cqs s').
Proof.
  intros Hq Hc H.
  enough (lib_ok (fun n qp => sq_wf (held n).1 (qp_sq qp) /\ rq_wf (held n).2 (qp_rq0 qp)) (fun _ => True)
    (Forall cq_wf) (fun _ => True) s') as (H1 & _ & H3 & _) by done.
  revert H. apply kni_round_lift; [|done].
  intros n w r w' ([H1 H2] & _ & H3 & _) Hk.
  destruct (kni_step_queues (held n).1 (held n).2 w w' (al n) (rx n) r) as (Q1 & Q2 & Q3); done.
Qed.
