(* ===== verification/Receive.v ===== *)
(** * Reassembly of SEND messages

    [process_send] places each segment of a SEND message where its offset
    says and completes the receive entry once all bytes have arrived.  The
    segments of a message, in any order, give the message. *)
From S2P Require Import Prelude Serial Dpdk Binheap Proto Iov State Cq Mr Wqe Frame TrpTx Rdmap Window Segment.

(** ** Segments of a message *)

Abbreviation segment := (Z * bytes * bool)%type (only parsing).

Definition seg_len (s : segment) : Z := len (seg_payload s).
Definition seg_off (s : segment) : Z := fst (fst s).
Definition seg_last (s : segment) : bool := snd s.
Definition segs_len (l : list segment) : Z := foldr Z.add 0 (seg_len <$> l).

Lemma segs_len_cons s l : segs_len (s :: l) = seg_len s + segs_len l.
Proof. done. Qed.

Lemma segs_len_app a b : segs_len (a ++ b) = segs_len a + segs_len b.
Proof. induction a as [|s a IH]; [done|]. cbn [app]. rewrite !segs_len_cons, IH. lia. Qed.

Lemma segs_len_concat l : segs_len l = len (concat (seg_payload <$> l)).
Proof.
  induction l as [|s l IH]; [done|]. rewrite segs_len_cons, IH, fmap_cons. cbn [concat].
  rewrite length_app. unfold seg_len. lia.
Qed.

Lemma segs_len_perm a b : a ≡ₚ b -> segs_len a = segs_len b.
Proof. induction 1; rewrite ?segs_len_cons; lia. Qed.

(** What every segment of the data [data] at offset [off] satisfies. *)
Definition seg_of (off : Z) (data : bytes) (s : segment) : Prop :=
  off <= seg_off s /\ 0 < seg_len s /\ seg_off s + seg_len s <= off + len data /\
  seg_payload s = sub (Z.to_nat (seg_off s - off)) (length (seg_payload s)) data /\
  (seg_last s = true <-> seg_off s + seg_len s = off + len data).

Lemma segments_spec mtu : (0 < mtu)%nat -> forall data off,
  Forall (seg_of off data) (segments mtu off data).
Proof.
  intros Hm data. remember (length data) as n. revert data Heqn.
  induction (lt_wf n) as [n _ IH]. intros data -> off.
  destruct (decide (data = [])) as [->|Hd]; [constructor|].
  assert (0 < length data)%nat by (destruct data; simpl; [done|lia]).
  rewrite segments_cons by done. constructor.
  - unfold seg_of, seg_off, seg_len, seg_last, seg_payload. simpl.
    rewrite length_take, Z.sub_diag. split_and!; try lia.
    + unfold sub. simpl. rewrite drop_0, <- length_take. destruct (decide (mtu <= length data)%nat); [by rewrite length_take, Nat.min_l by lia|].
      by rewrite !take_ge by (rewrite ?length_take; lia).
    + rewrite bool_decide_eq_true. lia.
  - eapply Forall_impl; [apply (IH (length (drop mtu data))); [rewrite length_drop; lia|done]|].
    intros [[o p] la]. unfold seg_of, seg_off, seg_len, seg_last, seg_payload. simpl.
    intros (H1 & H2 & H3 & H4 & H5). rewrite length_drop in *.
    assert (mtu < length data)%nat by lia. split_and!; try lia.
    + rewrite H4 at 1. unfold sub. rewrite drop_drop. do 2 f_equal. lia.
    + rewrite H5. lia.
Qed.

(** At most one segment is marked as the last. *)
Lemma segments_one_last mtu : (0 < mtu)%nat -> forall data off,
  (length (filter (fun s => seg_last s = true) (segments mtu off data)) <= 1)%nat.
Proof.
  intros Hm data. remember (length data) as n. revert data Heqn.
  induction (lt_wf n) as [n _ IH]. intros data -> off.
  destruct (decide (data = [])) as [->|Hd]; [simpl; lia|].
  assert (0 < length data)%nat by (destruct data; simpl; [done|lia]).
  rewrite segments_cons by done. rewrite filter_cons. case_decide as Hl.
  - unfold seg_last in Hl. simpl in Hl. apply bool_decide_eq_true in Hl.
    rewrite drop_ge by done. simpl. lia.
  - apply (IH (length (drop mtu data))); [rewrite length_drop; lia|done].
Qed.

(** ** The receive buffer *)

Definition covers (s : segment) (k : nat) : Prop :=
  seg_off s <= Z.of_nat k < seg_off s + seg_len s.

(** The buffer holds the message where a segment has been placed and its old
    content elsewhere. *)
Record holds (msg old : bytes) (placed : list segment) (buf : bytes) : Prop := {
  hd_len : length buf = length old;
  hd_in : forall k s, s ∈ placed -> covers s k -> buf !! k = msg !! k;
  hd_out : forall k, (forall s, s ∈ placed -> ~ covers s k) -> buf !! k = old !! k
}.

Lemma holds_nil msg old : holds msg old [] old.
Proof. split; [done| |done]. intros k s Hs. by apply not_elem_of_nil in Hs. Qed.

Lemma splice_lookup_in {A} off (bs l : list A) k :
  (off <= length l)%nat -> (off <= k < off + length bs)%nat -> splice off bs l !! k = bs !! (k - off)%nat.
Proof.
  intros Hl Hk. unfold splice. rewrite lookup_app_r by (rewrite length_take; lia).
  rewrite length_take, Nat.min_l by lia. rewrite lookup_app_l by lia. done.
Qed.

Lemma splice_lookup_out {A} off (bs l : list A) k :
  (off + length bs <= length l)%nat -> ~ (off <= k < off + length bs)%nat -> splice off bs l !! k = l !! k.
Proof.
  intros Hl Hk. unfold splice. destruct (decide (k < off)%nat).
  - rewrite lookup_app_l by (rewrite length_take; lia). by rewrite lookup_take_lt.
  - rewrite lookup_app_r by (rewrite length_take; lia). rewrite length_take, Nat.min_l by lia.
    rewrite lookup_app_r by lia. rewrite lookup_drop. f_equal. lia.
Qed.

Lemma holds_place msg old placed buf s :
  holds msg old placed buf -> seg_of 0 msg s -> (length msg <= length old)%nat ->
  holds msg old (placed ++ [s]) (splice (Z.to_nat (seg_off s)) (seg_payload s) buf).
Proof.
  intros [Hl Hin Hout] (Ho & Hn & Hle & Hp & _) Hfit. unfold seg_len in *.
  rewrite Z.sub_0_r in Hp.
  assert (forall k, covers s k -> splice (Z.to_nat (seg_off s)) (seg_payload s) buf !! k = msg !! k) as Hs.
  { intros k Hk. unfold covers, seg_len in Hk. rewrite splice_lookup_in by lia. rewrite Hp at 1.
    unfold sub. rewrite lookup_take_lt, lookup_drop by lia. f_equal. lia. }
  assert (forall k, ~ covers s k -> splice (Z.to_nat (seg_off s)) (seg_payload s) buf !! k = buf !! k) as Hns.
  { intros k Hk. unfold covers, seg_len in Hk. apply splice_lookup_out; lia. }
  assert (forall k, Decision (covers s k)) as Hdec by (intros; unfold covers; apply _).
  split.
  - rewrite splice_length; lia.
  - intros k t Ht Hc. destruct (Hdec k) as [Hk|Hk]; [by apply Hs|]. rewrite Hns by done.
    apply elem_of_app in Ht as [Ht| ->%list_elem_of_singleton]; [by eapply Hin|done].
  - intros k Hk. rewrite Hns; [apply Hout|]; intros; apply Hk, elem_of_app; [by left|].
    right. by apply list_elem_of_singleton.
Qed.

(** Some segment covers every byte of the data. *)
Lemma segments_cover mtu : (0 < mtu)%nat -> forall data off k,
  (k < length data)%nat ->
  exists s, s ∈ segments mtu off data /\ seg_off s <= off + Z.of_nat k < seg_off s + seg_len s.
Proof.
  intros Hm data. remember (length data) as n. revert data Heqn.
  induction (lt_wf n) as [n _ IH]. intros data -> off k Hk.
  assert (data <> []) as Hd by (intros ->; simpl in Hk; lia).
  rewrite segments_cons by done. destruct (decide (k < mtu)%nat).
  - eexists. split; [apply list_elem_of_here|]. unfold seg_off, seg_len, seg_payload. simpl.
    rewrite length_take. lia.
  - destruct (IH (length (drop mtu data))) with (data := drop mtu data) (off := off + Z.of_nat mtu)
      (k := (k - mtu)%nat) as (s & Hs & Hc); try (rewrite length_drop; lia).
    exists s. split; [by apply list_elem_of_further|]. lia.
Qed.

Lemma holds_all mtu msg old arr buf :
  (0 < mtu)%nat -> (length msg <= length old)%nat -> arr ≡ₚ segments mtu 0 msg ->
  holds msg old arr buf -> buf = msg ++ drop (length msg) old.
Proof.
  intros Hm Hfit Hp [Hl Hin Hout]. apply list_eq. intros k.
  destruct (decide (k < length msg)%nat) as [Hk|Hk].
  - rewrite lookup_app_l by done.
    destruct (segments_cover mtu Hm msg 0 k Hk) as (s & Hs & Hc). apply (Hin k s); [by rewrite Hp|].
    unfold covers. lia.
  - rewrite lookup_app_r by lia. rewrite lookup_drop. replace (length msg + _)%nat with k by lia.
    apply Hout. intros s Hs Hc. rewrite Hp in Hs.
    pose proof (proj1 (Forall_forall _ _) (segments_spec mtu Hm msg 0) s Hs) as (? & ? & ? & _).
    unfold covers in Hc. lia.
Qed.

(** ** One segment *)

Section Receive.
Context {D : Dpdk} {L : DpdkLaws D}.

(** A segment of the message of request [sx] as it arrives: its PSN, and what
    follows it in the data room. *)
Definition arrival_ctx (sx : usiw_send_wqe) (a : segment * Z * bytes) : packet_context :=
  let '(s, psn, rest) := a in
  {| ctx_seg_length := Z.of_nat sizeof_untagged + seg_len s;
     ctx_rdmap := seg_data send_header sx s ++ rest; ctx_psn := psn |}.

(** Entry [x] after segments of [recv] bytes in total, the last one among
    them when [input] is not 0. *)
Definition received_entry (x : usiw_recv_wqe) (recv input : Z) : usiw_recv_wqe :=
  x <| r_recv_size := recv |> <| r_input_size := input |>
    <| r_complete := r_complete x || (recv =? input) |>.

Definition after_place (w : world) (i : nat) (x' : usiw_recv_wqe) (m' : gmap Z Z) : world :=
  w <| w_mem := m' |> <| w_qp ::= update qp_rq0 (update rq_storage (fun st => <[i := x']> st)) |>.

(** A buffer big enough for the message, at distinct addresses. *)
Record rbuf (w : world) (x : usiw_recv_wqe) (buf : bytes) : Prop := {
  rb_wf : iov_wf (r_iov x);
  rb_nodup : NoDup (iov_addrs (r_iov x));
  rb_total : r_total_request_size x = iov_total (r_iov x);
  rb_gather : gather (w_mem w) (iov_addrs (r_iov x)) = Ok buf
}.

Lemma upd_rwqe_at w i x f m :
  rq_storage (qp_rq0 (w_qp w)) !! i = Some x ->
  upd_rwqe i f (w <| w_mem := m |>) = Ok (tt, after_place w i (f x) m).
Proof. intros Hx. cbv [upd_rwqe upd_rq upd_qp modify after_place]. simpl. by rewrite (alter_insert f i _ x). Qed.

Lemma after_place_at w i x y m :
  rq_storage (qp_rq0 (w_qp w)) !! i = Some x ->
  rq_storage (qp_rq0 (w_qp (after_place w i y m))) !! i = Some y.
Proof. intros Hx. simpl. apply list_lookup_insert_eq. by eapply lookup_lt_Some. Qed.

Lemma after_place_twice w i y1 y2 m1 m2 :
  after_place (after_place w i y1 m1) i y2 m2 = after_place w i y2 m2.
Proof. unfold after_place. simpl. by rewrite list_insert_insert_eq. Qed.

Lemma get_rwqe_at w i x : rq_storage (qp_rq0 (w_qp w)) !! i = Some x -> get_rwqe i w = Ok (x, w).
Proof. intros Hx. unfold get_rwqe. by rewrite Hx. Qed.

Lemma after_place_same w i x : rq_storage (qp_rq0 (w_qp w)) !! i = Some x ->
  after_place w i x (w_mem w) = w.
Proof. intros Hx. unfold after_place. simpl. rewrite list_insert_id by done. by destruct w as [[? ? ? ? ? ? ? ? []]]. Qed.

Lemma set_input_ok w i x (l : bool) n input' :
  rq_storage (qp_rq0 (w_qp w)) !! i = Some x ->
  (l = true -> r_input_size x = 0 /\ input' = n) -> (l = false -> input' = r_input_size x) ->
  let x1 := x <| r_input_size := input' |> in
  exists w1, w1 = after_place w i x1 (w_mem w) /\ rq_storage (qp_rq0 (w_qp w1)) !! i = Some x1 /\
    l && negb (r_input_size x =? 0) = false /\
    (if l then upd_rwqe i (fun w : usiw_recv_wqe => w <| r_input_size := n |>) else mret tt) w = Ok (tt, w1).
Proof.
  intros Hx Hl Hnl x1.
  exists (after_place w i x1 (w_mem w)). split_and!; [done|by eapply after_place_at|..]; destruct l; try done.
  - destruct Hl as [-> _]; done.
  - destruct Hl as [_ E]; [done|]. unfold x1. rewrite E. by apply (upd_rwqe_at w).
  - unfold x1. rewrite Hnl by done. cbv [mret M_ret]. do 2 f_equal. symmetry.
    replace (x <| r_input_size := r_input_size x |>) with x by (by destruct x).
    by apply after_place_same.
Qed.

Lemma set_complete_ok w i x1 x2 m (b : bool) :
  rq_storage (qp_rq0 (w_qp w)) !! i = Some x1 ->
  ((if b then upd_rwqe i (fun w : usiw_recv_wqe => w <| r_complete := true |>) else mret tt);; mret true)
    (after_place w i x2 m) =
  Ok (true, after_place w i (x2 <| r_complete := r_complete x2 || b |>) m).
Proof.
  intros Hx. cbv [mbind M_bind]. destruct b.
  - pose proof (upd_rwqe_at (after_place w i x2 m) i x2 (fun w => w <| r_complete := true |>) m
      ltac:(by eapply after_place_at)) as E.
    rewrite after_place_twice in E. rewrite orb_true_r.
    match type of E with upd_rwqe _ _ ?v = _ => change v with (after_place w i x2 m) in E end.
    by rewrite E.
  - rewrite orb_false_r. cbv [mret M_ret]. do 3 f_equal. by destruct x2.
Qed.

Lemma place_data_ok w i x s psn rest sx rdmap buf input' :
  rq_storage (qp_rq0 (w_qp w)) !! i = Some x -> rbuf w x buf ->
  untagged_mo rdmap = seg_off s -> 0 <= seg_off s ->
  seg_off s + seg_len s <= r_total_request_size x ->
  negb (DDP_GET_L (ddp_flags (untagged_head rdmap)) =? 0) = seg_last s ->
  (seg_last s = true -> r_input_size x = 0 /\ input' = seg_off s + seg_len s) ->
  (seg_last s = false -> input' = r_input_size x) ->
  0 <= r_recv_size x -> r_recv_size x + seg_len s < 2 ^ 64 ->
  (input' = 0 \/ r_recv_size x + seg_len s <= input') ->
  exists m', place_data i (arrival_ctx sx (s, psn, rest)) rdmap w =
      Ok (true, after_place w i (received_entry x (r_recv_size x + seg_len s) input') m') /\
    gather m' (iov_addrs (r_iov x)) = Ok (splice (Z.to_nat (seg_off s)) (seg_payload s) buf) /\
    (forall a, a ∉ iov_addrs (r_iov x) -> m' !! a = w_mem w !! a).
Proof.
  intros Hx [Hwf Hnd Htot Hg] Hmo Ho Hfit Hl Hlast Hnl Hr Hr64 Hin.
  pose proof Hwf as [Hpos H64].
  assert (0 <= seg_len s) by (unfold seg_len; lia).
  assert (drop sizeof_untagged (ctx_rdmap (arrival_ctx sx (s, psn, rest))) = seg_payload s ++ rest) as Hsrc.
  { destruct s as [[o p] la]. cbn [arrival_ctx ctx_rdmap seg_data seg_payload fst snd].
    rewrite <- app_assoc. by rewrite drop_app_length'. }
  destruct (scatter_splice (w_mem w) (iov_addrs (r_iov x)) buf (Z.to_nat (seg_off s)) (seg_payload s) Hnd Hg)
    as (m' & Em & Hg' & Hf).
  { rewrite iov_addrs_length by done. unfold seg_len in *. lia. }
  exists m'. split_and!; [|done|].
  2: { intros a Ha. apply Hf. intros Hin'. by apply Ha, (elem_of_sub a _ _ _ Hin'). }
  unfold place_data. cbv [mbind M_bind]. unfold get_rwqe at 1. rewrite Hx. cbn [deref mbind outcome_bind].
  assert (u64 (ctx_seg_length (arrival_ctx sx (s, psn, rest)) - Z.of_nat sizeof_untagged) = seg_len s) as ->.
  { simpl ctx_seg_length. rewrite wrap_small; [lia|]. unfold in_range. lia. }
  rewrite Hmo, Hl, Hsrc, (wrap_small 64 (seg_off s + seg_len s)) by (unfold in_range; lia).
  destruct (Z.gtb_spec (seg_off s + seg_len s) (r_total_request_size x)); [lia|].
  set (x1 := x <| r_input_size := input' |>).
  destruct (set_input_ok w i x (seg_last s) (seg_off s + seg_len s) input' Hx Hlast Hnl)
    as (w1 & Ew1 & Hx1 & -> & ->). fold x1 in Ew1, Hx1.
  cbn [gets].
  assert (memcpy_to_iov (w_mem w1) (r_iov x) (seg_payload s ++ rest) (seg_len s) (seg_off s) = Ok m') as ->.
  { rewrite memcpy_to_iov_ref by (done || unfold in_range, seg_len in *; rewrite ?length_app; lia).
    unfold seg_len. rewrite Nat2Z.id, take_app_length. by rewrite Ew1. }
  cbn [lift mbind outcome_bind]. cbv [modify].
  rewrite (upd_rwqe_at w1 i x1) by done. set (x2 := x1 <| r_recv_size ::= _ |>).
  rewrite (get_rwqe_at _ i x2) by (by eapply after_place_at).
  assert (r_recv_size x2 = r_recv_size x + seg_len s) as Er.
  { unfold x2. simpl. apply wrap_small. unfold in_range. lia. }
  assert (r_input_size x2 = input') as Ei by done. rewrite Er, Ei.
  assert ((input' =? 0) || (r_recv_size x + seg_len s <=? input') = true) as -> by lia.
  cbn [c_assert lift mbind outcome_bind].
  assert (received_entry x (r_recv_size x + seg_len s) input' =
    x2 <| r_complete := r_complete x2 || (r_recv_size x + seg_len s =? input') |>) as ->
    by (unfold received_entry; rewrite <- Er; by destruct x).
  etransitivity; [exact (set_complete_ok w1 i x1 x2 m' (r_recv_size x + seg_len s =? input') Hx1)|].
  by rewrite Ew1, after_place_twice.
Qed.

(** The header the sender writes, as the receiver reads it. *)
Definition seg_rdmap (sx : usiw_send_wqe) (s : segment) : rdmap_untagged_packet :=
  {| untagged_head := {| ddp_flags := if seg_last s then DDP_V1_UNTAGGED_LAST_DF else DDP_V1_UNTAGGED_DF;
                         rdmap_info := Z.lor rdmap_opcode_send RDMAP_V1; sink_stag := 0 |};
     untagged_qn := 0; untagged_msn := s_msn sx; untagged_mo := seg_off s |}.

Lemma arrival_parse sx s psn rest :
  in_range 32 (s_msn sx) -> in_range 32 (seg_off s) ->
  get_untagged (ctx_rdmap (arrival_ctx sx (s, psn, rest))) = Ok (seg_rdmap sx s).
Proof.
  intros Hm Ho. destruct s as [[o p] la]. cbn [arrival_ctx ctx_rdmap seg_data]. unfold send_header.
  rewrite <- app_assoc, get_untagged_bytes.
  - cbn [s_msn s_bytes_sent]. unfold seg_rdmap, seg_off, seg_last in *. simpl in *.
    by rewrite wrap_small by done.
  - unfold untagged_wf, rdmap_wf. simpl. split_and!; try done; try (by destruct la).
    by apply wrap_in_range.
Qed.

Lemma seg_rdmap_last sx s :
  negb (DDP_GET_L (ddp_flags (untagged_head (seg_rdmap sx s))) =? 0) = seg_last s.
Proof. unfold seg_rdmap. simpl. by destruct (seg_last s). Qed.

(** The entry at the head of the active list is found by its MSN. *)
Lemma process_send_head w i act x sx s psn rest :
  rq_active (qp_rq0 (w_qp w)) = i :: act -> rq_storage (qp_rq0 (w_qp w)) !! i = Some x ->
  r_msn x = s_msn sx -> in_range 32 (s_msn sx) -> in_range 32 (seg_off s) ->
  process_send (arrival_ctx sx (s, psn, rest)) w =
  place_send i (arrival_ctx sx (s, psn, rest)) (seg_rdmap sx s) w.
Proof.
  intros Ha Hx Hm Hr Ho. unfold process_send. cbv [mbind M_bind].
  rewrite arrival_parse by done. cbn [lift mbind outcome_bind the_qp gets].
  rewrite Ha, decide_False by done. cbv [mret M_ret]. unfold usiw_recv_wqe_queue_lookup. rewrite Ha.
  cbn [recv_lookup_loop]. rewrite Hx. cbn [deref mbind outcome_bind]. rewrite Hm.
  cbn [untagged_msn seg_rdmap]. rewrite Z.eqb_refl. done.
Qed.

Lemma complete_recv_none fuel w :
  (forall j, head (rq_active (qp_rq0 (w_qp w))) = Some j ->
     exists y, rq_storage (qp_rq0 (w_qp w)) !! j = Some y /\ r_complete y = false) ->
  complete_recv_loop fuel w = Ok (tt, w).
Proof.
  intros H. destruct fuel; cbn [complete_recv_loop]; cbv [mbind M_bind the_qp gets];
    (destruct (rq_active (qp_rq0 (w_qp w))) as [|j l]; [done|]; destruct (H j eq_refl) as (y & Hy & Hc);
     unfold get_rwqe; rewrite Hy; cbn [deref mbind outcome_bind]; by rewrite Hc).
Qed.

(** The completion of receive entry [x]. *)
Definition recv_wc (num : Z) (x : usiw_recv_wqe) : usiw_wc :=
  Wc (r_wr_context x) IBV_WC_SUCCESS IBV_WC_RECV (r_input_size x) num.

Lemma rq_wf_active held q :
  rq_wf held q -> NoDup (rq_active q) /\ forall i, i ∈ rq_active q -> is_Some (rq_storage q !! i).
Proof.
  intros [Hinv Hst]. split.
  - apply wq_nodup in Hinv as [Hn _]. apply NoDup_app in Hn as (_ & _ & Hn).
    apply NoDup_app in Hn as (_ & _ & Hn). by apply NoDup_app in Hn as (? & _).
  - intros i Hi. apply lookup_lt_is_Some. rewrite Hst. apply (wq_bound _ _ _ _ _ i) in Hinv; [lia|done].
Qed.

(** The entry [j] is not complete, if there is one. *)
Definition waiting (q : usiw_recv_wqe_queue) (o : option nat) : Prop :=
  match o with
  | Some j => forall y, rq_storage q !! j = Some y -> r_complete y = false
  | None => True
  end.

(** The completed entries at the head of the queue are completed in order, and
    no other. *)
Lemma complete_recv_run held xs : forall w act rest cq fuel,
  rq_active (qp_rq0 (w_qp w)) = act ++ rest ->
  Forall2 (fun i x => rq_storage (qp_rq0 (w_qp w)) !! i = Some x /\ r_complete x = true) act xs ->
  waiting (qp_rq0 (w_qp w)) (head rest) -> rq_wf held (qp_rq0 (w_qp w)) ->
  w_cqs w !! qp_recv_cq (w_qp w) = Some cq -> cq_wf cq ->
  (length (cq_queue cq) + length act <= cq_cap cq)%nat -> (length act <= fuel)%nat ->
  exists cq' q' ev, complete_recv_loop fuel w = Ok (tt, after_rq w (qp_recv_cq (w_qp w)) cq' q' ev) /\
    rq_active q' = rest /\ rq_wf held q' /\ cq_wf cq' /\
    cq_queue cq' = cq_queue cq ++ (recv_wc (qp_num (w_qp w)) <$> xs).
Proof using L.
  induction xs as [|x xs IH]; intros w act rest cq fuel Ha Hxs Hw Hrq Hcq Hcwf Hroom Hfuel.
  { apply Forall2_nil_inv_r in Hxs as ->. exists cq, (qp_rq0 (w_qp w)), (w_events w). split_and!; try done.
    - rewrite complete_recv_none.
      + unfold after_rq. rewrite list_insert_id by done. by destruct w as [[]].
      + intros j Hj. simpl in Ha. rewrite Ha in Hj. rewrite Hj in Hw. simpl in Hw.
        destruct (proj2 (rq_wf_active held _ Hrq) j) as [y Hy]; [rewrite Ha; destruct rest; simplify_eq/=; by left|].
        eauto.
    - by rewrite fmap_nil, app_nil_r. }
  apply Forall2_cons_inv_r in Hxs as (i & act' & [Hx Hc] & Hxs & ->). simpl in Hfuel, Hroom.
  destruct fuel as [|fuel]; [lia|].
  destruct (rq_wf_active held _ Hrq) as [Hnd _]. rewrite Ha in Hnd. simpl in Hnd.
  destruct (post_recv_cqe_room held w i x cq IBV_WC_SUCCESS Hrq) as
    (cq1 & f' & owc & ev & Ep & Hrq' & Hcwf' & Hcap & Hqu); [rewrite Ha; by left|done|done|done|lia|].
  rewrite Ha in Hrq', Ep. simpl app in Hrq', Ep. rewrite filter_head in Hrq', Ep by done.
  cbn [complete_recv_loop]. cbv [mbind M_bind]. cbn [the_qp gets]. rewrite Ha. cbn [app].
  rewrite (get_rwqe_at w i x Hx), Hc, Ep. set (w1 := after_rq _ _ _ _ _).
  destruct (IH w1 act' rest cq1 fuel) as (cq2 & q2 & ev2 & E2 & H2 & H3 & H4 & H5); try done.
  - simpl. apply list_lookup_insert_eq. by eapply lookup_lt_Some.
  - rewrite Hqu, length_app, Hcap. simpl. lia.
  - lia.
  - exists cq2, q2, ev2. rewrite E2. split_and!; try done.
    + unfold w1, after_rq. simpl. by rewrite list_insert_insert_eq.
    + rewrite H5, Hqu, fmap_cons, <- app_assoc. done.
Qed.

(** The segments of the message of [sx] arriving one after the other. *)
Definition arrivals (sx : usiw_send_wqe) (l : list (segment * Z * bytes)) : M unit :=
  for_each l (fun a => process_send (arrival_ctx sx a)).

(** ** A whole message *)

Section Message.
Variables (w0 : world) (i : nat) (act : list nat) (x0 : usiw_recv_wqe) (sx : usiw_send_wqe).
Variables (mtu : nat) (msg old : bytes) (arr : list segment).
Hypothesis Hmtu : (0 < mtu)%nat.
Hypothesis Hmsg : 0 < len msg < 2 ^ 32.
Hypothesis Hmsn : in_range 32 (s_msn sx).
Hypothesis Harr : arr ≡ₚ segments mtu 0 msg.
Hypothesis Hact : rq_active (qp_rq0 (w_qp w0)) = i :: act.
Hypothesis Hx0 : rq_storage (qp_rq0 (w_qp w0)) !! i = Some x0.
Hypothesis Hxmsn : r_msn x0 = s_msn sx.
Hypothesis Hnew : r_complete x0 = false.
Hypothesis Hbuf : rbuf w0 x0 old.
Hypothesis Hfit : len msg <= r_total_request_size x0.

Definition input_of (placed : list segment) : Z := if existsb seg_last placed then len msg else 0.

Definition midway (placed : list segment) : usiw_recv_wqe :=
  x0 <| r_recv_size := segs_len placed |> <| r_input_size := input_of placed |>.

(** [w] is the world once the segments [placed] have arrived and entry [i] is
    as [x]. *)
Definition placed_in (placed : list segment) (x : usiw_recv_wqe) (w : world) : Prop :=
  exists m buf, w = after_place w0 i x m /\ gather m (iov_addrs (r_iov x0)) = Ok buf /\
    holds msg old placed buf /\ forall a, a ∉ iov_addrs (r_iov x0) -> m !! a = w_mem w0 !! a.

Lemma arr_seg s : s ∈ arr -> seg_of 0 msg s.
Proof using Harr Hmtu. rewrite Harr. apply Forall_forall, segments_spec, Hmtu. Qed.

Lemma arr_len : segs_len arr = len msg.
Proof using Harr Hmtu. by rewrite (segs_len_perm _ _ Harr), segs_len_concat, segments_concat. Qed.

Lemma segs_len_pos l : (forall s, s ∈ l -> s ∈ arr) -> l <> [] -> 0 < segs_len l.
Proof using Harr Hmtu.
  intros Hl Hne. destruct l as [|s l]; [done|]. rewrite segs_len_cons, segs_len_concat.
  destruct (arr_seg s) as (_ & ? & _); [apply Hl; by left|lia].
Qed.

Lemma arr_last_once pre s post :
  arr = pre ++ s :: post -> seg_last s = true -> existsb seg_last pre = false.
Proof using Harr Hmtu.
  intros E Hs. destruct (existsb seg_last pre) eqn:Ex; [|done].
  apply existsb_exists in Ex as (t & Ht%list_elem_of_In & Hl).
  pose proof (segments_one_last mtu Hmtu msg 0) as H1. rewrite <- Harr, E in H1.
  rewrite (list.filter_app _ pre), length_app, filter_cons_True in H1 by done. cbn [length] in H1.
  assert (t ∈ filter (fun s => seg_last s = true) pre) as Hin by (by apply list_elem_of_filter).
  destruct (filter _ pre); [by apply not_elem_of_nil in Hin|simpl in H1; lia].
Qed.

Lemma arr_last_in : existsb seg_last arr = true.
Proof using Harr Hmtu Hmsg.
  destruct (segments_cover mtu Hmtu msg 0 (length msg - 1)) as (s & Hs & Hc); [lia|].
  apply existsb_exists. exists s. rewrite <- Harr in Hs. split; [by apply list_elem_of_In|].
  destruct (arr_seg s Hs) as (_ & _ & ? & _ & Hl). apply Hl. lia.
Qed.

(** One arrival. *)
Lemma place_step pre s post psn rest w :
  arr = pre ++ s :: post -> placed_in pre (midway pre) w ->
  exists w', place_data i (arrival_ctx sx (s, psn, rest)) (seg_rdmap sx s) w = Ok (true, w') /\
    placed_in (pre ++ [s]) (midway (pre ++ [s]) <| r_complete := bool_decide (post = []) |>) w'.
Proof using All.
  intros E (m & buf & -> & Hg & Hh & Hfr).
  pose proof (arr_seg s ltac:(rewrite E; set_solver)) as Hs.
  pose proof Hs as (Ho & Hpos & Hle & _ & Hl). destruct Hbuf as [Hwf Hnd Htot Hg0].
  assert (segs_len pre + seg_len s + segs_len post = len msg) as Hsum
    by (rewrite <- arr_len, E, segs_len_app, segs_len_cons; lia).
  assert (0 <= segs_len pre /\ 0 <= segs_len post) as [Hp0 Hq0] by (rewrite !segs_len_concat; lia).
  assert (input_of (pre ++ [s]) = 0 \/ input_of (pre ++ [s]) = len msg) as Hi
    by (unfold input_of; destruct (existsb _ _); auto).
  destruct (place_data_ok (after_place w0 i (midway pre) m) i (midway pre) s psn rest sx (seg_rdmap sx s)
    buf (input_of (pre ++ [s]))) as (m' & Ep & Hg' & Hf'); try done.
  - by eapply after_place_at.
  - simpl. lia.
  - apply seg_rdmap_last.
  - intros Hsl. unfold midway, input_of. simpl. rewrite existsb_app. simpl. rewrite Hsl, orb_true_r.
    rewrite (arr_last_once pre s post E Hsl). rewrite Z.add_0_l in Hl. apply Hl in Hsl. lia.
  - intros Hsl. unfold midway, input_of. simpl. rewrite existsb_app. simpl. by rewrite Hsl, !orb_false_r.
  - simpl. lia.
  - simpl. lia.
  - eexists. split; [exact Ep|]. exists m', (splice (Z.to_nat (seg_off s)) (seg_payload s) buf). split_and!; try done.
    + rewrite after_place_twice. f_equal. unfold received_entry, midway. simpl.
      rewrite segs_len_app, segs_len_cons, Hnew, Z.add_0_r. simpl. f_equal.
      destruct (decide (post = [])) as [->|Hne].
      * rewrite bool_decide_true by done. unfold input_of. rewrite <- E, arr_last_in.
        replace (segs_len []) with 0 in Hsum by done. lia.
      * rewrite bool_decide_false by done. pose proof (segs_len_pos post) as Hpost.
        specialize (Hpost ltac:(rewrite E; set_solver) Hne). lia.
    + apply holds_place; [done..|]. pose proof (gather_length _ _ _ Hg0) as Hlo.
      rewrite iov_addrs_length in Hlo by apply Hwf. lia.
    + intros a Ha. rewrite Hf' by done. by apply Hfr.
Qed.

(** All segments but the final one to arrive. *)
Lemma arrivals_prefix todo : forall pre post w,
  arr = pre ++ (todo.*1).*1 ++ post -> post <> [] -> placed_in pre (midway pre) w ->
  exists w', arrivals sx todo w = Ok (tt, w') /\
    placed_in (pre ++ (todo.*1).*1) (midway (pre ++ (todo.*1).*1)) w'.
Proof using All.
  induction todo as [|[[s psn] rest] todo IH]; intros pre post w E Hne Hw.
  { exists w. simpl. by rewrite app_nil_r. }
  cbn [fmap list_fmap fst] in E |- *. rewrite <- app_comm_cons in E.
  destruct (place_step pre s ((todo.*1).*1 ++ post) psn rest w E Hw) as (w1 & E1 & Hw1).
  rewrite bool_decide_false in Hw1 by (by intros [_ ?]%app_nil).
  replace (_ <| r_complete := false |>) with (midway (pre ++ [s])) in Hw1
    by (unfold midway; rewrite <- Hnew; by destruct x0).
  destruct (IH (pre ++ [s]) post w1) as (w2 & E2 & Hw2); [by rewrite <- app_assoc|done..|].
  rewrite <- app_assoc in Hw2. exists w2. split; [|done].
  unfold arrivals. cbn [for_each]. cbv [mbind M_bind].
  destruct Hw as (m & buf & -> & _). destruct Hw1 as (m1 & buf1 & -> & _).
  rewrite (process_send_head _ i act (midway pre)); try done.
  2: by eapply after_place_at.
  2: { destruct (arr_seg s ltac:(rewrite E; set_solver)) as (? & ? & ? & _). unfold in_range. lia. }
  unfold place_send. cbv [mbind M_bind]. rewrite E1. cbn [the_qp gets].
  destruct (true && _); [|exact E2]. rewrite complete_recv_none; [exact E2|].
  intros j Hj. simpl in Hj. rewrite Hact in Hj. simplify_eq/=. exists (midway (pre ++ [s])).
  split; [exact (after_place_at w0 i x0 _ m1 Hx0)|exact Hnew].
Qed.

(** The final arrival, at or before the acknowledged PSN, completes the entry. *)
Lemma final_arrival pre s psn rest w held cq :
  arr = pre ++ [s] -> placed_in pre (midway pre) w ->
  rq_wf held (qp_rq0 (w_qp w0)) -> w_cqs w0 !! qp_recv_cq (w_qp w0) = Some cq -> cq_wf cq ->
  (length (cq_queue cq) < cq_cap cq)%nat ->
  serial_less_32 psn (recv_ack_psn (remote_ep (w_qp w0))) = true ->
  waiting (qp_rq0 (w_qp w0)) (head act) ->
  exists w' cq', process_send (arrival_ctx sx (s, psn, rest)) w = Ok (tt, w') /\
    gather (w_mem w') (iov_addrs (r_iov x0)) = Ok (msg ++ drop (length msg) old) /\
    (forall a, a ∉ iov_addrs (r_iov x0) -> w_mem w' !! a = w_mem w0 !! a) /\
    rq_active (qp_rq0 (w_qp w')) = act /\ rq_wf held (qp_rq0 (w_qp w')) /\
    w_cqs w' !! qp_recv_cq (w_qp w0) = Some cq' /\ cq_wf cq' /\
    cq_queue cq' = cq_queue cq ++
      [Wc (r_wr_context x0) IBV_WC_SUCCESS IBV_WC_RECV (len msg) (qp_num (w_qp w0))].
Proof using All.
  intros E Hw Hrq Hcq Hcwf Hroom Hpsn Hnext.
  destruct (place_step pre s [] psn rest w E Hw) as (w1 & E1 & m1 & buf1 & Ew1 & Hg1 & Hh1 & Hf1).
  rewrite bool_decide_true in Ew1 by done. set (x1 := _ <| r_complete := true |>) in Ew1.
  destruct Hw as (m & buf & -> & _).
  rewrite (process_send_head _ i act (midway pre)); try done.
  2: by eapply after_place_at.
  2: { destruct (arr_seg s ltac:(rewrite E; set_solver)) as (? & ? & ? & _). unfold in_range. lia. }
  unfold place_send. cbv [mbind M_bind]. rewrite E1. cbn [the_qp gets andb].
  replace (recv_ack_psn (remote_ep (w_qp w1))) with (recv_ack_psn (remote_ep (w_qp w0))) by (by subst w1).
  cbn [arrival_ctx ctx_psn]. rewrite Hpsn.
  destruct (complete_recv_run held [x1] w1 [i] act cq (S (Z.to_nat (rq_max_wr (qp_rq0 (w_qp w1))))))
    as (cq' & q' & ev & -> & Ha' & Hrq' & Hcwf' & Hqu); try (by subst w1).
  - constructor; [|done]. split; [|done]. subst w1. exact (after_place_at w0 i x0 _ m1 Hx0).
  - destruct (head act) as [j|] eqn:Hj; [|done]. intros y. subst w1. simpl.
    rewrite list_lookup_insert_ne; [by apply Hnext|]. intros ->.
    destruct (rq_wf_active held _ Hrq) as [Hn _]. rewrite Hact in Hn. apply NoDup_cons in Hn as [Hn _].
    apply Hn. destruct act; simplify_eq/=; by left.
  - subst w1. destruct Hrq as [? Hst]. split; [done|]. simpl. by rewrite length_insert.
  - simpl. lia.
  - simpl. lia.
  - exists (after_rq w1 (qp_recv_cq (w_qp w1)) cq' q' ev), cq'. subst w1. split_and!; try done.
    + simpl. rewrite Hg1. f_equal. apply (holds_all mtu msg old arr); [done| |done|by rewrite E].
      destruct Hbuf as [[Hwf _] _ Htot Hg0]. apply gather_length in Hg0.
      rewrite iov_addrs_length in Hg0 by done. lia.
    + simpl. apply list_lookup_insert_eq. by eapply lookup_lt_Some.
    + rewrite Hqu. unfold recv_wc, x1, midway. simpl. unfold input_of. by rewrite <- E, arr_last_in.
Qed.
End Message.


(** C18: The completion loop of process_send completes the finished entries at
    the head of the receive queue in order and stops at the first unfinished
    one when the completion queue has room; when the completion queue is full
    it never ends, whatever number of rounds it is given. *)
Theorem recv_completions_in_order (held : list nat) (w : world) (act rest : list nat)
    (xs : list usiw_recv_wqe) (cq : usiw_cq) (fuel : nat) :
  rq_active (qp_rq0 (w_qp w)) = act ++ rest ->
  Forall2 (fun i x => rq_storage (qp_rq0 (w_qp w)) !! i = Some x /\ r_complete x = true) act xs ->
  waiting (qp_rq0 (w_qp w)) (head rest) -> rq_wf held (qp_rq0 (w_qp w)) ->
  w_cqs w !! qp_recv_cq (w_qp w) = Some cq -> cq_wf cq ->
  ((length (cq_queue cq) + length act <= cq_cap cq)%nat -> (length act <= fuel)%nat ->
   exists cq' q' ev, complete_recv_loop fuel w = Ok (tt, after_rq w (qp_recv_cq (w_qp w)) cq' q' ev) /\
     rq_active q' = rest /\ rq_wf held q' /\ cq_wf cq' /\
     cq_queue cq' = cq_queue cq ++ (recv_wc (qp_num (w_qp w)) <$> xs)) /\
  (act <> [] -> length (cq_queue cq) = cq_cap cq -> complete_recv_loop fuel w = Fault OutOfFuel).
Proof using L.
  intros Ha Hxs Hw Hrq Hcq Hcwf. split; [by apply complete_recv_run|].
  intros Hne Hfull. destruct Hxs as [|i x act' xs [Hx Hc] _]; [done|]. clear Hne.
  induction fuel as [|fuel IH]; cbn [complete_recv_loop]; cbv [mbind M_bind]; cbn [the_qp gets];
    rewrite Ha; cbn [app]; rewrite (get_rwqe_at w i x Hx), Hc; [done|].
  unfold post_recv_cqe. cbv [mbind M_bind]. cbn [the_qp gets]. rewrite (get_rwqe_at w i x Hx).
  rewrite (post_cqe_full _ _ _ w cq Hcq Hcwf Hfull). exact IH.
Qed.
End Receive.
