(* ===== verification/Post.v ===== *)
(** * Theorems on the verbs

    What posting does to the work queues, the limits of queue pairs, and the
    life cycle of a queue pair across the application, the connection manager
    and the progress thread. *)
From S2P Require Import Prelude Serial Dpdk Binheap Proto Iov State TrpRx Cq Mr Wqe Frame TrpTx Window Rdmap Segment Progress Verbs Conserve.

(** ** Capabilities *)

(** What a queue pair offers for a requested size: a ring of a power of two. *)
Definition wr_cap_ok (req cap : Z) : Prop :=
  Z.max req 63 <= cap <= 1023 /\ exists k, 0 <= k /\ cap + 1 = 2 ^ k.

Lemma wr_cap req : 0 <= req <= 1023 ->
  exists p, next_pow2 (req + 1) = Ok p /\ wr_cap_ok req (Z.max (p - 1) 63).
Proof.
  intros H. destruct (next_pow2_ok (req + 1)) as (j & -> & Hj & Hle & Hlow).
  { assert (1025 < SIZE_POW2_MAX) by done. lia. }
  exists (2 ^ j). split; [done|].
  assert (2 ^ j <= 1024) as Hmax.
  { destruct Hlow as [->|Hlow]; [done|]. change 1024 with (2 ^ 10). apply Z.pow_le_mono_r; [lia|].
    assert (j - 1 < 10); [|lia]. apply (Z.pow_lt_mono_r_iff 2); [lia..|]. change (2 ^ 10) with 1024. lia. }
  split; [lia|]. destruct (Z.max_spec (2 ^ j - 1) 63) as [[? ->]|[? ->]].
  - exists 6. done.
  - exists j. lia.
Qed.

Lemma inline_sge req : 0 < req -> req <= 16 * ((req - 1) / 16 + 1) /\ (req - 1) / 16 * 16 < req.
Proof. intros H. pose proof (Z.div_mod (req - 1) 16). pose proof (Z.mod_pos_bound (req - 1) 16). lia. Qed.

Lemma create_qp_caps_wr (t : ibv_qp_type) (cap c : ibv_qp_cap) :
  0 <= max_send_wr cap -> 0 <= max_recv_wr cap -> create_qp_caps t cap = Ok (Some c) ->
  wr_cap_ok (max_send_wr cap) (max_send_wr c) /\ wr_cap_ok (max_recv_wr cap) (max_recv_wr c).
Proof.
  intros H1 H2. unfold create_qp_caps. destruct (_ || _) eqn:E; [done|].
  rewrite !orb_false_iff, !Z.gtb_ltb, !Z.ltb_ge in E. unfold MAX_SEND_WR, MAX_RECV_WR in E.
  destruct E as [[[[[_ Es] Er] _] _] _].
  destruct (wr_cap (max_send_wr cap)) as (p & -> & Hp); [lia|].
  destruct (wr_cap (max_recv_wr cap)) as (q & -> & Hq); [lia|]. cbn [mbind outcome_bind].
  destruct (if max_inline_data cap <? _ then _ else _) as [i s]. by intros [= <-].
Qed.

(** Usiw_create_qp accepts exactly the requests within the device limits;
    the capabilities it grants are at least the requested ones and within the
    limits, the queue sizes are one less than a power of two, and inline data
    fits the scatter/gather array. *)
Theorem create_qp_caps_spec (t : ibv_qp_type) (cap : ibv_qp_cap) :
  0 <= max_send_wr cap -> 0 <= max_recv_wr cap -> 0 <= max_send_sge cap -> 0 <= max_recv_sge cap ->
  0 <= max_inline_data cap ->
  let ok := t <> IBV_QPT_UC /\ max_send_wr cap <= 1023 /\ max_recv_wr cap <= 1023 /\
            max_send_sge cap <= 32 /\ max_recv_sge cap <= 32 /\ max_inline_data cap <= 512 in
  (~ ok -> create_qp_caps t cap = Ok None) /\
  (ok -> exists c, create_qp_caps t cap = Ok (Some c) /\
     wr_cap_ok (max_send_wr cap) (max_send_wr c) /\ wr_cap_ok (max_recv_wr cap) (max_recv_wr c) /\
     Z.max (max_send_sge cap) 1 <= max_send_sge c <= 32 /\
     Z.max (max_recv_sge cap) 1 <= max_recv_sge c <= 32 /\
     max_inline_data cap <= max_inline_data c <= 16 * max_send_sge c).
Proof.
  intros H1 H2 H3 H4 H5 ok. unfold create_qp_caps.
  set (bad := (_ || _ || _ || _ || _ || _)).
  assert (bad = false <-> ok) as Hbad.
  { unfold bad, ok, MAX_SEND_WR, MAX_RECV_WR, DPDK_VERBS_IOV_LEN_MAX, sizeof_iovec.
    rewrite !orb_false_iff, !Z.gtb_ltb, !Z.ltb_ge. change (16 * 32) with 512.
    destruct t; repeat case_bool_decide; simpl; split; intros; split_and!; naive_solver. }
  split.
  - intros Hn. destruct bad; [done|]. tauto.
  - intros Hok. apply Hbad in Hok as E. rewrite E. destruct Hok as (_ & ? & ? & ? & ? & ?).
    destruct (wr_cap (max_send_wr cap)) as (p & -> & Hp); [lia|].
    destruct (wr_cap (max_recv_wr cap)) as (q & -> & Hq); [lia|]. cbn [mbind outcome_bind].
    unfold sizeof_iovec.
    set (sg := if max_send_sge cap =? 0 then 3 else max_send_sge cap).
    set (sr := if max_recv_sge cap =? 0 then 3 else max_recv_sge cap).
    assert (Z.max (max_send_sge cap) 1 <= sg <= 32) by (unfold sg; destruct (Z.eqb_spec (max_send_sge cap) 0); lia).
    assert (Z.max (max_recv_sge cap) 1 <= sr <= 32) by (unfold sr; destruct (Z.eqb_spec (max_recv_sge cap) 0); lia).
    rewrite Z.gtb_ltb. destruct (Z.ltb_spec (max_inline_data cap) (sg * 16)) as [|Hge];
      [|destruct (Z.ltb_spec (sg * 16) (max_inline_data cap)) as [Hgt|]];
      eexists; (split; [reflexivity|]); cbn; split_and!; try done; try lia;
      pose proof (inline_sge (max_inline_data cap) ltac:(lia)); lia.
Qed.

(** ** Posting *)

Section Post.
Context {D : Dpdk} {L : DpdkLaws D}.
Implicit Types (w : world) (x : usiw_send_wqe).

(** [w] with send entry [i] replaced by [x]. *)
Definition with_entry w (i : nat) x : world :=
  w <| w_qp ::= update qp_sq (update sq_storage (fun st => <[i := x]> st)) |>.

Abbreviation entry w i := (sq_storage (qp_sq (w_qp w)) !! i).

Lemma upd_swqe_at w i x f : entry w i = Some x -> upd_swqe i f w = Ok (tt, with_entry w i (f x)).
Proof. intros Hx. cbv [upd_swqe upd_sq upd_qp modify with_entry]. simpl. by rewrite (alter_insert f i _ x). Qed.

Lemma with_entry_at w i x y : entry w i = Some x -> entry (with_entry w i y) i = Some y.
Proof. intros Hx. simpl. apply list_lookup_insert_eq. by eapply lookup_lt_Some. Qed.

Lemma with_entry_twice w i x y : with_entry (with_entry w i x) i y = with_entry w i y.
Proof. unfold with_entry. simpl. by rewrite list_insert_insert_eq. Qed.

Lemma with_entry_wf w i x held : sq_wf held (qp_sq (w_qp w)) -> sq_wf held (qp_sq (w_qp (with_entry w i x))).
Proof. intros [Hi Hs]. split; [done|]. simpl. by rewrite length_insert. Qed.

(** [w] with send queue [q]. *)
Definition with_sq w (q : usiw_send_wqe_queue) : world := w <| w_qp ::= update qp_sq (fun _ => q) |>.

Lemma take_send_none w held (q := qp_sq (w_qp w)) :
  sq_wf held q -> ring_elems (sq_free_ring q) = [] -> take_send_wqe w = Ok ((-ENOSPC, None), w).
Proof.
  intros Hq E. unfold take_send_wqe, qp_get_next_send_wqe. cbv [mbind M_bind]. simpl. fold q.
  rewrite (ring_dequeue_nil _ E). simpl. unfold q. by destruct w as [[]].
Qed.

Lemma take_send_some w held i l (q := qp_sq (w_qp w)) :
  sq_wf held q -> ring_elems (sq_free_ring q) = i :: l ->
  exists f' x, take_send_wqe w = Ok ((0, Some i), with_sq w (q <| sq_free_ring := f' |>)) /\
    ring_elems f' = l /\ sq_wf (i :: held) (q <| sq_free_ring := f' |>) /\ sq_storage q !! i = Some x.
Proof.
  intros [Hinv Hst] E. destruct (ring_dequeue_law _ _ _ E) as (f' & Ef & El & Hc).
  assert (i < Z.to_nat (sq_max_wr q))%nat as Hi.
  { destruct Hinv as [Hp _ _]. assert (i ∈ seq 0 (Z.to_nat (sq_max_wr q))) as Hin
      by (rewrite <- Hp, E; set_solver). apply elem_of_seq in Hin. lia. }
  destruct (lookup_lt_is_Some_2 (sq_storage q) i ltac:(lia)) as [x Hx].
  exists f', x. split_and!; try done.
  - unfold take_send_wqe, qp_get_next_send_wqe. cbv [mbind M_bind]. simpl. fold q. rewrite Ef. done.
  - split; [|done]. destruct Hinv as [Hp Hr Hf]. split; simpl; [|done|congruence].
    rewrite <- Hp, E, El. solve_Permutation.
Qed.

Lemma enqueue_send_ok w i held (q := qp_sq (w_qp w)) :
  sq_wf (i :: held) q ->
  exists r', enqueue_send i w = Ok (tt, with_sq w (q <| sq_ring := r' |>)) /\
    ring_elems r' = ring_elems (sq_ring q) ++ [i] /\ sq_wf held (q <| sq_ring := r' |>).
Proof.
  intros [Hinv Hst]. destruct (wq_post _ _ _ _ _ _ Hinv) as (r' & E & El & Hinv').
  exists r'. split_and!; try done. unfold enqueue_send. cbv [mbind M_bind]. simpl. fold q.
  rewrite E. done.
Qed.

(** ** Requests *)

Definition wr_iov (wr : ibv_send_wr) : list iovec := sge_iov <$> wr_sg_list wr.

(** A request that [usiw_post_send] accepts: it keeps to the limits, its
    buffers are mapped, and the sink of a read is a region that may be
    written remotely. *)
Definition wr_ok w (wr : ibv_send_wr) : Prop :=
  Forall (fun v => 0 <= iov_len v) (wr_iov wr) /\ iov_total (wr_iov wr) < 2 ^ 32 /\
  match wr_opcode wr with
  | IBV_WR_SEND | IBV_WR_RDMA_WRITE =>
      len (wr_sg_list wr) <= sq_max_sge (qp_sq (w_qp w)) /\
      (exists msg, gather (w_mem w) (iov_addrs (wr_iov wr)) = Ok msg) /\
      (has (wr_send_flags wr) IBV_SEND_INLINE = true ->
       iov_total (wr_iov wr) <= sq_max_inline (qp_sq (w_qp w)) /\
       sq_max_inline (qp_sq (w_qp w)) <= 16 * sq_max_sge (qp_sq (w_qp w)))
  | IBV_WR_RDMA_READ =>
      has (wr_send_flags wr) IBV_SEND_INLINE = false /\
      exists sge c mr, wr_sg_list wr = [sge] /\ usiw_mr_lookup (w_pd w) (sge_lkey sge) = Ok (Some c) /\
        mr_deref (w_pd w) c = Ok mr /\ has (mr_access mr) IBV_ACCESS_REMOTE_WRITE = true
  | IBV_WR_OTHER => False
  end.

Definition wr_signaled w (wr : ibv_send_wr) : bool :=
  has (wr_send_flags wr) IBV_SEND_SIGNALED || has (qp_flags (w_qp w)) usiw_qp_sig_all.

(** Entry [x] is the request [wr], and sending it will send its data. *)
Definition describes w (wr : ibv_send_wr) x : Prop :=
  s_wr_context x = wr_id wr /\ s_state x = SEND_WQE_INIT /\ s_bytes_sent x = 0 /\ s_bytes_acked x = 0 /\
  has (s_flags x) usiw_send_signaled = wr_signaled w wr /\
  let data := exists msg, gather (w_mem w) (iov_addrs (wr_iov wr)) = Ok msg /\ request_data (w_mem w) x msg in
  match wr_opcode wr with
  | IBV_WR_SEND => s_opcode x = usiw_wr_send /\ data
  | IBV_WR_RDMA_WRITE =>
      s_opcode x = usiw_wr_write /\ s_remote_addr x = wr_remote_addr wr /\ s_rkey x = wr_rkey wr /\ data
  | IBV_WR_RDMA_READ =>
      s_opcode x = usiw_wr_read /\ s_remote_addr x = wr_remote_addr wr /\ s_rkey x = wr_rkey wr /\
      s_data x = WIov (wr_iov wr) /\ s_total_length x = iov_total (wr_iov wr) /\
      exists sge c mr, wr_sg_list wr = [sge] /\ usiw_mr_lookup (w_pd w) (sge_lkey sge) = Ok (Some c) /\
        mr_deref (w_pd w) c = Ok mr /\ s_local_stag x = mr_rkey mr
  | IBV_WR_OTHER => False
  end.

Lemma sum_len_total l : forall acc, Forall (fun v => 0 <= iov_len v) l -> 0 <= acc ->
  acc + iov_total l < 2 ^ 64 -> sum_len acc l = acc + iov_total l.
Proof.
  induction l as [|v l IH]; intros acc Hl Ha Ht; [unfold iov_total; simpl; lia|].
  apply Forall_cons in Hl as [Hv Hl]. rewrite iov_total_cons in *. pose proof (iov_total_nonneg l Hl).
  cbn [sum_len]. rewrite wrap_small by (unfold in_range; lia). rewrite IH; [lia|done|lia|lia].
Qed.

(** The inline copy gathers the data of all elements. *)
Lemma inline_loop_ok m mx room sgl : forall off acc msg,
  Forall (fun v => 0 <= iov_len v) (sge_iov <$> sgl) -> 0 <= off ->
  off + iov_total (sge_iov <$> sgl) <= mx -> mx <= room -> off + iov_total (sge_iov <$> sgl) < 2 ^ 32 ->
  gather m (iov_addrs (sge_iov <$> sgl)) = Ok msg ->
  inline_loop m mx room sgl off acc = Ok (0, off + iov_total (sge_iov <$> sgl), acc ++ msg).
Proof.
  induction sgl as [|s sgl IH]; intros off acc msg Hl Ho Hmx Hroom H32 Hg.
  { simpl in Hg. injection Hg as <-. simpl. unfold iov_total. simpl. by rewrite Z.add_0_r, app_nil_r. }
  rewrite fmap_cons in *. apply Forall_cons in Hl as [Hs Hl]. rewrite iov_total_cons in *.
  rewrite iov_addrs_cons, gather_app in Hg. apply bind_ok in Hg as (b1 & G1 & Hg).
  apply bind_ok in Hg as (b2 & G2 & [= <-]). pose proof (iov_total_nonneg _ Hl). simpl in Hs, G1.
  cbn [inline_loop]. simpl iov_len in *. rewrite wrap_small by (unfold in_range; lia).
  rewrite !Z.gtb_ltb. destruct (Z.ltb_spec mx (off + sge_length s)); [lia|].
  destruct (Z.ltb_spec room (off + sge_length s)); [lia|]. unfold mem_load. rewrite G1.
  cbn [mbind outcome_bind]. rewrite (IH _ _ b2) by (done || lia). by rewrite <- app_assoc, Z.add_assoc.
Qed.
Lemma post_inline_ok w i x wr msg :
  entry w i = Some x -> Forall (fun v => 0 <= iov_len v) (wr_iov wr) -> iov_total (wr_iov wr) < 2 ^ 32 ->
  gather (w_mem w) (iov_addrs (wr_iov wr)) = Ok msg ->
  (has (wr_send_flags wr) IBV_SEND_INLINE = true ->
   iov_total (wr_iov wr) <= sq_max_inline (qp_sq (w_qp w)) /\
   sq_max_inline (qp_sq (w_qp w)) <= 16 * sq_max_sge (qp_sq (w_qp w))) ->
  post_inline i wr w = Ok (PostGo, if has (wr_send_flags wr) IBV_SEND_INLINE
    then with_entry w i (x <| s_flags := set_bits (s_flags x) usiw_send_inline |> <| s_data := WInline msg |>
                           <| s_total_length := len msg |>) else w).
Proof.
  intros Hx Hl H32 Hg Hin. unfold post_inline. destruct (has _ _); [|done].
  destruct Hin as [Hin Hroom]; [done|]. unfold do_inline. cbv [mbind M_bind].
  rewrite (upd_swqe_at w i x _ Hx). cbn [the_qp gets lift].
  rewrite (inline_loop_ok (w_mem w) _ _ _ 0 [] msg); try done; try (unfold sizeof_iovec; simpl; lia).
  cbn [lift]. rewrite (upd_swqe_at _ i _ _ (with_entry_at w i x _ Hx)), with_entry_twice.
  change (0 =? 0) with true. cbv iota. rewrite (upd_swqe_at _ i _ _ (with_entry_at w i x _ Hx)), with_entry_twice.
  cbv [mret M_ret]. change (0 =? 0) with true. cbv iota. do 3 f_equal.
  assert (len msg = 0 + iov_total (wr_iov wr)) as ->; [|done].
  rewrite (gather_length _ _ _ Hg), iov_addrs_length by done. pose proof (iov_total_nonneg _ Hl). lia.
Qed.

(** The entry of a SEND or WRITE request holds its data. *)
Lemma fill_send_data w wr x msg :
  Forall (fun v => 0 <= iov_len v) (wr_iov wr) -> iov_total (wr_iov wr) < 2 ^ 32 ->
  gather (w_mem w) (iov_addrs (wr_iov wr)) = Ok msg ->
  (has (s_flags x) usiw_send_inline = true -> s_data x = WInline msg /\ s_total_length x = len msg) ->
  request_data (w_mem w) (fill_send wr x) msg.
Proof.
  intros Hl H32 Hg Hin. pose proof (iov_total_nonneg _ Hl).
  assert (len msg = iov_total (wr_iov wr)) as E
    by (rewrite (gather_length _ _ _ Hg), iov_addrs_length by done; lia).
  unfold request_data, fill_send. destruct (has (s_flags x) usiw_send_inline) eqn:Ef; simpl; rewrite Ef.
  - destruct Hin; [done|]. split_and!; [done|lia|done].
  - fold (wr_iov wr). rewrite sum_len_total by (done || lia). split_and!; [lia..|].
    exists (wr_iov wr). split_and!; try done. split; [done|lia].
Qed.

(** The switch over the opcode and the rest of the body make an entry that
    describes the request. *)
Lemma post_switch_ok w i x wr :
  entry w i = Some x -> wr_ok w wr ->
  s_flags x = (if wr_signaled w wr then usiw_send_signaled else 0) ->
  exists y, post_switch i wr w = Ok (PostGo, with_entry w i y) /\ describes w wr (fill_send wr y).
Proof.
  intros Hx (Hl & H32 & Hwr) Hf.
  assert (has (s_flags x) usiw_send_inline = false) as Hni by (rewrite Hf; by destruct (wr_signaled w wr)).
  assert (has (s_flags x) usiw_send_signaled = wr_signaled w wr) as Hsig
    by (rewrite Hf; by destruct (wr_signaled w wr)).
  assert (has (set_bits (s_flags x) usiw_send_inline) usiw_send_signaled = wr_signaled w wr) as Hsig2
    by (rewrite Hf; by destruct (wr_signaled w wr)).
  assert (has (set_bits (s_flags x) usiw_send_inline) usiw_send_inline = true) as Hi2
    by (rewrite Hf; by destruct (wr_signaled w wr)).
  unfold post_switch, describes. cbv [mbind M_bind]. destruct (wr_opcode wr).
  1, 2: destruct Hwr as (_ & (msg & Hg) & Hin); rewrite (upd_swqe_at w i x _ Hx);
    erewrite (post_inline_ok _ i _ wr msg); [|by eapply with_entry_at|done..];
    destruct (has (wr_send_flags wr) IBV_SEND_INLINE);
    eexists; (split; [by rewrite ?with_entry_twice|]);
    pose proof (fun x => fill_send_data w wr x msg Hl H32 Hg) as Hd;
    (split_and!; [..|(exists msg; split; [done|apply Hd; simpl; rewrite ?Hni; done])]);
    unfold fill_send; simpl; rewrite ?Hni, ?Hi2; done.
  - destruct Hwr as (-> & sge & c & mr & Esg & Hlk & Hd & Hacc). rewrite (upd_swqe_at w i x _ Hx), Esg.
    cbn [gets lift].
    match goal with |- context [w_pd (with_entry w i ?y)] => change (w_pd (with_entry w i y)) with (w_pd w) end.
    rewrite Hlk. cbn [lift]. rewrite Hd. cbn [lift]. rewrite Hacc. cbn [negb].
    rewrite (upd_swqe_at _ i _ _ (with_entry_at w i x _ Hx)), with_entry_twice.
    eexists. split; [done|]. pose proof (iov_total_nonneg _ Hl).
    unfold fill_send. simpl. rewrite Hni. split_and!; try done.
    + simpl. fold (wr_iov wr). rewrite sum_len_total by (done || lia). lia.
    + by exists sge, c, mr.
  - done.
Qed.

Lemma wr_ok_limit w wr :
  wr_ok w wr ->
  len (wr_sg_list wr) >? (if decide (wr_opcode wr = IBV_WR_RDMA_READ) then 1 else sq_max_sge (qp_sq (w_qp w)))
  = false.
Proof.
  intros (_ & _ & Hwr). rewrite Z.gtb_ltb. apply Z.ltb_ge. destruct (wr_opcode wr).
  1, 2: rewrite decide_False by done; apply Hwr.
  - rewrite decide_True by done. destruct Hwr as (_ & ? & ? & ? & -> & _). done.
  - done.
Qed.

Lemma post_send_wr_ok w wr held i l (q := qp_sq (w_qp w)) :
  wr_ok w wr -> sq_wf held q -> ring_elems (sq_free_ring q) = i :: l ->
  exists x r' f', let q' := q <| sq_storage ::= fun st => <[i := x]> st |> <| sq_free_ring := f' |>
                              <| sq_ring := r' |> in
    post_send_wr wr w = Ok (0, with_sq w q') /\ describes w wr x /\ sq_wf held q' /\
    ring_elems r' = ring_elems (sq_ring q) ++ [i] /\ ring_elems f' = l /\ (i < length (sq_storage q))%nat.
Proof.
  intros Hwr Hq E. unfold post_send_wr. cbv [mbind M_bind]. cbn [the_qp gets]. fold q.
  unfold q at 1. rewrite (wr_ok_limit w wr Hwr).
  destruct (take_send_some w held i l Hq E) as (f' & x & -> & El & Hq' & Hx). fold q in Hx |- *.
  set (w1 := with_sq w _). assert (entry w1 i = Some x) as Hx1 by done.
  rewrite (upd_swqe_at w1 i x _ Hx1). set (x2 := x <| s_flags := _ |>).
  pose proof (with_entry_at w1 i x x2 Hx1) as Hx2.
  destruct (post_switch_ok (with_entry w1 i x2) i x2 wr Hx2 Hwr eq_refl) as (y & -> & Hdesc).
  pose proof (with_entry_at _ i x2 y Hx2) as Hy. rewrite (upd_swqe_at _ i y _ Hy).
  rewrite !with_entry_twice.
  destruct (enqueue_send_ok (with_entry w1 i (fill_send wr y)) i held) as (r' & -> & Er & Hq2).
  { by apply (with_entry_wf w1). }
  exists (fill_send wr y), r', f'. split_and!; try done. by eapply lookup_lt_Some.
Qed.
Lemma with_sq_twice w q1 q2 : with_sq (with_sq w q1) q2 = with_sq w q2.
Proof. done. Qed.

Lemma sq_free_nodup held q : sq_wf held q -> NoDup (ring_elems (sq_free_ring q)).
Proof.
  intros [Hinv _]. apply wq_nodup in Hinv as [Hn _]. apply NoDup_app in Hn as (_ & _ & Hn).
  by apply NoDup_app in Hn as (? & _).
Qed.

Lemma post_send_loop_ok wrs : forall w held (q := qp_sq (w_qp w)),
  sq_wf held q -> Forall (wr_ok w) wrs ->
  let free := ring_elems (sq_free_ring q) in
  let k := Nat.min (length wrs) (length free) in
  exists q', post_send_loop wrs w =
      Ok ((if decide (k = length wrs) then 0 else -ENOSPC, drop k wrs), with_sq w q') /\
    sq_wf held q' /\ ring_elems (sq_ring q') = ring_elems (sq_ring q) ++ take k free /\
    Forall2 (fun wr i => exists x, sq_storage q' !! i = Some x /\ describes w wr x) (take k wrs) (take k free) /\
    forall j, j ∉ take k free -> sq_storage q' !! j = sq_storage q !! j.
Proof.
  induction wrs as [|wr wrs IH]; intros w held q Hq Hok free k.
  { exists q. unfold k. simpl. rewrite app_nil_r. split_and!; try done. by destruct w as [[]]. }
  apply Forall_cons in Hok as [Hwr Hok]. destruct free as [|i l] eqn:E; unfold free in E.
  { exists q. unfold k. rewrite Nat.min_0_r, decide_False by done. simpl. rewrite app_nil_r.
    split_and!; try done. cbn [post_send_loop]. cbv [mbind M_bind].
    assert (post_send_wr wr w = Ok (-ENOSPC, w)) as ->; [|by destruct w as [[]]].
    unfold post_send_wr. cbv [mbind M_bind]. cbn [the_qp gets]. fold q.
    unfold q at 1. rewrite (wr_ok_limit w wr Hwr). by rewrite (take_send_none w held Hq E). }
  destruct (post_send_wr_ok w wr held i l Hwr Hq E) as (x & r' & f' & Ep & Hdesc & Hq1 & Er & Ef & Hlt).
  fold q in Ep, Hq1, Er, Hlt.
  match type of Ep with _ = Ok (_, with_sq w ?q1) => set (qq := q1) in * end.
  destruct (IH (with_sq w qq) held Hq1) as (q' & El & Hq' & Er' & Hf2 & Hfr); [done|].
  cbn [post_send_loop]. cbv [mbind M_bind]. rewrite Ep, Z.eqb_refl, El. simpl in Er', Hf2, Hfr |- *.
  rewrite Ef in *. set (k' := Nat.min (length wrs) (length l)) in *. exists q'.
  pose proof (sq_free_nodup held q Hq) as Hnd. rewrite E in Hnd. apply NoDup_cons in Hnd as [Hi _].
  assert (i ∉ take k' l) as Hi' by (intros Hin; apply Hi; rewrite <- (take_drop k' l); set_solver).
  split_and!; try done.
  - unfold k. simpl. fold k'. do 2 f_equal. f_equal. by repeat case_decide; lia || done.
  - rewrite Er', Er, <- app_assoc. done.
  - constructor; [|done]. exists x. split; [|done]. rewrite Hfr by done. simpl. by apply list_lookup_insert_eq.
  - intros j [Hj1 Hj2]%not_elem_of_cons. rewrite Hfr by done. simpl. by rewrite list_lookup_insert_ne.
Qed.

(** C12: Usiw_post_send on valid requests posts as many as there are free
    entries, in order, each entry describing its request, changes no other
    entry, and reports the first request that did not fit with -ENOSPC. *)
Theorem usiw_post_send_spec w (held : list nat) (wrs : list ibv_send_wr) (q := qp_sq (w_qp w)) :
  sq_wf held q -> wrs <> [] -> Forall (wr_ok w) wrs ->
  conn_state (shm_qp (w_qp w)) ∈ [usiw_qp_unbound; usiw_qp_connected; usiw_qp_running] ->
  let free := ring_elems (sq_free_ring q) in
  let k := Nat.min (length wrs) (length free) in
  exists q', usiw_post_send wrs w =
      Ok ((if decide (k = length wrs) then 0 else -ENOSPC, drop k wrs), with_sq w q') /\
    sq_wf held q' /\ ring_elems (sq_ring q') = ring_elems (sq_ring q) ++ take k free /\
    Forall2 (fun wr i => exists x, sq_storage q' !! i = Some x /\ describes w wr x) (take k wrs) (take k free) /\
    forall j, j ∉ take k free -> sq_storage q' !! j = sq_storage q !! j.
Proof using L.
  intros Hq Hne Hok Hst free k.
  destruct (post_send_loop_ok wrs w held Hq Hok) as (q' & E & H). exists q'. split; [|exact H].
  unfold usiw_post_send. cbv [mbind M_bind]. cbn [the_qp gets]. destruct wrs as [|wr wrs]; [done|].
  repeat (apply elem_of_cons in Hst as [->|Hst]; [exact E|]). by apply not_elem_of_nil in Hst.
Qed.

(** C36: An inline SEND whose first element exceeds the inline limit is
    refused with EINVAL, and the work queue entry acquired for it is neither
    posted nor given back. *)
Theorem post_send_inline_leaks w (held : list nat) (wr : ibv_send_wr) (sge : ibv_sge)
    (rest : list ibv_sge) (i : nat) (l : list nat) (q := qp_sq (w_qp w)) :
  sq_wf held q -> ring_elems (sq_free_ring q) = i :: l ->
  conn_state (shm_qp (w_qp w)) = usiw_qp_running ->
  wr_opcode wr = IBV_WR_SEND -> has (wr_send_flags wr) IBV_SEND_INLINE = true ->
  wr_sg_list wr = sge :: rest -> len (wr_sg_list wr) <= sq_max_sge q ->
  sq_max_inline q < sge_length sge < 2 ^ 32 -> 0 <= sge_length sge ->
  exists q', usiw_post_send [wr] w = Ok ((EINVAL, [wr]), with_sq w q') /\
    ring_elems (sq_free_ring q') = l /\ sq_ring q' = sq_ring q /\ sq_active q' = sq_active q /\
    sq_wf (i :: held) q'.
Proof using L.
  intros Hq E Hst Hop Hin Hsg Hlim Hlen H0.
  destruct (take_send_some w held i l Hq E) as (f' & x & Et & El & Hq' & Hx). fold q in Et, Hq', Hx.
  set (w1 := with_sq w _) in Et. assert (entry w1 i = Some x) as Hx1 by done.
  assert (exists y, post_send_wr wr w = Ok (EINVAL, with_entry w1 i y)) as [y Ep].
  { unfold post_send_wr, post_switch, post_inline, do_inline. cbv [mbind M_bind]. cbn [the_qp gets]. fold q.
    rewrite Hop, decide_False by done. rewrite Z.gtb_ltb, (proj2 (Z.ltb_ge _ _) Hlim), Et.
    rewrite (upd_swqe_at w1 i x _ Hx1), (upd_swqe_at _ i _ _ (with_entry_at w1 i x _ Hx1)), Hin, with_entry_twice.
    rewrite (upd_swqe_at _ i _ _ (with_entry_at w1 i x _ Hx1)), with_entry_twice. cbn [gets lift].
    rewrite Hsg. cbn [inline_loop]. rewrite Z.add_0_l, wrap_small by (unfold in_range; lia).
    match goal with |- context [sge_length sge >? ?c] => change c with (sq_max_inline q) end.
    rewrite Z.gtb_ltb, (proj2 (Z.ltb_lt _ _) (proj1 Hlen)). cbn [lift].
    rewrite (upd_swqe_at _ i _ _ (with_entry_at w1 i x _ Hx1)), with_entry_twice.
    eexists. reflexivity. }
  exists (qp_sq (w_qp (with_entry w1 i y))). split_and!; try done.
  - unfold usiw_post_send. cbv [mbind M_bind]. cbn [the_qp gets]. rewrite Hst.
    cbn [post_send_loop]. cbv [mbind M_bind]. by rewrite Ep.
  - by apply (with_entry_wf w1).
Qed.

(** ** Receive requests *)

Definition with_rq w (q : usiw_recv_wqe_queue) : world := w <| w_qp ::= update qp_rq0 (fun _ => q) |>.

Lemma post_recv_wr_ok w wr held i l (q := qp_rq0 (w_qp w)) :
  len (rwr_sg_list wr) <= rq_max_sge q -> rq_wf held q -> ring_elems (rq_free_ring q) = i :: l ->
  exists (x : usiw_recv_wqe) r' f', let q' := q <| rq_storage ::= fun st => <[i := fill_recv wr x]> st |>
                              <| rq_free_ring := f' |> <| rq_ring := r' |> in
    post_recv_wr wr w = Ok (0, with_rq w q') /\ rq_wf held q' /\
    ring_elems r' = ring_elems (rq_ring q) ++ [i] /\ ring_elems f' = l /\ (i < length (rq_storage q))%nat.
Proof.
  intros Hlim [Hinv Hst] E. destruct (ring_dequeue_law _ _ _ E) as (f' & Ef & El & Hc).
  assert (i < Z.to_nat (rq_max_wr q))%nat as Hi.
  { destruct Hinv as [Hp _ _]. assert (i ∈ seq 0 (Z.to_nat (rq_max_wr q))) as Hin
      by (rewrite <- Hp, E; set_solver). apply elem_of_seq in Hin. lia. }
  destruct (lookup_lt_is_Some_2 (rq_storage q) i ltac:(lia)) as [x Hx].
  assert (wq_inv (rq_ring q) f' (rq_active q) (i :: held) (Z.to_nat (rq_max_wr q))) as Hinv'.
  { destruct Hinv as [Hp Hr Hf]. split; [|done|congruence]. rewrite <- Hp, E, El. solve_Permutation. }
  destruct (wq_post _ _ _ _ _ _ Hinv') as (r' & Er & Erl & Hinv2).
  exists x, r', f'. split_and!; try done; [| |lia].
  - unfold post_recv_wr, take_recv_wqe, qp_get_next_recv_wqe, enqueue_recv, upd_rwqe, upd_rq, upd_qp.
    cbv [mbind M_bind]. simpl. fold q.
    rewrite Z.gtb_ltb, (proj2 (Z.ltb_ge _ _) Hlim). simpl. fold q. rewrite Ef. simpl.
    fold q. rewrite Er. simpl. by rewrite (alter_insert _ i _ x Hx).
  - split; [done|]. simpl. by rewrite length_insert.
Qed.

Lemma post_recv_loop_ok wrs : forall w held (q := qp_rq0 (w_qp w)),
  rq_wf held q -> Forall (fun wr => len (rwr_sg_list wr) <= rq_max_sge q) wrs ->
  let free := ring_elems (rq_free_ring q) in
  let k := Nat.min (length wrs) (length free) in
  exists q', post_recv_loop wrs w =
      Ok ((if decide (k = length wrs) then 0 else ENOSPC, drop k wrs), with_rq w q') /\
    rq_wf held q' /\ ring_elems (rq_ring q') = ring_elems (rq_ring q) ++ take k free /\
    Forall2 (fun wr i => exists x : usiw_recv_wqe, rq_storage q' !! i = Some (fill_recv wr x)) (take k wrs) (take k free) /\
    forall j, j ∉ take k free -> rq_storage q' !! j = rq_storage q !! j.
Proof.
  induction wrs as [|wr wrs IH]; intros w held q Hq Hok free k.
  { exists q. unfold k. simpl. rewrite app_nil_r. split_and!; try done. by destruct w as [[]]. }
  apply Forall_cons in Hok as [Hwr Hok]. destruct free as [|i l] eqn:E; unfold free in E.
  { exists q. unfold k. rewrite Nat.min_0_r, decide_False by done. simpl. rewrite app_nil_r.
    split_and!; try done. cbn [post_recv_loop]. unfold post_recv_wr, take_recv_wqe, qp_get_next_recv_wqe.
    cbv [mbind M_bind]. simpl. fold q. rewrite Z.gtb_ltb, (proj2 (Z.ltb_ge _ _) Hwr). simpl. fold q.
    rewrite (ring_dequeue_nil _ E). unfold q. by destruct w as [[]]. }
  destruct (post_recv_wr_ok w wr held i l Hwr Hq E) as (x & r' & f' & Ep & Hq1 & Er & Ef & Hlt).
  fold q in Ep, Hq1, Er, Hlt.
  match type of Ep with _ = Ok (_, with_rq w ?q1) => set (qq := q1) in * end.
  destruct (IH (with_rq w qq) held Hq1) as (q' & El & Hq' & Er' & Hf2 & Hfr); [done|].
  cbn [post_recv_loop]. cbv [mbind M_bind]. rewrite Ep, Z.eqb_refl, El. simpl in Er', Hf2, Hfr |- *.
  rewrite Ef in *. set (k' := Nat.min (length wrs) (length l)) in *. exists q'.
  assert (NoDup (i :: l)) as [Hi _]%NoDup_cons.
  { rewrite <- E. destruct Hq as [[Hn _]%wq_nodup _]. apply NoDup_app in Hn as (_ & _ & Hn).
    by apply NoDup_app in Hn as (? & _). }
  assert (i ∉ take k' l) as Hi' by (intros Hin; apply Hi; rewrite <- (take_drop k' l); set_solver).
  split_and!; try done.
  - unfold k. simpl. fold k'. do 2 f_equal. f_equal. by repeat case_decide; lia || done.
  - rewrite Er', Er, <- app_assoc. done.
  - constructor; [|done]. exists x. rewrite Hfr by done. simpl. by apply list_lookup_insert_eq.
  - intros j [Hj1 Hj2]%not_elem_of_cons. rewrite Hfr by done. simpl. by rewrite list_lookup_insert_ne.
Qed.

(** Usiw_post_recv on requests within the scatter/gather limit posts as
    many as there are free entries, in order, with fresh receive state,
    changes no other entry, and reports the first one that did not fit with
    ENOSPC. *)
Theorem usiw_post_recv_spec w (held : list nat) (wrs : list ibv_recv_wr) (q := qp_rq0 (w_qp w)) :
  rq_wf held q -> Forall (fun wr => len (rwr_sg_list wr) <= rq_max_sge q) wrs ->
  conn_state (shm_qp (w_qp w)) <> usiw_qp_error ->
  let free := ring_elems (rq_free_ring q) in
  let k := Nat.min (length wrs) (length free) in
  exists q', usiw_post_recv wrs w =
      Ok ((if decide (k = length wrs) then 0 else ENOSPC, drop k wrs), with_rq w q') /\
    rq_wf held q' /\ ring_elems (rq_ring q') = ring_elems (rq_ring q) ++ take k free /\
    Forall2 (fun wr i => exists x : usiw_recv_wqe, rq_storage q' !! i = Some (fill_recv wr x)) (take k wrs) (take k free) /\
    forall j, j ∉ take k free -> rq_storage q' !! j = rq_storage q !! j.
Proof using L.
  intros Hq Hok Hst free k.
  destruct (post_recv_loop_ok wrs w held Hq Hok) as (q' & E & H). exists q'. split; [|exact H].
  unfold usiw_post_recv. cbv [mbind M_bind]. cbn [the_qp gets]. by destruct (conn_state _).
Qed.
End Post.
