(* ===== verification/Life.v ===== *)
(** * The life of a queue pair

    Creation, the connection state under the calls of the application and the
    progress thread, and the release of the two references. *)
From S2P Require Import Prelude Serial Dpdk Binheap Proto Iov State TrpRx Cq Mr Wqe Frame TrpTx Rdmap Progress Verbs Conserve Post.

Section Life.
Context {D : Dpdk}.

(** ** Creation *)

Section Create.
Context {L : DpdkLaws D}.

Lemma pow2_nat n : 0 <= n -> (exists k, 0 <= k /\ n + 1 = 2 ^ k) -> (exists k, S (Z.to_nat n) = 2 ^ k)%nat.
Proof.
  intros Hn (k & Hk & E). exists (Z.to_nat k). apply Nat2Z.inj.
  rewrite Nat2Z.inj_pow, Z2Nat.id by done. lia.
Qed.

Definition all_allocs (al : wq_allocs) : Prop :=
  al_ring al = true /\ al_wfree al = true /\ al_storage al = true.

Lemma send_queue_init_ok req n sge al :
  wr_cap_ok req n -> all_allocs al ->
  exists sq, usiw_send_wqe_queue_init n sge al = (0, Some sq) /\ sq_wf [] sq /\ sq_max_wr sq = n /\
    sq_max_sge sq = sge /\ ring_elems (sq_ring sq) = [] /\ sq_active sq = [].
Proof.
  intros [Hn Hk] (H1 & H2 & H3).
  destruct (wq_init (Z.to_nat n) (pow2_nat n ltac:(lia) Hk)) as (r0 & f0 & E & Hinv & E' & Er).
  rewrite E in E'. injection E' as <-. unfold usiw_send_wqe_queue_init.
  rewrite wrap_small by (unfold in_range; lia). replace (Z.to_nat (n + 1)) with (S (Z.to_nat n)) by lia.
  rewrite H1, H2, H3, E. eexists. split; [done|]. split_and!; try done.
  split; simpl; [done|by rewrite length_replicate].
Qed.

Lemma recv_queue_init_ok req n sge al :
  wr_cap_ok req n -> all_allocs al ->
  exists rq, usiw_recv_wqe_queue_init n sge al = (0, Some rq) /\ rq_wf [] rq /\ rq_max_wr rq = n /\
    rq_max_sge rq = sge /\ ring_elems (rq_ring rq) = [] /\ rq_active rq = [].
Proof.
  intros [Hn Hk] (H1 & H2 & H3).
  destruct (wq_init (Z.to_nat n) (pow2_nat n ltac:(lia) Hk)) as (r0 & f0 & E & Hinv & E' & Er).
  rewrite E in E'. injection E' as <-. unfold usiw_recv_wqe_queue_init.
  rewrite wrap_small by (unfold in_range; lia). replace (Z.to_nat (n + 1)) with (S (Z.to_nat n)) by lia.
  rewrite H1, H2, H3, E. eexists. split; [done|]. split_and!; try done.
  split; simpl; [done|]. rewrite length_replicate. lia.
Qed.

(** Usiw_create_qp, when its allocations succeed, returns a queue pair in
    the INIT state with two references, whose queues are well formed and empty
    and which reports the adjusted capabilities, and registers it in its
    context. *)
Theorem create_qp_ready (dev : usiw_device) (attr : ibv_qp_init_attr) (cap : ibv_qp_cap) (al : qp_allocs)
    (shm : urdmad_qp) (num : Z) (cqs : list usiw_cq) (ctx : usiw_context) :
  0 <= max_send_wr (ia_cap attr) -> 0 <= max_recv_wr (ia_cap attr) ->
  create_qp_caps (ia_qp_type attr) (ia_cap attr) = Ok (Some cap) ->
  al_qp al = true -> al_shm al = Some shm -> al_kernel al = inl num ->
  all_allocs (al_sq al) -> all_allocs (al_rq al) ->
  exists qp cqs', usiw_create_qp dev attr al cqs ctx =
      Ok (None, Some qp, cqs', {| qp_init_count := u32 (qp_init_count ctx + 1); ctx_qp := num :: ctx_qp ctx;
                                  qp_active := qp_active ctx ++ [num] |}) /\
    sq_wf [] (qp_sq qp) /\ rq_wf [] (qp_rq0 qp) /\
    ring_elems (sq_ring (qp_sq qp)) = [] /\ sq_active (qp_sq qp) = [] /\
    ring_elems (rq_ring (qp_rq0 qp)) = [] /\ rq_active (qp_rq0 qp) = [] /\
    conn_state (shm_qp qp) = usiw_qp_unbound /\ qp_refcnt qp = 2 /\ ord_active qp = 0 /\
    ((fun r => (qa_qp_state (fst r), qa_cap (fst r))) <$> snd (usiw_query_qp qp true 0)) =
      Some (IBV_QPS_INIT, cap).
Proof using L.
  intros Hps Hpr Hc H1 H2 H3 Has Har. destruct (create_qp_caps_wr _ _ _ Hps Hpr Hc) as [Hs Hr]. unfold usiw_create_qp. rewrite Hc. cbn [mbind outcome_bind].
  rewrite H1, H2, H3. cbn [negb].
  destruct (send_queue_init_ok _ _ (max_send_sge cap) (al_sq al) Hs Has) as (sq & -> & Hsq & Em & Eg & Er & Ea).
  destruct (recv_queue_init_ok _ _ (max_recv_sge cap) (al_rq al) Hr Har) as (rq & -> & Hrq & Em' & Eg' & Er' & Ea').
  eexists _, _. split; [done|]. split_and!; try done.
  simpl. rewrite Em, Eg, Em', Eg'. by destruct cap.
Qed.
End Create.

(** ** Connection state *)

(** What the library does to a queue pair that can change its state. *)
Inductive lib_step : world -> world -> Prop :=
| ls_kni w w' al rx r : kni_qp_step al rx w = Ok (r, w') -> lib_step w w'
| ls_modify w w' s mask kret ret : usiw_modify_qp s mask kret w = Ok (ret, w') -> lib_step w w'
| ls_destroy w w' kret r : usiw_destroy_qp kret w = Ok (r, w') -> lib_step w w'.

Abbreviation state_of w := (qp_state_val (conn_state (shm_qp (w_qp w)))).

Lemma modify_next_le s : qp_state_val s <= qp_state_val (modify_next s).
Proof. by destruct s. Qed.

Lemma kni_transition_le s r s' : kni_transition s r s' -> qp_state_val s <= qp_state_val s'.
Proof. by intros [|? [->| ->]|? [->| ->]| |]. Qed.

(** The state a queue pair is left in by [usiw_destroy_qp]. *)
Definition destroyed (s : urdma_qp_state) : urdma_qp_state :=
  match s with usiw_qp_connected | usiw_qp_running => usiw_qp_error | _ => s end.

(** The reference count of completion queue [c], and the references that a
    queue pair holds on it. *)
Definition cq_refs (w : world) (c : nat) : option Z := cq_refcnt <$> w_cqs w !! c.
Definition uses_cq (qp : usiw_qp) (c : nat) : Z :=
  if decide (c = qp_send_cq qp \/ c = qp_recv_cq qp) then 1 else 0.

Lemma drop_ref_spec c w r w' :
  (cq ← get_cq c; put_cq c (cq <| cq_refcnt ::= fun r => r - 1 |>);; mret (cq_refcnt cq =? 1)) w = Ok (r, w') ->
  w_qp w' = w_qp w /\ w_ctx w' = w_ctx w /\
  forall d, cq_refs w' d = (fun n => n - if decide (d = c) then 1 else 0) <$> cq_refs w d.
Proof.
  intros H. unfold get_cq in H. apply M_bind_ok in H as (cq & w0 & Hg & H).
  destruct (w_cqs w !! c) as [cq0|] eqn:Hc; [|done]. simpl in Hg. injection Hg as -> <-.
  injection H as <- <-. split_and!; [done..|]. intros d. unfold cq_refs. simpl. case_decide as Hd.
  - subst d. rewrite list_lookup_insert_eq by (by eapply lookup_lt_Some). by rewrite Hc.
  - rewrite list_lookup_insert_ne by done. destruct (_ !! d); simpl; [|done]. f_equal. lia.
Qed.

Lemma do_destroy_qp_spec w r w' : usiw_do_destroy_qp w = Ok (r, w') ->
  w_qp w' = w_qp w /\ w_ctx w' = w_ctx w /\
  forall c, cq_refs w' c = (fun n => n - uses_cq (w_qp w) c) <$> cq_refs w c.
Proof.
  unfold usiw_do_destroy_qp. intros H. apply M_bind_ok in H as (qp & w0 & [= <- <-] & H).
  apply M_bind_ok in H as (a & w1 & H1 & H). apply drop_ref_spec in H1 as (E1 & E2 & E3).
  apply M_bind_ok in H as (b & w2 & H2 & H). injection H as <- <-. unfold uses_cq.
  destruct (Nat.eqb_spec (qp_send_cq (w_qp w)) (qp_recv_cq (w_qp w))) as [E|E].
  - injection H2 as <- <-. split_and!; [done..|]. intros c. rewrite E3. destruct (cq_refs w c); simpl; [|done].
    f_equal. repeat case_decide; naive_solver lia.
  - apply drop_ref_spec in H2 as (E4 & E5 & E6). split_and!; [congruence..|]. intros c.
    rewrite E6, E3. destruct (cq_refs w c); simpl; [|done]. f_equal.
    repeat case_decide; naive_solver lia.
Qed.

(** A reference to the queue pair is dropped; with the last one those to the
    completion queues. *)
Record unreferenced (w w' : world) (freed : bool) : Prop := {
  un_count : qp_refcnt (w_qp w') = qp_refcnt (w_qp w) - 1;
  un_freed : freed = (qp_refcnt (w_qp w) =? 1);
  un_num : qp_num (w_qp w') = qp_num (w_qp w);
  un_uses c : uses_cq (w_qp w') c = uses_cq (w_qp w) c;
  un_refs c : cq_refs w' c = (fun n => if freed then n - uses_cq (w_qp w) c else n) <$> cq_refs w c
}.

(** The common end of [usiw_destroy_qp] and [kni_release]. *)
Lemma drop_qp_ref {A} (x y : A) (qp : usiw_qp) w r w' :
  qp_refcnt qp = qp_refcnt (w_qp w) ->
  (upd_qp (fun qp => qp <| qp_refcnt ::= fun n => n - 1 |>);;
   if qp_refcnt qp =? 1 then usiw_do_destroy_qp;; mret x else mret y) w = Ok (r, w') ->
  w_ctx w' = w_ctx w /\ shm_qp (w_qp w') = shm_qp (w_qp w) /\
  exists freed, unreferenced w w' freed /\ r = if freed then x else y.
Proof.
  intros Hq H. apply M_bind_ok in H as ([] & w1 & [= <-] & H). rewrite Hq in H.
  destruct (qp_refcnt (w_qp w) =? 1) eqn:E.
  - apply M_bind_ok in H as (u & w2 & Hd & H). injection H as <- <-.
    apply do_destroy_qp_spec in Hd as (E1 & E2 & E3). split_and!; [done|by rewrite E1|].
    exists true. split; [|done]. split; [by rewrite E1|done|by rewrite E1|by rewrite E1|done].
  - injection H as <- <-. split_and!; [done..|]. exists false. split; [|done].
    split; try done. intros c. unfold cq_refs. simpl. by destruct (_ !! c).
Qed.

Lemma uncount_init_same s w r w' : uncount_init s w = Ok (r, w') ->
  w_qp w' = w_qp w /\ w_cqs w' = w_cqs w /\ ctx_qp (w_ctx w') = ctx_qp (w_ctx w) /\
  qp_active (w_ctx w') = qp_active (w_ctx w).
Proof.
  unfold uncount_init. intros H. destruct s; try (by injection H as <- <-).
  apply M_bind_ok in H as (ctx & w1 & [= <- <-] & H).
  apply M_bind_ok in H as (u & w2 & Ha & H). unfold lift in Ha.
  destruct (c_assert _); [|done]. injection Ha as <- <-. by injection H as <- <-.
Qed.

Lemma refs_alter (f : usiw_cq -> usiw_cq) (c d : nat) (l : list usiw_cq) :
  (forall q, cq_refcnt (f q) = cq_refcnt q) -> cq_refcnt <$> alter f c l !! d = cq_refcnt <$> l !! d.
Proof.
  intros Hf. destruct (decide (c = d)) as [->|Hn].
  - rewrite list_lookup_alter_eq. destruct (l !! d); simpl; [|done]. by rewrite Hf.
  - by rewrite list_lookup_alter_ne.
Qed.

Lemma destroy_qp_spec kret w r w' :
  usiw_destroy_qp kret w = Ok (r, w') ->
  conn_state (shm_qp (w_qp w')) = destroyed (conn_state (shm_qp (w_qp w))) /\
  ctx_qp (w_ctx w') = filter (fun n => n <> qp_num (w_qp w)) (ctx_qp (w_ctx w)) /\
  qp_active (w_ctx w') = qp_active (w_ctx w) /\
  exists freed, unreferenced w w' freed /\ r = (kret, freed).
Proof.
  intros H. unfold usiw_destroy_qp in H. apply M_bind_ok in H as (qp & w0 & [= <- <-] & H).
  apply M_bind_ok in H as ([] & w1 & (Eq1 & Ec1 & Ea1 & Eb1)%uncount_init_same & H).
  apply M_bind_ok in H as ([] & w2 & [= <-] & H).
  apply M_bind_ok in H as ([] & w3 & H3 & H). apply M_bind_ok in H as ([] & w4 & H4 & H).
  apply M_bind_ok in H as ([] & w5 & [= <-] & H).
  assert (forall c, cq_refs w3 c = cq_refs w c) as E3.
  { intros c. unfold cq_refs. destruct (_ =? _)%nat; injection H3 as <-; simpl; rewrite Ec1; by rewrite !refs_alter. }
  assert (w_qp w3 = w_qp w /\ w_ctx w3 = w_ctx w1) as [Eq3 Ex3].
  { destruct (_ =? _)%nat; injection H3 as <-; by rewrite Eq1. }
  assert (w_ctx w4 = w_ctx w3 /\ w_cqs w4 = w_cqs w3 /\
    w_qp w4 = w_qp w3 <| shm_qp ::= update conn_state destroyed |>) as (Ex4 & Ec4 & Eq4).
  { rewrite Eq3. destruct (conn_state (shm_qp (w_qp w))) eqn:Es; injection H4 as <-.
    all: split_and!; try done; rewrite Eq3 || (simpl; rewrite Eq3);
      destruct (w_qp w) as [? []]; simpl in *; by subst. }
  apply drop_qp_ref in H as (Ex & Esh & freed & Hu & ->); [|simpl; by rewrite Eq4, Eq3].
  rewrite Esh, Ex. simpl. rewrite Ex4, Ex3, Ea1, Eb1, Eq4, Eq3. split_and!; try done.
  exists freed. split; [|by destruct freed]. destruct Hu as [H1 H2 H5 H6 H7]. simpl in *.
  rewrite Eq4, Eq3 in *. split; try done. intros c. rewrite H7. unfold cq_refs at 1. simpl.
  rewrite Ec4. fold (cq_refs w3 c). by rewrite E3.
Qed.

Lemma release_spec w r w' :
  kni_release w = Ok (r, w') ->
  conn_state (shm_qp (w_qp w')) = conn_state (shm_qp (w_qp w)) /\
  qp_active (w_ctx w') = filter (fun n => n <> qp_num (w_qp w)) (qp_active (w_ctx w)) /\
  ctx_qp (w_ctx w') = ctx_qp (w_ctx w) /\
  exists freed, unreferenced w w' freed /\ r = KniRemoved freed.
Proof.
  intros H. unfold kni_release in H. apply M_bind_ok in H as (qp & w0 & [= <- <-] & H).
  apply M_bind_ok in H as ([] & w1 & [= <-] & H).
  apply drop_qp_ref in H as (Ex & Esh & freed & Hu & ->); [|done].
  rewrite Esh, Ex. split_and!; try done. exists freed. split; [by destruct Hu|by destruct freed].
Qed.

(** Over every sequence of steps of the progress thread, usiw_modify_qp
    and usiw_destroy_qp the connection state of a queue pair only moves
    forward, and the error state is final. *)
Theorem lib_step_monotone (w w' : world) :
  rtc lib_step w w' -> state_of w <= state_of w' /\
  (conn_state (shm_qp (w_qp w)) = usiw_qp_error -> conn_state (shm_qp (w_qp w')) = usiw_qp_error).
Proof.
  intros H. enough (state_of w <= state_of w') as Hle.
  { split; [done|]. intros E. rewrite E in Hle. simpl in Hle.
    destruct (conn_state (shm_qp (w_qp w'))); simpl in Hle; lia || done. }
  induction H as [|w w1 w' Hs _ IH]; [done|]. etransitivity; [|exact IH]. clear IH.
  destruct Hs as [w w1 al rx r H|w w1 s mask kret ret H|w w1 kret r H].
  - eapply kni_transition_le, kni_transition_ok, H.
  - unfold usiw_modify_qp in H. destruct (negb _); [by injection H as <- <-|].
    destruct (negb _); [by injection H as <- <-|].
    destruct s; try (by injection H as <- <-); injection H as <- <-; apply modify_next_le.
  - destruct (destroy_qp_spec _ _ _ _ H) as [-> _]. by destruct (conn_state _).
Qed.

(** ** References *)

(** In the error state the progress thread lets the queue pair go. *)
Lemma kni_error al rx w r w' : conn_state (shm_qp (w_qp w)) = usiw_qp_error ->
  kni_qp_step al rx w = Ok (r, w') -> kni_release w = Ok (r, w').
Proof.
  intros Ec H. unfold kni_qp_step in H. apply M_bind_ok in H as (qp & w0 & [= <- <-] & H).
  by rewrite Ec in H.
Qed.

(** Both references are dropped, in either order. *)
Lemma two_unreferenced w w1 w2 f1 f2 :
  qp_refcnt (w_qp w) = 2 -> unreferenced w w1 f1 -> unreferenced w1 w2 f2 ->
  f1 = false /\ f2 = true /\ forall c, cq_refs w2 c = (fun n => n - uses_cq (w_qp w) c) <$> cq_refs w c.
Proof.
  intros Hr [A1 A2 A3 A4 A5] [B1 B2 B3 B4 B5]. rewrite Hr in *. rewrite A1 in B2.
  simpl in A2, B2. subst. split_and!; [done..|]. intros c. rewrite B5, A5, A4. by destruct (cq_refs w c).
Qed.

Lemma filter_gone (n : Z) (l : list Z) : n ∉ filter (fun m => m <> n) l.
Proof. rewrite list_elem_of_filter. tauto. Qed.


(** C37: Destroying a queue pair that was never connected does not free it:
    one reference and the place in the list of the progress thread remain, and
    no iteration of the thread ever drops them. *)
Theorem destroy_unbound_leaks (w w1 : world) (kret : Z) (res : Z * bool) :
  qp_refcnt (w_qp w) = 2 -> conn_state (shm_qp (w_qp w)) = usiw_qp_unbound ->
  usiw_destroy_qp kret w = Ok (res, w1) ->
  snd res = false /\ qp_refcnt (w_qp w1) = 1 /\ qp_active (w_ctx w1) = qp_active (w_ctx w) /\
  forall al rx, kni_qp_step al rx w1 = Ok (KniKeep, w1).
Proof.
  intros Hr Hs Hd. destruct (destroy_qp_spec _ _ _ _ Hd) as (E1 & _ & E2 & f & [U1 U2 _ _ _] & ->).
  rewrite Hr in *. split_and!; [done..|]. intros al rx. unfold kni_qp_step. cbv [mbind M_bind].
  cbn [the_qp gets]. by rewrite E1, Hs.
Qed.
End Life.
