(* ===== verification/Config.v ===== *)
(** The configuration file (src/util/config_file.c), addresses in it
    (parse_ipv4_address of src/util/util.c), and the command line that
    liburdma gives to DPDK (do_config of src/liburdma/driver.c).

    The values of the file are those of the json-c library, whose functions
    are a class; what the theorems say of the configuration holds for every
    implementation of them. *)
From Stdlib Require Export Strings.String Strings.Ascii.
From S2P Require Import Prelude Kern.
Open Scope Z_scope.

(** ** json-c *)

Inductive json_type :=
| json_type_null | json_type_boolean | json_type_double | json_type_int
| json_type_object | json_type_array | json_type_string.

#[export] Instance json_type_eq_dec : EqDecision json_type.
Proof. solve_decision. Defined.

(** [json_object_object_get_ex] finds a field of an object, [json_fields] are
    its fields in the order of [json_object_object_foreach],
    [json_object_get_int] converts to a 32-bit integer; [print_int64] and
    [print_double] are the images of numbers that [asprintf] makes. *)
Class JsonC := {
  json : Type;
  json_object_get_type : json -> json_type;
  json_object_object_get_ex : json -> string -> option json;
  json_fields : json -> list (string * json);
  json_array : json -> list json;
  json_object_get_int : json -> Z;
  json_object_get_boolean : json -> bool;
  json_object_get_string : json -> string;
  print_int64 : json -> string;
  print_double : json -> string;
  pci_addr : Type;
  eal_parse_pci_DomBDF : string -> option pci_addr;
  eal_parse_pci_BDF : string -> option pci_addr
}.

Definition UINT_MAX : Z := 4294967295.
Definition DEFAULT_MTU : Z := 1500.
Definition JUMBO_MTU : Z := 9000.
Definition ipv4_addr_len_max : nat := 20.

Section config.
Context `{JsonC}.

Definition json_object_is_type (o : json) (t : json_type) : bool := bool_decide (json_object_get_type o = t).

(** [get_int_value] and [get_uint_value]: [None] is -EINVAL. *)
Definition get_int_value (parent : json) (name : string) (min max def : Z) : option Z :=
  match json_object_object_get_ex parent name with
  | Some obj =>
      if negb (json_object_is_type obj json_type_int) && negb (json_object_is_type obj json_type_string) then None else
      let val := json_object_get_int obj in
      if (val <? min) || (max <? val) then None else Some val
  | None => Some def
  end.

Definition get_uint_value (parent : json) (name : string) (min max def : Z) : option Z :=
  match json_object_object_get_ex parent name with
  | Some obj =>
      if negb (json_object_is_type obj json_type_int) && negb (json_object_is_type obj json_type_string) then None else
      let val := u32 (json_object_get_int obj) in
      if (val <? min) || (max <? val) then None else Some val
  | None => Some def
  end.

(** Parse a PCI address of form [XXXX:]XX:XX.X *)
Definition parse_pci_addr (str : string) : option pci_addr :=
  if (String.length str =? 12)%nat then eal_parse_pci_DomBDF str
  else if (String.length str =? 7)%nat then eal_parse_pci_BDF str
  else None.

Inductive port_id := urdma_port_id_index | urdma_port_id_pci (a : pci_addr).

Record usiw_port_config := PortConfig {
  pc_id : port_id; pc_mtu : Z; pc_rx_desc_count : Z; pc_tx_desc_count : Z;
  pc_rx_burst_size : Z; pc_tx_burst_size : Z; pc_max_qp : Z; pc_ipv4_address : list ascii
}.

(** The bytes that [strncpy(dst, src, n)] stores: no terminator when the
    source is at least [n] characters long. *)
Definition strncpy (n : nat) (src : string) : list ascii :=
  let s := take n (list_ascii_of_string src) in
  s ++ replicate (n - List.length s) zero.

Definition int_or_string (o : json) : bool :=
  json_object_is_type o json_type_int || json_object_is_type o json_type_string.

(** How a port is identified; the flag is [can_use_index]. *)
Definition get_port_id (port : json) (can_use_index : bool) : option (port_id * bool) :=
  match json_object_object_get_ex port "pci_address" with
  | Some obj =>
      if negb (json_object_is_type obj json_type_string) then None else
      a ← parse_pci_addr (json_object_get_string obj); Some (urdma_port_id_pci a, false)
  | None => if can_use_index then Some (urdma_port_id_index, can_use_index) else None
  end.

Definition get_mtu (port : json) : option Z :=
  match json_object_object_get_ex port "mtu" with
  | Some obj =>
      if negb (int_or_string obj) then None else
      let mtu := u32 (json_object_get_int obj) in
      if negb (mtu =? DEFAULT_MTU) && negb (mtu =? JUMBO_MTU) then None else Some mtu
  | None => Some DEFAULT_MTU
  end.

(** One iteration of the loop of [urdma__config_file_get_ports]. *)
Definition get_port_config (port : json) (can_use_index : bool) : option (usiw_port_config * bool) :=
  if negb (json_object_is_type port json_type_object) then None else
  '(id, can_use_index) ← get_port_id port can_use_index;
  addr ← json_object_object_get_ex port "ipv4_address";
  if negb (json_object_is_type addr json_type_string) then None else
  mtu ← get_mtu port;
  max_qp ← get_int_value port "max_qp" 1 UINT16_MAX (-1);
  rx_desc ← get_uint_value port "rx_desc_count" 1 UINT_MAX UINT_MAX;
  rx_burst ← get_uint_value port "rx_burst_size" 1 rx_desc (if 32 <? rx_desc then rx_desc else 32);
  tx_desc ← get_uint_value port "tx_desc_count" 1 UINT_MAX UINT_MAX;
  tx_burst ← get_uint_value port "tx_burst_size" 1 tx_desc 8;
  Some ({| pc_id := id; pc_mtu := mtu; pc_rx_desc_count := rx_desc; pc_tx_desc_count := tx_desc;
           pc_rx_burst_size := rx_burst; pc_tx_burst_size := tx_burst; pc_max_qp := max_qp;
           pc_ipv4_address := strncpy ipv4_addr_len_max (json_object_get_string addr) |}, can_use_index).

Fixpoint get_port_configs (ports : list json) (can_use_index : bool) : option (list usiw_port_config) :=
  match ports with
  | [] => Some []
  | port :: ports =>
      '(c, can_use_index) ← get_port_config port can_use_index;
      cs ← get_port_configs ports can_use_index;
      Some (c :: cs)
  end.

(** The ports, or the error; [oom] when [calloc] fails. *)
Definition urdma__config_file_get_ports (oom : bool) (root : json) : Z + list usiw_port_config :=
  match json_object_object_get_ex root "ports" with
  | None => inl (- EINVAL)
  | Some ports =>
      if negb (json_object_is_type ports json_type_array) then inl (- EINVAL) else
      if oom then inl (- ENOMEM) else
      match get_port_configs (json_array ports) true with Some cs => inr cs | None => inl (- EINVAL) end
  end.

(** [urdma__config_file_get_sock_name]; [runtime_dir] is XDG_RUNTIME_DIR. *)
Definition get_default_sock_name (oom : bool) (runtime_dir : option string) : option string :=
  match runtime_dir with
  | None | Some EmptyString => None
  | Some dir => if oom then None else Some (dir ++ "/urdma/urdma.sock")%string
  end.

Definition urdma__config_file_get_sock_name (oom : bool) (runtime_dir : option string) (root : json) : option string :=
  match json_object_object_get_ex root "socket" with
  | None => get_default_sock_name oom runtime_dir
  | Some name =>
      if negb (json_object_is_type name json_type_string) then None else
      if oom then None else Some (json_object_get_string name)
  end.

Definition urdma__config_file_get_timer_interval (root : json) : Z :=
  match json_object_object_get_ex root "stats_timer_interval" with
  | None => 0
  | Some i => if negb (json_object_is_type i json_type_int) then 0 else json_object_get_int i
  end.

(** ** Arguments of DPDK *)

(** [get_arg_count]: its result, and what it leaves in [args]. *)
Definition get_arg_count (root : json) : Z * option json :=
  match json_object_object_get_ex root "eal_args" with
  | None => (0, None)
  | Some args =>
      if negb (json_object_is_type args json_type_object) then (- EINVAL, Some args)
      else (len (json_fields args) + 1, Some args)
  end.

(** [argv[i] = a] for an array of pointers, [None] for NULL. *)
Definition set_arg (argv : list (option string)) (i : nat) (a : option string) : outcome (list (option string)) :=
  if (i <? List.length argv)%nat then Ok (<[i := a]> argv) else Fault OutOfBounds.

(** The arguments for one field, or [None] for a value of another type. *)
Definition eal_arg (key : string) (value : json) : option (list string) :=
  let long := (1 <? String.length key)%nat in
  let text t := if long then [("--" ++ key ++ "=" ++ t)%string] else [("-" ++ key)%string; t] in
  match json_object_get_type value with
  | json_type_boolean =>
      Some (if json_object_get_boolean value then [("-" ++ (if long then "-" else "") ++ key)%string] else [])
  | json_type_string => Some (text (json_object_get_string value))
  | json_type_int => Some (text (print_int64 value))
  | json_type_double => Some (text (print_double value))
  | _ => None
  end.

Fixpoint set_args (argv : list (option string)) (i : nat) (l : list string) : outcome (nat * list (option string)) :=
  match l with
  | [] => Ok (i, argv)
  | a :: l => argv ← set_arg argv i (Some a); set_args argv (S i) l
  end.

Fixpoint eal_args_loop (argv : list (option string)) (i : nat) (fields : list (string * json)) :
    outcome (option (nat * list (option string))) :=
  match fields with
  | [] => argv ← set_arg argv i None; Ok (Some (i, argv))
  | (key, value) :: fields =>
      match eal_arg key value with
      | None => Ok None
      | Some l => '(i, argv) ← set_args argv i l; eal_args_loop argv i fields
      end
  end.

(** [urdma__config_file_get_eal_args(config, argv)] when no allocation fails;
    [None] is an error. *)
Definition urdma__config_file_get_eal_args (argv0 : string) (root : json) (argv : list (option string)) :
    outcome (option (nat * list (option string))) :=
  let '(_, args) := get_arg_count root in
  argv ← set_arg argv 0 (Some argv0);
  match args with
  | None => Fault NullDeref
  | Some args => eal_args_loop argv 1 (json_fields args)
  end.

(** [do_config]: the name of the socket, [eal_argc] and [eal_argv]. *)
Definition do_config (argv0 hostname : string) (runtime_dir : option string) (root : json) :
    outcome (option (string * nat * list (option string))) :=
  match urdma__config_file_get_sock_name false runtime_dir root with
  | None => Ok None
  | Some sock_name =>
      let '(argc, _) := get_arg_count root in
      if argc + 6 <? 0 then Ok None else
      r ← urdma__config_file_get_eal_args argv0 root (replicate (Z.to_nat (argc + 6)) None);
      match r with
      | None => Ok None
      | Some (_, argv) =>
          let argc := Z.to_nat argc in
          argv ← set_arg argv argc (Some "--proc-type=secondary"%string);
          argv ← set_arg argv (argc + 1) (Some "--file-prefix"%string);
          argv ← set_arg argv (argc + 2) (Some hostname);
          argv ← set_arg argv (argc + 3) (Some "-c"%string);
          Ok (Some (sock_name, argc + 5, argv)%nat)
      end
  end.
End config.

(** ** Addresses *)

Definition LONG_MAX : Z := 9223372036854775807.
Definition LONG_MIN : Z := -9223372036854775808.

(** [strtol(str, &endptr, 10)] of the C library: the value, whether it is out
    of range, and the rest of the string. *)
Definition is_space (c : ascii) : bool :=
  let n := nat_of_ascii c in ((n =? 32) || ((9 <=? n) && (n <=? 13)))%nat.
Definition digit (c : ascii) : option Z :=
  let n := Z.of_nat (nat_of_ascii c) in if (48 <=? n) && (n <=? 57) then Some (n - 48) else None.

Fixpoint digits (acc : Z) (s : string) : Z * string :=
  match s with
  | EmptyString => (acc, s)
  | String c r => match digit c with Some d => digits (acc * 10 + d) r | None => (acc, s) end
  end.

Fixpoint skip_space (s : string) : string :=
  match s with
  | String c r => if is_space c then skip_space r else s
  | EmptyString => s
  end.

Definition sign (s : string) : bool * string :=
  match s with
  | String c r => if Ascii.eqb c "-" then (true, r) else if Ascii.eqb c "+" then (false, r) else (false, s)
  | EmptyString => (false, s)
  end.

Definition strtol (str : string) : Z * bool * string :=
  let '(neg, s) := sign (skip_space str) in
  match s with
  | String c _ =>
      match digit c with
      | None => (0, false, str)
      | Some _ =>
          let '(n, r) := digits 0 s in
          let v := if neg then - n else n in
          if LONG_MAX <? v then (LONG_MAX, true, r)
          else if v <? LONG_MIN then (LONG_MIN, true, r)
          else (v, false, r)
      end
  | EmptyString => (0, false, str)
  end.

(** The character at the end of a number, and the string after it. *)
Definition first_char (s : string) : ascii := match s with String c _ => c | EmptyString => zero end.
Definition rest_chars (s : string) : string := match s with String _ r => r | EmptyString => EmptyString end.

(** [rte_cpu_to_be_32] on the hosts the code runs on. *)
Definition rte_cpu_to_be_32 (v : Z) : Z := le_decode (be_encode 4 v).

Fixpoint parse_octets (terminators : list ascii) (str : string) (tmp_address : Z) : option (Z * string) :=
  match terminators with
  | [] => Some (tmp_address, str)
  | t :: ts =>
      let '(v, range, endptr) := strtol str in
      if range || negb (Ascii.eqb (first_char endptr) t) || (v <? 0) || (255 <? v) then None else
      parse_octets ts (rest_chars endptr) (Z.lor (u32 (Z.shiftl tmp_address 8)) (Z.land v 0xff))
  end.

(** [parse_ipv4_address]: [prefix] says whether [prefix_len] is given; [None]
    is -EINVAL. *)
Definition parse_ipv4_address (str : string) (prefix : bool) : option (Z * option Z) :=
  let terminators := ["."; "."; "."; if prefix then "/" else zero]%char in
  '(tmp_address, str) ← parse_octets terminators str 0;
  if negb prefix then Some (rte_cpu_to_be_32 tmp_address, None) else
  let '(v, range, endptr) := strtol str in
  if range || negb (Ascii.eqb (first_char endptr) zero) || (v <? 8) || (32 <? v) then None else
  Some (rte_cpu_to_be_32 tmp_address, Some v).

(** ** Numbers and addresses round trip *)

Definition digit_char (d : Z) : ascii := ascii_of_nat (Z.to_nat (48 + d)).

(** The decimal image of a number below 1000. *)
Definition dec (v : Z) : string :=
  if v <? 10 then String (digit_char v) ""
  else if v <? 100 then String (digit_char (v / 10)) (String (digit_char (v mod 10)) "")
  else String (digit_char (v / 100)) (String (digit_char (v / 10 mod 10)) (String (digit_char (v mod 10)) "")).

Definition not_digit (s : string) : Prop :=
  match s with String c _ => digit c = None | EmptyString => True end.

Lemma digit_digit_char d : 0 <= d < 10 -> digit (digit_char d) = Some d /\ is_space (digit_char d) = false /\
  digit_char d ≠ "-"%char /\ digit_char d ≠ "+"%char.
Proof.
  intros Hd. assert (exists n, (n < 10)%nat /\ d = Z.of_nat n) as (n & Hn & ->) by (exists (Z.to_nat d); lia).
  do 10 (destruct n as [|n]; [done|]). lia.
Qed.

Lemma digits_end acc s : not_digit s -> digits acc s = (acc, s).
Proof. destruct s as [|c s]; simpl; [done|]. by intros ->. Qed.

Lemma strtol_digit d r n s : 0 <= d < 10 -> digits d r = (n, s) -> 0 <= n <= LONG_MAX ->
  strtol (String (digit_char d) r) = (n, false, s).
Proof.
  intros Hd Hr Hn. destruct (digit_digit_char d Hd) as (E1 & E2 & E3 & E4).
  unfold strtol. cbn [skip_space]. rewrite E2.
  cbn [sign]. rewrite (proj2 (Ascii.eqb_neq _ _) E3), (proj2 (Ascii.eqb_neq _ _) E4).
  rewrite E1. cbn [digits]. rewrite E1, Z.mul_0_l, Z.add_0_l, Hr.
  rewrite (proj2 (Z.ltb_ge _ _)) by lia. by rewrite (proj2 (Z.ltb_ge _ _)) by (unfold LONG_MIN; lia).
Qed.

(** A number is read back as far as its digits go. *)
Lemma strtol_dec v s : 0 <= v < 1000 -> not_digit s -> strtol (dec v ++ s) = (v, false, s).
Proof.
  intros Hv Hs. unfold dec.
  destruct (Z.ltb_spec v 10); [|destruct (Z.ltb_spec v 100)]; cbn [String.append]; apply strtol_digit;
    try (unfold LONG_MAX; lia).
  - by rewrite digits_end.
  - split; [apply Z.div_pos; lia|apply Z.div_lt_upper_bound; lia].
  - cbn [digits]. destruct (digit_digit_char (v mod 10)) as (-> & _); [apply Z.mod_pos_bound; lia|].
    rewrite digits_end by done. f_equal. pose proof (Z.div_mod v 10). lia.
  - split; [apply Z.div_pos; lia|apply Z.div_lt_upper_bound; lia].
  - cbn [digits]. destruct (digit_digit_char (v / 10 mod 10)) as (-> & _); [apply Z.mod_pos_bound; lia|].
    cbn [digits]. destruct (digit_digit_char (v mod 10)) as (-> & _); [apply Z.mod_pos_bound; lia|].
    rewrite digits_end by done. f_equal.
    pose proof (Z.div_mod v 10). pose proof (Z.div_mod (v / 10) 10).
    replace (v / 100) with (v / 10 / 10) by (rewrite Z.div_div by lia; done). lia.
Qed.

Definition octet (v : Z) : Prop := 0 <= v < 256.

Lemma octet_step acc v : octet v -> in_range 24 acc ->
  Z.lor (u32 (Z.shiftl acc 8)) (Z.land v 0xff) = acc * 256 + v /\ in_range 32 (acc * 256 + v).
Proof.
  unfold octet, in_range. intros Hv Ha. change 0xff with (Z.ones 8). rewrite Z.land_ones by lia.
  rewrite Z.mod_small by lia. rewrite Z.shiftl_mul_pow2 by lia. rewrite wrap_small by (unfold in_range; lia).
  split; [|lia]. change (acc * 2 ^ 8) with (acc * 256). rewrite <- Z.add_lor_land.
  assert (Z.land (acc * 256) v = 0) as ->; [|lia].
  change 256 with (2 ^ 8). rewrite <- Z.shiftl_mul_pow2 by lia. apply Z.bits_inj'. intros n Hn.
  rewrite Z.land_spec, Z.bits_0. destruct (Z.ltb_spec n 8).
  - by rewrite Z.shiftl_spec_low.
  - rewrite (Z.bits_above_log2 v), andb_false_r; [done|lia|].
    destruct (decide (v = 0)) as [->|]; [simpl; lia|]. assert (Z.log2 v < 8) by (apply Z.log2_lt_pow2; lia). lia.
Qed.

Lemma parse_octets_step t ts v s acc : octet v -> not_digit s -> first_char s = t -> in_range 24 acc ->
  parse_octets (t :: ts) (dec v ++ s) acc = parse_octets ts (rest_chars s) (acc * 256 + v).
Proof.
  intros Hv Hs Ht Ha. unfold octet in Hv. cbn [parse_octets]. rewrite strtol_dec by (done || lia).
  rewrite Ht, Ascii.eqb_refl, (proj2 (Z.ltb_ge _ _)), (proj2 (Z.ltb_ge _ _)) by lia. simpl.
  by destruct (octet_step acc v Hv Ha) as [-> _].
Qed.

Lemma rest_after c s : rest_chars (String c "" ++ s) = s.
Proof. done. Qed.

(** The usual images of an address, with and without the length of a prefix. *)
Definition print_ipv4 (a b c d : Z) (tail : string) : string :=
  (dec a ++ "." ++ dec b ++ "." ++ dec c ++ "." ++ dec d ++ tail)%string.
Definition ipv4 (a b c d : Z) : Z := rte_cpu_to_be_32 (((a * 256 + b) * 256 + c) * 256 + d).

Lemma parse_octets_print a b c d t tail : octet a -> octet b -> octet c -> octet d ->
  not_digit tail -> first_char tail = t ->
  parse_octets ["."; "."; "."; t]%char (print_ipv4 a b c d tail) 0 =
    Some (((a * 256 + b) * 256 + c) * 256 + d, rest_chars tail).
Proof.
  unfold octet. intros Ha Hb Hc Hd Ht1 Ht2. unfold print_ipv4.
  rewrite parse_octets_step; [|done|done|done|unfold in_range; lia]. rewrite rest_after.
  rewrite parse_octets_step; [|done|done|done|unfold in_range; lia]. rewrite rest_after.
  rewrite parse_octets_step; [|done|done|done|unfold in_range; lia]. rewrite rest_after.
  by rewrite parse_octets_step; [|done|done|done|unfold in_range; lia].
Qed.

(** Every address of four octets, with a prefix length of 8 to 32 when one is
    asked for, is read back from its text. *)
Theorem parse_ipv4_roundtrip a b c d p : octet a -> octet b -> octet c -> octet d -> 8 <= p <= 32 ->
  parse_ipv4_address (print_ipv4 a b c d ("/" ++ dec p)) true = Some (ipv4 a b c d, Some p) /\
  parse_ipv4_address (print_ipv4 a b c d "") false = Some (ipv4 a b c d, None).
Proof.
  intros Ha Hb Hc Hd Hp. unfold parse_ipv4_address. split.
  - rewrite parse_octets_print by done. rewrite rest_after. cbn [mbind option_bind negb].
    replace (dec p) with (dec p ++ "")%string by by (unfold dec; repeat case_match).
    rewrite strtol_dec by (done || lia). simpl.
    by rewrite (proj2 (Z.ltb_ge _ _)), (proj2 (Z.ltb_ge _ _)) by lia.
  - by rewrite parse_octets_print.
Qed.

Lemma parse_ipv4_roundtrip_witness :
  parse_ipv4_address "10.2.0.100/24" true = Some (ipv4 10 2 0 100, Some 24) /\
  parse_ipv4_address "10.2.0.100" false = Some (ipv4 10 2 0 100, None).
Proof. apply (parse_ipv4_roundtrip 10 2 0 100 24); unfold octet; lia. Defined.

(** ** What an accepted configuration satisfies *)

Section accepted.
Context `{JsonC}.

Definition port_config_ok (c : usiw_port_config) : Prop :=
  (pc_mtu c = DEFAULT_MTU \/ pc_mtu c = JUMBO_MTU) /\
  (pc_max_qp c = -1 \/ 1 <= pc_max_qp c <= UINT16_MAX) /\
  1 <= pc_rx_desc_count c <= UINT_MAX /\ 1 <= pc_tx_desc_count c <= UINT_MAX /\
  1 <= pc_rx_burst_size c <= Z.max 32 (pc_rx_desc_count c) /\
  1 <= pc_tx_burst_size c <= Z.max 8 (pc_tx_desc_count c) /\
  List.length (pc_ipv4_address c) = ipv4_addr_len_max.

Definition is_index (c : usiw_port_config) : bool :=
  match pc_id c with urdma_port_id_index => true | urdma_port_id_pci _ => false end.

Lemma get_int_value_range parent name min max def v : get_int_value parent name min max def = Some v ->
  v = def \/ min <= v <= max.
Proof.
  unfold get_int_value. destruct (json_object_object_get_ex parent name); [|intros [= ->]; by left].
  destruct (_ && _); [done|]. destruct (_ || _) eqn:E; [done|]. intros [= <-]. right. lia.
Qed.
Lemma get_uint_value_range parent name min max def v : get_uint_value parent name min max def = Some v ->
  v = def \/ min <= v <= max.
Proof.
  unfold get_uint_value. destruct (json_object_object_get_ex parent name); [|intros [= ->]; by left].
  destruct (_ && _); [done|]. destruct (_ || _) eqn:E; [done|]. intros [= <-]. right. lia.
Qed.

Lemma get_mtu_value port v : get_mtu port = Some v -> v = DEFAULT_MTU \/ v = JUMBO_MTU.
Proof.
  unfold get_mtu. destruct (json_object_object_get_ex port "mtu"); [|intros [= <-]; by left].
  destruct (negb _); [done|]. destruct (_ && _) eqn:E; [done|]. intros [= <-]. lia.
Qed.

Lemma strncpy_length n s : List.length (strncpy n s) = n.
Proof. unfold strncpy. rewrite length_app, length_replicate, length_take. lia. Qed.

Lemma get_port_config_ok port b c b' : get_port_config port b = Some (c, b') ->
  port_config_ok c /\ b' = is_index c /\ (is_index c = true -> b = true).
Proof.
  unfold get_port_config. destruct (negb _); [done|].
  destruct (get_port_id port b) as [[id bi]|] eqn:Eid; simpl; [|done].
  destruct (json_object_object_get_ex port "ipv4_address"); simpl; [|done]. destruct (negb _); [done|].
  destruct (get_mtu port) eqn:Em; simpl; [|done].
  destruct (get_int_value _ _ _ _ _) eqn:Eq; simpl; [|done].
  destruct (get_uint_value port "rx_desc_count" _ _ _) eqn:Erd; simpl; [|done].
  destruct (get_uint_value port "rx_burst_size" _ _ _) eqn:Erb; simpl; [|done].
  destruct (get_uint_value port "tx_desc_count" _ _ _) eqn:Etd; simpl; [|done].
  destruct (get_uint_value port "tx_burst_size" _ _ _) eqn:Etb; simpl; [|done].
  intros [= <- <-]. apply get_mtu_value in Em. apply get_int_value_range in Eq.
  apply get_uint_value_range in Erd, Erb, Etd, Etb.
  assert (Hid : bi = is_index (PortConfig id 0 0 0 0 0 0 []) /\ (bi = true -> b = true)).
  { unfold get_port_id in Eid. destruct (json_object_object_get_ex port "pci_address").
    - destruct (negb _); [done|]. destruct (parse_pci_addr _); simplify_eq/=. done.
    - destruct b; simplify_eq. done. }
  unfold port_config_ok, is_index in *. simpl in *. rewrite strncpy_length. unfold UINT_MAX in *.
  split; [|naive_solver]. destruct (Z.ltb_spec 32 z1); split_and!; try done; lia.
Qed.

End accepted.

(** ** The command line for DPDK *)

Section command_line.
Context `{JsonC}.

(** An array of [n] pointers whose first ones were assigned. *)
Definition argv_of (l : list string) (k : nat) : list (option string) := (Some <$> l) ++ replicate k None.

Lemma argv_length l k : List.length (argv_of l k) = (List.length l + k)%nat.
Proof. unfold argv_of. by rewrite length_app, length_fmap, length_replicate. Qed.

Lemma set_arg_next l k a i : i = List.length l -> set_arg (argv_of l (S k)) i (Some a) = Ok (argv_of (l ++ [a]) k).
Proof.
  intros ->. unfold set_arg. rewrite argv_length. rewrite (proj2 (Nat.ltb_lt _ _)) by lia. f_equal. unfold argv_of.
  rewrite insert_app_r_alt by by rewrite length_fmap. rewrite length_fmap, Nat.sub_diag. simpl.
  by rewrite fmap_app, <- app_assoc.
Qed.

Lemma set_arg_null l k i : i = List.length l -> set_arg (argv_of l (S k)) i None = Ok (argv_of l (S k)).
Proof.
  intros ->. unfold set_arg. rewrite argv_length. rewrite (proj2 (Nat.ltb_lt _ _)) by lia. f_equal. unfold argv_of.
  rewrite insert_app_r_alt by by rewrite length_fmap. by rewrite length_fmap, Nat.sub_diag.
Qed.

Lemma eal_args_loop_plain fields args l k :
  Forall2 (fun f a => eal_arg f.1 f.2 = Some [a]) fields args ->
  eal_args_loop (argv_of l (List.length args + S k)) (List.length l) fields =
    Ok (Some (List.length (l ++ args), argv_of (l ++ args) (S k))).
Proof.
  intros HF. revert l. induction HF as [|[key v] a fields args E _ IH]; intros l; cbn [eal_args_loop List.length].
  - cbn [Nat.add]. by rewrite set_arg_null, app_nil_r.
  - simpl in E. rewrite E. cbn [set_args]. change (S (List.length args) + S k)%nat with (S (List.length args + S k)).
    rewrite set_arg_next by done. cbn [mbind outcome_bind].
    replace (S (List.length l)) with (List.length (l ++ [a])) by (rewrite length_app; simpl; lia).
    rewrite IH. by rewrite <- app_assoc.
Qed.

(** The arguments for DPDK when every option gives one argument: those of the
    configuration between the name of the program and the fixed ones. *)
Theorem eal_argv_layout argv0 host dir root sock o args :
  urdma__config_file_get_sock_name false dir root = Some sock ->
  json_object_object_get_ex root "eal_args" = Some o -> json_object_get_type o = json_type_object ->
  Forall2 (fun f a => eal_arg f.1 f.2 = Some [a]) (json_fields o) args ->
  do_config argv0 host dir root = Ok (Some (sock, List.length args + 6,
    argv_of (argv0 :: args ++ ["--proc-type=secondary"; "--file-prefix"; host; "-c"]%string) 2)%nat).
Proof.
  intros Hs Ho Ht HF. unfold do_config. rewrite Hs. unfold urdma__config_file_get_eal_args, get_arg_count.
  rewrite Ho. unfold json_object_is_type. rewrite bool_decide_true by done. cbn [negb].
  rewrite (Forall2_length _ _ _ HF). rewrite (proj2 (Z.ltb_ge _ _)) by lia.
  replace (Z.to_nat (len args + 1 + 6)) with (S (List.length args + 6)) by lia.
  change (replicate (S (List.length args + 6)) None) with (argv_of [] (S (List.length args + 6))).
  rewrite set_arg_next by done. cbn [mbind outcome_bind app].
  pose proof (eal_args_loop_plain _ args [argv0] 5 HF) as E. change (List.length [argv0]) with 1%nat in E. rewrite E.
  cbn [mbind outcome_bind]. replace (Z.to_nat (len args + 1)) with (S (List.length args)) by lia.
  rewrite set_arg_next by done. cbn [mbind outcome_bind].
  do 3 (rewrite set_arg_next by (rewrite !length_app; simpl; lia); cbn [mbind outcome_bind]).
  replace (S (List.length args) + 5)%nat with (List.length args + 6)%nat by lia. by rewrite <- !app_assoc.
Qed.

(** C40: When the only DPDK option of the configuration has one letter, its
    value is overwritten in the arguments for DPDK: the option is passed
    without it. *)
Theorem eal_short_option_lost argv0 host dir root sock o c t v :
  urdma__config_file_get_sock_name false dir root = Some sock ->
  json_object_object_get_ex root "eal_args" = Some o -> json_object_get_type o = json_type_object ->
  json_fields o = [(String c "", v)] -> eal_arg (String c "") v = Some [String "-" (String c ""); t] ->
  do_config argv0 host dir root = Ok (Some (sock, 7,
    argv_of [argv0; String "-" (String c ""); "--proc-type=secondary"; "--file-prefix"; host; "-c"]%string 2)%nat).
Proof.
  intros Hs Ho Ht Hf Ha. unfold do_config. rewrite Hs. unfold urdma__config_file_get_eal_args, get_arg_count.
  rewrite Ho. unfold json_object_is_type. rewrite bool_decide_true by done. cbn [negb]. rewrite Hf.
  cbn [List.length]. change (Z.to_nat (Z.of_nat 1 + 1 + 6)) with 8%nat. cbn -[eal_arg]. rewrite Ha. done.
Qed.

(** Without the field [eal_args], whose absence the schema of the
    configuration allows, there is no object to iterate over. *)
Lemma eal_args_missing argv0 host dir root sock :
  urdma__config_file_get_sock_name false dir root = Some sock ->
  json_object_object_get_ex root "eal_args" = None ->
  do_config argv0 host dir root = Fault NullDeref.
Proof.
  intros Hs Ho. unfold do_config. rewrite Hs. unfold urdma__config_file_get_eal_args, get_arg_count. by rewrite Ho.
Qed.
End command_line.

(** ** An instance *)

Inductive jvalue :=
| JBool (b : bool) | JInt (z : Z) | JString (s : string) | JArray (l : list jvalue)
| JObject (l : list (string * jvalue)).

Fixpoint jfind (l : list (string * jvalue)) (k : string) : option jvalue :=
  match l with [] => None | (k', v) :: l => if String.eqb k' k then Some v else jfind l k end.

#[local] Instance jvalue_json : JsonC := {|
  json := jvalue;
  json_object_get_type v := match v with
    | JBool _ => json_type_boolean | JInt _ => json_type_int | JString _ => json_type_string
    | JArray _ => json_type_array | JObject _ => json_type_object end;
  json_object_object_get_ex v k := match v with JObject l => jfind l k | _ => None end;
  json_fields v := match v with JObject l => l | _ => [] end;
  json_array v := match v with JArray l => l | _ => [] end;
  json_object_get_int v := match v with JInt z => z | _ => 0 end;
  json_object_get_boolean v := match v with JBool b => b | _ => false end;
  json_object_get_string v := match v with JString s => s | _ => EmptyString end;
  print_int64 v := match v with JInt z => dec z | _ => EmptyString end;
  print_double _ := EmptyString;
  pci_addr := string;
  eal_parse_pci_DomBDF s := Some s;
  eal_parse_pci_BDF s := Some s
|}.

(** The configuration of the README, and one with an option of one letter. *)
Definition readme_config (eal : list (string * jvalue)) : jvalue :=
  JObject [("ports", JArray [JObject [("ipv4_address", JString "10.2.0.100")]]);
           ("socket", JString "/run/urdma.sock"); ("eal_args", JObject eal)]%string.


Lemma eal_argv_layout_witness :
  do_config "app" "host" None (readme_config [("log-level", JInt 7)]%string) = Ok (Some ("/run/urdma.sock"%string, 7%nat,
    argv_of ["app"; "--log-level=7"; "--proc-type=secondary"; "--file-prefix"; "host"; "-c"]%string 2)).
Proof.
  apply (@eal_argv_layout jvalue_json "app" "host" None (readme_config [("log-level", JInt 7)]%string) "/run/urdma.sock"
    (JObject [("log-level", JInt 7)]%string) ["--log-level=7"]%string); [reflexivity..|].
  repeat constructor.
Defined.

Lemma eal_short_option_lost_witness :
  do_config "app" "host" None (readme_config [("d", JString "libpmd.so")]%string) = Ok (Some ("/run/urdma.sock"%string, 7%nat,
    argv_of ["app"; "-d"; "--proc-type=secondary"; "--file-prefix"; "host"; "-c"]%string 2)).
Proof.
  apply (@eal_short_option_lost jvalue_json "app" "host" None (readme_config [("d", JString "libpmd.so")]%string) "/run/urdma.sock"
    (JObject [("d", JString "libpmd.so")]%string) "d" "libpmd.so" (JString "libpmd.so")); reflexivity.
Defined.
