(* ===== verification/Daemon.v ===== *)
(** The daemon (src/urdmad/main.c): the queue pairs of every port, lent to
    processes over a socket, and the setup of a queue pair when the kernel
    module reports a connection.

    The queue pairs are threaded on the doubly linked lists of [Clist]: the
    pool [avail_qp] of a port, and [owned_qps] of a process.  The state keeps
    the heap of list nodes, so that a list operation on a node that is on no
    list, or whose list was freed, does what the pointers do.  What DPDK and
    the kernel return to the daemon is taken from lists of results; what the
    daemon tells them is recorded. *)
From S2P Require Import Prelude Proto Clist Cores Kern Kverbs State.

(** ** Addresses of list nodes *)

(** The nodes and heads of lists in the structures of the daemon: that of
    [driver->processes], [avail_qp] of port [i], [urdmad__entry] of queue
    pair [q] of port [i], and [entry] and [owned_qps] of process [p]. *)
Inductive daddr :=
| DNull
| DProcesses
| DAvail (i : nat)
| DQp (i q : nat)
| DProc (p : nat)
| DOwned (p : nat).

#[export] Instance daddr_eq_dec : EqDecision daddr.
Proof. solve_decision. Defined.
#[export] Instance daddr_countable : Countable daddr.
Proof.
  refine (inj_countable'
    (fun a => match a with
              | DNull => inl (inl (inl true)) | DProcesses => inl (inl (inl false))
              | DAvail i => inl (inl (inr i)) | DQp i q => inl (inr (i, q))
              | DProc p => inr (inl p) | DOwned p => inr (inr p)
              end)
    (fun t => match t with
              | inl (inl (inl true)) => DNull | inl (inl (inl false)) => DProcesses
              | inl (inl (inr i)) => DAvail i | inl (inr (i, q)) => DQp i q
              | inr (inl p) => DProc p | inr (inr p) => DOwned p
              end) _).
  by intros [].
Defined.
#[export] Instance daddr_null : NullPtr daddr := DNull.

(** ** State *)

Definition port_2tuple : Z := 4.
Definition port_5tuple : Z := 8.

(** [struct urdmad_qp] with the fields that only the daemon uses. *)
Record daemon_qp := DaemonQp {
  dq_shm : urdmad_qp; rx_queue : Z; tx_queue : Z; local_ipv4_addr : Z; rx_desc_count : Z
}.
#[export] Instance daemon_qp_settable : Settable daemon_qp := fun q =>
  DaemonQp (dq_shm q) (rx_queue q) (tx_queue q) (local_ipv4_addr q) (rx_desc_count q).

(** [struct usiw_port]; [po_qp_addr] are the addresses of the elements of
    [qp], which the daemon sends to processes. *)
Record usiw_port := UsiwPort {
  portid : Z; po_rx_desc_count : Z; po_tx_desc_count : Z; po_rx_burst_size : Z; po_tx_burst_size : Z;
  max_qp : Z; po_qp : list daemon_qp; po_qp_addr : list Z; po_flags : Z; po_ipv4_addr : Z; po_mtu : Z
}.
#[export] Instance usiw_port_settable : Settable usiw_port := fun p =>
  UsiwPort (portid p) (po_rx_desc_count p) (po_tx_desc_count p) (po_rx_burst_size p) (po_tx_burst_size p)
    (max_qp p) (po_qp p) (po_qp_addr p) (po_flags p) (po_ipv4_addr p) (po_mtu p).

Record urdma_process := UrdmaProcess { pr_fd : Z; pr_core_mask : list Z }.
#[export] Instance urdma_process_settable : Settable urdma_process := fun p =>
  UrdmaProcess (pr_fd p) (pr_core_mask p).

(** The kinds of filters that direct a UDP port to a queue, and the calls to
    DPDK with their arguments: the device, the address and port that the
    filter matches (0 where the filter leaves it out), and the queue. *)
Inductive filter_kind := Filter5Tuple | Filter2Tuple | FilterFdir.
Record eth_filter := EthFilter { ef_kind : filter_kind; ef_dst_ip : Z; ef_dst_port : Z; ef_queue : Z }.
Inductive hwcall :=
| FilterAdd (dev : Z) (f : eth_filter)
| FilterDelete (dev : Z) (f : eth_filter)
| RxQueueStart (dev queue : Z) | TxQueueStart (dev queue : Z)
| RxQueueStop (dev queue : Z) | TxQueueStop (dev queue : Z)
| StatsReset (dev : Z)
| EthTx (dev : Z) (pkts : list nat) | KniTx (dev : Z) (pkts : list nat) | MbufFree (pkt : nat).

(** The daemon: its lists, ports and processes, the cores, the calls to DPDK
    (last one first), the messages sent to processes and to the kernel, the
    packets that were drained and not freed, the address of the next process,
    and what the calls outside the daemon return. *)
Record dstate := DState {
  d_heap : gmap daddr (list_node daddr);
  d_ports : list usiw_port;
  d_procs : gmap nat urdma_process;
  d_cores : core_pool;
  d_hw : list hwcall;
  d_sent : list (Z * bytes);
  d_chardev : list bytes;
  d_drained : Z;
  d_next : nat;
  d_rets : list Z;
  d_bursts : list Z
}.
#[export] Instance dstate_settable : Settable dstate := fun s =>
  DState (d_heap s) (d_ports s) (d_procs s) (d_cores s) (d_hw s) (d_sent s) (d_chardev s)
    (d_drained s) (d_next s) (d_rets s) (d_bursts s).

(** ** The monad *)

Definition DM (A : Type) : Type := dstate -> outcome (A * dstate).
#[export] Instance DM_ret : MRet DM := fun A a s => Ok (a, s).
#[export] Instance DM_bind : MBind DM := fun A B f m s =>
  match m s with Ok (a, s') => f a s' | Fault e => Fault e end.

Definition dgets {A} (f : dstate -> A) : DM A := fun s => Ok (f s, s).
Definition dmodify (f : dstate -> dstate) : DM unit := fun s => Ok (tt, f s).
Definition dfail {A} (f : fault) : DM A := fun _ => Fault f.
Definition dassert (b : bool) : DM unit := if b then mret tt else dfail AssertFail.

(** A call of a list function. *)
Definition dlist {A} (c : LM daddr A) : DM A := fun s =>
  match c (d_heap s) with
  | Ok (a, m) => Ok (a, s <| d_heap := m |>)
  | Fault e => Fault e
  end.

(** The result of a call outside the daemon, which is [ok] when nothing goes
    wrong. *)
Definition dcall (ok : Z) : DM Z := fun s =>
  match d_rets s with
  | [] => Ok (ok, s)
  | r :: rs => Ok (r, s <| d_rets := rs |>)
  end.

(** A call to DPDK, which is recorded. *)
Definition hw (c : hwcall) : DM Z := dmodify (fun s => s <| d_hw ::= cons c |>);; dcall 0.

Definition get_port (i : nat) : DM usiw_port := fun s =>
  match d_ports s !! i with Some p => Ok (p, s) | None => Fault OutOfBounds end.
Definition get_dqp (i q : nat) : DM daemon_qp :=
  p ← get_port i;
  match po_qp p !! q with Some v => mret v | None => dfail OutOfBounds end.
Definition upd_port (i : nat) (f : usiw_port -> usiw_port) : DM unit :=
  dmodify (fun s => s <| d_ports ::= alter f i |>).
Definition upd_dqp (i q : nat) (f : daemon_qp -> daemon_qp) : DM unit :=
  upd_port i (fun p => p <| po_qp ::= alter f q |>).
Definition get_proc (p : nat) : DM urdma_process := fun s =>
  match d_procs s !! p with Some v => Ok (v, s) | None => Fault BadPointer end.

Section daemon.
Context `{Bsf}.

(** ** Queue pairs *)

(** The loop that drains a queue: [rte_eth_rx_burst] returns at most 4
    packets at a time, until there are none. *)
Fixpoint drain (bursts : list Z) (count : Z) : Z * list Z :=
  match bursts with
  | [] => (count, [])
  | b :: bursts =>
      let ret := Z.max 0 (Z.min 4 b) in
      if 0 <? ret then drain bursts (count + ret) else (count, bursts)
  end.

Definition drain_queue : DM unit := fun s =>
  let '(count, bursts) := drain (d_bursts s) 0 in
  Ok (tt, s <| d_bursts := bursts |> <| d_drained ::= Z.add count |>).

(** The filter for a queue pair. *)
Definition qp_filter (k : filter_kind) (dev : usiw_port) (v : daemon_qp) : eth_filter :=
  {| ef_kind := k; ef_dst_ip := match k with Filter2Tuple => 0 | _ => po_ipv4_addr dev end;
     ef_dst_port := local_udp_port (dq_shm v); ef_queue := rx_queue v |}.

(** The part of [return_qp] after the filter was deleted. *)
Definition stop_queues (dev : usiw_port) (v : daemon_qp) : DM unit :=
  drain_queue;;
  _ ← hw (RxQueueStop (portid dev) (rx_queue v));
  _ ← hw (TxQueueStop (portid dev) (tx_queue v));
  mret tt.

(** [return_qp(&driver->ports[i], qp)] for queue pair [q] of port [j]. *)
Definition return_qp (i j q : nat) : DM unit :=
  dev ← get_port i;
  dlist (list_del (DQp j q));;
  dlist (list_add_tail (DAvail i) (DQp j q));;
  v ← get_dqp j q;
  if has (po_flags dev) port_5tuple then
    _ ← hw (FilterDelete (portid dev) (qp_filter Filter5Tuple dev v));
    stop_queues dev v
  else if has (po_flags dev) port_2tuple then
    ret ← hw (FilterDelete (portid dev) (qp_filter Filter2Tuple dev v));
    if negb (ret =? 0) then mret tt else stop_queues dev v
  else if has (po_flags dev) port_fdir then
    _ ← hw (FilterDelete (portid dev) (qp_filter FilterFdir dev v));
    stop_queues dev v
  else stop_queues dev v.

Definition add_2tuple_filter (port dest_udp_port queue : Z) : DM Z :=
  hw (FilterAdd port {| ef_kind := Filter2Tuple; ef_dst_ip := 0; ef_dst_port := dest_udp_port; ef_queue := queue |}).

(** ** Connections *)

Definition ENOTSUP : Z := 95.

Definition shm_upd (f : urdmad_qp -> urdmad_qp) (v : daemon_qp) : daemon_qp := v <| dq_shm ::= f |>.

(** What [do_setup_qp] stores before it asks for the sizes of the queues. *)
Definition set_endpoints (ev : urdma_qp_connected_event) (dev : usiw_port) (v : daemon_qp) : daemon_qp :=
  shm_upd (fun c => c <| local_udp_port := sin_port (ce_src ev) |>
                      <| remote_udp_port := sin_port (ce_dst ev) |>
                      <| remote_ipv4_addr := sin_addr (ce_dst ev) |>
                      <| ord_max := ce_ord_max ev |> <| ird_max := ce_ird_max ev |>
                      <| shm_mtu := if po_mtu dev =? 9000 then 8192 else 1024 |>)
    (v <| local_ipv4_addr := sin_addr (ce_src ev) |>).

(** The sizes of the queues and bursts; [rx] and [tx] are the results of
    asking the device, negative when it does not tell. *)
Definition set_queue_sizes (rx tx : Z) (ev : urdma_qp_connected_event) (dev : usiw_port) (v : daemon_qp) : daemon_qp :=
  let rxd := if rx <? 0 then po_rx_desc_count dev else u16 rx in
  let txd := if tx <? 0 then po_tx_desc_count dev else u16 tx in
  let rxb := if rxd + 1 <? po_rx_burst_size dev then u16 (rxd + 1) else po_rx_burst_size dev in
  let txb := if po_tx_desc_count dev <? po_tx_burst_size dev then po_tx_desc_count dev else po_tx_burst_size dev in
  shm_upd (fun c => c <| tx_desc_count := txd |> <| rx_burst_size := rxb |> <| tx_burst_size := txb |>
                      <| remote_ether_addr := ce_dst_ether ev |>)
    (v <| rx_desc_count := rxd |>).

(** The filter of the connection: its result is 0 or an error. *)
Definition setup_filter (ev : urdma_qp_connected_event) (i q : nat) : DM Z :=
  dev ← get_port i;
  v ← get_dqp i q;
  if has (po_flags dev) port_5tuple then
    ret ← hw (FilterAdd (portid dev) (qp_filter Filter5Tuple dev v));
    if ret =? - ENOTSUP then
      upd_port i (fun p => p <| po_flags ::= fun f => Z.lor (Z.ldiff f port_5tuple) port_2tuple |>);;
      add_2tuple_filter (portid dev) (local_udp_port (dq_shm v)) (rx_queue v)
    else mret ret
  else if has (po_flags dev) port_2tuple then
    add_2tuple_filter (portid dev) (local_udp_port (dq_shm v)) (rx_queue v)
  else if has (po_flags dev) port_fdir then
    hw (FilterAdd (portid dev)
      {| ef_kind := FilterFdir; ef_dst_ip := po_ipv4_addr dev; ef_dst_port := sin_port (ce_src ev);
         ef_queue := ce_rxq ev |})
  else mret 0.

(** [do_setup_qp] for queue pair [q] of port [i]. *)
Definition do_setup_qp (ev : urdma_qp_connected_event) (i q : nat) : DM Z :=
  dev ← get_port i;
  v ← get_dqp i q;
  dassert (negb (sin_port (ce_src ev) =? 0));;
  dassert (sin_addr (ce_src ev) =? po_ipv4_addr dev);;
  dassert (ce_rxq ev =? rx_queue v);;
  dassert (ce_txq ev =? tx_queue v);;
  upd_dqp i q (set_endpoints ev dev);;
  rx ← dcall (- ENOTSUP);
  tx ← dcall (- ENOTSUP);
  upd_dqp i q (set_queue_sizes rx tx ev dev);;
  ret ← setup_filter ev i q;
  if negb (ret =? 0) then mret ret else
  ret ← hw (RxQueueStart (ce_dev_id ev) (ce_rxq ev));
  if (ret <? 0) && negb (ret =? - ENOTSUP) then mret ret else
  ret ← hw (TxQueueStart (ce_dev_id ev) (ce_txq ev));
  if (ret <? 0) && negb (ret =? - ENOTSUP) then mret ret else
  upd_dqp i q (shm_upd (fun c => c <| conn_state := usiw_qp_connected |>));;
  mret 0.

(** [struct urdma_qp_rtr_event] in memory. *)
Definition rtr_event_bytes (kmod_qp_id : Z) : bytes :=
  le_encode 4 SIW_EVENT_QP_RTR ++ le_encode 4 kmod_qp_id.

(** [handle_qp_connected_event]; [count] bytes of the event were read. *)
Definition handle_qp_connected_event (ev : urdma_qp_connected_event) (count : Z) : DM unit :=
  if count <? Z.of_nat sizeof_connected_event then mret tt else
  let i := Z.to_nat (ce_dev_id ev) in
  let q := Z.to_nat (ce_qp_id ev) in
  ret ← do_setup_qp ev i q;
  if negb (ret =? 0) then mret tt else
  ret ← dcall (Z.of_nat sizeof_rtr_event);
  if ret <? 0 then mret tt else
  dmodify (fun s => s <| d_chardev ::= fun l =>
    l ++ [take (Z.to_nat ret) (rtr_event_bytes (Z.of_nat (ce_kmod_qp_id ev)))] |>).

(** [chardev_data_ready]: [ret] is the result of reading the event file, and
    the event what is then in the variable, with its type. *)
Definition chardev_data_ready (ret event_type : Z) (ev : urdma_qp_connected_event) : DM unit :=
  if ret <? 0 then mret tt else
  if negb (event_type =? SIW_EVENT_QP_CONNECTED) then mret tt else
  handle_qp_connected_event ev ret.

(** ** Messages of processes *)

Definition urdma_sock_create_qp_req : Z := 1.
Definition urdma_sock_create_qp_resp : Z := 2.
Definition urdma_sock_destroy_qp_req : Z := 3.
Definition urdma_sock_hello_req : Z := 4.
Definition urdma_sock_hello_resp : Z := 5.
Definition sizeof_urdmad_sock_msg : Z := 8.

Definition sock_msg_bytes (opcode dev_id qp_id : Z) : bytes :=
  be_encode 4 opcode ++ be_encode 2 dev_id ++ be_encode 2 qp_id.

(** [send]: its result is the number of bytes, or -1. *)
Definition dsend (fd : Z) (msg : bytes) : DM Z :=
  ret ← dcall (len msg);
  if ret <? 0 then mret ret else
  dmodify (fun s => s <| d_sent ::= fun l => l ++ [(fd, take (Z.to_nat ret) msg)] |>);;
  mret (if ret =? len msg then 0 else -1).

Definition send_create_qp_resp (p i q : nat) : DM Z :=
  pr ← get_proc p;
  dev ← get_port i;
  v ← get_dqp i q;
  a ← (match po_qp_addr dev !! q with Some a => mret a | None => dfail OutOfBounds end : DM Z);
  dsend (pr_fd pr)
    (sock_msg_bytes urdma_sock_create_qp_resp (shm_dev_id (dq_shm v)) (shm_qp_id (dq_shm v)) ++ be_encode 8 a).

(** [struct urdmad_sock_hello_resp]: RTE_MAX_LCORE is 32 bits for every word
    of the masks. *)
Definition hello_resp_bytes (mask : list Z) (max_qps : list Z) : bytes :=
  sock_msg_bytes urdma_sock_hello_resp 0 0 ++
  be_encode 2 (32 * len mask) ++ be_encode 2 (len max_qps) ++
  (mask ≫= be_encode 4) ++ (max_qps ≫= be_encode 2).

Definition handle_hello (p : nat) (msg : bytes) : DM Z :=
  pr ← get_proc p;
  count ← (fun s => match get_be msg 8 4 with Ok c => Ok (c, s) | Fault e => Fault e end : outcome (Z * dstate));
  pool ← dgets d_cores;
  match reserve_cores count pool (pr_core_mask pr) with
  | Fault e => dfail e
  | Ok (false, _, _) => mret (-1)
  | Ok (true, pool, mask) =>
      dmodify (fun s => s <| d_cores := pool |> <| d_procs ::= alter (fun v => v <| pr_core_mask := mask |>) p |>);;
      ports ← dgets d_ports;
      dsend (pr_fd pr) (hello_resp_bytes mask (max_qp <$> ports))
  end.

(** The end of [process_data_ready] on an error: the process is unlinked and
    freed. *)
Definition drop_process (p : nat) : DM unit :=
  dlist (list_del (DProc p));;
  dmodify (fun s => s <| d_procs ::= delete p |> <| d_heap ::= fun m => delete (DProc p) (delete (DOwned p) m) |>).

(** The body of the loop over the queue pairs of a process. *)
Definition return_entry (a : daddr) : DM unit :=
  match a with
  | DQp j q => v ← get_dqp j q; return_qp (Z.to_nat (shm_dev_id (dq_shm v))) j q
  | _ => dfail BadPointer
  end.

Definition return_owned (p : nat) : DM unit := fun s =>
  list_for_each_safe_off_dir (dfail OutOfFuel) (fun a => dlist (get_next a)) return_entry (DOwned p)
    (size (d_heap s)) s.

(** The fields of a message. *)
Definition sock_fields (msg : bytes) : outcome (Z * Z * Z) :=
  opcode ← get_be msg 0 4; dev_id ← get_be msg 4 2; qp_id ← get_be msg 6 2; Ok (opcode, dev_id, qp_id).

(** The switch of [process_data_ready]. *)
Definition process_message (p : nat) (msg : bytes) (opcode dev_id qp_id : Z) : DM unit :=
  ports ← dgets d_ports;
  let i := Z.to_nat dev_id in
  let q := Z.to_nat qp_id in
  if opcode =? urdma_sock_create_qp_req then
    if len ports <? dev_id then drop_process p else
    _ ← get_port i;
    top ← dlist (list_top (DAvail i));
    match top with
    | Some (DQp j r) =>
        dlist (list_del (DQp j r));;
        dlist (list_add_tail (DOwned p) (DQp j r));;
        ret ← send_create_qp_resp p j r;
        if ret <? 0 then drop_process p else mret tt
    | Some _ => dfail BadPointer
    | None => dfail NullDeref
    end
  else if opcode =? urdma_sock_destroy_qp_req then
    if len ports <? dev_id then drop_process p else
    dev ← get_port i;
    if max_qp dev <? qp_id then drop_process p else
    return_qp i i q
  else if opcode =? urdma_sock_hello_req then
    ret ← handle_hello p msg;
    if ret <? 0 then drop_process p else mret tt
  else drop_process p.

(** [process_data_ready] for process [p]: [recv] returned [ret], and [msg] is
    what is then in the variable.  The result is compared with a size as an
    unsigned number. *)
Definition process_data_ready (p : nat) (ret : Z) (msg : bytes) : DM unit :=
  pr ← get_proc p;
  if u64 ret <? sizeof_urdmad_sock_msg then
    return_owned p;;
    pool ← dgets d_cores;
    match return_lcores (pr_core_mask pr) pool with
    | Fault e => dfail e
    | Ok pool => dmodify (fun s => s <| d_cores := pool |>);; drop_process p
    end
  else
  match sock_fields msg with
  | Fault e => dfail e
  | Ok (opcode, dev_id, qp_id) => process_message p msg opcode dev_id qp_id
  end.

(** [listen_data_ready]: the results are those of [malloc], [accept4] and
    [epoll_ctl]; false when the daemon exits. *)
Definition listen_data_ready : DM bool :=
  r ← dcall 0;
  if r <? 0 then mret true else
  p ← dgets d_next;
  dmodify (fun s => s <| d_next ::= S |>
    <| d_heap ::= fun m => <[DProc p := Node DNull DNull]> (<[DOwned p := Node DNull DNull]> m) |>);;
  fd ← dcall 3;
  if fd <? 0 then mret true else
  r ← dcall 0;
  if r <? 0 then mret false else
  dlist (list_head_init (DOwned p));;
  words ← dgets (fun s => length (core_mask (d_cores s)));
  dmodify (fun s => s <| d_procs ::= <[p := UrdmaProcess fd (replicate words 0)]> |>);;
  dlist (list_add_tail DProcesses (DProc p));;
  mret true.

(** ** The event loop *)

(** The loop of [timer_data_ready] over the ports. *)
Fixpoint reset_stats (ports : list usiw_port) : DM unit :=
  match ports with
  | [] => mret tt
  | dev :: ports =>
      ret ← dcall 0;
      (if ret =? 0 then dmodify (fun s => s <| d_hw ::= cons (StatsReset (portid dev)) |>) else mret tt);;
      reset_stats ports
  end.

(** [timer_data_ready], where [read] returned [ret]; false when the daemon
    exits. *)
Definition timer_data_ready (ret : Z) : DM bool :=
  if u64 ret <? 8 then mret false else
  ports ← dgets d_ports;
  reset_stats ports;;
  mret true.

(** What [epoll_wait] reports, with what reading the descriptor gives. *)
Inductive devent :=
| EvChardev (ret event_type : Z) (ev : urdma_qp_connected_event)
| EvListen
| EvTimer (ret : Z)
| EvProcess (p : nat) (ret : Z) (msg : bytes).

Definition data_ready (e : devent) : DM bool :=
  match e with
  | EvChardev ret ty ev => chardev_data_ready ret ty ev;; mret true
  | EvListen => listen_data_ready
  | EvTimer ret => timer_data_ready ret
  | EvProcess p ret msg => process_data_ready p ret msg;; mret true
  end.

Definition do_poll (timeout : Z) (e : devent) : DM bool :=
  if timeout =? 0 then mret true else
  ret ← dcall 1;
  if 0 <? ret then data_ready e else mret true.

(** Packets that one side gave are passed to the other side, which takes some
    of them; the others are freed. *)
Definition pass_packets (tx : list nat -> hwcall) (pkts : list nat) : DM unit :=
  if (length pkts =? 0)%nat then mret tt else
  ret ← dcall (len pkts);
  let scount := Z.to_nat (Z.min ret (len pkts)) in
  dmodify (fun s => s <| d_hw ::= fun l => (MbufFree <$> reverse (drop scount pkts)) ++ tx (take scount pkts) :: l |>).

(** [do_xchg_packets]: [from_kni] and [from_eth] are the packets that the two
    receive calls return. *)
Definition do_xchg_packets (dev : usiw_port) (from_kni from_eth : list nat) : DM unit :=
  pass_packets (EthTx (portid dev)) from_kni;;
  pass_packets (KniTx (portid dev)) from_eth.

Fixpoint xchg_ports (ports : list usiw_port) (pkts : list (list nat * list nat)) : DM unit :=
  match ports with
  | [] => mret tt
  | dev :: ports =>
      ret ← dcall 0;
      if negb (ret =? 0) then mret tt else
      let '(k, e) := default ([], []) (head pkts) in
      do_xchg_packets dev k e;;
      xchg_ports ports (tail pkts)
  end.

(** One iteration of [event_loop]. *)
Definition event_loop_step (e : devent) (pkts : list (list nat * list nat)) : DM bool :=
  go ← do_poll 1 e;
  if negb go then mret false else
  ports ← dgets d_ports;
  xchg_ports ports pkts;;
  mret true.
End daemon.
