(* ===== verification/Dsafe.v ===== *)
(** What the daemon keeps: every queue pair is on exactly one list, the pool
    of a port or the list of a process that is alive, and every processor core
    is in the pool or reserved by exactly one process.  [dinv] states it for a
    state and the lists [L] that its heap holds; the lemmas show that every
    handler of [Daemon] keeps it, and [dallowed] says which messages the
    handlers do not guard against. *)
From S2P Require Import Prelude Proto Clist Cores Kern Kverbs State Daemon.

(** ** The invariant *)

(** What the invariant looks at in a port: its queue pairs and the devices
    they say they are on. *)
Definition shape (p : usiw_port) : Z * nat * list Z :=
  (max_qp p, length (po_qp_addr p), (fun v => shm_dev_id (dq_shm v)) <$> po_qp p).

Definition port_ok (h : Z * nat * list Z) : Prop :=
  let '(n, addrs, devs) := h in
  0 <= n < 2 ^ 16 /\ addrs = S (Z.to_nat n) /\ devs = replicate (S (Z.to_nat n)) 0.

(** Queue pairs are numbered from 1. *)
Definition qp_valid (s : dstate) (i q : nat) : Prop :=
  exists dev, d_ports s !! i = Some dev /\ (1 <= q <= Z.to_nat (max_qp dev))%nat.

(** The heads of the lists of queue pairs. *)
Definition qp_head (s : dstate) (h : daddr) : Prop :=
  match h with
  | DAvail i => (i < length (d_ports s))%nat
  | DOwned p => is_Some (d_procs s !! p)
  | _ => False
  end.

Definition proc_mask (s : dstate) (p : nat) : option (list Z) := pr_core_mask <$> d_procs s !! p.

(** Every core of [T] is in the pool or in the mask of one process. *)
Record cores_ok (T : gset nat) (s : dstate) : Prop := CoresOk {
  co_pool : pool_ok (d_cores s);
  co_mask : forall p m, proc_mask s p = Some m -> mask_wf m /\ length m = length (core_mask (d_cores s));
  co_free : forall p m, proc_mask s p = Some m -> cores m ## cores (core_mask (d_cores s));
  co_disj : forall p1 p2 m1 m2, proc_mask s p1 = Some m1 -> proc_mask s p2 = Some m2 -> p1 ≠ p2 -> cores m1 ## cores m2;
  co_total : forall c, c ∈ T <-> c ∈ cores (core_mask (d_cores s)) \/ exists p m, proc_mask s p = Some m /\ c ∈ cores m
}.

Record dinv (T : gset nat) (L : gmap daddr (list daddr)) (s : dstate) : Prop := DInv {
  di_lists : lists (d_heap s) L;
  di_heads : forall h, is_Some (L !! h) <-> h = DProcesses \/ qp_head s h;
  di_procs : forall l x, L !! DProcesses = Some l -> x ∈ l <-> exists p, x = DProc p /\ is_Some (d_procs s !! p);
  di_qps : forall i q, qp_valid s i q -> exists h l, L !! h = Some l /\ DQp i q ∈ l;
  di_elems : forall h l x, L !! h = Some l -> h ≠ DProcesses -> x ∈ l -> exists i q, x = DQp i q /\ qp_valid s i q;
  di_ports : forall i dev, d_ports s !! i = Some dev -> port_ok (shape dev);
  di_next : forall p, is_Some (d_procs s !! p) -> (p < d_next s)%nat;
  di_cores : cores_ok T s
}.

(** Two states that differ only in what the invariant does not look at. *)
Record same_view (s s' : dstate) : Prop := SameView {
  sv_heap : d_heap s' = d_heap s;
  sv_ports : shape <$> d_ports s' = shape <$> d_ports s;
  sv_procs : d_procs s' = d_procs s;
  sv_cores : d_cores s' = d_cores s;
  sv_next : d_next s' = d_next s
}.

Lemma same_view_refl s : same_view s s.
Proof. done. Qed.
Lemma same_view_trans s1 s2 s3 : same_view s1 s2 -> same_view s2 s3 -> same_view s1 s3.
Proof. intros [] []. split; congruence. Qed.
#[local] Hint Resolve same_view_refl same_view_trans : core.

Lemma shape_lookup s s' i dev : shape <$> d_ports s' = shape <$> d_ports s -> d_ports s' !! i = Some dev ->
  exists dev', d_ports s !! i = Some dev' /\ shape dev = shape dev'.
Proof.
  intros E Hi. assert (Hs : (shape <$> d_ports s') !! i = Some (shape dev)) by by rewrite list_lookup_fmap, Hi.
  rewrite E, list_lookup_fmap in Hs. destruct (d_ports s !! i) as [d|] eqn:Ed; simpl in Hs; [|done].
  exists d. split; [done|]. congruence.
Qed.

Lemma qp_valid_view s s' i q : shape <$> d_ports s' = shape <$> d_ports s -> qp_valid s' i q -> qp_valid s i q.
Proof.
  intros E (dev & Hd & Hq). destruct (shape_lookup s s' i dev E Hd) as (d & Hd' & Hs).
  exists d. split; [done|]. assert (max_qp dev = max_qp d) as <- by (unfold shape in Hs; congruence). done.
Qed.

Lemma qp_head_view s s' h : shape <$> d_ports s' = shape <$> d_ports s -> d_procs s' = d_procs s ->
  qp_head s' h <-> qp_head s h.
Proof.
  intros E1 E2. destruct h; simpl; try done; [|by rewrite E2].
  assert (length (d_ports s') = length (d_ports s)) as -> by by rewrite <- (length_fmap shape), E1, length_fmap. done.
Qed.

(** Changing the lists: the ports, processes and cores stay. *)
Lemma dinv_lists T L L' s s' : dinv T L s ->
  shape <$> d_ports s' = shape <$> d_ports s -> d_procs s' = d_procs s -> d_cores s' = d_cores s -> (d_next s <= d_next s')%nat ->
  lists (d_heap s') L' ->
  (forall h, is_Some (L' !! h) <-> is_Some (L !! h)) -> L' !! DProcesses = L !! DProcesses ->
  (forall i q, (exists h l, L !! h = Some l /\ DQp i q ∈ l) -> exists h l, L' !! h = Some l /\ DQp i q ∈ l) ->
  (forall h l x, L' !! h = Some l -> h ≠ DProcesses -> x ∈ l -> exists h2 l2, L !! h2 = Some l2 /\ h2 ≠ DProcesses /\ x ∈ l2) ->
  dinv T L' s'.
Proof.
  intros [I1 I2 I3 I4 I5 I6 I7 I8] Ep Epr Ec En HL Hh HP Hq He. split.
  - done.
  - intros h. by rewrite Hh, I2, (qp_head_view s s' h Ep Epr).
  - intros l x. rewrite HP, Epr. apply I3.
  - intros i q Hv. apply Hq, I4. by apply (qp_valid_view s s').
  - intros h l x Hl Hne Hx. destruct (He h l x Hl Hne Hx) as (h2 & l2 & H2 & Hne2 & Hx2).
    destruct (I5 h2 l2 x H2 Hne2 Hx2) as (i & q & -> & Hv). exists i, q. split; [done|].
    by apply (qp_valid_view s' s).
  - intros i dev Hd. destruct (shape_lookup s s' i dev Ep Hd) as (d & Hd' & ->). by apply (I6 i).
  - intros p. rewrite Epr. intros Hp%I7. lia.
  - destruct I8 as [J1 J2 J3 J4 J5]. unfold proc_mask in *. split; unfold proc_mask; rewrite ?Epr, ?Ec; done.
Qed.

Lemma dinv_view T L s s' : dinv T L s -> same_view s s' -> dinv T L s'.
Proof.
  intros I [Eh Ep Epr Ec En]. apply (dinv_lists T L L s s'); try done.
  - lia.
  - rewrite Eh. apply I.
  - intros h l x Hl Hne Hx. exists h, l. done.
Qed.

(** A queue pair moves from one list to the end of another. *)
Lemma dinv_move T L s s' h A B j q h2 l2 :
  dinv T L s ->
  shape <$> d_ports s' = shape <$> d_ports s -> d_procs s' = d_procs s -> d_cores s' = d_cores s -> d_next s' = d_next s ->
  L !! h = Some (A ++ DQp j q :: B) -> <[h := A ++ B]> L !! h2 = Some l2 -> h2 ≠ DProcesses ->
  lists (d_heap s') (<[h2 := l2 ++ [DQp j q]]> (<[h := A ++ B]> L)) ->
  dinv T (<[h2 := l2 ++ [DQp j q]]> (<[h := A ++ B]> L)) s'.
Proof.
  intros I Ep Epr Ec En Hh Hh2 Hne HL.
  assert (Hhp : h ≠ DProcesses).
  { intros ->. apply (di_procs _ _ _ I _ (DQp j q)) in Hh as [Hx _]. destruct Hx as (p & Hx & _); [set_solver|done]. }
  assert (Hin : forall x, x ∈ A ++ DQp j q :: B <-> x = DQp j q \/ x ∈ A ++ B).
  { intros x. rewrite !elem_of_app, elem_of_cons. tauto. }
  rewrite lookup_insert_Some in Hh2.
  apply (dinv_lists T L _ s s'); try done.
  - lia.
  - intros h'. rewrite !lookup_insert_is_Some.
    split; [|destruct (decide (h2 = h')), (decide (h = h')); tauto].
    intros [<-|[_ [<-|[_ ?]]]]; [|by rewrite Hh|done]. destruct Hh2 as [[<- _]|[_ ->]]; [by rewrite Hh|done].
  - by rewrite !lookup_insert_ne.
  - intros i r (h' & l' & Hl' & Hx).
    destruct (decide (h' = h2)) as [->|Hn2].
    { exists h2, (l2 ++ [DQp j q]). rewrite lookup_insert_eq, elem_of_app, list_elem_of_singleton. split; [done|].
      destruct Hh2 as [[<- <-]|[_ ?]]; simplify_eq; [|by left]. apply Hin in Hx. tauto. }
    destruct (decide (h' = h)) as [->|]; [|exists h', l'; by rewrite !lookup_insert_ne].
    simplify_eq. apply Hin in Hx as [Hx|Hx].
    + exists h2, (l2 ++ [DQp j q]). rewrite lookup_insert_eq, elem_of_app, list_elem_of_singleton. auto.
    + exists h, (A ++ B). by rewrite lookup_insert_ne, lookup_insert_eq.
  - intros h' l' x. rewrite !lookup_insert_Some.
    intros [[<- <-]|[Hn2 [[<- <-]|[Hn Hl']]]] Hnp Hx; [| |by exists h', l'].
    + rewrite elem_of_app, list_elem_of_singleton in Hx.
      destruct Hh2 as [[<- <-]|[_ ?]]; [exists h, (A ++ DQp j q :: B); rewrite Hin; tauto|].
      destruct Hx as [Hx| ->]; [by exists h2, l2|]. exists h, (A ++ DQp j q :: B). rewrite Hin. tauto.
    + exists h, (A ++ DQp j q :: B). rewrite Hin. tauto.
Qed.

(** ** Running the handlers *)

Definition dwp {A} (m : DM A) (Q : A -> dstate -> Prop) (s : dstate) : Prop :=
  exists a s', m s = Ok (a, s') /\ Q a s'.

Lemma dwp_ret {A} (a : A) Q s : Q a s -> dwp (mret a) Q s.
Proof. intros HQ. by exists a, s. Qed.
Lemma dwp_bind {A B} (m : DM A) (f : A -> DM B) Q s :
  dwp m (fun a s' => dwp (f a) Q s') s -> dwp (m ≫= f) Q s.
Proof. intros (a & s' & E & HQ). unfold dwp, mbind, DM_bind. by rewrite E. Qed.
Lemma dwp_mono {A} (m : DM A) (Q Q' : A -> dstate -> Prop) s :
  dwp m Q s -> (forall a s', Q a s' -> Q' a s') -> dwp m Q' s.
Proof. intros (a & s' & E & HQ) Himp. exists a, s'. auto. Qed.
Lemma dwp_gets {A} (f : dstate -> A) Q s : Q (f s) s -> dwp (dgets f) Q s.
Proof. intros HQ. by exists (f s), s. Qed.
Lemma dwp_modify f (Q : unit -> dstate -> Prop) s : Q tt (f s) -> dwp (dmodify f) Q s.
Proof. intros HQ. by exists tt, (f s). Qed.
Lemma dwp_assert b (Q : unit -> dstate -> Prop) s : b = true -> Q tt s -> dwp (dassert b) Q s.
Proof. intros -> HQ. by exists tt, s. Qed.
Lemma dwp_list {A} (c : LM daddr A) Q s a m :
  c (d_heap s) = Ok (a, m) -> Q a (s <| d_heap := m |>) -> dwp (dlist c) Q s.
Proof. intros E HQ. exists a, (s <| d_heap := m |>). unfold dlist. by rewrite E. Qed.
Lemma dwp_get_port i dev Q s : d_ports s !! i = Some dev -> Q dev s -> dwp (get_port i) Q s.
Proof. intros E HQ. exists dev, s. unfold get_port. by rewrite E. Qed.
Lemma dwp_get_proc p pr Q s : d_procs s !! p = Some pr -> Q pr s -> dwp (get_proc p) Q s.
Proof. intros E HQ. exists pr, s. unfold get_proc. by rewrite E. Qed.

(** Calls that only touch what the invariant does not look at. *)
Create HintDb quiet.
Definition quiet {A} (m : DM A) : Prop := forall s, dwp m (fun _ s' => same_view s s') s.

Lemma quiet_ret {A} (a : A) : quiet (mret a).
Proof. intros s. by apply dwp_ret. Qed.
Lemma quiet_bind {A B} (m : DM A) (f : A -> DM B) : quiet m -> (forall a, quiet (f a)) -> quiet (m ≫= f).
Proof.
  intros Hm Hf s. apply dwp_bind. eapply dwp_mono; [apply Hm|]. intros a s' Hs.
  eapply dwp_mono; [apply Hf|]. intros b s'' Hs'. exact (same_view_trans _ _ _ Hs Hs').
Qed.
Lemma quiet_if {A} (b : bool) (m1 m2 : DM A) : quiet m1 -> quiet m2 -> quiet (if b then m1 else m2).
Proof. by destruct b. Qed.
Lemma quiet_gets {A} (f : dstate -> A) : quiet (dgets f).
Proof. intros s. by apply dwp_gets. Qed.
Lemma quiet_dcall ok : quiet (dcall ok).
Proof. intros s. unfold dcall, dwp. destruct (d_rets s); eauto. eexists _, _. split; [done|]. by split. Qed.
Lemma quiet_hw_log (f : list hwcall -> list hwcall) : quiet (dmodify (fun s => s <| d_hw ::= f |>)).
Proof. intros s. apply dwp_modify. by split. Qed.
Lemma quiet_drain : quiet drain_queue.
Proof. intros s. unfold drain_queue, dwp. destruct (drain _ _). eexists _, _. split; [done|]. by split. Qed.
#[export] Hint Resolve quiet_ret quiet_gets quiet_dcall quiet_hw_log quiet_drain quiet_if quiet_bind : quiet.
#[export] Hint Extern 1 (quiet (let '(_, _) := ?x in _)) => destruct x : quiet.
Ltac quiet := intros; repeat first [apply quiet_bind; intros | apply quiet_if; intros | solve [auto with quiet]].

Lemma quiet_hw c : quiet (hw c).
Proof. unfold hw. quiet. Qed.
#[export] Hint Resolve quiet_hw : quiet.
Lemma quiet_stop_queues dev v : quiet (stop_queues dev v).
Proof. unfold stop_queues. quiet. Qed.
Lemma quiet_dsend fd msg : quiet (dsend fd msg).
Proof. unfold dsend. quiet. intros s. apply dwp_modify. by split. Qed.
Lemma quiet_reset_stats ports : quiet (reset_stats ports).
Proof. induction ports; cbn [reset_stats]; quiet. Qed.
Lemma quiet_pass tx pkts : quiet (pass_packets tx pkts).
Proof. unfold pass_packets. quiet. Qed.
#[export] Hint Resolve quiet_stop_queues quiet_dsend quiet_reset_stats quiet_pass : quiet.
Lemma quiet_xchg ports : forall pkts, quiet (xchg_ports ports pkts).
Proof.
  induction ports as [|dev ports IH]; intros pkts; cbn [xchg_ports]; [quiet|].
  apply quiet_bind; [quiet|]. intros ret. apply quiet_if; [quiet|].
  destruct (default _ _) as [k e]. unfold do_xchg_packets. quiet.
Qed.

(** The end of a handler keeps what was established before it. *)
Lemma dwp_quiet {A} (m : DM A) T L s : quiet m -> dinv T L s ->
  dwp m (fun _ s' => dinv T L s' /\ same_view s s') s.
Proof. intros Hm I. eapply dwp_mono; [apply Hm|]. intros a s' Hs. split; [by eapply dinv_view|done]. Qed.

(** Two states that differ in the lists as well. *)
Record same_rest (s s' : dstate) : Prop := SameRest {
  sr_ports : shape <$> d_ports s' = shape <$> d_ports s;
  sr_procs : d_procs s' = d_procs s;
  sr_cores : d_cores s' = d_cores s;
  sr_next : d_next s' = d_next s
}.
Lemma same_rest_refl s : same_rest s s.
Proof. done. Qed.
Lemma same_rest_view s1 s2 s3 : same_rest s1 s2 -> same_view s2 s3 -> same_rest s1 s3.
Proof. intros [] []. split; congruence. Qed.
Lemma same_rest_trans s1 s2 s3 : same_rest s1 s2 -> same_rest s2 s3 -> same_rest s1 s3.
Proof. intros [] []. split; congruence. Qed.

(** ** Lists and queue pairs *)

Lemma valid_dqp T L s i q : dinv T L s -> qp_valid s i q ->
  exists dev v a, d_ports s !! i = Some dev /\ po_qp dev !! q = Some v /\ po_qp_addr dev !! q = Some a /\
    shm_dev_id (dq_shm v) = 0.
Proof.
  intros I (dev & Hd & Hq). pose proof (di_ports _ _ _ I i dev Hd) as (Hn & Ha & Hv).
  assert (Hlen : length (po_qp dev) = S (Z.to_nat (max_qp dev))).
  { by rewrite <- (length_fmap (fun v => shm_dev_id (dq_shm v))), Hv, length_replicate. }
  destruct (lookup_lt_is_Some_2 (po_qp dev) q) as [v Ev]; [lia|].
  destruct (lookup_lt_is_Some_2 (po_qp_addr dev) q) as [a Ea]; [lia|].
  exists dev, v, a. split_and!; [done..|].
  assert (Hs : ((fun v => shm_dev_id (dq_shm v)) <$> po_qp dev) !! q = Some (shm_dev_id (dq_shm v)))
    by by rewrite list_lookup_fmap, Ev.
  rewrite Hv in Hs. by apply lookup_replicate in Hs as [? _].
Qed.

Lemma dwp_get_dqp i q dev v (Q : daemon_qp -> dstate -> Prop) s :
  d_ports s !! i = Some dev -> po_qp dev !! q = Some v -> Q v s -> dwp (get_dqp i q) Q s.
Proof.
  intros Hd Hv HQ. unfold get_dqp. apply dwp_bind. eapply dwp_get_port; [done|]. rewrite Hv. by apply dwp_ret.
Qed.

Lemma head_in L T s h : dinv T L s -> qp_head s h -> exists l, L !! h = Some l.
Proof. intros I Hh. apply (di_heads _ _ _ I h). by right. Qed.

(** [list_del] and [list_add_tail], as the daemon moves queue pairs. *)
Lemma move_qp_ok T L s h A B j q h2 : dinv T L s -> L !! h = Some (A ++ DQp j q :: B) -> qp_head s h2 ->
  dwp (dlist (list_del (DQp j q));; dlist (list_add_tail h2 (DQp j q)))
    (fun _ s' => exists l2 m2, <[h := A ++ B]> L !! h2 = Some l2 /\ s' = s <| d_heap := m2 |> /\
       dinv T (<[h2 := l2 ++ [DQp j q]]> (<[h := A ++ B]> L)) s') s.
Proof.
  intros I Hh Hh2. pose proof (di_lists _ _ _ I) as HL.
  destruct (list_del_lists _ _ _ _ _ _ HL Hh) as (m1 & E1 & D1 & HL1).
  destruct (head_in L T s h2 I Hh2) as [l0 Hl0].
  assert (exists l2, <[h := A ++ B]> L !! h2 = Some l2) as [l2 Hl2].
  { destruct (decide (h = h2)) as [->|]; [rewrite lookup_insert_eq|rewrite lookup_insert_ne by done]; eauto. }
  destruct (list_add_tail_lists m1 _ h2 l2 (DQp j q) HL1 Hl2) as (m2 & E2 & D2 & HL2).
  { rewrite D1. apply (is_list_dom _ h (A ++ DQp j q :: B)); [by apply (lists_is _ L)|]. set_solver. }
  { by eapply removed_unused. }
  apply dwp_bind. eapply dwp_list; [exact E1|]. eapply dwp_list; [exact E2|].
  exists l2, m2. split; [done|]. split; [done|].
  eapply (dinv_move T L s _ h A B j q h2 l2); try done. by intros ->.
Qed.

Lemma dwp_assoc {A} (a b : DM unit) (c : DM A) Q s :
  dwp (a;; b) (fun _ s' => dwp c Q s') s -> dwp (a;; b;; c) Q s.
Proof.
  intros (u & s' & E & HQ). unfold dwp, mbind, DM_bind in *. destruct (a s) as [[]|]; [|done].
  by rewrite E.
Qed.

Lemma quiet_return_end dev v :
  quiet (if has (po_flags dev) port_5tuple then
    _ ← hw (FilterDelete (portid dev) (qp_filter Filter5Tuple dev v)); stop_queues dev v
  else if has (po_flags dev) port_2tuple then
    ret ← hw (FilterDelete (portid dev) (qp_filter Filter2Tuple dev v));
    if negb (ret =? 0) then mret tt else stop_queues dev v
  else if has (po_flags dev) port_fdir then
    _ ← hw (FilterDelete (portid dev) (qp_filter FilterFdir dev v)); stop_queues dev v
  else stop_queues dev v).
Proof. quiet. Qed.

Lemma return_qp_ok T L s i j q dev h A B : dinv T L s -> d_ports s !! i = Some dev ->
  qp_valid s j q -> L !! h = Some (A ++ DQp j q :: B) ->
  dwp (return_qp i j q) (fun _ s' => exists l2, <[h := A ++ B]> L !! DAvail i = Some l2 /\
    dinv T (<[DAvail i := l2 ++ [DQp j q]]> (<[h := A ++ B]> L)) s' /\ same_rest s s') s.
Proof.
  intros I Hi Hv Hh. unfold return_qp. apply dwp_bind. eapply dwp_get_port; [done|].
  apply dwp_assoc. eapply dwp_mono.
  { apply (move_qp_ok T L s h A B j q (DAvail i) I Hh). simpl. by eapply lookup_lt_Some. }
  intros [] s1 (l2 & m2 & Hl2 & -> & I1). apply dwp_bind.
  destruct (valid_dqp T L s j q I Hv) as (dj & v & a & Hj & Hvq & _).
  eapply dwp_get_dqp; [done..|]. eapply dwp_mono; [apply (quiet_return_end dev v)|].
  intros [] s2 Hs. exists l2. split; [done|]. split; [by eapply dinv_view|]. by eapply same_rest_view; [|exact Hs].
Qed.

(** *** The end of a process *)

(** What remains of the lists while the queue pairs of process [p] go back:
    [own] are those still to come. *)
Record returning (T : gset nat) (L0 : gmap daddr (list daddr)) (p : nat) (s0 : dstate)
    (done own : list daddr) (s : dstate) : Prop := Returning {
  rt_inv : exists L, dinv T L s /\ L !! DOwned p = Some own /\
    (forall h, h ≠ DOwned p -> h ≠ DAvail 0 -> L !! h = L0 !! h) /\
    L !! DAvail 0 = (fun l => l ++ done) <$> L0 !! DAvail 0;
  rt_rest : same_rest s0 s
}.

Lemma return_entry_ok T L0 p s0 done a own s : returning T L0 p s0 done (a :: own) s ->
  dwp (return_entry a) (fun _ s' => returning T L0 p s0 (done ++ [a]) own s') s.
Proof.
  intros [(L & I & Hown & Hoth & Hav) Hr].
  destruct (di_elems _ _ _ I (DOwned p) (a :: own) a Hown) as (j & q & -> & Hv); [done|left|].
  destruct (valid_dqp T L s j q I Hv) as (dj & v & b & Hj & Hvq & _ & Hdev).
  simpl. apply dwp_bind. eapply dwp_get_dqp; [done|done|]. rewrite Hdev. simpl.
  destruct (lookup_lt_is_Some_2 (d_ports s) 0) as [d0 H0]; [apply lookup_lt_Some in Hj; lia|].
  eapply dwp_mono; [apply (return_qp_ok T L s 0 j q d0 (DOwned p) [] own I H0 Hv Hown)|].
  intros [] s' (l2 & Hl2 & I' & Hr'). split; [|by eapply same_rest_trans].
  simpl in *. rewrite lookup_insert_ne in Hl2 by done. eexists. split; [exact I'|].
  split; [by rewrite lookup_insert_ne, lookup_insert_eq|]. split.
  - intros h H1 H2. rewrite !lookup_insert_ne by done. by apply Hoth.
  - rewrite lookup_insert_eq. rewrite Hl2 in Hav. destruct (L0 !! DAvail 0); simplify_eq/=. by rewrite <- app_assoc.
Qed.

Lemma return_owned_ok T L p s own : dinv T L s -> L !! DOwned p = Some own ->
  dwp (return_owned p) (fun _ s' => returning T L p s own [] s') s.
Proof.
  intros I Hown. unfold return_owned, dwp.
  destruct (list_for_each_safe_rule d_heap (fun A (m : DM A) s => m s) (dfail OutOfFuel)
    (fun a => dlist (get_next a)) return_entry (DOwned p)) with (l := own)
    (I := returning T L p s) (fuel := size (d_heap s)) (s := s) as (s' & E & R).
  - done.
  - intros A B c f s1 a s2 E. unfold mbind, DM_bind. by rewrite E.
  - intros i j s1 Hn. unfold dlist. assert (get_next i (d_heap s1) = Ok (j, d_heap s1)) as ->.
    { pose proof (run_get_next mret i j (d_heap s1) Hn) as E. unfold mbind, LM_bind, mret, LM_ret in E.
      unfold get_next, mbind, LM_bind, mret, LM_ret in *. by destruct (get_node i (d_heap s1)) as [[]|]. }
    by destruct s1.
  - intros done rest s1 [(L1 & I1 & H1 & _) _]. exists []. by apply (lists_is _ L1); [apply I1|].
  - intros done i rest s1 R. destruct (return_entry_ok _ _ _ _ _ _ _ _ R) as ([] & s2 & E & R2). eauto.
  - split; [|done]. exists L. split_and!; [done..|]. destruct (L !! DAvail 0); [|done]. simpl. by rewrite app_nil_r.
  - by apply (lists_is _ L); [apply I|].
  - eapply ring_length, lists_is; [apply I|done].
  - by exists tt, s'.
Qed.

Lemma elem_kind T L s h l x : dinv T L s -> L !! h = Some l -> x ∈ l ->
  (h = DProcesses /\ exists p, x = DProc p /\ is_Some (d_procs s !! p)) \/
  (h ≠ DProcesses /\ exists i q, x = DQp i q /\ qp_valid s i q).
Proof.
  intros I Hl Hx. destruct (decide (h = DProcesses)) as [->|Hne].
  - left. split; [done|]. by apply (di_procs _ _ _ I l x Hl).
  - right. split; [done|]. by apply (di_elems _ _ _ I h l x).
Qed.

(** The cores of a process that ends are in the pool again. *)
Lemma cores_drop T s p pr pool : cores_ok T s -> d_procs s !! p = Some pr -> pool_ok pool ->
  cores (core_mask pool) = cores (core_mask (d_cores s)) ∪ cores (pr_core_mask pr) ->
  length (core_mask pool) = length (core_mask (d_cores s)) ->
  forall s', d_cores s' = pool -> d_procs s' = delete p (d_procs s) -> cores_ok T s'.
Proof.
  intros [C1 C2 C3 C4 C5] Hp Hok Hc Hlen s' Ec Ep.
  assert (Hpm : proc_mask s p = Some (pr_core_mask pr)) by (unfold proc_mask; by rewrite Hp).
  assert (Hm : forall p' m, proc_mask s' p' = Some m -> p' ≠ p /\ proc_mask s p' = Some m).
  { intros p' m. unfold proc_mask. rewrite Ep. destruct (decide (p' = p)) as [->|].
    - by rewrite lookup_delete_eq.
    - by rewrite lookup_delete_ne. }
  split; rewrite ?Ec.
  - done.
  - intros p' m [_ Hm']%Hm. rewrite Hlen. by apply (C2 p').
  - intros p' m [Hne Hm']%Hm. rewrite Hc. specialize (C3 p' m Hm').
    specialize (C4 p' p m _ Hm' Hpm Hne). set_solver.
  - intros p1 p2 m1 m2 [_ H1]%Hm [_ H2]%Hm. by apply C4.
  - intros c. rewrite C5, Hc, elem_of_union. split.
    + intros [?|(p' & m & Hm' & Hcm)]; [tauto|]. destruct (decide (p' = p)) as [->|Hne].
      * rewrite Hpm in Hm'. simplify_eq. tauto.
      * right. exists p', m. split; [|done]. unfold proc_mask in *. by rewrite Ep, lookup_delete_ne.
    + intros [[?|?]|(p' & m & [_ Hm']%Hm & Hcm)]; [tauto| |]; right; [by exists p, (pr_core_mask pr)|by exists p', m].
Qed.

(** The lists after a process without queue pairs was unlinked and freed. *)
Lemma dinv_drop T L s p A B s' : dinv T L s -> L !! DProcesses = Some (A ++ DProc p :: B) ->
  L !! DOwned p = Some [] -> shape <$> d_ports s' = shape <$> d_ports s ->
  d_procs s' = delete p (d_procs s) -> d_next s' = d_next s -> cores_ok T s' ->
  lists (d_heap s') (delete (DOwned p) (<[DProcesses := A ++ B]> L)) ->
  dinv T (delete (DOwned p) (<[DProcesses := A ++ B]> L)) s'.
Proof.
  intros I HP HO Esh Epr En HC HL.
  assert (Hlk : forall h l, delete (DOwned p) (<[DProcesses := A ++ B]> L) !! h = Some l <->
    h ≠ DOwned p /\ (h = DProcesses /\ l = A ++ B \/ h ≠ DProcesses /\ L !! h = Some l)).
  { intros h l. rewrite lookup_delete_Some, lookup_insert_Some. clear. split.
    - intros [? [[<- <-]|[? ?]]]; (split; [done|]); [by left|by right].
    - intros [? [[-> ->]|[? ?]]]; (split; [done|]); [by left|by right]. }
  assert (Hne : DProc p ∉ A ++ B).
  { pose proof (removed_unused _ _ _ _ _ _ (di_lists _ _ _ I) HP DProcesses (A ++ B)) as Hu.
    rewrite lookup_insert_eq in Hu. specialize (Hu eq_refl). set_solver. }
  assert (Hps : forall p', is_Some (d_procs s' !! p') <-> p' ≠ p /\ is_Some (d_procs s !! p')).
  { intros p'. rewrite Epr, lookup_delete_is_Some. split; intros [? ?]; by split. }
  split; [done| | | | | | |done].
  - intros h. assert (is_Some (delete (DOwned p) (<[DProcesses := A ++ B]> L) !! h) <->
      h ≠ DOwned p /\ is_Some (L !! h)) as ->.
    { rewrite lookup_delete_is_Some, lookup_insert_is_Some'.
      split; [|intros [? ?]; split; [done|by right]].
      intros [? [<-|?]]; [split; [done|by rewrite HP]|done]. }
    rewrite (di_heads _ _ _ I h).
    assert (length (d_ports s') = length (d_ports s)) as Elen by by rewrite <- (length_fmap shape), Esh, length_fmap.
    destruct h as [| |i|i q|p'|p']; simpl; rewrite ?Elen, ?Hps; clear; intuition congruence.
  - intros l x [_ [[_ ->]|[? _]]]%Hlk; [|done]. pose proof (di_procs _ _ _ I _ x HP) as Hx.
    rewrite elem_of_app, elem_of_cons in Hx. rewrite elem_of_app. setoid_rewrite Hps.
    split.
    + intros Hin. destruct (proj1 Hx) as (p' & -> & Hp'); [tauto|]. exists p'. split; [done|]. split; [|done].
      intros ->. by apply Hne, elem_of_app.
    + intros (p' & -> & Hp' & Hs). destruct (proj2 Hx) as [?|[[= ->]|?]]; eauto. done.
  - intros i q Hv. destruct (di_qps _ _ _ I i q) as (h & l & Hl & Hin); [by apply (qp_valid_view s s')|].
    exists h, l. rewrite Hlk. split; [|done].
    destruct (elem_kind T L s h l _ I Hl Hin) as [[_ (? & ? & _)]|[Hn _]]; [done|].
    split; [|by right]. intros ->. rewrite HO in Hl. simplify_eq. set_solver.
  - intros h l x [_ [[-> _]|[Hn Hl]]]%Hlk Hnp Hin; [done|].
    destruct (di_elems _ _ _ I h l x Hl Hn Hin) as (i & q & -> & Hv). exists i, q. split; [done|].
    by apply (qp_valid_view s' s).
  - intros i dev Hd. destruct (shape_lookup s s' i dev Esh Hd) as (d & Hd' & ->). by apply (di_ports _ _ _ I i).
  - intros p'. rewrite Hps, En. intros [_ ?]. by apply (di_next _ _ _ I).
Qed.

Lemma proc_listed T L s p : dinv T L s -> is_Some (d_procs s !! p) ->
  exists A B, L !! DProcesses = Some (A ++ DProc p :: B).
Proof.
  intros I Hp. destruct (proj2 (di_heads _ _ _ I DProcesses)) as [l Hl]; [by left|].
  destruct (list_elem_of_split l (DProc p)) as (A & B & ->); [|by exists A, B].
  apply (di_procs _ _ _ I l _ Hl). eauto.
Qed.

(** Freeing a process that owns no queue pairs, when the pool already has its
    cores. *)
Lemma drop_process_ok T L s p pr pool : dinv T L s -> d_procs s !! p = Some pr -> L !! DOwned p = Some [] ->
  pool_ok pool -> cores (core_mask pool) = cores (core_mask (d_cores s)) ∪ cores (pr_core_mask pr) ->
  length (core_mask pool) = length (core_mask (d_cores s)) ->
  dwp (drop_process p) (fun _ s' => exists L', dinv T L' s' /\
    (forall i, L' !! DAvail i = L !! DAvail i) /\ d_procs s' = delete p (d_procs s) /\ d_cores s' = pool /\
    shape <$> d_ports s' = shape <$> d_ports s)
    (s <| d_cores := pool |>).
Proof.
  intros I Hp HO Hok Hc Hlen. destruct (proc_listed T L s p I) as (A & B & HP); [eauto|].
  destruct (list_del_lists _ _ _ _ _ _ (di_lists _ _ _ I) HP) as (m1 & E1 & D1 & HL1).
  unfold drop_process. apply dwp_bind. eapply dwp_list; [exact E1|]. apply dwp_modify.
  exists (delete (DOwned p) (<[DProcesses := A ++ B]> L)). split; [|split_and!; [|done..]].
  - eapply (dinv_drop T L s p A B); try done; [by eapply cores_drop; [apply I|..]|].
    simpl. apply (lists_frame m1); [by apply lists_delete|].
    intros x Hx. rewrite !lookup_delete_ne; [done|intros <-|intros <-]; apply Hx; intros h l [Hne Hl]%lookup_delete_Some.
    + rewrite elem_of_cons. intros [?|Hin]; [done|]. apply lookup_insert_Some in Hl as [[<- <-]|[? Hl]].
      * destruct (elem_kind T L s _ _ (DOwned p) I HP) as [[_ (? & ? & _)]|[? _]]; [|done..].
        rewrite elem_of_app in *. rewrite elem_of_cons. tauto.
      * destruct (elem_kind T L s _ _ (DOwned p) I Hl Hin) as [[_ (? & ? & _)]|[_ (? & ? & ? & _)]]; done.
    + by apply (removed_unused _ _ _ _ _ _ (di_lists _ _ _ I) HP).
  - intros i. by rewrite lookup_delete_ne, lookup_insert_ne.
Qed.

Section handlers.
Context {Bs : Bsf} {BL : BsfLaws Bs}.

(** The connection of a process is closed. *)
Lemma process_eof_ok T L s p pr own ret msg : dinv T L s -> d_procs s !! p = Some pr ->
  L !! DOwned p = Some own -> u64 ret < 8 ->
  dwp (process_data_ready p ret msg) (fun _ s' => exists L', dinv T L' s' /\
    L' !! DAvail 0 = (fun l => l ++ own) <$> L !! DAvail 0 /\
    (forall i, i ≠ 0%nat -> L' !! DAvail i = L !! DAvail i) /\
    d_procs s' = delete p (d_procs s) /\
    cores (core_mask (d_cores s')) = cores (core_mask (d_cores s)) ∪ cores (pr_core_mask pr) /\
    shape <$> d_ports s' = shape <$> d_ports s) s.
Proof using BL.
  intros I Hp HO Hret. unfold process_data_ready. apply dwp_bind. eapply dwp_get_proc; [done|].
  apply Z.ltb_lt in Hret. change sizeof_urdmad_sock_msg with 8. rewrite Hret.
  apply dwp_bind. eapply dwp_mono; [by apply return_owned_ok|].
  intros [] s1 [(L1 & I1 & HO1 & Hoth & Hav) [Hr1 Hr2 Hr3 Hr4]].
  apply dwp_bind. apply dwp_gets.
  assert (Hp1 : d_procs s1 !! p = Some pr) by by rewrite Hr2.
  assert (Hm : proc_mask s1 p = Some (pr_core_mask pr)) by (unfold proc_mask; by rewrite Hp1).
  destruct (di_cores _ _ _ I1) as [C1 C2 C3 C4 C5]. destruct (C2 p _ Hm) as [Hwf Hl].
  destruct (return_lcores_spec (d_cores s1) (pr_core_mask pr)) as (pool & E & Hok & Hc & Hlen); [done..|by apply (C3 p)|].
  rewrite E. apply dwp_bind. apply dwp_modify.
  eapply dwp_mono; [by apply (drop_process_ok T L1 s1 p pr pool)|].
  intros [] s2 (L2 & I2 & Hav2 & Hpr2 & Hc2 & Hsh). exists L2. split; [done|].
  split; [by rewrite Hav2|]. split; [intros i Hi; rewrite Hav2; apply Hoth; [done|by intros [= ->]]|].
  split; [congruence|]. split; [rewrite Hc2, Hc; congruence|congruence].
Qed.

(** *** Requests of processes *)

(** The next [send] succeeds. *)
Definition send_ok (s : dstate) (n : Z) : Prop := match d_rets s with [] => True | r :: _ => r = n end.

Lemma dsend_ok fd msg s : send_ok s (len msg) ->
  dwp (dsend fd msg) (fun r s' => r = 0 /\ same_view s s' /\ d_sent s' = d_sent s ++ [(fd, msg)]) s.
Proof.
  intros Hs. unfold dsend. apply dwp_bind.
  assert (Hd : dwp (dcall (len msg)) (fun r s' => r = len msg /\ same_view s s' /\ d_sent s' = d_sent s) s).
  { unfold dcall, dwp, send_ok in *. destruct (d_rets s) as [|r rs]; [by exists (len msg), s|].
    exists r, (s <| d_rets := rs |>). done. }
  eapply dwp_mono; [exact Hd|]. intros r s' (-> & Hv & Hs'). rewrite (proj2 (Z.ltb_ge _ _)) by lia.
  apply dwp_bind. apply dwp_modify. apply dwp_ret. rewrite Z.eqb_refl. split; [done|].
  split; [eapply same_view_trans; [exact Hv|done]|]. cbn. by rewrite Hs', firstn_all2 by lia.
Qed.

(** [process_data_ready] when a whole message has arrived. *)
Lemma dwp_message p pr ret msg opcode dev_id qp_id Q s :
  d_procs s !! p = Some pr -> 8 <= u64 ret -> sock_fields msg = Ok (opcode, dev_id, qp_id) ->
  dwp (process_message p msg opcode dev_id qp_id) Q s ->
  dwp (process_data_ready p ret msg) Q s.
Proof.
  intros Hp Hret Hm HQ. unfold process_data_ready. apply dwp_bind. eapply dwp_get_proc; [done|].
  change sizeof_urdmad_sock_msg with 8. rewrite (proj2 (Z.ltb_ge _ _)) by done.
  by rewrite Hm.
Qed.

(** A queue pair of the pool goes to the process, which is told about it. *)
Lemma process_create_ok T L s p pr ret msg dev_id qp_id a :
  dinv T L s -> d_procs s !! p = Some pr -> 8 <= u64 ret ->
  sock_fields msg = Ok (urdma_sock_create_qp_req, dev_id, qp_id) -> 0 <= dev_id < len (d_ports s) ->
  list_top (DAvail (Z.to_nat dev_id)) (d_heap s) = Ok (Some a, d_heap s) -> send_ok s 16 ->
  dwp (process_data_ready p ret msg) (fun _ s' => exists rest own,
    L !! DAvail (Z.to_nat dev_id) = Some (a :: rest) /\ L !! DOwned p = Some own /\
    dinv T (<[DOwned p := own ++ [a]]> (<[DAvail (Z.to_nat dev_id) := rest]> L)) s' /\ same_rest s s' /\
    exists j r dev v addr, a = DQp j r /\ d_ports s !! j = Some dev /\ po_qp dev !! r = Some v /\
      po_qp_addr dev !! r = Some addr /\ d_sent s' = d_sent s ++ [(pr_fd pr,
        sock_msg_bytes urdma_sock_create_qp_resp (shm_dev_id (dq_shm v)) (shm_qp_id (dq_shm v)) ++ be_encode 8 addr)]) s.
Proof.
  intros I Hp Hret Hm Hdev Htop Hsend. set (i := Z.to_nat dev_id) in *.
  assert (Hi : (i < length (d_ports s))%nat) by lia.
  destruct (head_in L T s (DAvail i) I Hi) as [l Hl].
  destruct (head_in L T s (DOwned p) I) as [own Hown]; [by exists pr|].
  rewrite (list_top_run _ _ l) in Htop by by apply (lists_is _ L); [apply I|].
  destruct l as [|b rest]; simplify_eq/=.
  destruct (di_elems _ _ _ I _ _ a Hl) as (j & r & -> & Hv); [done|left|].
  destruct (lookup_lt_is_Some_2 _ _ Hi) as [di Hdi].
  eapply dwp_message; [done..|]. unfold process_message. apply dwp_bind, dwp_gets. fold i. simpl.
  rewrite (proj2 (Z.ltb_ge _ _)) by lia.
  apply dwp_bind. eapply dwp_get_port; [done|]. apply dwp_bind.
  eapply dwp_list; [apply (list_top_run _ _ (DQp j r :: rest)), (lists_is _ L); [apply I|done]|].
  assert (s <| d_heap := d_heap s |> = s) as -> by by destruct s.
  apply dwp_assoc. eapply dwp_mono.
  { apply (move_qp_ok T L s (DAvail i) [] rest j r (DOwned p) I Hl). by exists pr. }
  intros [] s1 (l2 & m2 & Hl2 & -> & I1). simpl in Hl2, I1.
  rewrite lookup_insert_ne, Hown in Hl2 by done. injection Hl2 as <-.
  destruct (valid_dqp T L s j r I Hv) as (dj & v & b & Hj & Hvq & Hb & _).
  apply dwp_bind. unfold send_create_qp_resp. apply dwp_bind. eapply dwp_get_proc; [done|].
  apply dwp_bind. eapply dwp_get_port; [done|]. apply dwp_bind. eapply dwp_get_dqp; [done..|].
  rewrite Hb. apply dwp_bind, dwp_ret. eapply dwp_mono; [by apply dsend_ok|].
  intros r0 s2 (-> & Hs2 & Hsent). apply dwp_ret. exists rest, own. split; [done|]. split; [done|].
  split; [by eapply dinv_view|]. split; [by eapply same_rest_view; [|exact Hs2]|].
  exists j, r, dj, v, b. by rewrite Hsent.
Qed.

(** A queue pair is returned. *)
Lemma process_destroy_ok T L s p pr ret msg dev_id qp_id dev :
  dinv T L s -> d_procs s !! p = Some pr -> 8 <= u64 ret ->
  sock_fields msg = Ok (urdma_sock_destroy_qp_req, dev_id, qp_id) -> 0 <= dev_id < len (d_ports s) ->
  d_ports s !! Z.to_nat dev_id = Some dev -> 1 <= qp_id <= max_qp dev ->
  dwp (process_data_ready p ret msg) (fun _ s' => exists h A B l2,
    L !! h = Some (A ++ DQp (Z.to_nat dev_id) (Z.to_nat qp_id) :: B) /\
    <[h := A ++ B]> L !! DAvail (Z.to_nat dev_id) = Some l2 /\
    dinv T (<[DAvail (Z.to_nat dev_id) := l2 ++ [DQp (Z.to_nat dev_id) (Z.to_nat qp_id)]]> (<[h := A ++ B]> L)) s' /\
    same_rest s s') s.
Proof.
  intros I Hp Hret Hm Hdev Hi Hq. set (i := Z.to_nat dev_id) in *. set (q := Z.to_nat qp_id) in *.
  assert (Hv : qp_valid s i q) by (exists dev; split; [done|lia]).
  destruct (di_qps _ _ _ I i q Hv) as (h & l & Hl & Hin). apply list_elem_of_split in Hin as (A & B & ->).
  eapply dwp_message; [done..|]. unfold process_message. apply dwp_bind, dwp_gets. fold i q. simpl.
  rewrite (proj2 (Z.ltb_ge _ _)) by lia. apply dwp_bind. eapply dwp_get_port; [done|].
  rewrite (proj2 (Z.ltb_ge _ _)) by lia.
  eapply dwp_mono; [by apply (return_qp_ok T L s i i q dev h A B)|].
  intros [] s' (l2 & H1 & H2 & H3). exists h, A, B, l2. done.
Qed.

(** The cores of [S] move from the pool to the mask of a process. *)
Lemma cores_reserve T s p pr n pool mask S : cores_ok T s -> d_procs s !! p = Some pr -> pool_ok pool ->
  moved n (core_mask (d_cores s)) (pr_core_mask pr) (core_mask pool) mask S ->
  forall s', d_cores s' = pool -> d_procs s' = alter (fun v => v <| pr_core_mask := mask |>) p (d_procs s) -> cores_ok T s'.
Proof.
  intros [C1 C2 C3 C4 C5] Hp Hok [M1 M2 M3 M4 M5 [M6 M6'] [M7 M7']] s' Ec Ep.
  assert (Hpm : proc_mask s p = Some (pr_core_mask pr)) by (unfold proc_mask; by rewrite Hp).
  assert (Hm : forall p' m, proc_mask s' p' = Some m <->
    p' = p /\ m = mask \/ p' ≠ p /\ proc_mask s p' = Some m).
  { intros p' m. unfold proc_mask. rewrite Ep. destruct (decide (p' = p)) as [->|].
    - rewrite lookup_alter_eq, Hp. simpl. naive_solver.
    - rewrite lookup_alter_ne by done. naive_solver. }
  destruct (C2 p _ Hpm) as [Hwf Hlen]. pose proof (C3 p _ Hpm) as Hfree.
  split; rewrite ?Ec.
  - done.
  - intros p' m [[-> ->]|[Hne Hm']]%Hm; rewrite M7; [split; [done|congruence]|by apply (C2 p')].
  - intros p' m [[-> ->]|[Hne Hm']]%Hm; rewrite M3; [rewrite M4; clear - Hfree; set_solver|].
    specialize (C3 p' m Hm'). clear - C3. set_solver.
  - intros p1 p2 m1 m2 [[-> ->]|[Hn1 H1]]%Hm [[-> ->]|[Hn2 H2]]%Hm Hne; [done| | |by apply (C4 p1 p2)]; rewrite M4.
    + pose proof (C4 p p2 _ m2 Hpm H2 Hne) as Hd. pose proof (C3 p2 m2 H2) as Hd2. clear - Hd Hd2 M1. set_solver.
    + pose proof (C4 p1 p m1 _ H1 Hpm Hne) as Hd. pose proof (C3 p1 m1 H1) as Hd2. clear - Hd Hd2 M1. set_solver.
  - intros c. rewrite C5, M3, elem_of_difference. split.
    + intros [Hc|(p' & m & Hm' & Hc)].
      * destruct (decide (c ∈ S)); [|by left]. right. exists p, mask. rewrite Hm, M4, elem_of_union. auto.
      * right. destruct (decide (p' = p)) as [->|Hne].
        -- rewrite Hpm in Hm'. simplify_eq. exists p, mask. rewrite Hm, M4, elem_of_union. auto.
        -- exists p', m. rewrite Hm. auto.
    + intros [[Hc _]|(p' & m & [[-> ->]|[Hne Hm']]%Hm & Hc)]; [by left| |right; eauto].
      rewrite M4, elem_of_union in Hc. destruct Hc as [Hc|Hc]; [right; eauto|left; by apply M1].
Qed.

(** Changing the mask of a process and the pool only. *)
Lemma dinv_cores T L s s' f p : dinv T L s -> d_heap s' = d_heap s -> shape <$> d_ports s' = shape <$> d_ports s ->
  d_procs s' = alter f p (d_procs s) -> d_next s' = d_next s -> cores_ok T s' -> dinv T L s'.
Proof.
  intros [I1 I2 I3 I4 I5 I6 I7 I8] Eh Ep Epr En HC.
  assert (Hps : forall p', is_Some (d_procs s' !! p') <-> is_Some (d_procs s !! p')).
  { intros p'. by rewrite Epr, lookup_alter_is_Some. }
  split; [by rewrite Eh| | | | | | |done].
  - intros h. rewrite I2.
    assert (length (d_ports s') = length (d_ports s)) as Elen by by rewrite <- (length_fmap shape), Ep, length_fmap.
    destruct h; simpl; rewrite ?Elen, ?Hps; done.
  - intros l x Hl. setoid_rewrite Hps. by apply I3.
  - intros i q Hv. apply I4. by apply (qp_valid_view s s').
  - intros h l x Hl Hne Hx. destruct (I5 h l x Hl Hne Hx) as (i & q & -> & Hv). exists i, q. split; [done|].
    by apply (qp_valid_view s' s).
  - intros i dev Hd. destruct (shape_lookup s s' i dev Ep Hd) as (d & Hd' & ->). by apply (I6 i).
  - intros p' Hp'%Hps. rewrite En. by apply I7.
Qed.

Lemma hello_resp_length mask max_qps : len (hello_resp_bytes mask max_qps) = 12 + 4 * len mask + 2 * len max_qps.
Proof.
  unfold hello_resp_bytes, sock_msg_bytes. rewrite !length_app, !be_encode_length.
  assert (Hb : forall k l, length (l ≫= be_encode k) = (k * length l)%nat).
  { intros k l. induction l as [|x l IH]; [simpl; lia|]. rewrite bind_cons, length_app, be_encode_length, IH. simpl. lia. }
  rewrite !Hb. lia.
Qed.

Lemma get_be_nonneg msg off n c : get_be msg off n = Ok c -> 0 <= c.
Proof. unfold get_be. case_decide; [|done]. intros [= <-]. apply wrap_range. lia. Qed.

(** Cores are reserved for a process, which is told about them. *)
Lemma handle_hello_ok T L s p pr msg count : dinv T L s -> d_procs s !! p = Some pr ->
  get_be msg 8 4 = Ok count -> count <= core_avail (d_cores s) ->
  send_ok s (12 + 4 * len (pr_core_mask pr) + 2 * len (d_ports s)) ->
  dwp (handle_hello p msg) (fun r s' => r = 0 /\ dinv T L s' /\
    exists mask S, moved (Z.to_nat count) (core_mask (d_cores s)) (pr_core_mask pr) (core_mask (d_cores s')) mask S /\
      d_procs s' = alter (fun v => v <| pr_core_mask := mask |>) p (d_procs s) /\
      d_sent s' = d_sent s ++ [(pr_fd pr, hello_resp_bytes mask (max_qp <$> d_ports s))]) s.
Proof using BL.
  intros I Hp Hc Hav Hsend. unfold handle_hello. apply dwp_bind. eapply dwp_get_proc; [done|].
  rewrite Hc. apply dwp_bind. exists count, s. split; [done|]. apply dwp_bind, dwp_gets.
  pose proof (di_cores _ _ _ I) as HC. pose proof HC as [C1 C2 _ _ _].
  destruct (C2 p (pr_core_mask pr)) as [Hwf Hlen]; [unfold proc_mask; by rewrite Hp|].
  pose proof (reserve_cores_spec count (d_cores s) (pr_core_mask pr) C1 Hwf Hlen (get_be_nonneg _ _ _ _ Hc)) as Hr.
  rewrite (proj2 (Z.ltb_ge _ _)) in Hr by done. destruct Hr as (pool & mask & S & -> & Hok & M).
  apply dwp_bind, dwp_modify. apply dwp_bind, dwp_gets.
  assert (Hl : length mask = length (pr_core_mask pr)) by apply M.
  eapply dwp_mono; [apply dsend_ok|].
  { rewrite hello_resp_length, Hl, length_fmap. exact Hsend. }
  intros r s' (-> & Hv & Hsent). split; [done|]. split.
  - eapply dinv_view; [|exact Hv]. eapply (dinv_cores T L s); [done..|]. by eapply cores_reserve.
  - exists mask, S. rewrite Hsent. destruct Hv as [_ _ -> -> _]. done.
Qed.

Definition holds_nothing (s : dstate) (p : nat) : Prop :=
  list_empty (DOwned p) (d_heap s) = Ok (true, d_heap s) /\
  exists pr, d_procs s !! p = Some pr /\ cores (pr_core_mask pr) = ∅.

(** Freeing a process that holds nothing. *)
Lemma drop_idle_ok T L s p : dinv T L s -> holds_nothing s p ->
  dwp (drop_process p) (fun _ s' => exists L', dinv T L' s' /\ d_procs s' = delete p (d_procs s)) s.
Proof.
  intros I (He & pr & Hp & Hm). destruct (head_in L T s (DOwned p) I) as [own Hown]; [by exists pr|].
  rewrite (list_empty_run _ _ own) in He by by apply (lists_is _ L); [apply I|].
  assert (own = []) as -> by (apply (bool_decide_eq_true_1 _); congruence).
  pose proof (drop_process_ok T L s p pr (d_cores s) I Hp Hown) as Hd.
  assert (s <| d_cores := d_cores s |> = s) as E by by destruct s. rewrite E in Hd.
  eapply dwp_mono; [apply Hd|].
  - apply I.
  - by rewrite Hm, (right_id_L ∅ (∪)).
  - done.
  - intros [] s' (L' & I' & _ & Hpr & _). eauto.
Qed.
End handlers.

(** *** New processes *)

Lemma fresh_unused T L s p : dinv T L s -> d_procs s !! p = None -> unused L (DProc p) /\ unused L (DOwned p).
Proof.
  intros I Hp. split; intros h l Hl [<-|Hx]%elem_of_cons.
  - destruct (proj1 (di_heads _ _ _ I (DProc p))) as [?|?]; eauto; done.
  - destruct (elem_kind T L s h l _ I Hl Hx) as [[_ (p' & [= ->] & Hs)]|[_ (? & ? & ? & _)]]; [|done].
    rewrite Hp in Hs. by destruct Hs.
  - destruct (proj1 (di_heads _ _ _ I (DOwned p))) as [?|Hs]; eauto; [done|]. simpl in Hs.
    rewrite Hp in Hs. by destruct Hs.
  - destruct (elem_kind T L s h l _ I Hl Hx) as [[_ (? & ? & _)]|[_ (? & ? & ? & _)]]; done.
Qed.

Lemma cores_new T s p fd s' : cores_ok T s -> d_procs s !! p = None -> d_cores s' = d_cores s ->
  d_procs s' = <[p := UrdmaProcess fd (replicate (length (core_mask (d_cores s))) 0)]> (d_procs s) -> cores_ok T s'.
Proof.
  intros [C1 C2 C3 C4 C5] Hp Ec Ep. set (z := replicate (length (core_mask (d_cores s))) 0) in *.
  assert (Hz : cores z = ∅).
  { pose proof (remaining_none (length (core_mask (d_cores s)))) as E. unfold remaining in E.
    by rewrite app_nil_r in E. }
  assert (Hm : forall p' m, proc_mask s' p' = Some m <-> p' = p /\ m = z \/ p' ≠ p /\ proc_mask s p' = Some m).
  { intros p' m. unfold proc_mask. rewrite Ep. destruct (decide (p' = p)) as [->|].
    - rewrite lookup_insert_eq. simpl. naive_solver.
    - rewrite lookup_insert_ne by done. naive_solver. }
  split; rewrite ?Ec.
  - done.
  - intros p' m [[-> ->]|[Hne Hm']]%Hm; [|by apply (C2 p')]. split; [by apply Forall_replicate|apply length_replicate].
  - intros p' m [[-> ->]|[Hne Hm']]%Hm; [rewrite Hz; set_solver|by apply (C3 p')].
  - intros p1 p2 m1 m2 [[-> ->]|[_ H1]]%Hm [[-> ->]|[_ H2]]%Hm Hne; [done|rewrite Hz; set_solver|rewrite Hz; set_solver|].
    by apply (C4 p1 p2).
  - intros c. rewrite C5. split; (intros [?|(p' & m & Hm' & Hc)]; [by left|right]).
    + exists p', m. rewrite Hm. split; [|done]. right. split; [|done].
      intros ->. unfold proc_mask in Hm'. by rewrite Hp in Hm'.
    + apply Hm in Hm' as [[-> ->]|[_ Hm']]; [by rewrite Hz in Hc; set_solver|eauto].
Qed.

Lemma dinv_new T L s p l fd s' : dinv T L s -> d_procs s !! p = None -> L !! DProcesses = Some l ->
  d_procs s' = <[p := UrdmaProcess fd (replicate (length (core_mask (d_cores s))) 0)]> (d_procs s) ->
  d_cores s' = d_cores s -> shape <$> d_ports s' = shape <$> d_ports s -> (p < d_next s')%nat -> (d_next s <= d_next s')%nat ->
  lists (d_heap s') (<[DProcesses := l ++ [DProc p]]> (<[DOwned p := []]> L)) ->
  dinv T (<[DProcesses := l ++ [DProc p]]> (<[DOwned p := []]> L)) s'.
Proof.
  intros I Hp HP Epr Ec Esh Hn1 Hn2 HL.
  assert (Hps : forall p', is_Some (d_procs s' !! p') <-> p' = p \/ is_Some (d_procs s !! p')).
  { intros p'. rewrite Epr, lookup_insert_is_Some'. split; (intros [->|?]; [by left|by right]). }
  assert (Hlk : forall h k, <[DProcesses := l ++ [DProc p]]> (<[DOwned p := []]> L) !! h = Some k -> h ≠ DProcesses ->
    h = DOwned p /\ k = [] \/ L !! h = Some k).
  { intros h k. rewrite !lookup_insert_Some. intros [[<- _]|[_ [[<- <-]|[_ ?]]]] Hne; [done|by left|by right]. }
  split; [done| | | | | | |by eapply cores_new; [apply I|..]].
  - intros h. rewrite !lookup_insert_is_Some', (di_heads _ _ _ I h).
    assert (length (d_ports s') = length (d_ports s)) as Elen by by rewrite <- (length_fmap shape), Esh, length_fmap.
    destruct h as [| |i|i q|p'|p']; simpl; rewrite ?Elen, ?Hps; clear; intuition congruence.
  - intros k x. rewrite lookup_insert_eq. intros [= <-]. rewrite elem_of_app, list_elem_of_singleton.
    setoid_rewrite Hps. rewrite (di_procs _ _ _ I l x HP). clear. split.
    + intros [(p' & -> & ?)| ->]; eauto.
    + intros (p' & -> & [->|?]); eauto.
  - intros i q Hv. destruct (di_qps _ _ _ I i q) as (h & k & Hk & Hin); [by apply (qp_valid_view s s')|].
    destruct (elem_kind T L s h k _ I Hk Hin) as [[_ (? & ? & _)]|[Hne _]]; [done|].
    exists h, k. split; [|done]. rewrite !lookup_insert_ne; [done| |done]. intros <-.
    apply (proj2 (fresh_unused T L s p I Hp) _ _ Hk). left.
  - intros h k x Hk Hne Hx. apply Hlk in Hk as [[_ ->]|Hk]; [set_solver| |done].
    destruct (di_elems _ _ _ I h k x Hk Hne Hx) as (i & q & -> & Hv). exists i, q. split; [done|].
    by apply (qp_valid_view s' s).
  - intros i dev Hd. destruct (shape_lookup s s' i dev Esh Hd) as (d & Hd' & ->). by apply (di_ports _ _ _ I i).
  - intros p' [->|Hp']%Hps; [done|]. pose proof (di_next _ _ _ I p' Hp'). lia.
Qed.

(** A new process is linked, with no queue pairs and no cores. *)
Lemma listen_ok T L s : dinv T L s -> dwp listen_data_ready (fun _ s' => exists L', dinv T L' s') s.
Proof.
  intros I. unfold listen_data_ready. apply dwp_bind. eapply dwp_mono; [apply dwp_quiet; [apply quiet_dcall|exact I]|].
  intros r s1 [I1 _]. destruct (r <? 0); [apply dwp_ret; eauto|]. apply dwp_bind, dwp_gets. set (p := d_next s1).
  assert (Hp : d_procs s1 !! p = None).
  { apply eq_None_not_Some. intros Hs%(di_next _ _ _ I1). unfold p in Hs. lia. }
  destruct (fresh_unused T L s1 p I1 Hp) as [Hu1 Hu2].
  apply dwp_bind, dwp_modify.
  set (m2 := <[DProc p := Node DNull DNull]> (<[DOwned p := Node DNull DNull]> (d_heap s1))).
  match goal with |- dwp _ _ ?x => set (s2 := x) end.
  assert (HL2 : lists m2 L).
  { apply (lists_frame (d_heap s1)); [apply I1|]. intros x Hx. unfold m2.
    rewrite !lookup_insert_ne; [done|by intros <-|by intros <-]. }
  assert (I2 : dinv T L s2).
  { apply (dinv_lists T L L s1 s2); try done; [simpl; lia|]. intros h l x Hl Hne Hx. by exists h, l. }
  assert (Hn2 : d_next s2 = S p) by done. assert (Hp2 : d_procs s2 !! p = None) by done.
  assert (Hd : DProc p ∈ dom (d_heap s2) /\ DOwned p ∈ dom (d_heap s2)).
  { rewrite !elem_of_dom. split; apply lookup_insert_is_Some'; [by left|]. right. apply lookup_insert_is_Some'. by left. }
  clearbody s2. clear m2 HL2 I1 Hp I s.
  apply dwp_bind. eapply dwp_mono; [apply dwp_quiet; [apply quiet_dcall|exact I2]|].
  intros fd s3 [I3 V3]. destruct (fd <? 0); [apply dwp_ret; eauto|].
  apply dwp_bind. eapply dwp_mono; [apply dwp_quiet; [apply quiet_dcall|exact I3]|].
  intros r3 s4 [I4 V4]. destruct (r3 <? 0); [apply dwp_ret; eauto|].
  pose proof (same_view_trans _ _ _ V3 V4) as [Eh Esh Epr Ec En].
  destruct (proj2 (di_heads _ _ _ I4 DProcesses)) as [l Hl]; [by left|].
  destruct (list_head_init_lists (d_heap s4) L (DOwned p)) as (m5 & E5 & D5 & HL5); [apply I4|rewrite Eh; apply Hd|done|].
  destruct (list_add_tail_lists m5 (<[DOwned p := []]> L) DProcesses l (DProc p)) as (m6 & E6 & D6 & HL6); [done| | | |].
  { by rewrite lookup_insert_ne. }
  { rewrite D5, Eh. apply Hd. }
  { intros h k. rewrite lookup_insert_Some. intros [[<- <-]|[_ Hk]]; [set_solver|by apply Hu1]. }
  apply dwp_bind. eapply dwp_list; [exact E5|]. apply dwp_bind, dwp_gets. apply dwp_bind, dwp_modify.
  apply dwp_bind. eapply dwp_list; [exact E6|]. apply dwp_ret. eexists.
  eapply (dinv_new T L s4 p l fd); try done; simpl; [congruence|lia].
Qed.

(** *** Connections *)

Definition has_qp (s : dstate) (i q : nat) : Prop :=
  exists dev v, d_ports s !! i = Some dev /\ po_qp dev !! q = Some v.

Lemma has_qp_view s s' i q : same_view s s' -> has_qp s i q -> has_qp s' i q.
Proof.
  intros [_ Esh _ _ _] (dev & v & Hd & Hv).
  destruct (shape_lookup s' s i dev (eq_sym Esh) Hd) as (dev' & Hd' & Hs).
  assert (length (po_qp dev') = length (po_qp dev)) as El.
  { unfold shape in Hs. apply (f_equal (fun x => length (snd x))) in Hs. simpl in Hs. by rewrite !length_fmap in Hs. }
  destruct (lookup_lt_is_Some_2 (po_qp dev') q) as [v' Hv']; [rewrite El; by eapply lookup_lt_Some|].
  by exists dev', v'.
Qed.

(** Calls about a queue pair that exists. *)
Definition quiet_at (i q : nat) {A} (m : DM A) : Prop :=
  forall s, has_qp s i q -> dwp m (fun _ s' => same_view s s') s.

Lemma quiet_at_quiet i q {A} (m : DM A) : quiet m -> quiet_at i q m.
Proof. intros Hm s _. apply Hm. Qed.
Lemma quiet_at_bind i q {A B} (m : DM A) (f : A -> DM B) :
  quiet_at i q m -> (forall a, quiet_at i q (f a)) -> quiet_at i q (m ≫= f).
Proof.
  intros Hm Hf s Hs. apply dwp_bind. eapply dwp_mono; [by apply Hm|]. intros a s' Hv.
  eapply dwp_mono; [apply Hf, (has_qp_view s s' i q Hv Hs)|]. intros b s'' Hv'. exact (same_view_trans _ _ _ Hv Hv').
Qed.
Lemma quiet_at_if i q {A} (b : bool) (m1 m2 : DM A) :
  quiet_at i q m1 -> quiet_at i q m2 -> quiet_at i q (if b then m1 else m2).
Proof. by destruct b. Qed.
Lemma quiet_at_port i q : quiet_at i q (get_port i).
Proof. intros s (dev & v & Hd & _). by eapply dwp_get_port. Qed.
Lemma quiet_at_dqp i q : quiet_at i q (get_dqp i q).
Proof. intros s (dev & v & Hd & Hv). by eapply dwp_get_dqp. Qed.

Lemma quiet_upd_port i f : (forall p, shape (f p) = shape p) -> quiet (upd_port i f).
Proof.
  intros Hf s. apply dwp_modify. split; try done. simpl. apply list_eq. intros j.
  rewrite !list_lookup_fmap. destruct (decide (j = i)) as [->|].
  - rewrite list_lookup_alter_eq. destruct (d_ports s !! i); simpl; by rewrite ?Hf.
  - by rewrite list_lookup_alter_ne.
Qed.
Lemma quiet_upd_dqp i q f : (forall v, shm_dev_id (dq_shm (f v)) = shm_dev_id (dq_shm v)) -> quiet (upd_dqp i q f).
Proof.
  intros Hf. apply quiet_upd_port. intros p. unfold shape. apply (f_equal (pair _)). cbn.
  apply list_eq. intros j. rewrite !list_lookup_fmap. destruct (decide (j = q)) as [->|].
  - rewrite list_lookup_alter_eq. destruct (po_qp p !! q); simpl; by rewrite ?Hf.
  - by rewrite list_lookup_alter_ne.
Qed.
#[export] Hint Extern 1 (quiet (upd_port _ _)) => apply quiet_upd_port; reflexivity : quiet.
#[export] Hint Extern 1 (quiet (upd_dqp _ _ _)) => apply quiet_upd_dqp; reflexivity : quiet.
Ltac quiet_at := intros; repeat first
  [ solve [apply quiet_at_port | apply quiet_at_dqp | apply quiet_at_quiet; auto with quiet]
  | apply quiet_at_bind; intros | apply quiet_at_if; intros ].

Lemma quiet_setup_filter ev i q : quiet_at i q (setup_filter ev i q).
Proof. unfold setup_filter, add_2tuple_filter. quiet_at. Qed.

(** What the kernel module reports about a queue pair that the daemon lent. *)
Definition event_ok (s : dstate) (ev : urdma_qp_connected_event) : Prop :=
  exists dev v, d_ports s !! Z.to_nat (ce_dev_id ev) = Some dev /\ po_qp dev !! Z.to_nat (ce_qp_id ev) = Some v /\
    sin_port (ce_src ev) ≠ 0 /\ sin_addr (ce_src ev) = po_ipv4_addr dev /\
    ce_rxq ev = rx_queue v /\ ce_txq ev = tx_queue v.

Lemma setup_qp_ok ev s : event_ok s ev ->
  dwp (do_setup_qp ev (Z.to_nat (ce_dev_id ev)) (Z.to_nat (ce_qp_id ev))) (fun _ s' => same_view s s') s.
Proof.
  intros (dev & v & Hd & Hv & H1 & H2 & H3 & H4). unfold do_setup_qp.
  apply dwp_bind. eapply dwp_get_port; [done|]. apply dwp_bind. eapply dwp_get_dqp; [done..|].
  rewrite H2, H3, H4. do 4 (apply dwp_bind; apply dwp_assert; [by (apply negb_true_iff, Z.eqb_neq) || apply Z.eqb_refl|]).
  set (i := Z.to_nat (ce_dev_id ev)). set (q := Z.to_nat (ce_qp_id ev)).
  assert (Hq : has_qp s i q) by by exists dev, v. revert s Hd Hq. intros s _ Hq. revert s Hq.
  pose proof (quiet_setup_filter ev i q) as Hf.
  match goal with |- forall s, has_qp s i q -> dwp ?m _ s => change (quiet_at i q m) end.
  repeat first [exact Hf | progress quiet_at | apply quiet_at_bind; intros].
Qed.

Lemma chardev_ok s ret ty ev : ret < 0 \/ ty ≠ SIW_EVENT_QP_CONNECTED \/ ret < 40 \/ event_ok s ev ->
  dwp (chardev_data_ready ret ty ev) (fun _ s' => same_view s s') s.
Proof.
  intros Hc. unfold chardev_data_ready. destruct (Z.ltb_spec ret 0); [by apply dwp_ret|].
  destruct (Z.eqb_spec ty SIW_EVENT_QP_CONNECTED); simpl; [|by apply dwp_ret].
  unfold handle_qp_connected_event. change (Z.of_nat sizeof_connected_event) with 40.
  destruct (Z.ltb_spec ret 40); [by apply dwp_ret|].
  destruct Hc as [?|[?|[?|Hev]]]; [lia|done|lia|].
  apply dwp_bind. eapply dwp_mono; [by apply setup_qp_ok|]. intros r s1 Hv1. simpl.
  destruct (r =? 0); simpl; [|by apply dwp_ret].
  apply dwp_bind. eapply dwp_mono; [apply quiet_dcall|]. intros r2 s2 Hv2. simpl in Hv2.
  pose proof (same_view_trans _ _ _ Hv1 Hv2) as Hv.
  destruct (r2 <? 0); [by apply dwp_ret|]. apply dwp_modify. eapply same_view_trans; [exact Hv|done].
Qed.

(** ** Events *)

Section events.
Context {Bs : Bsf} {BL : BsfLaws Bs}.

(** A message that makes the daemon end the connection. *)
Definition rejected (s : dstate) (msg : bytes) (opcode dev_id qp_id : Z) : Prop :=
  (opcode = urdma_sock_create_qp_req \/ opcode = urdma_sock_destroy_qp_req) /\ len (d_ports s) < dev_id \/
  (opcode = urdma_sock_destroy_qp_req /\ exists dev, d_ports s !! Z.to_nat dev_id = Some dev /\
     dev_id <= len (d_ports s) /\ max_qp dev < qp_id) \/
  (opcode = urdma_sock_hello_req /\ exists count, get_be msg 8 4 = Ok count /\ core_avail (d_cores s) < count) \/
  (opcode ≠ urdma_sock_create_qp_req /\ opcode ≠ urdma_sock_destroy_qp_req /\ opcode ≠ urdma_sock_hello_req).

(** The requests that the daemon serves: for a queue pair of a port that
    exists and has one to lend, to take back a queue pair that exists, and for
    cores that are available. *)
Definition served (s : dstate) (p : nat) (msg : bytes) (opcode dev_id qp_id : Z) : Prop :=
  (opcode = urdma_sock_create_qp_req /\ dev_id < len (d_ports s) /\
     (exists a, list_top (DAvail (Z.to_nat dev_id)) (d_heap s) = Ok (Some a, d_heap s)) /\ send_ok s 16) \/
  (opcode = urdma_sock_destroy_qp_req /\ dev_id < len (d_ports s) /\
     exists dev, d_ports s !! Z.to_nat dev_id = Some dev /\ 1 <= qp_id <= max_qp dev) \/
  (opcode = urdma_sock_hello_req /\ exists count pr, get_be msg 8 4 = Ok count /\ count <= core_avail (d_cores s) /\
     d_procs s !! p = Some pr /\ send_ok s (12 + 4 * len (pr_core_mask pr) + 2 * len (d_ports s))).

(** What the handlers rely on.  A process ends, or sends a request that is
    served, or one that is rejected while it holds nothing. *)
Definition dallowed (s : dstate) (e : devent) : Prop :=
  match e with
  | EvChardev ret ty ev => ret < 0 \/ ty ≠ SIW_EVENT_QP_CONNECTED \/ ret < 40 \/ event_ok s ev
  | EvListen => True
  | EvTimer _ => True
  | EvProcess p ret msg => is_Some (d_procs s !! p) /\
      (8 <= u64 ret -> exists opcode dev_id qp_id, sock_fields msg = Ok (opcode, dev_id, qp_id) /\
        (served s p msg opcode dev_id qp_id \/ rejected s msg opcode dev_id qp_id /\ holds_nothing s p))
  end.

Lemma sock_fields_range msg opcode dev_id qp_id : sock_fields msg = Ok (opcode, dev_id, qp_id) ->
  0 <= opcode /\ 0 <= dev_id /\ 0 <= qp_id.
Proof.
  unfold sock_fields. destruct (get_be msg 0 4) eqn:E1; [|done]. destruct (get_be msg 4 2) eqn:E2; [|done].
  destruct (get_be msg 6 2) eqn:E3; [|done]. intros [= <- <- <-]. split; [|split]; by eapply get_be_nonneg.
Qed.

(** A rejected message frees the process. *)
Lemma rejected_ok T L s p msg opcode dev_id qp_id : dinv T L s ->
  0 <= dev_id -> rejected s msg opcode dev_id qp_id -> holds_nothing s p ->
  dwp (process_message p msg opcode dev_id qp_id) (fun _ s' => exists L', dinv T L' s') s.
Proof using BL.
  intros I H0 Hr Hn.
  assert (Hd : dwp (drop_process p) (fun _ s' => exists L', dinv T L' s') s).
  { eapply dwp_mono; [by apply (drop_idle_ok T L)|]. intros [] s' (L' & I' & _). eauto. }
  unfold process_message. apply dwp_bind, dwp_gets. cbv zeta.
  destruct Hr as [[[->| ->] Hlt]|[(-> & dev & Hi & Hle & Hlt)|[(-> & count & Hc & Hlt)|(H1 & H2 & H3)]]].
  - simpl. by rewrite (proj2 (Z.ltb_lt _ _)).
  - simpl. by rewrite (proj2 (Z.ltb_lt _ _)).
  - simpl. rewrite (proj2 (Z.ltb_ge _ _)) by done. apply dwp_bind. eapply dwp_get_port; [done|].
    by rewrite (proj2 (Z.ltb_lt _ _)).
  - simpl. destruct Hn as (_ & pr & Hp & _). destruct (di_cores _ _ _ I) as [C1 C2 _ _ _].
    destruct (C2 p (pr_core_mask pr)) as [Hwf Hlen]; [unfold proc_mask; by rewrite Hp|].
    pose proof (reserve_cores_spec count (d_cores s) (pr_core_mask pr) C1 Hwf Hlen (get_be_nonneg _ _ _ _ Hc)) as E.
    rewrite (proj2 (Z.ltb_lt _ _)) in E by done.
    apply dwp_bind. unfold handle_hello. apply dwp_bind. eapply dwp_get_proc; [done|]. rewrite Hc.
    apply dwp_bind. exists count, s. split; [done|]. apply dwp_bind, dwp_gets. rewrite E. by apply dwp_ret.
  - rewrite (proj2 (Z.eqb_neq _ _) H1), (proj2 (Z.eqb_neq _ _) H2), (proj2 (Z.eqb_neq _ _) H3). done.
Qed.

Lemma served_ok T L s p pr ret msg opcode dev_id qp_id : dinv T L s -> d_procs s !! p = Some pr -> 8 <= u64 ret ->
  sock_fields msg = Ok (opcode, dev_id, qp_id) -> served s p msg opcode dev_id qp_id ->
  dwp (process_data_ready p ret msg) (fun _ s' => exists L', dinv T L' s') s.
Proof using BL.
  intros I Hp Hret Hm Hs. destruct (sock_fields_range _ _ _ _ Hm) as (_ & H0 & _).
  destruct Hs as [(-> & Hlt & [a Ha] & Hsend)|[(-> & Hlt & dev & Hi & Hq)|(-> & count & pr' & Hc & Hav & Hp' & Hsend)]].
  - eapply dwp_mono; [by eapply process_create_ok|]. intros [] s' (? & ? & _ & _ & I' & _ & _). eauto.
  - eapply dwp_mono; [by eapply process_destroy_ok|]. intros [] s' (? & ? & ? & ? & _ & _ & I' & _). eauto.
  - rewrite Hp in Hp'. injection Hp' as <-. eapply dwp_message; [done..|]. unfold process_message.
    apply dwp_bind, dwp_gets. simpl. apply dwp_bind. eapply dwp_mono; [by apply (handle_hello_ok T L)|].
    intros r s' (-> & I' & _). apply dwp_ret. eauto.
Qed.

(** Every handler keeps the invariant. *)
Lemma data_ready_ok T L s e : dinv T L s -> dallowed s e ->
  dwp (data_ready e) (fun _ s' => exists L', dinv T L' s') s.
Proof using BL.
  intros I Ha. destruct e as [ret ty ev| |ret|p ret msg]; simpl.
  - apply dwp_bind. eapply dwp_mono; [by apply chardev_ok|]. intros [] s' V. apply dwp_ret. eauto using dinv_view.
  - by apply (listen_ok T L).
  - eapply dwp_mono with (Q := fun _ s' => same_view s s'); [|intros b s' V; eauto using dinv_view].
    assert (quiet (timer_data_ready ret)) as Hq by (unfold timer_data_ready; quiet). apply Hq.
  - destruct Ha as [[pr Hp] Hm]. apply dwp_bind.
    eapply dwp_mono with (Q := fun _ s' => exists L', dinv T L' s'); [|intros [] s' HI; by apply dwp_ret].
    destruct (decide (u64 ret < 8)) as [Hlt|Hge].
    + destruct (head_in L T s (DOwned p) I) as [own Hown]; [by exists pr|].
      eapply dwp_mono; [by eapply process_eof_ok|]. intros [] s' (L' & I' & _). eauto.
    + destruct Hm as (opcode & dev_id & qp_id & Hf & [Hs|[Hr Hn]]); [lia|eapply served_ok; eauto; lia|].
      eapply dwp_message; [done|lia|done|]. eapply rejected_ok; [done|apply (sock_fields_range _ _ _ _ Hf)|done|done].
Qed.

(** The state when [epoll_wait] has returned. *)
Definition polled (s : dstate) : dstate := s <| d_rets ::= tail |>.

Lemma event_loop_ok T L s e pkts : dinv T L s -> dallowed (polled s) e ->
  dwp (event_loop_step e pkts) (fun _ s' => exists L', dinv T L' s') s.
Proof using BL.
  intros I Ha. unfold event_loop_step, do_poll. simpl. apply dwp_bind. apply dwp_bind.
  assert (Hc : dwp (dcall 1) (fun _ s' => s' = polled s) s).
  { unfold dcall, dwp, polled. destruct s as [h po pr co hw se ch dr ne [|r rs] bu]; simpl; eauto. }
  eapply dwp_mono; [exact Hc|]. intros r s1 ->. assert (I1 : dinv T L (polled s)) by (by eapply dinv_view; [exact I|]).
  eapply dwp_mono with (Q := fun _ s' => exists L', dinv T L' s').
  { destruct (0 <? r); [by apply (data_ready_ok T L)|apply dwp_ret; eauto]. }
  intros go s2 [L2 I2]. destruct go; simpl; [|apply dwp_ret; eauto]. apply dwp_bind, dwp_gets. apply dwp_bind.
  eapply dwp_mono; [apply quiet_xchg|]. intros [] s3 V. apply dwp_ret. eauto using dinv_view.
Qed.

(** The states of the event loop that starts in [s0]. *)
Inductive dreach (s0 : dstate) : dstate -> Prop :=
| dreach_start : dreach s0 s0
| dreach_step s e pkts go s' : dreach s0 s -> dallowed (polled s) e ->
    event_loop_step e pkts s = Ok (go, s') -> dreach s0 s'.

Lemma dreach_inv T L s0 s : dinv T L s0 -> dreach s0 s -> exists L', dinv T L' s.
Proof using BL.
  intros I. induction 1 as [|s e pkts go s' _ [L1 I1] Ha E]; [eauto|].
  destruct (event_loop_ok T L1 s e pkts I1 Ha) as (go' & s2 & E2 & HI). rewrite E in E2. by simplify_eq.
Qed.
End events.
