(* ===== verification/Dinit.v ===== *)
(** Start of the daemon (usiw_port_init and do_init_driver of
    src/urdmad/main.c): the limits of a port from the configuration and the
    device, and the pool of its queue pairs.  Every failure ends in
    [rte_exit], which is the result [false].  The theorems show that a daemon
    that starts satisfies the invariant of [Dsafe], with every queue pair in
    the pool of its port and every usable core available; and that a port
    without a configured number of queue pairs never starts. *)
From S2P Require Import Prelude Clist Cores Kern Config State Daemon Dsafe.

(** ** Limits *)

Definition DEV_TX_OFFLOAD_IPV4_CKSUM : Z := 2.
Definition DEV_TX_OFFLOAD_UDP_CKSUM : Z := 4.
Definition tx_checksum_offloads : Z := Z.lor DEV_TX_OFFLOAD_UDP_CKSUM DEV_TX_OFFLOAD_IPV4_CKSUM.

(** What [struct rte_eth_dev_info] says of a device. *)
Record desc_lim := DescLim { nb_min : Z; nb_max : Z; nb_align : Z }.
Record eth_dev_info := DevInfo {
  tx_offload_capa : Z; max_vmdq_pools : Z; vmdq_queue_base : Z; vmdq_queue_num : Z;
  max_rx_queues : Z; max_tx_queues : Z; rx_desc_lim : desc_lim; tx_desc_lim : desc_lim
}.
#[export] Instance eth_dev_info_settable : Settable eth_dev_info := fun i =>
  DevInfo (tx_offload_capa i) (max_vmdq_pools i) (vmdq_queue_base i) (vmdq_queue_num i)
    (max_rx_queues i) (max_tx_queues i) (rx_desc_lim i) (tx_desc_lim i).

(** What DPDK and the netlink library are asked about addresses: comparing two
    PCI addresses, and reading an IPv4 address ([None] when that fails). *)
Class Addresses `{JsonC} := {
  rte_eal_compare_pci_addr : pci_addr -> pci_addr -> Z;
  nl_addr_parse : list ascii -> option Z
}.

Section init.
Context `{HA : Addresses}.

(** The queues that remain when some are reserved for VMDq. *)
Definition reserve_vmdq (info : eth_dev_info) : eth_dev_info :=
  if (0 <? max_vmdq_pools info) && (0 <? vmdq_queue_base info)
  then info <| max_rx_queues := u16 (max_rx_queues info - vmdq_queue_num info) |>
            <| max_tx_queues := u16 (max_tx_queues info - vmdq_queue_num info) |>
  else info.

(** The number of queue pairs of a port; [None] when the daemon exits. *)
Definition init_max_qp (cfg : usiw_port_config) (info : eth_dev_info) : option Z :=
  let info := reserve_vmdq info in
  let n := u16 (if 0 <? pc_max_qp cfg then pc_max_qp cfg else Z.min (max_rx_queues info) (max_tx_queues info)) in
  if max_rx_queues info <=? n then None else
  if max_tx_queues info <=? n then None else Some n.

(** The number of descriptors of a queue; DPDK never reports 0 for the
    alignment. *)
Definition init_desc_count (cfg : Z) (lim : desc_lim) : option Z :=
  if cfg =? UINT_MAX then Some (u16 (nb_min lim)) else
  if nb_max lim <? cfg then None else
  if cfg <? nb_min lim then None else
  if negb (cfg mod nb_align lim =? 0) then None else Some (u16 cfg).

(** The flags of a port: what its filters can do. *)
Definition init_flags (info : eth_dev_info) : DM Z :=
  let flags := if Z.land (tx_offload_capa info) tx_checksum_offloads =? tx_checksum_offloads
               then port_checksum_offload else 0 in
  r ← dcall 0;
  if r =? 0 then mret (Z.lor flags port_5tuple) else
  r ← dcall 0;
  mret (if r =? 0 then Z.lor flags port_fdir else flags).

(** ** The pool of queue pairs *)

Definition zero_qp : daemon_qp :=
  DaemonQp (ShmQp usiw_qp_unbound 0 0 0 0 0 0 0 (replicate 6 0) 0 0 0 0) 0 0 0 0.

Definition number_qp (q : nat) (v : daemon_qp) : daemon_qp :=
  shm_upd (fun c => c <| shm_qp_id := Z.of_nat q |> <| conn_state := usiw_qp_unbound |>)
    (v <| tx_queue := Z.of_nat q |> <| rx_queue := Z.of_nat q |>).

(** [n] queue pairs from number [q] on; false when the daemon exits. *)
Fixpoint init_qps (i q n : nat) : DM bool :=
  match n with
  | O => mret true
  | S n =>
      upd_dqp i q (number_qp q);;
      r ← dcall 0;
      if negb (r =? 0) then mret false else
      dlist (list_add_tail (DAvail i) (DQp i q));;
      init_qps i (S q) n
  end.

(** The nodes of an array of queue pairs from [rte_calloc]. *)
Definition calloc_qps (i n : nat) (m : gmap daddr (list_node daddr)) : gmap daddr (list_node daddr) :=
  foldr (fun q m => <[DQp i q := Node DNull DNull]> m) m (seq 0 n).

(** The part of the initialisation that fills the pool of port [i], with the
    attributes of the mutexes around it. *)
Definition fill_pool (i : nat) (n : Z) : DM bool :=
  r ← dcall 0;
  if negb (r =? 0) then mret false else
  r ← dcall 0;
  if negb (r =? 0) then mret false else
  go ← init_qps i 1 (Z.to_nat n);
  if negb go then mret false else
  r ← dcall 0;
  mret (r =? 0).

(** The pool of port [i]; [qp_addr] are the addresses of its queue pairs. *)
Definition init_qp_pool (i : nat) (n : Z) (qp_addr : nat -> Z) : DM bool :=
  dlist (list_head_init (DAvail i));;
  r ← dcall 0;
  if r <? 0 then mret false else
  let k := S (Z.to_nat n) in
  dmodify (fun s => s <| d_heap ::= calloc_qps i k |>);;
  upd_port i (fun p => p <| max_qp := n |> <| po_qp := replicate k zero_qp |>
                         <| po_qp_addr := qp_addr <$> seq 0 k |>);;
  fill_pool i n.

(** ** The kernel's network interface of a port (kni.c) *)

(** The error codes of the netlink library, and those of the system. *)
Definition nlerr_to_syserr (nl_errno : Z) : Z :=
  let e := - nl_errno in
  if e =? 0 then 0 (* NLE_SUCCESS *)
  else if (e =? 1) || (e =? 33) then - 5 (* NLE_FAILURE, NLE_DUMP_INTR: EIO *)
  else if e =? 2 then - 4 (* NLE_INTR: EINTR *)
  else if e =? 3 then - 88 (* NLE_BAD_SOCK: ENOTSOCK *)
  else if e =? 4 then - 11 (* NLE_AGAIN: EAGAIN *)
  else if e =? 5 then - 12 (* NLE_NOMEM: ENOMEM *)
  else if e =? 6 then - 17 (* NLE_EXIST: EEXIST *)
  else if (e =? 7) || (e =? 30) then - 22 (* NLE_INVAL, NLE_PARSE_ERR: EINVAL *)
  else if e =? 8 then - 34 (* NLE_RANGE: ERANGE *)
  else if e =? 9 then - 90 (* NLE_MSGSIZE: EMSGSIZE *)
  else if e =? 10 then - 95 (* NLE_OPNOTSUPP: EOPNOTSUPP *)
  else if (e =? 11) || (e =? 15) then - 97 (* NLE_AF_NOSUPPORT, NLE_AF_MISMATCH: EAFNOSUPPORT *)
  else if (e =? 12) || (e =? 13) then - 2 (* NLE_OBJ_NOTFOUND, NLE_NOATTR: ENOENT *)
  else if e =? 25 then - 16 (* NLE_BUSY: EBUSY *)
  else if e =? 28 then - 1 (* NLE_PERM: EPERM *)
  else if e =? 31 then - 19 (* NLE_NODEV: ENODEV *)
  else if e =? 27 then - 13 (* NLE_NOACCESS: EACCES *)
  else if e =? 32 then - 30 (* NLE_IMMUTABLE: EROFS *)
  else - 71 (* EPROTO *).

(** [usiw_port_setup_kni]: the interface, and its handlers. *)
Definition usiw_port_setup_kni : DM Z :=
  r ← dcall 0;
  if r <? 0 then mret (-22) else
  r ← dcall 0;
  mret (if negb (r =? 0) then -22 else r).

(** [usiw_driver_setup_netlink]: opening a socket, connecting it and reading
    the interfaces, which leaves a cache of them when it succeeds. *)
Definition usiw_driver_setup_netlink : DM Z :=
  r ← dcall 0;
  if r <? 0 then mret (-12) else
  r ← dcall 0;
  if r <? 0 then mret (nlerr_to_syserr r) else
  r ← dcall 0;
  mret (if r <? 0 then nlerr_to_syserr r else r).

(** [get_addr]: the address of the port from the configured text, when the
    library could allocate and parse it. *)
Definition get_addr (i : nat) (text : list ascii) : DM bool :=
  match nl_addr_parse text with
  | Some ip => upd_port i (fun p => p <| po_ipv4_addr := ip |>);; mret true
  | None => mret false
  end.

(** [usiw_set_ipv4_addr].  The calls find the interface (0 when there is
    none) and its index, add the address, whose result is overwritten, set the
    hardware address and bring the interface up.  The result of [get_addr] is
    not checked before the library stores through it. *)
Definition usiw_set_ipv4_addr (i : nat) (cfg : usiw_port_config) : DM Z :=
  addr ← get_addr i (pc_ipv4_address cfg);
  link ← dcall 1;
  if link =? 0 then mret (-19) else
  ifindex ← dcall 1;
  if ifindex =? 0 then mret (-19) else
  (if addr : bool then mret tt else dfail NullDeref : DM unit);;
  _ ← dcall 0;
  _ ← dcall 0;
  ret ← dcall 0;
  mret (if negb (ret =? 0) then nlerr_to_syserr ret else ret).

(** ** Initialisation of a device *)

(** [n] calls that must not fail. *)
Fixpoint all_succeed (n : nat) : DM bool :=
  match n with
  | O => mret true
  | S n => r ← dcall 0; if r <? 0 then mret false else all_succeed n
  end.

(** The flow director's input set; a failure is only logged. *)
Definition setup_base_filters : DM unit := _ ← dcall 0; mret tt.

(** Memory pools, configuration of the device, its queues, the filters, the
    kernel interface, the MTU and the start of the device. *)
Definition init_device (i : nat) (cfg : usiw_port_config) : DM bool :=
  dev ← get_port i;
  let n := S (Z.to_nat (max_qp dev)) in
  go ← all_succeed 2;
  if negb go then mret false else
  r ← dcall 0;
  if negb (r =? 0) then mret false else
  go ← all_succeed (n + n);
  if negb go then mret false else
  (if has (po_flags dev) port_fdir then setup_base_filters else mret tt : DM unit);;
  r ← usiw_port_setup_kni;
  if r <? 0 then mret false else
  go ← all_succeed 1;
  if negb go then mret false else
  upd_port i (fun p => p <| po_mtu := u16 (pc_mtu cfg) |>);;
  all_succeed 1.

(** [usiw_port_init] for port [i] of [eth_count] devices. *)
Definition usiw_port_init (eth_count : Z) (i : nat) (cfg : usiw_port_config) (info : eth_dev_info)
    (qp_addr : nat -> Z) : DM bool :=
  dev ← get_port i;
  dassert (portid dev <? eth_count);;
  flags ← init_flags info;
  upd_port i (fun p => p <| po_flags := flags |>);;
  match init_max_qp cfg info, init_desc_count (pc_rx_desc_count cfg) (rx_desc_lim info),
        init_desc_count (pc_tx_desc_count cfg) (tx_desc_lim info) with
  | Some n, Some rx, Some tx =>
      upd_port i (fun p => p <| po_rx_desc_count := rx |> <| po_tx_desc_count := tx |>
        <| po_rx_burst_size := u16 (pc_rx_burst_size cfg) |> <| po_tx_burst_size := u16 (pc_tx_burst_size cfg) |>);;
      go ← init_qp_pool i n qp_addr;
      if negb go then mret false else
      init_device i cfg
  | _, _, _ => mret false
  end.

(** ** The driver *)

(** The devices of DPDK: [None] for a number that is not valid. *)
Definition eth_devs : Type := list (option (pci_addr * eth_dev_info)).

(** The loop of [lookup_ethdev_by_pci_addr] from device [x] on. *)
Fixpoint lookup_ethdev_loop (x : Z) (devs : eth_devs) (addr : pci_addr) : Z :=
  match devs with
  | [] => - 19
  | None :: devs => lookup_ethdev_loop (x + 1) devs addr
  | Some (a, _) :: devs =>
      if rte_eal_compare_pci_addr addr a =? 0 then x else lookup_ethdev_loop (x + 1) devs addr
  end.
Definition lookup_ethdev_by_pci_addr (devs : eth_devs) (addr : pci_addr) : Z := lookup_ethdev_loop 0 devs addr.

Definition zero_info : eth_dev_info := DevInfo 0 0 0 0 0 0 (DescLim 0 0 0) (DescLim 0 0 0).

(** [rte_eth_dev_info_get] leaves the cleared structure as it is when the
    device is not valid. *)
Definition rte_eth_dev_info_get (devs : eth_devs) (id : Z) : eth_dev_info :=
  match devs !! Z.to_nat id with Some (Some (_, info)) => info | _ => zero_info end.

Definition zero_port : usiw_port := UsiwPort 0 0 0 0 0 0 [] [] 0 0 0.

(** [driver = calloc(...)] for [n] ports. *)
Definition calloc_heads (l : list nat) : gmap daddr (list_node daddr) :=
  foldr (fun i m => <[DAvail i := Node DNull DNull]> m) {[DProcesses := Node DNull DNull]} l.
Definition calloc_driver (n : nat) : DM unit :=
  dmodify (fun s => s <| d_ports := replicate n zero_port |> <| d_heap := calloc_heads (seq 0 n) |>).

(** The loop over the ports. *)
Fixpoint init_ports (devs : eth_devs) (i : nat) (cfgs : list usiw_port_config) (qp_addr : nat -> nat -> Z) : DM bool :=
  match cfgs with
  | [] => mret true
  | cfg :: cfgs =>
      let id := match pc_id cfg with
                | urdma_port_id_index => Z.of_nat i
                | urdma_port_id_pci a => lookup_ethdev_by_pci_addr devs a
                end in
      if id <? 0 then mret false else
      upd_port i (fun p => p <| portid := id |>);;
      go ← usiw_port_init (len devs) i cfg (rte_eth_dev_info_get devs id) (qp_addr i);
      if negb go then mret false else
      init_ports devs (S i) cfgs qp_addr
  end.

(** The loop that assigns the addresses of the ports. *)
Fixpoint set_ipv4_addrs (i : nat) (cfgs : list usiw_port_config) : DM bool :=
  match cfgs with
  | [] => mret true
  | cfg :: cfgs =>
      r ← usiw_set_ipv4_addr i cfg;
      if r <? 0 then mret false else set_ipv4_addrs (S i) cfgs
  end.

(** [setup_timer] opens the timer, arms it and watches it. *)
Definition setup_timer : DM bool := all_succeed 3.

(** [setup_socket] unlinks the old socket, opens the new one, makes it
    non-blocking with two calls and binds it, then listens and watches it.
    The name is at most [sizeof(addr.sun_path) - 1] characters. *)
Definition setup_socket (path : string) : DM bool :=
  if 108 - 1 <=? Z.of_nat (String.length path) then mret false else
  go ← all_succeed 5;
  if negb go then mret false else
  dlist (list_head_init DProcesses);;
  all_succeed 2.

(** The driver structure for [n] ports, and what it listens to: the last two
    calls open and watch the device of the kernel module. *)
Definition setup_driver (n : nat) (sock_name : string) : DM bool :=
  calloc_driver n;;
  go ← all_succeed 1;
  if negb go then mret false else
  go ← setup_timer;
  if negb go then mret false else
  go ← setup_socket sock_name;
  if negb go then mret false else
  all_succeed 2.

(** [do_init_driver] with the ports and the name of the socket of the
    configuration. *)
Definition do_init_driver (devs : eth_devs) (cfgs : Z + list usiw_port_config) (sock_name : option string)
    (qp_addr : nat -> nat -> Z) : DM bool :=
  match cfgs, sock_name with
  | inr cfgs, Some sock_name =>
      if (len cfgs =? 0) || (len devs <? len cfgs) then mret false else
      go ← all_succeed 1;
      if negb go then mret false else
      go ← setup_driver (List.length cfgs) sock_name;
      if negb go then mret false else
      go ← init_ports devs 0 cfgs qp_addr;
      if negb go then mret false else
      r ← usiw_driver_setup_netlink;
      if r <? 0 then mret false else
      set_ipv4_addrs 0 cfgs
  | _, _ => mret false
  end.

(** What [main] does after DPDK has started: [lcores] says which cores were
    detected, and which DPDK does not use. *)
Definition urdmad_main (lcores : list (bool * bool)) (devs : eth_devs) (cfgs : Z + list usiw_port_config)
    (sock_name : option string) (qp_addr : nat -> nat -> Z) : DM bool := fun s =>
  match init_core_mask lcores (d_cores s) with
  | Fault e => Fault e
  | Ok p => do_init_driver devs cfgs sock_name qp_addr (s <| d_cores := p |>)
  end.

(** The memory of the daemon when [main] is called, with [n] words in
    [core_mask], and what the calls outside the daemon will return. *)
Definition urdmad_start (n : nat) (rets bursts : list Z) : dstate :=
  DState ∅ [] ∅ (CorePool (replicate n 0) 0) [] [] [] 0 0 rets bursts.

(** ** A port without a configured number of queue pairs *)

Lemma init_max_qp_default cfg info : pc_max_qp cfg <= 0 ->
  in_range 16 (max_rx_queues info) -> in_range 16 (max_tx_queues info) -> init_max_qp cfg info = None.
Proof.
  intros Hq Hr Ht. unfold init_max_qp. rewrite (proj2 (Z.ltb_ge 0 (pc_max_qp cfg))) by done.
  set (info' := reserve_vmdq info).
  assert (in_range 16 (max_rx_queues info') /\ in_range 16 (max_tx_queues info')) as [Hr' Ht'].
  { unfold info', reserve_vmdq. destruct (_ && _); [|done]. split; apply wrap_in_range; lia. }
  rewrite wrap_small by (unfold in_range in *; lia).
  destruct (Z.leb_spec (max_rx_queues info') (Z.min (max_rx_queues info') (max_tx_queues info'))); [done|].
  destruct (Z.leb_spec (max_tx_queues info') (Z.min (max_rx_queues info') (max_tx_queues info'))); [done|lia].
Qed.

Lemma get_port_config_max_qp port b cfg b' : get_port_config port b = Some (cfg, b') ->
  json_object_object_get_ex port "max_qp" = None -> pc_max_qp cfg = -1.
Proof.
  intros Hc Hm. unfold get_port_config, get_int_value in Hc. rewrite Hm in Hc.
  repeat (case_match; simplify_eq/=; try done); unfold mbind, option_bind in *; repeat case_match; by simplify_eq/=.
Qed.

Lemma quiet_init_flags info : quiet (init_flags info).
Proof. unfold init_flags. quiet. Qed.

(** ** A start establishes the invariant *)

Lemma quiet_all_succeed n : quiet (all_succeed n).
Proof. induction n; cbn [all_succeed]; quiet. Qed.
Lemma quiet_setup_kni : quiet usiw_port_setup_kni.
Proof. unfold usiw_port_setup_kni. quiet. Qed.
Lemma quiet_setup_netlink : quiet usiw_driver_setup_netlink.
Proof. unfold usiw_driver_setup_netlink. quiet. Qed.
Lemma quiet_base_filters : quiet setup_base_filters.
Proof. unfold setup_base_filters. quiet. Qed.
#[local] Hint Resolve quiet_all_succeed quiet_setup_kni quiet_setup_netlink quiet_base_filters : quiet.

(** The pool of port [i] when no queue pair is lent. *)
Definition full_pool (i : nat) (dev : usiw_port) : list daddr := DQp i <$> seq 1 (Z.to_nat (max_qp dev)).

(** The first [k] ports are initialised and there is no process. *)
Record started (k : nat) (L : gmap daddr (list daddr)) (s : dstate) : Prop := Started {
  st_lists : lists (d_heap s) L;
  st_which : forall h l, L !! h = Some l <-> h = DProcesses /\ l = [] \/
    exists i dev, (i < k)%nat /\ d_ports s !! i = Some dev /\ h = DAvail i /\ l = full_pool i dev;
  st_heads : forall i, (i < List.length (d_ports s))%nat -> DAvail i ∈ dom (d_heap s);
  st_ports : forall i dev, (i < k)%nat -> d_ports s !! i = Some dev -> port_ok (shape dev);
  st_procs : d_procs s = ∅
}.

Lemma full_pool_shape i dev dev' : shape dev = shape dev' -> full_pool i dev = full_pool i dev'.
Proof. intros E. unfold full_pool. by assert (max_qp dev = max_qp dev') as -> by (unfold shape in E; congruence). Qed.

Lemma started_view k L s s' : started k L s -> same_view s s' -> started k L s'.
Proof.
  intros [S1 S2 S3 S4 S5] [Eh Esh Ep _ _]. split.
  - by rewrite Eh.
  - intros h l. rewrite S2. split; (intros [?|(i & dev & Hi & Hd & -> & ->)]; [by left|right]).
    + destruct (shape_lookup s' s i dev (eq_sym Esh) Hd) as (d & Hd' & E). exists i, d. eauto using full_pool_shape.
    + destruct (shape_lookup s s' i dev Esh Hd) as (d & Hd' & E). exists i, d. eauto using full_pool_shape.
  - intros i Hi. rewrite Eh. apply S3. by rewrite <- (length_fmap shape), <- Esh, length_fmap.
  - intros i dev Hi Hd. destruct (shape_lookup s s' i dev Esh Hd) as (d & Hd' & ->). by apply (S4 i).
  - by rewrite Ep.
Qed.

Lemma started_unused k L s i q : started k L s -> (k <= i)%nat -> unused L (DQp i q) /\ unused L (DAvail i).
Proof.
  intros [_ S2 _ _ _] Hk. split; intros h l Hl; apply S2 in Hl as [[-> ->]|(j & dev & Hj & _ & -> & ->)];
    rewrite elem_of_cons; unfold full_pool; rewrite ?list_elem_of_fmap; set_solver by lia.
Qed.

Lemma started_dinv k L s : started k L s -> k = List.length (d_ports s) -> pool_ok (d_cores s) ->
  dinv (cores (core_mask (d_cores s))) L s.
Proof.
  intros [S1 S2 S3 S4 S5] -> Hok. split.
  - done.
  - intros h. split.
    + intros [l [[-> _]|(i & dev & Hi & Hd & -> & _)]%S2]; [by left|by right].
    + intros [->|Hh]; [exists []; apply S2; by left|]. destruct h as [| |i| | |p]; try done; simpl in Hh.
      * destruct (lookup_lt_is_Some_2 _ _ Hh) as [dev Hd]. exists (full_pool i dev). apply S2. right. by exists i, dev.
      * rewrite S5 in Hh. by destruct Hh.
  - intros l x [[_ ->]|(? & ? & _ & _ & ? & _)]%S2; [|done]. rewrite S5. split; [by intros ?%elem_of_nil|].
    by intros (p & _ & [??]).
  - intros i q (dev & Hd & Hq). exists (DAvail i), (full_pool i dev). split.
    + apply S2. right. exists i, dev. by apply lookup_lt_Some in Hd as ?.
    + unfold full_pool. rewrite list_elem_of_fmap. exists q. split; [done|]. apply elem_of_seq. lia.
  - intros h l x [[-> _]|(i & dev & Hi & Hd & -> & ->)]%S2 Hne Hx; [done|].
    unfold full_pool in Hx. apply list_elem_of_fmap in Hx as (q & -> & Hq%elem_of_seq). exists i, q. split; [done|].
    exists dev. split; [done|lia].
  - intros i dev Hd. apply (S4 i); [by eapply lookup_lt_Some|done].
  - intros p. rewrite S5. by intros [??].
  - assert (Hm : forall p m, proc_mask s p = Some m -> False) by (intros p m; unfold proc_mask; by rewrite S5).
    split; [done|intros; exfalso; eauto..|]. intros c. split; [by left|]. intros [?|(p & m & ? & _)]; [done|exfalso; eauto].
Qed.

(** What the start of a port leaves alone. *)
Record keeps (s s' : dstate) : Prop := Keeps {
  kp_ports : List.length (d_ports s') = List.length (d_ports s);
  kp_procs : d_procs s' = d_procs s;
  kp_cores : d_cores s' = d_cores s
}.
Lemma keeps_refl s : keeps s s.
Proof. done. Qed.
Lemma keeps_trans s1 s2 s3 : keeps s1 s2 -> keeps s2 s3 -> keeps s1 s3.
Proof. intros [] []. split; congruence. Qed.
Lemma keeps_view s s' : same_view s s' -> keeps s s'.
Proof. intros [_ Esh Ep Ec _]. split; [|done..]. by rewrite <- (length_fmap shape), Esh, length_fmap. Qed.

(** The queue pairs from number [S j] on are added to the pool. *)
Lemma init_qps_ok k L n : (forall q, unused L (DQp k q)) -> forall j s,
  lists (d_heap s) (<[DAvail k := DQp k <$> seq 1 j]> L) ->
  (forall q, (q <= j + n)%nat -> DQp k q ∈ dom (d_heap s)) ->
  dwp (init_qps k (S j) n) (fun go s' => same_rest s s' /\ dom (d_heap s') = dom (d_heap s) /\
    (go = true -> lists (d_heap s') (<[DAvail k := DQp k <$> seq 1 (j + n)]> L))) s.
Proof.
  intros Hu. induction n as [|n IH]; intros j s HL Hd; cbn [init_qps].
  { apply dwp_ret. rewrite Nat.add_0_r. done. }
  apply dwp_bind. eapply dwp_mono; [apply quiet_upd_dqp; reflexivity|]. intros [] s1 V1.
  apply dwp_bind. eapply dwp_mono; [apply quiet_dcall|]. intros r s2 V2.
  pose proof (same_view_trans _ _ _ V1 V2) as V. pose proof (same_rest_view s s s2 (same_rest_refl s) V) as R2.
  destruct V as [Eh _ _ _ _].
  destruct (negb (r =? 0)); [apply dwp_ret; by rewrite Eh|].
  destruct (list_add_tail_lists (d_heap s2) (<[DAvail k := DQp k <$> seq 1 j]> L) (DAvail k) (DQp k <$> seq 1 j) (DQp k (S j)))
    as (m & E & D & HL'); [by rewrite Eh|by rewrite lookup_insert_eq|rewrite Eh; apply Hd; lia| |].
  { intros h l. rewrite lookup_insert_Some. intros [[<- <-]|[_ Hl]]; [|by apply (Hu (S j) h l)].
    rewrite elem_of_cons, list_elem_of_fmap. intros [?|(q & [= <-] & Hq%elem_of_seq)]; [done|lia]. }
  apply dwp_bind. eapply dwp_list; [exact E|]. rewrite insert_insert_eq in HL'.
  eapply dwp_mono; [apply IH|].
  - rewrite seq_S, fmap_app. exact HL'.
  - simpl. intros q Hq. rewrite D, Eh. apply Hd. lia.
  - intros go s' (R & D' & Hgo). simpl in D'. split; [eapply same_rest_trans; [exact R2|by destruct R]|].
    split; [by rewrite D', D, Eh|]. intros Hg. rewrite <- Nat.add_succ_comm. by apply Hgo.
Qed.

Lemma calloc_qps_lookup i n m x : (forall q, x ≠ DQp i q) -> calloc_qps i n m !! x = m !! x.
Proof.
  intros Hx. unfold calloc_qps. induction (seq 0 n) as [|q l IH]; [done|]. simpl. by rewrite lookup_insert_ne.
Qed.
Lemma calloc_qps_dom i n m : dom m ⊆ dom (calloc_qps i n m) /\ forall q, (q < n)%nat -> DQp i q ∈ dom (calloc_qps i n m).
Proof.
  assert (Hl : forall l, dom m ⊆ dom (foldr (fun q m => <[DQp i q := Node DNull DNull]> m) m l) /\
    forall q, q ∈ l -> DQp i q ∈ dom (foldr (fun q m => <[DQp i q := Node DNull DNull]> m) m l)).
  { induction l as [|q l IH]; simpl; [split; [done|by intros q ?%elem_of_nil]|]. rewrite dom_insert. set_solver. }
  unfold calloc_qps. split; [apply Hl|]. intros q Hq. apply Hl, elem_of_seq. lia.
Qed.

Lemma started_next k L s s' dev : started k L s -> d_ports s' !! k = Some dev -> port_ok (shape dev) ->
  (forall i, i ≠ k -> shape <$> d_ports s' !! i = shape <$> d_ports s !! i) -> keeps s s' ->
  dom (d_heap s) ⊆ dom (d_heap s') -> lists (d_heap s') (<[DAvail k := full_pool k dev]> L) ->
  started (S k) (<[DAvail k := full_pool k dev]> L) s'.
Proof.
  intros HS Hk Hok Hoth [Kp Kr Kc] Hdom HL. pose proof HS as [S1 S2 S3 S4 S5].
  assert (Hi : forall i d, i ≠ k -> d_ports s' !! i = Some d -> exists d', d_ports s !! i = Some d' /\ shape d = shape d').
  { intros i d Hne Hd. specialize (Hoth i Hne). rewrite Hd in Hoth. simpl in Hoth.
    destruct (d_ports s !! i) as [d'|]; [|done]. exists d'. split; [done|]. simpl in Hoth. congruence. }
  assert (Hi' : forall i d, i ≠ k -> d_ports s !! i = Some d -> exists d', d_ports s' !! i = Some d' /\ shape d = shape d').
  { intros i d Hne Hd. specialize (Hoth i Hne). rewrite Hd in Hoth. simpl in Hoth.
    destruct (d_ports s' !! i) as [d'|]; [|done]. exists d'. split; [done|]. simpl in Hoth. congruence. }
  split; [done| | | |congruence].
  - intros h l. rewrite lookup_insert_Some, S2. split.
    + intros [[<- <-]|[Hne [[-> ->]|(i & d & Hlt & Hd & -> & ->)]]]; [right; exists k, dev; auto|by left|].
      destruct (Hi' i d) as (d' & Hd' & E); [lia|done|]. right. exists i, d'.
      split; [lia|]. eauto using full_pool_shape.
    + intros [[-> ->]|(i & d & Hlt & Hd & -> & ->)]; [right; by split; [|left]|].
      destruct (decide (i = k)) as [->|Hne]; [rewrite Hk in Hd; simplify_eq; by left|].
      right. split; [congruence|]. right. destruct (Hi i d Hne Hd) as (d' & Hd' & E).
      exists i, d'. split; [lia|]. eauto using full_pool_shape.
  - intros i Hlt. apply Hdom, S3. lia.
  - intros i d Hlt Hd. destruct (decide (i = k)) as [->|Hne]; [congruence|].
    destruct (Hi i d Hne Hd) as (d' & Hd' & ->). apply (S4 i); [lia|done].
Qed.

(** The state after the arrays of port [k] were allocated. *)
Definition pool_alloc (k : nat) (n : Z) (qp_addr : nat -> Z) (s : dstate) : dstate :=
  s <| d_heap ::= calloc_qps k (S (Z.to_nat n)) |>
    <| d_ports ::= alter (fun p => p <| max_qp := n |> <| po_qp := replicate (S (Z.to_nat n)) zero_qp |>
                                     <| po_qp_addr := qp_addr <$> seq 0 (S (Z.to_nat n)) |>) k |>.

Lemma pool_alloc_port k n qp_addr s dev : d_ports s !! k = Some dev -> 0 <= n < 2 ^ 16 ->
  exists dev', d_ports (pool_alloc k n qp_addr s) !! k = Some dev' /\ max_qp dev' = n /\ port_ok (shape dev').
Proof.
  intros Hk Hn. eexists. split; [simpl; by rewrite list_lookup_alter_eq, Hk|]. split; [done|].
  unfold shape, port_ok. simpl. split; [done|]. split; [by rewrite length_fmap, length_seq|].
  by rewrite fmap_replicate.
Qed.

Lemma fill_pool_ok k L s n : (forall q, unused L (DQp k q)) -> lists (d_heap s) (<[DAvail k := []]> L) ->
  (forall q, (q <= Z.to_nat n)%nat -> DQp k q ∈ dom (d_heap s)) ->
  dwp (fill_pool k n) (fun go s' => same_rest s s' /\ dom (d_heap s') = dom (d_heap s) /\
    (go = true -> lists (d_heap s') (<[DAvail k := DQp k <$> seq 1 (Z.to_nat n)]> L))) s.
Proof.
  intros Hu HL Hd. unfold fill_pool.
  apply dwp_bind. eapply dwp_mono; [apply quiet_dcall|]. intros r1 s1 V1. simpl in V1.
  pose proof (same_rest_view _ _ _ (same_rest_refl s) V1) as R1.
  destruct (negb (r1 =? 0)); [apply dwp_ret; by rewrite (sv_heap _ _ V1)|].
  apply dwp_bind. eapply dwp_mono; [apply quiet_dcall|]. intros r2 s2 V2. simpl in V2.
  pose proof (same_view_trans _ _ _ V1 V2) as V. pose proof (same_rest_view _ _ _ (same_rest_refl s) V) as R2.
  destruct (negb (r2 =? 0)); [apply dwp_ret; by rewrite (sv_heap _ _ V)|].
  apply dwp_bind. eapply dwp_mono.
  { apply (init_qps_ok k L (Z.to_nat n)) with (j := 0%nat); rewrite ?(sv_heap _ _ V); done. }
  intros go s3 (R3 & D3 & HL3). pose proof (same_rest_trans _ _ _ R2 R3) as R. rewrite (sv_heap _ _ V) in D3.
  destruct go; simpl; [|by apply dwp_ret].
  apply dwp_bind. eapply dwp_mono; [apply quiet_dcall|]. intros r4 s4 V4. apply dwp_ret.
  rewrite (sv_heap _ _ V4). split; [by eapply same_rest_view|]. auto.
Qed.

Lemma same_rest_keeps s s' : same_rest s s' -> keeps s s'.
Proof. intros [Esh ? ? _]. split; [|done..]. by rewrite <- (length_fmap shape), Esh, length_fmap. Qed.

Lemma init_qp_pool_ok k L s n qp_addr : started k L s -> (k < List.length (d_ports s))%nat -> 0 <= n < 2 ^ 16 ->
  dwp (init_qp_pool k n qp_addr) (fun go s' => keeps s s' /\ (go = true -> exists L', started (S k) L' s')) s.
Proof.
  intros HS Hk Hn. assert (Hu : forall q, unused L (DQp k q)) by (intros q; apply (started_unused k L s k q HS); lia).
  destruct (started_unused k L s k 0 HS) as [_ Hh]; [lia|].
  destruct (list_head_init_lists (d_heap s) L (DAvail k)) as (m1 & E1 & D1 & HL1); [apply HS|by apply HS|done|].
  unfold init_qp_pool. apply dwp_bind. eapply dwp_list; [exact E1|].
  apply dwp_bind. eapply dwp_mono; [apply quiet_dcall|]. intros r s2 V2. simpl in V2.
  assert (K2 : keeps s s2) by by destruct (keeps_view _ _ V2). destruct (r <? 0); [by apply dwp_ret|].
  destruct (lookup_lt_is_Some_2 (d_ports s2) k) as [dev2 Hd2]; [rewrite (kp_ports _ _ K2); exact Hk|].
  apply dwp_bind, dwp_modify. apply dwp_bind, dwp_modify.
  match goal with |- dwp _ _ ?x => change x with (pool_alloc k n qp_addr s2) end.
  destruct (pool_alloc_port k n qp_addr s2 dev2 Hd2 Hn) as (dev & Hdev & Hmax & Hok).
  assert (K3 : keeps s (pool_alloc k n qp_addr s2)).
  { eapply keeps_trans; [apply K2|]. split; [simpl; apply length_alter|done..]. }
  assert (Hdom : dom (d_heap s) ⊆ dom (d_heap (pool_alloc k n qp_addr s2))).
  { simpl. rewrite <- D1. etrans; [|apply calloc_qps_dom]. by rewrite (sv_heap _ _ V2). }
  eapply dwp_mono; [apply (fill_pool_ok k L); [done| |]|].
  - apply (lists_frame m1); [done|]. intros x Hx. simpl. rewrite calloc_qps_lookup; [by rewrite (sv_heap _ _ V2)|].
    intros q ->. apply Hx. intros h l. rewrite lookup_insert_Some. intros [[<- <-]|[_ Hl]]; [set_solver|by apply (Hu q h l)].
  - intros q Hq. simpl. apply calloc_qps_dom. lia.
  - intros go s4 (R & D4 & HL4). pose proof (keeps_trans _ _ _ K3 (same_rest_keeps _ _ R)) as K4. split; [done|].
    intros Hgo. destruct (shape_lookup s4 (pool_alloc k n qp_addr s2) k dev (eq_sym (sr_ports _ _ R)) Hdev) as (dev4 & Hd4 & Esh).
    exists (<[DAvail k := full_pool k dev4]> L).
    apply (started_next k L s s4 dev4 HS Hd4); [by rewrite <- Esh| |done|by rewrite D4|].
    + intros i Hne. rewrite <- list_lookup_fmap, (sr_ports _ _ R), list_lookup_fmap. simpl.
      rewrite list_lookup_alter_ne by done. rewrite <- !list_lookup_fmap. by rewrite (sv_ports _ _ V2).
    + rewrite <- (full_pool_shape k _ _ Esh). unfold full_pool. rewrite Hmax. auto.
Qed.

Lemma init_device_ok k cfg s : (k < List.length (d_ports s))%nat ->
  dwp (init_device k cfg) (fun _ s' => same_view s s') s.
Proof.
  intros Hk. destruct (lookup_lt_is_Some_2 _ _ Hk) as [dev Hd]. unfold init_device.
  apply dwp_bind. eapply dwp_get_port; [exact Hd|].
  match goal with |- dwp ?m _ _ => assert (Hq : quiet m) by quiet end. apply Hq.
Qed.

Lemma init_max_qp_range cfg info n : init_max_qp cfg info = Some n -> 0 <= n < 2 ^ 16.
Proof. unfold init_max_qp. intros E. do 2 (destruct (_ <=? _); [done|]). injection E as <-. apply wrap_range. lia. Qed.

Lemma usiw_port_init_ok k L s eth_count cfg info qp_addr dev : started k L s -> d_ports s !! k = Some dev ->
  portid dev < eth_count ->
  dwp (usiw_port_init eth_count k cfg info qp_addr)
    (fun go s' => keeps s s' /\ (go = true -> exists L', started (S k) L' s')) s.
Proof.
  intros HS Hd Hid. unfold usiw_port_init. apply dwp_bind. eapply dwp_get_port; [done|].
  apply dwp_bind, dwp_assert; [lia|]. apply dwp_bind. eapply dwp_mono; [apply quiet_init_flags|]. intros flags s1 V1.
  apply dwp_bind. eapply dwp_mono; [apply quiet_upd_port; reflexivity|]. intros [] s2 V2. simpl in V1, V2.
  pose proof (same_view_trans _ _ _ V1 V2) as V.
  destruct (init_max_qp cfg info) as [n|] eqn:En; [|apply dwp_ret; split; [by apply keeps_view|done]].
  destruct (init_desc_count (pc_rx_desc_count cfg) _) as [rx|]; [|apply dwp_ret; split; [by apply keeps_view|done]].
  destruct (init_desc_count (pc_tx_desc_count cfg) _) as [tx|]; [|apply dwp_ret; split; [by apply keeps_view|done]].
  apply dwp_bind. eapply dwp_mono; [apply quiet_upd_port; reflexivity|]. intros [] s3 V3. simpl in V3.
  pose proof (same_view_trans _ _ _ V V3) as V4. pose proof (keeps_view _ _ V4) as K4.
  assert (Hk : (k < List.length (d_ports s3))%nat) by (rewrite (kp_ports _ _ K4); by eapply lookup_lt_Some).
  apply dwp_bind. eapply dwp_mono.
  { apply (init_qp_pool_ok k L s3 n qp_addr); [by eapply started_view|done|by eapply init_max_qp_range]. }
  intros go s5 [K5 HS5]. pose proof (keeps_trans _ _ _ K4 K5) as K. destruct go; simpl; [|by apply dwp_ret].
  eapply dwp_mono; [apply init_device_ok; by rewrite (kp_ports _ _ K5)|]. intros go s6 V6. simpl in V6.
  split; [exact (keeps_trans _ _ _ K (keeps_view _ _ V6))|]. intros _. destruct (HS5 eq_refl) as [L' HL'].
  exists L'. by eapply started_view.
Qed.

(** The number found for a PCI address is that of a device. *)
Lemma lookup_ethdev_range devs a : forall x, lookup_ethdev_loop x devs a < 0 \/
  x <= lookup_ethdev_loop x devs a < x + len devs.
Proof.
  induction devs as [|[[b info]|] devs IH]; intros x; cbn [lookup_ethdev_loop].
  - left. lia.
  - rewrite length_cons. case_match; [right; lia|]. destruct (IH (x + 1)); [by left|right; lia].
  - rewrite length_cons. destruct (IH (x + 1)); [by left|right; lia].
Qed.

Lemma init_ports_ok devs qp_addr cfgs : forall k L s, started k L s ->
  List.length (d_ports s) = (k + List.length cfgs)%nat -> Z.of_nat k + len cfgs <= len devs ->
  dwp (init_ports devs k cfgs qp_addr) (fun go s' => keeps s s' /\
    (go = true -> exists L', started (k + List.length cfgs) L' s')) s.
Proof.
  induction cfgs as [|cfg cfgs IH]; intros k L s HS Hlen Hdevs; cbn [init_ports].
  { apply dwp_ret. split; [done|]. intros _. exists L. by rewrite Nat.add_0_r. }
  set (id := match pc_id cfg with urdma_port_id_index => _ | urdma_port_id_pci _ => _ end).
  destruct (Z.ltb_spec id 0) as [|Hid]; [by apply dwp_ret|]. rewrite length_cons in Hlen, Hdevs.
  assert (Hlt : id < len devs).
  { unfold id in *. destruct (pc_id cfg) as [|a]; [lia|]. unfold lookup_ethdev_by_pci_addr in *.
    destruct (lookup_ethdev_range devs a 0); lia. }
  clearbody id. destruct (lookup_lt_is_Some_2 (d_ports s) k) as [dev Hd]; [lia|].
  apply dwp_bind, dwp_modify.
  match goal with |- dwp _ _ ?x => set (s1 := x) end.
  assert (V1 : same_view s s1).
  { assert (quiet (upd_port k (fun p => p <| portid := id |>))) as Hq by (apply quiet_upd_port; reflexivity).
    destruct (Hq s) as ([] & s2 & E & V).
    unfold upd_port, dmodify in E. by injection E as <-. }
  assert (Hd1 : d_ports s1 !! k = Some (dev <| portid := id |>)).
  { unfold s1. simpl. by rewrite list_lookup_alter_eq, Hd. }
  clearbody s1. pose proof (keeps_view _ _ V1) as K1.
  apply dwp_bind. eapply dwp_mono.
  { eapply usiw_port_init_ok; [eapply started_view; [exact HS|exact V1]|exact Hd1|exact Hlt]. }
  intros go s2 [K2 HS2]. pose proof (keeps_trans _ _ _ K1 K2) as K. destruct go; simpl; [|by apply dwp_ret].
  destruct (HS2 eq_refl) as [L2 HL2]. eapply dwp_mono; [apply (IH (S k) L2 s2 HL2)|].
  - rewrite (kp_ports _ _ K). lia.
  - lia.
  - intros go s3 [K3 HS3]. split; [exact (keeps_trans _ _ _ K K3)|]. rewrite Nat.add_succ_r. exact HS3.
Qed.

Lemma calloc_heads_dom l : DProcesses ∈ dom (calloc_heads l) /\ forall i, i ∈ l -> DAvail i ∈ dom (calloc_heads l).
Proof.
  induction l as [|j l IH]; simpl; [split; [set_solver|by intros i ?%elem_of_nil]|]. rewrite dom_insert. set_solver.
Qed.

(** The heads of the lists are there before the ports are initialised. *)
Lemma setup_socket_ok path s : d_procs s = ∅ -> d_heap s = calloc_heads (seq 0 (List.length (d_ports s))) ->
  dwp (setup_socket path) (fun go s' => keeps s s' /\ (go = true -> started 0 {[DProcesses := []]} s')) s.
Proof.
  intros Hp Hh. unfold setup_socket. destruct (_ <=? _); [by apply dwp_ret|].
  apply dwp_bind. eapply dwp_mono; [apply quiet_all_succeed|]. intros go s1 V1. simpl in V1.
  pose proof (keeps_view _ _ V1) as K1. destruct go; simpl; [|by apply dwp_ret].
  destruct (calloc_heads_dom (seq 0 (List.length (d_ports s)))) as [HD HA'].
  destruct (list_head_init_lists (d_heap s1) ∅ DProcesses) as (m & E & D & HL).
  { done. }
  { by rewrite (sv_heap _ _ V1), Hh. }
  { done. }
  rewrite (sv_heap _ _ V1) in D.
  apply dwp_bind. eapply dwp_list; [exact E|]. eapply dwp_mono; [apply (quiet_all_succeed 2)|]. intros go s2 V2.
  assert (K2 : keeps s s2) by (destruct K1, (keeps_view _ _ V2); split; simpl in *; congruence).
  split; [done|]. intros _. eapply started_view; [|exact V2]. split; simpl.
  - exact HL.
  - intros h l. rewrite lookup_singleton_Some. split; [intros [<- <-]; by left|].
    intros [[-> ->]|(i & dev & Hi & _)]; [done|lia].
  - intros i Hi. rewrite D, Hh. apply HA', elem_of_seq. rewrite (kp_ports _ _ K1) in Hi. lia.
  - intros; lia.
  - rewrite (kp_procs _ _ K1). done.
Qed.

Lemma setup_driver_ok n path s : d_procs s = ∅ ->
  dwp (setup_driver n path) (fun go s' => keeps (s <| d_ports := replicate n zero_port |>) s' /\
    (go = true -> started 0 {[DProcesses := []]} s')) s.
Proof.
  intros Hp. unfold setup_driver. apply dwp_bind, dwp_modify.
  match goal with |- dwp _ _ ?x => set (s0 := x) end.
  assert (K0 : keeps (s <| d_ports := replicate n zero_port |>) s0) by done.
  assert (Hh : d_heap s0 = calloc_heads (seq 0 (List.length (d_ports s0)))).
  { unfold s0. simpl. by rewrite length_replicate. }
  assert (Hp0 : d_procs s0 = ∅) by done. clearbody s0.
  apply dwp_bind. eapply dwp_mono; [apply quiet_all_succeed|]. intros go1 s1 V1. simpl in V1.
  destruct go1; simpl; [|apply dwp_ret; split; [exact (keeps_trans _ _ _ K0 (keeps_view _ _ V1))|done]].
  apply dwp_bind. eapply dwp_mono; [apply quiet_all_succeed|]. intros go2 s2 V2. simpl in V2.
  pose proof (same_view_trans _ _ _ V1 V2) as V. pose proof (keeps_view _ _ V) as KV.
  pose proof (keeps_trans _ _ _ K0 KV) as K2. destruct go2; simpl; [|by apply dwp_ret].
  apply dwp_bind. eapply dwp_mono.
  { apply setup_socket_ok; [by rewrite (kp_procs _ _ KV)|]. by rewrite (sv_heap _ _ V), (kp_ports _ _ KV). }
  intros go3 s3 [K3 HS3]. pose proof (keeps_trans _ _ _ K2 K3) as K. destruct go3; simpl; [|by apply dwp_ret].
  eapply dwp_mono; [apply (quiet_all_succeed 2)|]. intros go4 s4 V4. simpl in V4.
  split; [exact (keeps_trans _ _ _ K (keeps_view _ _ V4))|]. intros _. eapply started_view; [by apply HS3|done].
Qed.

Definition addresses_parse (cfgs : list usiw_port_config) : Prop :=
  Forall (fun c => is_Some (nl_addr_parse (pc_ipv4_address c))) cfgs.

Lemma quiet_set_ipv4_addrs cfgs : addresses_parse cfgs -> forall i, quiet (set_ipv4_addrs i cfgs).
Proof.
  induction 1 as [|cfg cfgs [ip Hip] _ IH]; intros i; cbn [set_ipv4_addrs]; [quiet|].
  apply quiet_bind; [|intros r; apply quiet_if; [quiet|apply IH]].
  intros s. unfold usiw_set_ipv4_addr, get_addr. rewrite Hip. apply dwp_bind, dwp_bind.
  eapply dwp_mono; [apply quiet_upd_port; reflexivity|]. intros [] s1 V1. apply dwp_ret.
  match goal with |- dwp ?m _ _ => assert (Hq : quiet m) by quiet end.
  eapply dwp_mono; [apply Hq|]. intros r s2 V2. exact (same_view_trans _ _ _ V1 V2).
Qed.

(** The daemon starts, or exits; it never faults. *)
Lemma do_init_driver_ok devs cfgs sock_name qp_addr s : d_procs s = ∅ ->
  (forall l, cfgs = inr l -> addresses_parse l) ->
  dwp (do_init_driver devs cfgs sock_name qp_addr) (fun go s' => go = true ->
    d_cores s' = d_cores s /\ exists L, started (List.length (d_ports s')) L s') s.
Proof.
  intros Hp Ha. unfold do_init_driver. destruct cfgs as [|cfgs]; [by apply dwp_ret|].
  destruct sock_name as [path|]; [|by apply dwp_ret]. specialize (Ha cfgs eq_refl).
  destruct (len cfgs =? 0); [by apply dwp_ret|]. destruct (Z.ltb_spec (len devs) (len cfgs)); [by apply dwp_ret|]. simpl.
  apply dwp_bind. eapply dwp_mono; [apply (quiet_all_succeed 1)|]. intros go1 s1 V1. simpl in V1.
  destruct go1; simpl; [|by apply dwp_ret].
  apply dwp_bind. eapply dwp_mono; [apply setup_driver_ok; by rewrite (sv_procs _ _ V1)|]. intros go2 s2 [K2 HS2].
  destruct go2; simpl; [|by apply dwp_ret]. specialize (HS2 eq_refl).
  assert (Hlen : List.length (d_ports s2) = List.length cfgs).
  { rewrite (kp_ports _ _ K2). simpl. apply length_replicate. }
  apply dwp_bind. eapply dwp_mono; [apply (init_ports_ok devs qp_addr cfgs 0 _ s2 HS2 Hlen); lia|].
  intros go3 s3 [K3 HS3]. destruct go3; simpl; [|by apply dwp_ret]. destruct (HS3 eq_refl) as [L HL].
  apply dwp_bind. eapply dwp_mono; [apply quiet_setup_netlink|]. intros r4 s4 V4. simpl in V4.
  destruct (r4 <? 0); [by apply dwp_ret|].
  eapply dwp_mono; [by apply quiet_set_ipv4_addrs|]. intros go5 s5 V5 _. simpl in V5.
  pose proof (same_view_trans _ _ _ V4 V5) as V. split.
  - rewrite (sv_cores _ _ V), (kp_cores _ _ K3), (kp_cores _ _ K2). exact (sv_cores _ _ V1).
  - exists L. eapply started_view; [|exact V]. by rewrite (kp_ports _ _ (keeps_view _ _ V)), (kp_ports _ _ K3), Hlen.
Qed.

(** C39: A port whose configuration does not set max_qp is never initialised,
    whatever the device offers: the daemon exits. *)
Theorem default_max_qp_exits port b cfg b' eth_count i info addr s dev :
  get_port_config port b = Some (cfg, b') -> json_object_object_get_ex port "max_qp" = None ->
  in_range 16 (max_rx_queues info) -> in_range 16 (max_tx_queues info) ->
  d_ports s !! i = Some dev -> portid dev < eth_count ->
  exists s', usiw_port_init eth_count i cfg info addr s = Ok (false, s').
Proof.
  intros Hc Hm Hr Ht Hi He. pose proof (get_port_config_max_qp _ _ _ _ Hc Hm) as Hq.
  assert (Hw : dwp (usiw_port_init eth_count i cfg info addr) (fun go _ => go = false) s).
  { unfold usiw_port_init. apply dwp_bind. eapply dwp_get_port; [done|]. apply dwp_bind, dwp_assert; [lia|].
    apply dwp_bind. eapply dwp_mono; [apply quiet_init_flags|]. intros flags s1 _. apply dwp_bind, dwp_modify.
    rewrite init_max_qp_default by (done || lia). by apply dwp_ret. }
  destruct Hw as (go & s' & E & ->). eauto.
Qed.
End init.
