(* ===== verification/Dclient.v ===== *)
(** The library's side of the daemon's socket (do_hello and format_coremask
    of src/liburdma/driver.c, port_get_next_qp and port_return_qp of
    src/liburdma/verbs.c), and the two sides together: what the library reads
    from a response is what the daemon reserved, and a queue pair that is lent
    and returned is in the pool again. *)
From S2P Require Import Prelude Proto Clist Cores Kern Kverbs State Daemon Dsafe.
From Stdlib Require Import Ascii.

(** ** Requests and responses *)

(** [do_hello] asks for one core. *)
Definition hello_req_bytes : bytes := sock_msg_bytes urdma_sock_hello_req 0 0 ++ be_encode 4 1.

(** [n] numbers of [k] bytes from offset [off] on. *)
Fixpoint read_be_array (resp : bytes) (k off n : nat) : outcome (list Z) :=
  match n with
  | O => Ok []
  | S n => w ← get_be resp off k; l ← read_be_array resp k (off + k) n; Ok (w :: l)
  end.

(** [do_hello] once the request was sent: [resp] is the response, [None] when
    one of the calls failed; [words] is RTE_DIM(resp->lcore_mask).  The result
    is [driver->lcore_mask] and [driver->max_qp]. *)
Definition do_hello (words : nat) (resp : option bytes) : outcome (option (list Z * list Z)) :=
  match resp with
  | None => Ok None
  | Some resp =>
      if len resp <? 12 + 4 * Z.of_nat words then Ok None else
      mask ← read_be_array resp 4 12 words;
      device_count ← get_be resp 10 2;
      max_qps ← read_be_array resp 2 (12 + 4 * words) (Z.to_nat device_count);
      Ok (Some (mask, max_qps))
  end.

Definition create_qp_req_bytes (portid : Z) : bytes :=
  sock_msg_bytes urdma_sock_create_qp_req portid 0 ++ be_encode 8 0.

(** [port_get_next_qp] with what [recv] stored; when it failed the message is
    still the request. *)
Definition port_get_next_qp (portid : Z) (resp : option bytes) : outcome (option Z) :=
  let msg := default (create_qp_req_bytes portid) resp in
  if len msg <? 16 then Ok None else
  opcode ← get_be msg 0 4;
  if negb (opcode =? urdma_sock_create_qp_resp) then Ok None else
  ptr ← get_be msg 8 8;
  Ok (Some ptr).

Definition port_return_qp (portid qp_id ptr : Z) : bytes :=
  sock_msg_bytes urdma_sock_destroy_qp_req portid qp_id ++ be_encode 8 ptr.

(** ** The core mask as text *)

Definition hex_digit (d : Z) : ascii := ascii_of_nat (Z.to_nat (if d <? 10 then 48 + d else 87 + d)).

(** printf's [%0*x] for a width of [n]. *)
Fixpoint hex_digits (n : nat) (w : Z) : list ascii :=
  match n with
  | O => []
  | S n => hex_digit (Z.land (Z.shiftr w (4 * Z.of_nat n)) 15) :: hex_digits n w
  end.

(** [format_coremask]: the words from the last one to the first. *)
Definition format_coremask (coremask : list Z) : list ascii :=
  ["0"; "x"]%char ++ (reverse coremask ≫= hex_digits 8).

(** The number that hexadecimal digits stand for. *)
Definition hex_digit_value (c : ascii) : Z :=
  let d := Z.of_nat (nat_of_ascii c) in if d <? 58 then d - 48 else d - 87.
Definition hex_acc (acc : Z) (l : list ascii) : Z := fold_left (fun a c => 16 * a + hex_digit_value c) l acc.

Lemma hex_digit_id d : 0 <= d < 16 -> hex_digit_value (hex_digit d) = d.
Proof.
  intros Hd. unfold hex_digit, hex_digit_value. rewrite nat_ascii_embedding by (destruct (d <? 10); lia).
  destruct (Z.ltb_spec d 10); rewrite Z2Nat.id by lia; [rewrite (proj2 (Z.ltb_lt _ _))|rewrite (proj2 (Z.ltb_ge _ _))]; lia.
Qed.

Lemma hex_acc_digits n w acc : 0 <= w -> hex_acc acc (hex_digits n w) = acc * 16 ^ Z.of_nat n + w mod 16 ^ Z.of_nat n.
Proof.
  intros Hw. revert acc. induction n as [|n IH]; intros acc; cbn [hex_digits].
  { unfold hex_acc. simpl. rewrite Z.mod_1_r. lia. }
  assert (E : Z.land (Z.shiftr w (4 * Z.of_nat n)) 15 = (w / 16 ^ Z.of_nat n) mod 16).
  { change 15 with (Z.ones 4). rewrite Z.land_ones, Z.shiftr_div_pow2 by lia. rewrite Z.pow_mul_r by lia. done. }
  rewrite E. unfold hex_acc in *. cbn [fold_left].
  rewrite hex_digit_id by (apply Z.mod_pos_bound; lia). rewrite IH.
  rewrite Nat2Z.inj_succ, Z.pow_succ_r by lia. set (P := 16 ^ Z.of_nat n). assert (0 < P) by (apply Z.pow_pos_nonneg; lia).
  rewrite (Z.mul_comm 16 P), Z.rem_mul_r by lia. lia.
Qed.

(** The number that the words of a mask stand for. *)
Fixpoint mask_value (m : list Z) : Z :=
  match m with [] => 0 | w :: m => w + 2 ^ 32 * mask_value m end.

Lemma mask_value_acc m : mask_wf m -> forall acc,
  hex_acc acc (reverse m ≫= hex_digits 8) = acc * 2 ^ (32 * len m) + mask_value m.
Proof.
  induction 1 as [|w m Hw _ IH]; intros acc; [simpl; lia|].
  rewrite reverse_cons, bind_app. unfold hex_acc. rewrite fold_left_app. fold (hex_acc acc (reverse m ≫= hex_digits 8)).
  rewrite IH, bind_cons, app_nil_r. fold (hex_acc (acc * 2 ^ (32 * len m) + mask_value m) (hex_digits 8 w)).
  unfold in_range in Hw. rewrite hex_acc_digits by lia. change (16 ^ Z.of_nat 8) with (2 ^ 32).
  rewrite Z.mod_small by lia. cbn [mask_value]. rewrite length_cons, Nat2Z.inj_succ.
  replace (32 * Z.succ (len m)) with (32 * len m + 32) by lia. rewrite Z.pow_add_r by lia. lia.
Qed.

Lemma mask_value_nonneg m : mask_wf m -> 0 <= mask_value m.
Proof. induction 1 as [|w m Hw _ IH]; [done|]. unfold in_range in Hw. cbn [mask_value]. lia. Qed.

Lemma mask_value_bit m c : mask_wf m -> Z.testbit (mask_value m) (Z.of_nat c) = has_core m c.
Proof.
  intros Hm. revert c. induction Hm as [|w m Hw Hm IH]; intros c.
  { unfold has_core. simpl. by rewrite Z.testbit_0_l. }
  cbn [mask_value]. rewrite Z.mul_comm, <- Z.shiftl_mul_pow2 by lia.
  assert (E : w + Z.shiftl (mask_value m) 32 = Z.lor w (Z.shiftl (mask_value m) 32)).
  { assert (Z.land w (Z.shiftl (mask_value m) 32) = 0) as Hl.
    { apply Z.bits_inj'. intros i Hi. rewrite Z.land_spec, Z.bits_0.
      destruct (decide (i < 32)); [rewrite Z.shiftl_spec_low by lia; apply andb_false_r|].
      by rewrite (in_range_high w i Hw) by lia. }
    by rewrite (Z.add_nocarry_lxor _ _ Hl), (Z.lxor_lor _ _ Hl). }
  rewrite E, Z.lor_spec. unfold has_core. destruct (decide (c < 32)%nat) as [Hc|Hc].
  - rewrite Z.shiftl_spec_low by lia. rewrite Nat.div_small, Nat.mod_small by done. simpl. apply orb_false_r.
  - rewrite (in_range_high w _ Hw) by lia. rewrite Z.shiftl_spec by lia.
    replace (Z.of_nat c - 32) with (Z.of_nat (c - 32)) by lia. rewrite IH. unfold has_core.
    assert (Hd : (c / 32 = S ((c - 32) / 32))%nat /\ (c mod 32 = (c - 32) mod 32)%nat).
    { replace c with ((c - 32) + 1 * 32)%nat at 1 3 by lia. rewrite Nat.div_add, Nat.Div0.mod_add by lia. lia. }
    destruct Hd as [-> ->]. done.
Qed.

(** The text that DPDK gets stands for exactly the cores of the mask. *)
Theorem format_coremask_cores m c : mask_wf m ->
  Z.testbit (hex_acc 0 (drop 2 (format_coremask m))) (Z.of_nat c) = bool_decide (c ∈ cores m).
Proof.
  intros Hm. change (drop 2 (format_coremask m)) with (reverse m ≫= hex_digits 8).
  rewrite (mask_value_acc m Hm 0), Z.mul_0_l, Z.add_0_l, mask_value_bit by done.
  apply Bool.eq_iff_eq_true. by rewrite bool_decide_eq_true, elem_of_cores.
Qed.

Lemma format_coremask_cores_witness :
  Z.testbit (hex_acc 0 (drop 2 (format_coremask [5; 2147483648]))) 63 = bool_decide (63%nat ∈ cores [5; 2147483648]).
Proof.
  apply (format_coremask_cores [5; 2147483648] 63). unfold mask_wf, in_range.
  repeat (apply Forall_cons; split; [lia|]). apply Forall_nil_2.
Defined.

(** ** Both sides *)

Lemma read_be_array_skip pre resp k n : forall off, (length pre <= off)%nat ->
  read_be_array (pre ++ resp) k off n = read_be_array resp k (off - length pre) n.
Proof.
  induction n as [|n IH]; intros off Hoff; [done|]. cbn [read_be_array]. rewrite get_be_skip, IH by lia.
  by replace (off + k - length pre)%nat with (off - length pre + k)%nat by lia.
Qed.

(** An array that was written is read back. *)
Lemma read_be_array_encode k l rest : Forall (in_range (8 * Z.of_nat k)) l ->
  read_be_array ((l ≫= be_encode k) ++ rest) k 0 (length l) = Ok l.
Proof.
  induction 1 as [|z l Hz _ IH]; [done|]. rewrite bind_cons, <- app_assoc. cbn [length read_be_array].
  rewrite get_be_head by done. simpl. rewrite read_be_array_skip by (rewrite be_encode_length; lia).
  rewrite be_encode_length, Nat.sub_diag, IH. done.
Qed.

Lemma bind_be_encode_length k l : length (l ≫= be_encode k) = (k * length l)%nat.
Proof.
  induction l as [|x l IH]; [simpl; lia|]. rewrite bind_cons, length_app, be_encode_length, IH. simpl. lia.
Qed.

(** The library reads what the daemon put into the response. *)
Lemma do_hello_resp mask max_qps : mask_wf mask -> Forall (in_range 16) max_qps -> in_range 16 (len max_qps) ->
  do_hello (length mask) (Some (hello_resp_bytes mask max_qps)) = Ok (Some (mask, max_qps)).
Proof.
  intros Hm Hq Hn. unfold do_hello. rewrite hello_resp_length, (proj2 (Z.ltb_ge _ _)) by lia.
  set (hdr := sock_msg_bytes urdma_sock_hello_resp 0 0 ++ be_encode 2 (32 * len mask) ++ be_encode 2 (len max_qps)).
  assert (Hl : length hdr = 12%nat) by (unfold hdr, sock_msg_bytes; by rewrite !length_app, !be_encode_length).
  assert (E : hello_resp_bytes mask max_qps = hdr ++ (mask ≫= be_encode 4) ++ (max_qps ≫= be_encode 2) ++ []).
  { unfold hello_resp_bytes, hdr. by rewrite app_nil_r, <- !app_assoc. }
  assert (Hc : get_be (hello_resp_bytes mask max_qps) 10 2 = Ok (len max_qps)).
  { unfold hello_resp_bytes, sock_msg_bytes. rewrite <- !app_assoc, !get_be_enc_skip by lia. by apply get_be_head. }
  assert (Hm' : read_be_array (hello_resp_bytes mask max_qps) 4 12 (length mask) = Ok mask).
  { rewrite E, (read_be_array_skip hdr) by lia. rewrite Hl, Nat.sub_diag. by apply read_be_array_encode. }
  assert (Hq' : read_be_array (hello_resp_bytes mask max_qps) 2 (12 + 4 * length mask) (length max_qps) = Ok max_qps).
  { rewrite E, (read_be_array_skip hdr) by lia. rewrite read_be_array_skip by (rewrite bind_be_encode_length; lia).
    rewrite bind_be_encode_length, Hl. replace (_ - _ - _)%nat with 0%nat by lia. by apply read_be_array_encode. }
  rewrite Hc, Hm'. cbn [mbind outcome_bind]. by rewrite Nat2Z.id, Hq'.
Qed.

Lemma ports_max_qp T L s : dinv T L s -> Forall (in_range 16) (max_qp <$> d_ports s).
Proof.
  intros I. apply Forall_fmap, Forall_lookup. intros i dev Hd. destruct (di_ports _ _ _ I i dev Hd) as [Hn _].
  exact Hn.
Qed.

Lemma snoc_split {A} (l l1 l2 : list A) x : NoDup (l ++ [x]) -> l ++ [x] = l1 ++ x :: l2 -> l1 = l /\ l2 = [].
Proof.
  intros ND E. destruct l2 as [|y l2 _] using rev_ind; [by apply app_inj_tail in E as [-> _]|]. exfalso.
  rewrite app_comm_cons, app_assoc in E. apply app_inj_tail in E as [-> ->].
  rewrite <- app_assoc in ND. apply NoDup_app in ND as (_ & _ & ND). simpl in ND. apply NoDup_cons in ND as [Hn _].
  apply Hn. set_solver.
Qed.

Section both.
Context {Bs : Bsf} {BL : BsfLaws Bs}.

(** C14: The greeting between the library and the daemon: the request for one
    core moves the lowest available core to the process, and the library reads
    from the response exactly the mask of the process and the numbers of queue
    pairs of the ports. *)
Theorem client_hello T L s p pr : dinv T L s -> d_procs s !! p = Some pr -> 1 <= core_avail (d_cores s) ->
  len (d_ports s) < 2 ^ 16 -> send_ok s (12 + 4 * len (pr_core_mask pr) + 2 * len (d_ports s)) ->
  exists s' resp mask c, process_data_ready p 12 hello_req_bytes s = Ok (tt, s') /\
    d_sent s' = d_sent s ++ [(pr_fd pr, resp)] /\
    do_hello (length (core_mask (d_cores s))) (Some resp) = Ok (Some (mask, max_qp <$> d_ports s)) /\
    proc_mask s' p = Some mask /\ c ∈ cores (core_mask (d_cores s)) /\
    cores mask = cores (pr_core_mask pr) ∪ {[c]} /\
    cores (core_mask (d_cores s')) = cores (core_mask (d_cores s)) ∖ {[c]} /\
    forall d, d ∈ cores (core_mask (d_cores s')) -> (c < d)%nat.
Proof using BL.
  intros I Hp Hav Hports Hsend.
  pose proof (handle_hello_ok T L s p pr hello_req_bytes 1 I Hp eq_refl Hav Hsend) as (r & s' & E & -> & _ & mask & S & M & Hpr & Hs).
  destruct (co_mask _ _ (di_cores _ _ _ I) p (pr_core_mask pr)) as [Hwf Hlen]; [unfold proc_mask; by rewrite Hp|].
  destruct M as [M1 M2 M3 M4 M5 [_ M6] [_ M7]]. apply size_1_elem_of in M2 as [c Hc%leibniz_equiv]. subst S.
  exists s', (hello_resp_bytes mask (max_qp <$> d_ports s)), mask, c. split_and!; [|done| | |set_solver|done|done|].
  - unfold process_data_ready. unfold mbind, DM_bind, get_proc. rewrite Hp. simpl. unfold process_message. simpl.
    unfold mbind, DM_bind, dgets. by rewrite E.
  - rewrite <- Hlen, <- M7. apply do_hello_resp; [done|by eapply ports_max_qp|]. rewrite length_fmap. unfold in_range. lia.
  - unfold proc_mask. rewrite Hpr, lookup_alter_eq, Hp. done.
  - intros d. apply M5. set_solver.
Qed.

Lemma sock_fields_msg op d q rest : in_range 32 op -> in_range 16 d -> in_range 16 q ->
  sock_fields (sock_msg_bytes op d q ++ rest) = Ok (op, d, q).
Proof.
  intros Ho Hd Hq. unfold sock_fields, sock_msg_bytes. rewrite <- !app_assoc. rewrite get_be_head by done.
  assert (get_be (be_encode 4 op ++ be_encode 2 d ++ be_encode 2 q ++ rest) 4 2 = Ok d) as ->.
  { rewrite get_be_enc_skip by lia. by apply get_be_head. }
  assert (get_be (be_encode 4 op ++ be_encode 2 d ++ be_encode 2 q ++ rest) 6 2 = Ok q) as ->.
  { rewrite !get_be_enc_skip by lia. by apply get_be_head. }
  done.
Qed.

(** The library finds the address in the response. *)
Lemma get_next_qp_resp portid d q addr : in_range 64 addr ->
  port_get_next_qp portid (Some (sock_msg_bytes urdma_sock_create_qp_resp d q ++ be_encode 8 addr)) = Ok (Some addr).
Proof.
  intros Ha. set (msg := sock_msg_bytes urdma_sock_create_qp_resp d q ++ be_encode 8 addr).
  assert (Hl : len msg = 16) by (unfold msg, sock_msg_bytes; by rewrite !length_app, !be_encode_length).
  assert (Ho : get_be msg 0 4 = Ok urdma_sock_create_qp_resp).
  { unfold msg, sock_msg_bytes. rewrite <- !app_assoc. by apply get_be_head. }
  assert (Hp : get_be msg 8 8 = Ok addr).
  { unfold msg, sock_msg_bytes. rewrite <- !app_assoc, !get_be_enc_skip by lia.
    rewrite <- (app_nil_r (be_encode 8 addr)). by apply get_be_head. }
  unfold port_get_next_qp. cbv zeta. cbn [from_option]. unfold id. rewrite Hl, Ho, Hp. done.
Qed.

(** C13: When the library asks the daemon for a queue pair of a port whose
    next one is its own, the address that the library reads from the response
    is the address of that queue pair, which is now the last one on the list
    of the process; when the library returns it, it is at the end of the pool
    again and the list of the process is as before. *)
Theorem client_qp_roundtrip T L s p pr i r dev v addr rest own : dinv T L s -> d_procs s !! p = Some pr ->
  d_ports s !! i = Some dev -> po_qp dev !! r = Some v -> po_qp_addr dev !! r = Some addr ->
  L !! DAvail i = Some (DQp i r :: rest) -> L !! DOwned p = Some own ->
  Z.of_nat i < 2 ^ 16 -> shm_qp_id (dq_shm v) = Z.of_nat r -> in_range 64 addr -> send_ok s 16 ->
  exists s1 s2 resp L1 L2, process_data_ready p 16 (create_qp_req_bytes (Z.of_nat i)) s = Ok (tt, s1) /\
    d_sent s1 = d_sent s ++ [(pr_fd pr, resp)] /\
    port_get_next_qp (Z.of_nat i) (Some resp) = Ok (Some addr) /\
    dinv T L1 s1 /\ L1 !! DOwned p = Some (own ++ [DQp i r]) /\
    process_data_ready p 16 (port_return_qp (Z.of_nat i) (shm_qp_id (dq_shm v)) addr) s1 = Ok (tt, s2) /\
    dinv T L2 s2 /\ L2 !! DAvail i = Some (rest ++ [DQp i r]) /\ L2 !! DOwned p = Some own.
Proof using BL.
  intros I Hp Hi Hr Ha Hl Hown H16 Hid H64 Hsend. pose proof (lookup_lt_Some _ _ _ Hi) as Hlt.
  destruct (di_elems _ _ _ I (DAvail i) _ (DQp i r) Hl) as (i' & r' & [= <- <-] & dev' & Hd' & Hq); [done|left|].
  rewrite Hi in Hd'. injection Hd' as <-. destruct (di_ports _ _ _ I i dev Hi) as [Hn _].
  destruct (process_create_ok T L s p pr 16 (create_qp_req_bytes (Z.of_nat i)) (Z.of_nat i) 0 (DQp i r))
    as ([] & s1 & E1 & rest' & own' & Hl' & Hown' & I1 & R1 & j & q & dj & vj & a & [= <- <-] & Hj & Hv & Haj & Hs);
    rewrite ?Nat2Z.id in *; [done|done|done|apply sock_fields_msg; done || (unfold in_range; lia)|lia| |done|].
  { rewrite (list_top_run _ _ (DQp i r :: rest)); [done|]. by apply (lists_is _ L); [apply I|]. }
  simplify_eq. set (L1 := <[DOwned p := own ++ [DQp i r]]> (<[DAvail i := rest]> L)) in *.
  destruct (shape_lookup s1 s i dev (eq_sym (sr_ports _ _ R1)) Hi) as (dev1 & Hi1 & Esh).
  assert (Em : max_qp dev = max_qp dev1) by (unfold shape in Esh; congruence).
  assert (Hlen : length (d_ports s1) = length (d_ports s)) by (by rewrite <- (length_fmap shape), (sr_ports _ _ R1), length_fmap).
  destruct (process_destroy_ok T L1 s1 p pr 16 (port_return_qp (Z.of_nat i) (Z.of_nat r) addr) (Z.of_nat i) (Z.of_nat r) dev1)
    as ([] & s2 & E2 & h & A & B & l2 & Hh & Hl2 & I2 & _); rewrite ?Nat2Z.id in *;
    [done|by rewrite (sr_procs _ _ R1)|done|apply sock_fields_msg; done || (unfold in_range; lia)|lia|done|lia|].
  assert (HO : L1 !! DOwned p = Some (own ++ [DQp i r])) by apply lookup_insert_eq.
  assert (h = DOwned p) as ->.
  { apply (proj2 (di_lists _ _ _ I1) h (DOwned p) (A ++ DQp i r :: B) (own ++ [DQp i r]) (DQp i r)); [done|done|set_solver|set_solver]. }
  rewrite HO in Hh. injection Hh as Hh. destruct (snoc_split own A B (DQp i r)) as [-> ->]; [|done|].
  { destruct (lists_is _ _ _ _ (di_lists _ _ _ I1) HO) as [ND _]. by apply NoDup_cons in ND as [_ ?]. }
  rewrite app_nil_r in Hl2, I2. unfold L1 in Hl2. rewrite insert_insert_eq, lookup_insert_ne, lookup_insert_eq in Hl2 by done.
  injection Hl2 as <-. eexists s1, s2, _, L1, _. split; [exact E1|]. split; [exact Hs|].
  split; [by apply get_next_qp_resp|]. split; [done|]. split; [done|]. rewrite Hid. split; [exact E2|]. split; [exact I2|].
  split; [by rewrite lookup_insert_eq|]. by rewrite lookup_insert_ne, lookup_insert_eq.
Qed.
End both.
