(* ===== verification/Dprops.v ===== *)
(** Properties of the daemon as a whole: it starts with every queue pair in
    the pool of its port; every event that the processes and the kernel may
    cause keeps the invariant of [Dsafe] and ends without a fault; what a
    process that ends gives back; what the daemon tells the kernel about a
    connection; and the requests that it should reject and does not. *)
From S2P Require Import Prelude Proto Clist Cores Kern Kverbs Config State Daemon Dsafe Dinit Dclient.

(** ** Start and reachable states *)

Section reachable.
Context `{HA : Addresses} {Bs : Bsf} {BL : BsfLaws Bs}.
Context (lcores : list (bool * bool)) (devs : eth_devs) (cfgs : Z + list usiw_port_config)
  (sock_name : option string) (qp_addr : nat -> nat -> Z).

(** The configured addresses can be read. *)
Hypothesis Haddr : forall l, cfgs = inr l -> addresses_parse l.

(** [main] never faults, and when it starts the daemon the invariant holds,
    with the cores that DPDK leaves. *)
Lemma main_ok n rets bursts : (List.length lcores <= 32 * n)%nat -> (32 * n < Z.to_nat (2 ^ 32))%nat ->
  exists T, (forall c, c ∈ T <-> usable lcores c) /\
  dwp (urdmad_main lcores devs cfgs sock_name qp_addr) (fun go s => go = true ->
    exists L, dinv T L s /\ forall i dev, d_ports s !! i = Some dev -> L !! DAvail i = Some (full_pool i dev))
    (urdmad_start n rets bursts).
Proof using BL Haddr.
  intros Hl Hn. destruct (init_core_mask_spec lcores n Hl Hn) as (p & E & Hok & _ & Hc).
  exists (cores (core_mask p)). split; [done|].
  assert (Hd : dwp (do_init_driver devs cfgs sock_name qp_addr) (fun go s => go = true ->
      d_cores s = p /\ exists L, started (List.length (d_ports s)) L s) (urdmad_start n rets bursts <| d_cores := p |>))
    by (by apply do_init_driver_ok).
  destruct Hd as (go & s & Es & HS). exists go, s. split; [unfold urdmad_main; simpl; by rewrite E|].
  intros Hgo. destruct (HS Hgo) as [Ep [L HL]]. exists L. rewrite <- Ep. split; [apply (started_dinv _ _ _ HL eq_refl); by rewrite Ep|].
  intros i dev Hd. apply (st_which _ _ _ HL). right. exists i, dev. split; [by eapply lookup_lt_Some|done].
Qed.

End reachable.

Section handlers.
Context {Bs : Bsf} {BL : BsfLaws Bs}.

(** C16: When the connection of a process ends, all its queue pairs are
    appended, in order, to the pool of port 0, whatever port they belong to,
    the other pools stay as they are, its cores are available again and the
    process is gone. *)
Theorem process_exit_pools T L s p pr own ret msg : dinv T L s -> d_procs s !! p = Some pr ->
  L !! DOwned p = Some own -> u64 ret < 8 ->
  exists s' L', process_data_ready p ret msg s = Ok (tt, s') /\ dinv T L' s' /\
    L' !! DAvail 0 = (fun l => l ++ own) <$> L !! DAvail 0 /\
    (forall i, i ≠ 0%nat -> L' !! DAvail i = L !! DAvail i) /\
    d_procs s' = delete p (d_procs s) /\
    cores (core_mask (d_cores s')) = cores (core_mask (d_cores s)) ∪ cores (pr_core_mask pr).
Proof using BL.
  intros I Hp Hown Hret.
  destruct (process_eof_ok T L s p pr own ret msg I Hp Hown Hret) as ([] & s' & E & L' & I' & H1 & H2 & H3 & H4 & _).
  exists s', L'. done.
Qed.

(** C38: A request for a queue pair makes the daemon access memory behind its
    ports when the number of the port equals the number of ports, and
    dereference a null pointer when the pool of the port is empty. *)
Theorem unguarded_create_faults T L s p pr ret msg dev_id qp_id : dinv T L s -> d_procs s !! p = Some pr ->
  8 <= u64 ret -> sock_fields msg = Ok (urdma_sock_create_qp_req, dev_id, qp_id) ->
  (dev_id = len (d_ports s) -> process_data_ready p ret msg s = Fault OutOfBounds) /\
  (dev_id < len (d_ports s) -> L !! DAvail (Z.to_nat dev_id) = Some [] ->
     process_data_ready p ret msg s = Fault NullDeref).
Proof.
  intros I Hp Hret Hm.
  assert (E : process_data_ready p ret msg s = process_message p msg urdma_sock_create_qp_req dev_id qp_id s).
  { unfold process_data_ready, mbind, DM_bind, get_proc. rewrite Hp. change sizeof_urdmad_sock_msg with 8.
    rewrite (proj2 (Z.ltb_ge _ _)) by done. by rewrite Hm. }
  destruct (sock_fields_range _ _ _ _ Hm) as (_ & H0 & _).
  rewrite E. unfold process_message, mbind, DM_bind, dgets, get_port. simpl. split.
  - intros ->. rewrite Z.ltb_irrefl, Nat2Z.id, lookup_ge_None_2 by done. done.
  - intros Hlt Hl. rewrite (proj2 (Z.ltb_ge _ _)) by lia.
    destruct (lookup_lt_is_Some_2 (d_ports s) (Z.to_nat dev_id)) as [dev Hd]; [lia|]. rewrite Hd. unfold dlist.
    rewrite (list_top_run _ _ []) by (by apply (lists_is _ L); [apply I|]). done.
Qed.
End handlers.

(** ** Connections *)

(** A run in which every call outside the daemon succeeds: the ports and what
    was written to the kernel stay. *)
Record undisturbed (s s' : dstate) : Prop := Undisturbed {
  ud_rets : d_rets s' = [];
  ud_ports : d_ports s' = d_ports s;
  ud_chardev : d_chardev s' = d_chardev s
}.

Lemma dcall_calm ok s : d_rets s = [] -> dwp (dcall ok) (fun r s' => r = ok /\ s' = s) s.
Proof. intros E. unfold dcall, dwp. rewrite E. eauto. Qed.

Lemma hw_calm c s : d_rets s = [] -> dwp (hw c) (fun r s' => r = 0 /\ undisturbed s s') s.
Proof.
  intros E. unfold hw. apply dwp_bind, dwp_modify. eapply dwp_mono; [by apply dcall_calm|].
  intros r s' [-> ->]. done.
Qed.

Lemma setup_filter_calm ev i q dev v s : d_ports s !! i = Some dev -> po_qp dev !! q = Some v -> d_rets s = [] ->
  dwp (setup_filter ev i q) (fun r s' => r = 0 /\ undisturbed s s') s.
Proof.
  intros Hd Hv E. unfold setup_filter. apply dwp_bind. eapply dwp_get_port; [done|]. apply dwp_bind.
  eapply dwp_get_dqp; [done..|]. destruct (has _ port_5tuple).
  { apply dwp_bind. eapply dwp_mono; [by apply hw_calm|]. intros r s' [-> U]. by apply dwp_ret. }
  destruct (has _ port_2tuple); [by apply hw_calm|]. destruct (has _ port_fdir); [by apply hw_calm|].
  by apply dwp_ret.
Qed.

(** An update of a queue pair that exists. *)
Lemma upd_dqp_run i q f s dev v (Q : unit -> dstate -> Prop) : d_ports s !! i = Some dev -> po_qp dev !! q = Some v ->
  (forall s' dev', d_ports s' !! i = Some dev' -> po_qp dev' !! q = Some (f v) -> po_flags dev' = po_flags dev ->
     d_rets s' = d_rets s -> d_chardev s' = d_chardev s -> Q tt s') -> dwp (upd_dqp i q f) Q s.
Proof.
  intros Hd Hv HQ. apply dwp_modify. eapply (HQ _ (dev <| po_qp ::= alter f q |>)); [|simpl|done..].
  - simpl. by rewrite list_lookup_alter_eq, Hd.
  - by rewrite list_lookup_alter_eq, Hv.
Qed.

(** The state of the queue pair after the event. *)
Definition connected_as (ev : urdma_qp_connected_event) (v : daemon_qp) : Prop :=
  conn_state (dq_shm v) = usiw_qp_connected /\
  local_udp_port (dq_shm v) = sin_port (ce_src ev) /\ remote_udp_port (dq_shm v) = sin_port (ce_dst ev) /\
  local_ipv4_addr v = sin_addr (ce_src ev) /\ remote_ipv4_addr (dq_shm v) = sin_addr (ce_dst ev) /\
  remote_ether_addr (dq_shm v) = ce_dst_ether ev /\
  ord_max (dq_shm v) = ce_ord_max ev /\ ird_max (dq_shm v) = ce_ird_max ev.

Lemma setup_qp_calm ev s : event_ok s ev -> d_rets s = [] ->
  dwp (do_setup_qp ev (Z.to_nat (ce_dev_id ev)) (Z.to_nat (ce_qp_id ev))) (fun r s' => r = 0 /\
    d_rets s' = [] /\ d_chardev s' = d_chardev s /\
    exists dev v, d_ports s' !! Z.to_nat (ce_dev_id ev) = Some dev /\ po_qp dev !! Z.to_nat (ce_qp_id ev) = Some v /\
      connected_as ev v) s.
Proof.
  intros (dev & v & Hd & Hv & H1 & H2 & H3 & H4) E. set (i := Z.to_nat (ce_dev_id ev)) in *. set (q := Z.to_nat (ce_qp_id ev)) in *.
  unfold do_setup_qp. apply dwp_bind. eapply dwp_get_port; [done|]. apply dwp_bind. eapply dwp_get_dqp; [done..|].
  rewrite H2, H3, H4. do 4 (apply dwp_bind; apply dwp_assert; [by (apply negb_true_iff, Z.eqb_neq) || apply Z.eqb_refl|]).
  apply dwp_bind. eapply upd_dqp_run; [done..|]. intros s1 dev1 Hd1 Hv1 _ E1 C1. rewrite E in E1.
  apply dwp_bind. eapply dwp_mono; [by apply dcall_calm|]. intros rx s' [-> ->].
  apply dwp_bind. eapply dwp_mono; [by apply dcall_calm|]. intros tx s' [-> ->].
  apply dwp_bind. eapply upd_dqp_run; [done..|]. intros s2 dev2 Hd2 Hv2 _ E2 C2. rewrite E1 in E2.
  apply dwp_bind. eapply dwp_mono; [by eapply setup_filter_calm|]. intros r3 s3 [-> [E3 P3 C3]].
  apply dwp_bind. eapply dwp_mono; [by apply hw_calm|]. intros r4 s4 [-> [E4 P4 C4]].
  apply dwp_bind. eapply dwp_mono; [by apply hw_calm|]. intros r5 s5 [-> [E5 P5 C5]].
  rewrite P3 in P4. rewrite P4 in P5. rewrite <- P5 in Hd2.
  apply dwp_bind. eapply upd_dqp_run; [exact Hd2|exact Hv2|]. intros s6 dev6 Hd6 Hv6 _ E6 C6. apply dwp_ret.
  split; [done|]. split; [congruence|]. split; [congruence|]. exists dev6. eexists. split; [done|]. split; [exact Hv6|done].
Qed.

(** C15: When the kernel module reports a connection of a queue pair of the
    daemon and the calls to DPDK succeed, the queue pair is connected with the
    endpoints, the hardware address and the read limits of the event, and the
    daemon writes one event that the kernel module decodes as ready to receive
    for the same queue pair. *)
Theorem connected_event_answered s ev ret : event_ok s ev -> d_rets s = [] -> 40 <= ret ->
  in_range 32 (Z.of_nat (ce_kmod_qp_id ev)) ->
  exists s' dev v b, chardev_data_ready ret SIW_EVENT_QP_CONNECTED ev s = Ok (tt, s') /\
    d_ports s' !! Z.to_nat (ce_dev_id ev) = Some dev /\ po_qp dev !! Z.to_nat (ce_qp_id ev) = Some v /\
    connected_as ev v /\ d_chardev s' = d_chardev s ++ [b] /\ List.length b = sizeof_rtr_event /\
    forall stk, (8 <= List.length stk)%nat -> event_u32 (copy_event stk b) 0 = SIW_EVENT_QP_RTR /\
      event_u32 (copy_event stk b) 4 = Z.of_nat (ce_kmod_qp_id ev).
Proof.
  intros Hev E Hret Hid. set (b := rtr_event_bytes (Z.of_nat (ce_kmod_qp_id ev))).
  assert (Hw : dwp (chardev_data_ready ret SIW_EVENT_QP_CONNECTED ev) (fun _ s' => d_chardev s' = d_chardev s ++ [b] /\
    exists dev v, d_ports s' !! Z.to_nat (ce_dev_id ev) = Some dev /\ po_qp dev !! Z.to_nat (ce_qp_id ev) = Some v /\
      connected_as ev v) s).
  { unfold chardev_data_ready. rewrite (proj2 (Z.ltb_ge _ _)) by lia. simpl. unfold handle_qp_connected_event.
    change (Z.of_nat sizeof_connected_event) with 40. rewrite (proj2 (Z.ltb_ge _ _)) by lia.
    apply dwp_bind. eapply dwp_mono; [by apply setup_qp_calm|]. intros r s1 (-> & E1 & C1 & Hq). simpl.
    apply dwp_bind. eapply dwp_mono; [by apply dcall_calm|]. intros r s2 [-> ->]. simpl. apply dwp_modify.
    split; [|done]. simpl. by rewrite C1. }
  destruct Hw as ([] & s' & Es & Hc & dev & v & Hd & Hv & Has). exists s', dev, v, b. do 6 (split; [done|]).
  intros stk Hs. unfold event_u32, copy_event, Prelude.splice. rewrite take_0, app_nil_l. unfold b at 1 3, rtr_event_bytes.
  rewrite <- !app_assoc. split; [by rewrite sub_app_l|]. rewrite sub_app_r by done. simpl Nat.sub.
  rewrite sub_app_l by done. rewrite le_decode_encode. by apply wrap_small.
Qed.

(** ** Witnesses *)

#[local] Existing Instance jvalue_json.
#[local] Instance demo_addresses : Addresses := {|
  rte_eal_compare_pci_addr a b := if String.eqb a b then 0 else 1;
  nl_addr_parse _ := Some 1677746698
|}.

(** A daemon with two ports of two queue pairs, and four cores of which DPDK
    uses the first two. *)
Definition demo_info : eth_dev_info := DevInfo 6 0 0 0 8 8 (DescLim 64 4096 8) (DescLim 64 4096 8).
Definition demo_config : usiw_port_config :=
  PortConfig urdma_port_id_index 1500 128 128 32 8 2 (strncpy ipv4_addr_len_max "10.2.0.100").
Definition demo_devs : eth_devs :=
  [Some ("0000:01:00.0"%string, demo_info); Some ("0000:01:00.1"%string, demo_info)].
Definition demo_lcores : list (bool * bool) := [(true, false); (true, false); (true, true); (true, true)].
Definition demo_addr (i q : nat) : Z := 4096 * Z.of_nat (S i) + 64 * Z.of_nat q.
Definition demo_main : DM bool :=
  urdmad_main demo_lcores demo_devs (inr [demo_config; demo_config]) (Some "/run/urdma.sock"%string) demo_addr.

(** A process connects, asks for a core, and for a queue pair of each port. *)
Definition demo_events : list devent :=
  [EvListen; EvProcess 0 12 hello_req_bytes; EvProcess 0 16 (create_qp_req_bytes 0); EvProcess 0 16 (create_qp_req_bytes 1)].
Fixpoint run_events (es : list devent) (s : dstate) : outcome dstate :=
  match es with
  | [] => Ok s
  | e :: es => match event_loop_step e [] s with Ok (_, s) => run_events es s | Fault f => Fault f end
  end.
Definition demo_run (k : nat) : dstate :=
  match demo_main (urdmad_start 1 [] []) with
  | Ok (_, s) => match run_events (take k demo_events) s with Ok s => s | Fault _ => s end
  | Fault _ => urdmad_start 1 [] []
  end.

Definition demo_start : dstate := Eval vm_compute in demo_run 0.
Definition demo_connected : dstate := Eval vm_compute in demo_run 1.
Definition demo_hello : dstate := Eval vm_compute in demo_run 2.
Definition demo_one_qp : dstate := Eval vm_compute in demo_run 3.
Definition demo_two_qps : dstate := Eval vm_compute in demo_run 4.

Lemma demo_addr_parse l : inr [demo_config; demo_config] = (inr l : Z + list usiw_port_config) -> addresses_parse l.
Proof. intros [= <-]. repeat constructor; by eexists. Qed.

Lemma demo_served s ret msg opcode dev_id qp_id pr : d_procs s !! 0%nat = Some pr ->
  sock_fields msg = Ok (opcode, dev_id, qp_id) -> served s 0 msg opcode dev_id qp_id -> dallowed s (EvProcess 0 ret msg).
Proof. intros Hp Hm Hs. split; [by exists pr|]. intros _. exists opcode, dev_id, qp_id. auto. Qed.

(** A request for a queue pair of port [i], of which [a] is the next. *)
Lemma demo_create s i pr a : d_procs s !! 0%nat = Some pr -> sock_fields (create_qp_req_bytes i) = Ok (1, i, 0) ->
  i <? len (d_ports s) = true -> list_top (DAvail (Z.to_nat i)) (d_heap s) = Ok (Some a, d_heap s) -> d_rets s = [] ->
  dallowed s (EvProcess 0 16 (create_qp_req_bytes i)).
Proof.
  intros Hp Hm Hi Ha Hr. eapply demo_served; [done|exact Hm|]. left. split; [done|]. split; [by apply Z.ltb_lt|].
  split; [eauto|]. unfold send_ok. by rewrite Hr.
Qed.

Lemma demo_reach_process : dreach demo_start demo_connected.
Proof. apply (dreach_step _ demo_start EvListen [] true); [constructor|done|vm_compute; reflexivity]. Qed.

Lemma demo_reach_qps : dreach demo_start demo_two_qps.
Proof.
  apply (dreach_step _ demo_one_qp (EvProcess 0 16 (create_qp_req_bytes 1)) [] true); [| |vm_compute; reflexivity].
  2: { apply (demo_create _ 1 (UrdmaProcess 3 [4]) (DQp 1 1)); vm_compute; reflexivity. }
  apply (dreach_step _ demo_hello (EvProcess 0 16 (create_qp_req_bytes 0)) [] true); [| |vm_compute; reflexivity].
  2: { apply (demo_create _ 0 (UrdmaProcess 3 [4]) (DQp 0 1)); vm_compute; reflexivity. }
  apply (dreach_step _ demo_connected (EvProcess 0 12 hello_req_bytes) [] true); [exact demo_reach_process| |vm_compute; reflexivity].
  apply (demo_served _ _ _ 4 0 0 (UrdmaProcess 3 [0])); [vm_compute; reflexivity..|]. right. right.
  split; [done|]. exists 1, (UrdmaProcess 3 [0]). split_and!; [vm_compute; reflexivity|vm_compute; discriminate|vm_compute; reflexivity|done].
Qed.

Lemma demo_main_run : demo_main (urdmad_start 1 [] []) = Ok (true, demo_start).
Proof. vm_compute. reflexivity. Qed.

Lemma demo_inv s : dreach demo_start s -> exists T L, dinv T L s.
Proof.
  intros Hr. destruct (main_ok demo_lcores demo_devs (inr [demo_config; demo_config]) (Some "/run/urdma.sock"%string) demo_addr
    demo_addr_parse 1 [] []) as (T & _ & go & s0 & E & HS); [simpl; lia..|].
  pose proof demo_main_run as E'. unfold demo_main in E'. rewrite E in E'. injection E' as -> ->.
  destruct (HS eq_refl) as (L0 & I0 & _). exists T. by apply (dreach_inv T L0 demo_start).
Qed.


(** The process ends, and both queue pairs go to the pool of port 0. *)
Lemma process_exit_pools_witness : exists T L L' own s', dinv T L demo_two_qps /\ L !! DOwned 0 = Some own /\
  process_data_ready 0 0 [] demo_two_qps = Ok (tt, s') /\ dinv T L' s' /\
  L' !! DAvail 0 = (fun l => l ++ own) <$> L !! DAvail 0.
Proof.
  destruct (demo_inv demo_two_qps demo_reach_qps) as (T & L & I).
  destruct (head_in L T demo_two_qps (DOwned 0) I) as [own Hown]; [by exists (UrdmaProcess 3 [4])|].
  destruct (process_exit_pools T L demo_two_qps 0 (UrdmaProcess 3 [4]) own 0 [] I) as (s' & L' & E & I' & H1 & _);
    [vm_compute; reflexivity|exact Hown|done|].
  exact (ex_intro _ T (ex_intro _ L (ex_intro _ L' (ex_intro _ own (ex_intro _ s' (conj I (conj Hown (conj E (conj I' H1))))))))).
Defined.

Lemma unguarded_create_faults_witness :
  process_data_ready 0 16 (create_qp_req_bytes 2) demo_two_qps = Fault OutOfBounds.
Proof.
  destruct (demo_inv demo_two_qps demo_reach_qps) as (T & L & I).
  destruct (unguarded_create_faults T L demo_two_qps 0 (UrdmaProcess 3 [4]) 16 (create_qp_req_bytes 2) 2 0 I) as [H _];
    [vm_compute; reflexivity|done|vm_compute; reflexivity|]. apply H. vm_compute. reflexivity.
Defined.

Lemma client_hello_witness : exists s' resp mask,
  process_data_ready 0 12 hello_req_bytes demo_connected = Ok (tt, s') /\
  do_hello 1 (Some resp) = Ok (Some (mask, [2; 2])) /\ proc_mask s' 0 = Some mask.
Proof.
  destruct (demo_inv demo_connected demo_reach_process) as (T & L & I).
  destruct (client_hello T L demo_connected 0 (UrdmaProcess 3 [0]) I) as (s' & resp & mask & c & E & _ & Hr & Hm & _);
    [vm_compute; reflexivity|vm_compute; discriminate|vm_compute; reflexivity|done|]. exists s', resp, mask. exact (conj E (conj Hr Hm)).
Defined.

Lemma client_qp_roundtrip_witness : exists s1 s2 resp,
  process_data_ready 0 16 (create_qp_req_bytes 1) demo_connected = Ok (tt, s1) /\
  port_get_next_qp 1 (Some resp) = Ok (Some (demo_addr 1 1)) /\
  process_data_ready 0 16 (port_return_qp 1 1 (demo_addr 1 1)) s1 = Ok (tt, s2).
Proof.
  destruct (demo_inv demo_connected demo_reach_process) as (T & L & I).
  destruct (head_in L T demo_connected (DOwned 0) I) as [own Hown]; [by exists (UrdmaProcess 3 [0])|].
  destruct (head_in L T demo_connected (DAvail 1) I) as [l Hl]; [vm_compute; lia|].
  assert (Ht : list_top (DAvail 1) (d_heap demo_connected) = Ok (Some (DQp 1 1), d_heap demo_connected)) by (vm_compute; reflexivity).
  rewrite (list_top_run _ _ l) in Ht by (by apply (lists_is _ L); [apply I|]). destruct l as [|a rest]; [done|].
  injection Ht as ->.
  destruct (client_qp_roundtrip T L demo_connected 0 (UrdmaProcess 3 [0]) 1 1
    (nth 1 (d_ports demo_connected) zero_port) (number_qp 1 zero_qp) (demo_addr 1 1) rest own I)
    as (s1 & s2 & resp & L1 & L2 & E1 & _ & Hr & _ & _ & E2 & _); [vm_compute; reflexivity..|exact Hl|exact Hown|done|done| |done|].
  { split; vm_compute; [discriminate|reflexivity]. }
  exists s1, s2, resp. exact (conj E1 (conj Hr E2)).
Defined.

Definition demo_event : urdma_qp_connected_event :=
  ConnectedEvent 7 0 1 (SockAddr 1677746698 5000) (SockAddr 1694523914 6000) (replicate 6 2) 16 16 1 1.

Lemma connected_event_answered_witness : exists s' dev v,
  chardev_data_ready 40 SIW_EVENT_QP_CONNECTED demo_event demo_one_qp = Ok (tt, s') /\
  d_ports s' !! 0%nat = Some dev /\ po_qp dev !! 1%nat = Some v /\ connected_as demo_event v.
Proof.
  destruct (connected_event_answered demo_one_qp demo_event 40) as (s' & dev & v & b & E & Hd & Hv & Hc & _).
  - exists (nth 0 (d_ports demo_one_qp) zero_port), (number_qp 1 zero_qp). split_and!; vm_compute; (reflexivity || discriminate).
  - reflexivity.
  - lia.
  - split; vm_compute; [discriminate|reflexivity].
  - exists s', dev, v. exact (conj E (conj Hd (conj Hv Hc))).
Defined.

(** The port of the README has no number of queue pairs. *)
Definition readme_port : jvalue := JObject [("ipv4_address", JString "10.2.0.100")]%string.

Lemma default_max_qp_exits_witness : exists cfg b s',
  get_port_config readme_port true = Some (cfg, b) /\
  usiw_port_init 2 0 cfg demo_info (demo_addr 0) demo_start = Ok (false, s').
Proof.
  destruct (@get_port_config jvalue_json readme_port true) as [[cfg b]|] eqn:Ec; [|discriminate Ec].
  destruct (@default_max_qp_exits jvalue_json readme_port true cfg b 2 0 demo_info (demo_addr 0) demo_start
    (nth 0 (d_ports demo_start) zero_port) Ec) as [s' E]; [reflexivity|split; simpl; lia|split; simpl; lia|reflexivity|done|].
  exists cfg, b, s'. split; [reflexivity|exact E].
Defined.
