(* ===== verification/Witness.v ===== *)
(** * Concrete instances

    Each theorem with hypotheses is applied to concrete values at which they
    hold, over the list model of DPDK and the queue pair of Demo.v. *)
From S2P Require Import Prelude Serial Dpdk Binheap Proto Iov State TrpRx Cq Mr Wqe Frame TrpTx Window Rdmap Segment Progress Verbs Conserve Demo Ack Safe Loop Receive Post Life.

(** Decidable facts by evaluation. *)
Ltac eval_dec := apply (bool_decide_unpack _); vm_compute; exact I.
Ltac range := unfold in_range; vm_compute; split; [discriminate|reflexivity].

(** ** Wire formats *)

Definition w_trp : trp_hdr := {| trp_psn := 7; trp_ack_psn := 9; trp_opcode := 0 |}.
Definition w_head : rdmap_packet := {| ddp_flags := 65; rdmap_info := 67; sink_stag := 305419896 |}.
Definition w_tagged : rdmap_tagged_packet := {| tagged_head := w_head; tagged_offset := 2 ^ 40 + 5 |}.
Definition w_untagged : rdmap_untagged_packet :=
  {| untagged_head := w_head; untagged_qn := 0; untagged_msn := 1; untagged_mo := 1024 |}.
Definition w_readreq : rdmap_readreq_packet :=
  {| readreq_untagged := w_untagged; readreq_sink_offset := 4096; read_msg_size := 12; source_stag := 3;
     source_offset := 8192 |}.
Definition w_terminate : rdmap_terminate_packet :=
  {| terminate_untagged := w_untagged; error_code := 0x1205; hdrct := 3; reserved := 0 |}.


(** ** Receiver of the transport *)

(** Packets 0, 2, 1, 2, 3 around the wrap of the sequence number. *)
Definition w_psns : list Z := (fun n => 2 ^ 32 - 2 + n) <$> [0; 2; 1; 2; 3].
Definition w_rx_ep : ee_state := demo_ep <| recv_ack_psn := 4294967294 |>.

Lemma trp_rx_exactly_once_witness :
  exists a', let '(ds, ep', _) := trp_rx_run w_rx_ep demo_stats (u32 <$> w_psns) in
    NoDup (delivered w_psns ds) /\
    (forall n, 2 ^ 32 - 2 <= n -> n ∈ delivered w_psns ds <-> received a' n) /\
    (forall n, n ∈ delivered w_psns ds -> 2 ^ 32 - 2 <= n) /\
    recv_ack_psn ep' = u32 (ra_ack a') /\
    (forall lo hi, ra_range a' = Some (lo, hi) ->
       has (trp_flags ep') trp_recv_missing = true /\
       recv_sack_psn ep' = PsnRange (u32 lo) (u32 hi) /\ ra_ack a' < lo < hi).
Proof.
  apply (trp_rx_exactly_once w_rx_ep demo_stats (2 ^ 32 - 2) w_psns); [reflexivity|reflexivity|].
  vm_compute. repeat split; discriminate.
Defined.

Definition w_abs : rx_abs := RxAbs (2 ^ 32 - 2) None.

Lemma trp_rx_step_witness :
  let '(d, ep', _) := trp_rx w_rx_ep demo_stats (u32 (2 ^ 32)) in
  rx_rep ep' (snd (rx_spec w_abs (2 ^ 32))) /\
  (d = true -> ~ received w_abs (2 ^ 32) /\ has (trp_flags ep') trp_ack_update = true) /\
  (2 ^ 32 = ra_ack w_abs \/ (ra_range w_abs = None /\ ra_ack w_abs <= 2 ^ 32) -> d = true) /\
  (forall m, received (snd (rx_spec w_abs (2 ^ 32))) m <-> received w_abs m \/ (d = true /\ m = 2 ^ 32)).
Proof.
  apply (trp_rx_step w_rx_ep demo_stats w_abs (2 ^ 32)); [|split; vm_compute; discriminate || reflexivity].
  split; [exact I|]. split; reflexivity.
Defined.

(** ** Flushing *)

(** The queue pair with three requests posted and two completions free. *)
Definition w_flush : world := posted_world 10.

Lemma w_flush_sq : sq_wf [] (qp_sq (w_qp w_flush)).
Proof. split; [|done]. split; [|done..]. vm_compute. solve_Permutation. Qed.

Lemma sq_flush_completes_witness :
  let outstanding := sq_active (qp_sq (w_qp w_flush)) ++ ring_elems (sq_ring (qp_sq (w_qp w_flush))) in
  let n := Nat.min (length outstanding) (cq_cap demo_cq - length (cq_queue demo_cq)) in
  exists cq' q' ev, sq_flush w_flush = Ok (tt, after_sq w_flush 0 cq' q' ev) /\
    sq_wf [] q' /\ cq_wf cq' /\
    ring_elems (sq_ring q') = [] /\ sq_active q' = drop n outstanding /\
    wc_view <$> cq_queue cq' = (wc_view <$> cq_queue demo_cq) ++
      (sq_view (sq_storage (qp_sq (w_qp w_flush))) IBV_WC_WR_FLUSH_ERR 5 <$> take n outstanding).
Proof. exact (sq_flush_completes [] w_flush demo_cq w_flush_sq eq_refl demo_cq_wf). Defined.

(** ** Frames *)

Lemma udp_checksum_verifies_witness :
  exists ip udp, udp_ip_headers (running_qp 0) 3 (sum16 [1; 2; 3]) = Ok (ip, udp) /\
    sum16 (ipv4_bytes ip) mod 65535 = 0 /\
    (sum16 (udp_pseudo_header (ipv4_bytes ip)) + sum16 (udp_bytes udp ++ [1; 2; 3])) mod 65535 = 0 /\
    0 < dgram_cksum udp <= UINT16_MAX.
Proof.
  apply (udp_checksum_verifies (running_qp 0) [1; 2; 3] (sum16 [1; 2; 3]));
    [vm_compute; reflexivity|range|range|range|reflexivity].
Defined.

Lemma w_tx_ready : tx_ready running_world.
Proof. split; [|split; vm_compute; reflexivity]. vm_compute. repeat split; auto with lia. Qed.

Definition w_payloads : list (bytes * Z * bytes) :=
  [([1; 2], 0x0800, [2; 0; 0; 0; 0; 9]); ([3], 0x0806, [2; 0; 0; 0; 0; 8])].


(** ** Transmit window *)

Lemma w_sent_ready : tx_ready sent_world.
Proof. split; [|split; vm_compute; reflexivity]. vm_compute. repeat split; auto with lia. Qed.

Definition w_seg : tx_mbuf := get (TxMbuf 0 [] (Pending 0 None None 0 0 0 0)) (head sent_pend).



Definition w_sacked : ee_state :=
  get_ok (remote_ep (w_qp sent_world)) (process_trp_sack (remote_ep (w_qp sent_world)) 1 2).


(** ** The progress thread *)

Lemma posted_queues : queues_ok [] [] (posted_world 10).
Proof.
  split; [exact w_flush_sq|]. split; [|constructor; [exact demo_cq_wf|constructor]].
  split; [|reflexivity]. split; [|reflexivity..]. vm_compute. solve_Permutation.
Qed.

Lemma kni_step_conserves_witness : queues_ok [] [] sent_world.
Proof. exact (kni_step_conserves [] [] (posted_world 10) sent_world demo_allocs [] KniKeep posted_queues sent_step). Defined.

Lemma kni_step_transition_witness :
  kni_transition (conn_state (shm_qp (w_qp (posted_world 10)))) KniKeep (conn_state (shm_qp (w_qp sent_world))).
Proof. exact (kni_step_transition (posted_world 10) sent_world demo_allocs [] KniKeep sent_step). Defined.

Lemma kni_step_ord_bound_witness :
  0 <= ord_active (w_qp sent_world) <= ord_max (shm_qp (w_qp sent_world)) /\
  ord_max (shm_qp (w_qp sent_world)) = ord_max (shm_qp (w_qp (posted_world 10))).
Proof.
  apply (kni_step_ord_bound (posted_world 10) sent_world demo_allocs [] KniKeep);
    [split; vm_compute; discriminate|reflexivity|exact sent_step].
Defined.

(** ** Acknowledgements *)

Definition w_acked : world :=
  sent_world <| w_qp ::= update remote_ep (fun ep => ep <| send_last_acked_psn := 2 |>) |>.

Lemma tx_rep_acked ep h pend a : tx_rep ep h pend -> tx_rep (ep <| send_last_acked_psn := a |>) h pend.
Proof. by intros []. Qed.

Lemma w_acked_rep : tx_rep (remote_ep (w_qp w_acked)) 0 sent_pend.
Proof. exact (tx_rep_acked _ 0 sent_pend 2 sent_tx_rep). Qed.

Lemma queues_acked hs hr (w : world) a :
  queues_ok hs hr w ->
  queues_ok hs hr (w <| w_qp ::= update remote_ep (fun ep => ep <| send_last_acked_psn := a |>) |>).
Proof. done. Qed.

Lemma sent_queues : queues_ok [] [] w_acked.
Proof.
  exact (queues_acked [] [] sent_world 2
    (kni_step_queues [] [] (posted_world 10) sent_world demo_allocs [] KniKeep posted_queues sent_step)).
Qed.

Lemma sent_acct : acct (sq_storage (qp_sq (w_qp w_acked))) sent_pend.
Proof.
  intros i m Hm Hi. exists (get zero_send_wqe (head (sq_storage (qp_sq (w_qp w_acked))))).
  assert (i = 0%nat) as ->.
  { assert (Forall (fun m => p_wqe (mb_info m) = Some 0%nat) sent_pend) as HF by eval_dec.
    rewrite Forall_forall in HF. rewrite (HF m Hm) in Hi. by injection Hi. }
  split; [vm_compute; reflexivity|]. split; [vm_compute; discriminate|]. split; [vm_compute; reflexivity|].
  rewrite decide_False by (vm_compute; discriminate). split; [vm_compute; reflexivity|].
  split; [vm_compute; discriminate|]. split; [vm_compute; reflexivity|].
  assert (Forall (fun m => 0 < p_ddp_length (mb_info m)) sent_pend) as HF by eval_dec.
  rewrite Forall_forall in HF. intros m' Hm' _. exact (HF m' Hm').
Qed.

Lemma sent_lengths : Forall (fun m => 0 <= p_ddp_length (mb_info m)) sent_pend.
Proof. eval_dec. Qed.

Lemma ack_sweep_exact_witness :
  exists left w' st', sweep_acked (Z.to_nat (tx_pending_size (remote_ep (w_qp w_acked)))) w_acked = Ok (left, w') /\
    queues_ok [] [] w' /\ sq_storage (qp_sq (w_qp w')) = st' /\
    tx_rep (remote_ep (w_qp w')) (0 + Z.of_nat 2) (drop 2 sent_pend) /\
    st' = foldl (fun st m => ack_segment m st) (sq_storage (qp_sq (w_qp w_acked))) (take 2 sent_pend) /\
    acct st' (drop 2 sent_pend) /\
    exists j, sq_active (qp_sq (w_qp w')) = drop j (sq_active (qp_sq (w_qp w_acked))).
Proof.
  apply (ack_sweep_exact [] [] w_acked 0 sent_pend 2 sent_queues); [vm_compute; auto|exact w_acked_rep|
    vm_compute; reflexivity|vm_compute; auto|exact sent_acct|exact sent_lengths].
Defined.

(** ** Segmentation *)

Lemma posted_tx_rep : tx_rep (remote_ep (w_qp (posted_world 10))) 0 [].
Proof. apply tx_rep_empty; vm_compute; reflexivity. Qed.

Lemma posted_loop_inv : loop_inv 0 (seqZ 0 10) 0 8 (posted_world 10) (demo_request 10) [].
Proof.
  split; [|split; [exact posted_tx_rep|]].
  - split; [|split; vm_compute; reflexivity]. vm_compute. repeat split; auto with lia.
  - split; [vm_compute; reflexivity|]. split; [vm_compute; discriminate|]. split; [vm_compute; discriminate|].
    split; [vm_compute; reflexivity|]. split; [|split; vm_compute; discriminate].
    split; [reflexivity|]. split; [reflexivity|]. exists [Iovec 100 10]. split; [reflexivity|].
    split; [|split; vm_compute; reflexivity].
    split; [repeat constructor; vm_compute; discriminate|vm_compute; reflexivity].
Qed.

Definition w_op : M unit * (usiw_send_wqe -> bool -> bytes) := (do_rdmap_send 0, send_header).

Lemma posted_mtu : 0 < shm_mtu (shm_qp (w_qp (posted_world 10))) < 2 ^ 16.
Proof. split; vm_compute; reflexivity. Qed.


(** ** Delivery *)

(** The receiver once its buffer is active and the packets up to PSN 2 have
    been accepted. *)
Definition dlv_world : world :=
  snd (get_ok (tt, running_world) (dequeue_recv_wqes recv_world))
    <| w_qp ::= update remote_ep (fun ep => ep <| recv_ack_psn := 3 |>) |>.

Definition dlv_entry : usiw_recv_wqe :=
  get zero_recv_wqe (head (rq_storage (qp_rq0 (w_qp dlv_world)))).
Definition dlv_request : usiw_send_wqe := demo_request 10 <| s_msn := 1 |>.

Definition dlv_first : list (Z * list Z * bool * Z * list Z) :=
  [(8, [8; 9], true, 2, []); (0, [0; 1; 2; 3], false, 0, [7])].
Definition dlv_final : Z * list Z * bool := (4, [4; 5; 6; 7], false).

Lemma dlv_perm : (dlv_first.*1).*1 ++ [dlv_final] ≡ₚ segments 4 0 (seqZ 0 10).
Proof. vm_compute. solve_Permutation. Qed.

Lemma dlv_rq : rq_wf [] (qp_rq0 (w_qp dlv_world)).
Proof. split; [|vm_compute; reflexivity]. split; vm_compute; [solve_Permutation|reflexivity..]. Qed.

Lemma dlv_buf : rbuf dlv_world dlv_entry (seqZ 2 10).
Proof.
  split; [|eval_dec|vm_compute; reflexivity..].
  split; [eval_dec|vm_compute; reflexivity].
Qed.

Lemma dlv_cq : w_cqs dlv_world !! qp_recv_cq (w_qp dlv_world) = Some demo_cq.
Proof. reflexivity. Qed.

Lemma dlv_active : rq_active (qp_rq0 (w_qp dlv_world)) = [0%nat].
Proof. vm_compute. reflexivity. Qed.

Lemma dlv_stored : rq_storage (qp_rq0 (w_qp dlv_world)) !! 0%nat = Some dlv_entry.
Proof. vm_compute. reflexivity. Qed.


(** Two completed buffers at the head of the queue. *)
Definition cmp_world : world :=
  dlv_world <| w_qp ::= update qp_rq0 (update rq_storage (alter
    (fun x => x <| r_input_size := 10 |> <| r_complete := true |>) 0%nat)) |>.
Definition cmp_entry : usiw_recv_wqe := dlv_entry <| r_input_size := 10 |> <| r_complete := true |>.

Lemma cmp_rq : rq_wf [] (qp_rq0 (w_qp cmp_world)).
Proof. split; [|vm_compute; reflexivity]. split; vm_compute; [solve_Permutation|reflexivity..]. Qed.

Lemma cmp_cq : w_cqs cmp_world !! qp_recv_cq (w_qp cmp_world) = Some demo_cq.
Proof. reflexivity. Qed.

Lemma recv_completions_in_order_witness :
  ((length (cq_queue demo_cq) + length [0%nat] <= cq_cap demo_cq)%nat -> (length [0%nat] <= 1)%nat ->
   exists cq' q' ev, complete_recv_loop 1 cmp_world =
       Ok (tt, after_rq cmp_world (qp_recv_cq (w_qp cmp_world)) cq' q' ev) /\
     rq_active q' = [] /\ rq_wf [] q' /\ cq_wf cq' /\
     cq_queue cq' = cq_queue demo_cq ++ (recv_wc (qp_num (w_qp cmp_world)) <$> [cmp_entry])) /\
  ([0%nat] <> [] -> length (cq_queue demo_cq) = cq_cap demo_cq ->
   complete_recv_loop 1 cmp_world = Fault OutOfFuel).
Proof.
  apply (recv_completions_in_order [] cmp_world [0%nat] [] [cmp_entry] demo_cq 1);
    [vm_compute; reflexivity|constructor; [split; vm_compute; reflexivity|constructor]|exact I|exact cmp_rq
    |exact cmp_cq|exact demo_cq_wf].
Defined.

(** ** Memory safety *)

Lemma demo_pd_empty c mr : mr_deref demo_pd c <> Ok mr.
Proof.
  unfold mr_deref. intros H%deref_ok. destruct (mt_entries demo_pd !! fst c) as [l|] eqn:E; [|done].
  apply lookup_replicate in E as [-> _]. done.
Qed.

Lemma recv_world_pd : w_pd recv_world = demo_pd.
Proof. reflexivity. Qed.

Lemma recv_posted i x :
  i ∈ posted (qp_rq0 (w_qp recv_world)) -> rq_storage (qp_rq0 (w_qp recv_world)) !! i = Some x ->
  r_iov x = [Iovec 102 10].
Proof.
  assert (posted (qp_rq0 (w_qp recv_world)) = [0%nat]) as -> by (vm_compute; reflexivity).
  intros ->%list_elem_of_singleton H. vm_compute in H. injection H as <-. reflexivity.
Qed.

(** The byte before the receive buffer. *)
Lemma kni_step_memory_safe_witness : w_mem received_world !! 101 = w_mem recv_world !! 101.
Proof.
  apply (kni_step_memory_safe recv_world received_world demo_allocs recv_rx KniKeep 101).
  - intros c mr H. rewrite recv_world_pd in H. by apply demo_pd_empty in H.
  - intros i x Hi Hx. rewrite (recv_posted i x Hi Hx).
    split; [repeat constructor; vm_compute; discriminate|vm_compute; reflexivity].
  - assert (map_Forall (fun a _ => a < 2 ^ 64 - 2 ^ 32) (w_mem recv_world)) as H by eval_dec.
    intros a [v Hv]. exact (H a v Hv).
  - exact received_step.
  - intros c mr H. rewrite recv_world_pd in H. by apply demo_pd_empty in H.
  - intros i x Hi Hx. rewrite (recv_posted i x Hi Hx). eval_dec.
Defined.

(** A region of four bytes, and a segment of two at the end of the address
    space. *)
Definition wrap_mr : usiw_mr := Mr 1 100 4 5 7.
Definition wrap_world : world :=
  running_world <| w_pd := {| mt_capacity := 7; mt_mr_count := 0;
                              mt_entries := [[]; []; []; []; []; [wrap_mr]; []] |} |>.
Definition wrap_segment : rdmap_tagged_packet :=
  {| tagged_head := {| ddp_flags := DDP_V1_TAGGED_LAST_DF;
                       rdmap_info := Z.lor RDMAP_V1 rdmap_opcode_rdma_write; sink_stag := 5 |};
     tagged_offset := 2 ^ 64 - 1 |}.

Lemma tagged_bounds_wrap_witness :
  ddp_place_tagged_data (Ctx 16 (tagged_bytes wrap_segment ++ [1; 2]) 0) wrap_world = Fault BadPointer.
Proof.
  apply (tagged_bounds_wrap wrap_world (Ctx 16 (tagged_bytes wrap_segment ++ [1; 2]) 0) wrap_segment
    (5%nat, 0%nat) wrap_mr); vm_compute; reflexivity || discriminate.
Defined.

(** ** Verbs *)

Definition w_cap : ibv_qp_cap := QpCap 100 10 1 0 40.
Definition w_caps : ibv_qp_cap := QpCap 127 63 3 3 40.

Lemma create_qp_caps_spec_witness :
  let ok := IBV_QPT_RC <> IBV_QPT_UC /\ max_send_wr w_cap <= 1023 /\ max_recv_wr w_cap <= 1023 /\
            max_send_sge w_cap <= 32 /\ max_recv_sge w_cap <= 32 /\ max_inline_data w_cap <= 512 in
  (~ ok -> create_qp_caps IBV_QPT_RC w_cap = Ok None) /\
  (ok -> exists c, create_qp_caps IBV_QPT_RC w_cap = Ok (Some c) /\
     wr_cap_ok (max_send_wr w_cap) (max_send_wr c) /\ wr_cap_ok (max_recv_wr w_cap) (max_recv_wr c) /\
     Z.max (max_send_sge w_cap) 1 <= max_send_sge c <= 32 /\
     Z.max (max_recv_sge w_cap) 1 <= max_recv_sge c <= 32 /\
     max_inline_data w_cap <= max_inline_data c <= 16 * max_send_sge c).
Proof. apply (create_qp_caps_spec IBV_QPT_RC w_cap); vm_compute; discriminate. Defined.

(** Four requests for a queue of three entries: a send, an inline write, ... *)
Definition w_send : ibv_send_wr := SendWr 1 [Sge 100 5 0; Sge 106 2 0] IBV_WR_SEND IBV_SEND_SIGNALED 0 0.
Definition w_write : ibv_send_wr := SendWr 2 [Sge 100 4 0] IBV_WR_RDMA_WRITE IBV_SEND_INLINE 4096 9.
Definition w_read : ibv_send_wr := SendWr 3 [Sge 100 4 5] IBV_WR_RDMA_READ 0 4096 9.
Definition w_wrs : list ibv_send_wr := [w_send; w_write; w_read; w_send].

Definition verbs_world : world :=
  wrap_world <| w_qp ::= update qp_sq (fun q => q <| sq_max_inline := 32 |>) |>.

Lemma verbs_sq : sq_wf [] (qp_sq (w_qp verbs_world)).
Proof. split; [|vm_compute; reflexivity]. split; vm_compute; [solve_Permutation|reflexivity..]. Qed.

Lemma w_wrs_ok : Forall (wr_ok verbs_world) w_wrs.
Proof.
  assert (wr_ok verbs_world w_send) as Hs.
  { split; [eval_dec|]. split; [vm_compute; reflexivity|]. split; [vm_compute; discriminate|].
    split; [eexists; vm_compute; reflexivity|vm_compute; discriminate]. }
  assert (wr_ok verbs_world w_write) as Hw.
  { split; [eval_dec|]. split; [vm_compute; reflexivity|]. split; [vm_compute; discriminate|].
    split; [eexists; vm_compute; reflexivity|]. intros _. split; vm_compute; discriminate. }
  assert (wr_ok verbs_world w_read) as Hr.
  { split; [eval_dec|]. split; [vm_compute; reflexivity|]. split; [vm_compute; reflexivity|].
    exists (Sge 100 4 5), (5%nat, 0%nat), wrap_mr. split_and!; vm_compute; reflexivity. }
  exact (Forall_cons_2 _ _ _ Hs (Forall_cons_2 _ _ _ Hw (Forall_cons_2 _ _ _ Hr (Forall_cons_2 _ _ _ Hs (Forall_nil_2 _))))).
Qed.

Lemma usiw_post_send_spec_witness :
  let free := ring_elems (sq_free_ring (qp_sq (w_qp verbs_world))) in
  let k := Nat.min (length w_wrs) (length free) in
  exists q', usiw_post_send w_wrs verbs_world =
      Ok ((if decide (k = length w_wrs) then 0 else -ENOSPC, drop k w_wrs), with_sq verbs_world q') /\
    sq_wf [] q' /\
    ring_elems (sq_ring q') = ring_elems (sq_ring (qp_sq (w_qp verbs_world))) ++ take k free /\
    Forall2 (fun wr i => exists x, sq_storage q' !! i = Some x /\ describes verbs_world wr x)
      (take k w_wrs) (take k free) /\
    forall j, j ∉ take k free -> sq_storage q' !! j = sq_storage (qp_sq (w_qp verbs_world)) !! j.
Proof.
  apply (usiw_post_send_spec verbs_world [] w_wrs verbs_sq); [discriminate|exact w_wrs_ok|eval_dec].
Defined.

Definition w_long : ibv_send_wr := SendWr 4 [Sge 100 40 0] IBV_WR_SEND IBV_SEND_INLINE 0 0.

Lemma post_send_inline_leaks_witness :
  exists q', usiw_post_send [w_long] verbs_world = Ok ((EINVAL, [w_long]), with_sq verbs_world q') /\
    ring_elems (sq_free_ring q') = [1; 2]%nat /\ sq_ring q' = sq_ring (qp_sq (w_qp verbs_world)) /\
    sq_active q' = sq_active (qp_sq (w_qp verbs_world)) /\ sq_wf [0%nat] q'.
Proof.
  apply (post_send_inline_leaks verbs_world [] w_long (Sge 100 40 0) [] 0 [1; 2]%nat verbs_sq);
    vm_compute; try split; reflexivity || discriminate.
Defined.

Definition w_rwrs : list ibv_recv_wr := [RecvWr 1 [Sge 100 5 0]; RecvWr 2 [Sge 106 2 0]].

Lemma verbs_rq : rq_wf [] (qp_rq0 (w_qp verbs_world)).
Proof. split; [|vm_compute; reflexivity]. split; vm_compute; [solve_Permutation|reflexivity..]. Qed.

Lemma usiw_post_recv_spec_witness :
  let free := ring_elems (rq_free_ring (qp_rq0 (w_qp verbs_world))) in
  let k := Nat.min (length w_rwrs) (length free) in
  exists q', usiw_post_recv w_rwrs verbs_world =
      Ok ((if decide (k = length w_rwrs) then 0 else ENOSPC, drop k w_rwrs), with_rq verbs_world q') /\
    rq_wf [] q' /\
    ring_elems (rq_ring q') = ring_elems (rq_ring (qp_rq0 (w_qp verbs_world))) ++ take k free /\
    Forall2 (fun wr i => exists x : usiw_recv_wqe, rq_storage q' !! i = Some (fill_recv wr x))
      (take k w_rwrs) (take k free) /\
    forall j, j ∉ take k free -> rq_storage q' !! j = rq_storage (qp_rq0 (w_qp verbs_world)) !! j.
Proof.
  apply (usiw_post_recv_spec verbs_world [] w_rwrs verbs_rq);
    [repeat constructor; vm_compute; discriminate|vm_compute; discriminate].
Defined.

(** ** Life cycle *)

Definition w_attr : ibv_qp_init_attr := QpInitAttr 0 0 w_cap IBV_QPT_RC true.
Definition w_qp_allocs : qp_allocs :=
  QpAllocs true (Some demo_shm) (inl 17) (WqAllocs true true true 0) (WqAllocs true true true 0).
Definition wit_ctx : usiw_context := Context_ 1 [17] [17].

Lemma create_qp_ready_witness :
  exists qp cqs', usiw_create_qp (demo_dev 0) w_attr w_qp_allocs [demo_cq] wit_ctx =
      Ok (None, Some qp, cqs', {| qp_init_count := u32 (qp_init_count wit_ctx + 1); ctx_qp := 17 :: ctx_qp wit_ctx;
                                  qp_active := qp_active wit_ctx ++ [17] |}) /\
    sq_wf [] (qp_sq qp) /\ rq_wf [] (qp_rq0 qp) /\
    ring_elems (sq_ring (qp_sq qp)) = [] /\ sq_active (qp_sq qp) = [] /\
    ring_elems (rq_ring (qp_rq0 qp)) = [] /\ rq_active (qp_rq0 qp) = [] /\
    conn_state (shm_qp qp) = usiw_qp_unbound /\ qp_refcnt qp = 2 /\ ord_active qp = 0 /\
    ((fun r => (qa_qp_state (fst r), qa_cap (fst r))) <$> snd (usiw_query_qp qp true 0)) =
      Some (IBV_QPS_INIT, w_caps).
Proof.
  apply (create_qp_ready (demo_dev 0) w_attr w_caps w_qp_allocs demo_shm 17 [demo_cq] wit_ctx);
    try reflexivity; try (split_and!; reflexivity); vm_compute; discriminate.
Defined.

(** A queue pair that runs is moved to the error state and then released. *)
Definition life_error : world :=
  snd (get_ok (0, running_world) (usiw_modify_qp IBV_QPS_ERR IBV_QP_STATE 0 connected_world)).
Definition life_released : world :=
  snd (get_ok (KniKeep, running_world) (kni_qp_step demo_allocs [] life_error)).

Lemma life_modify : usiw_modify_qp IBV_QPS_ERR IBV_QP_STATE 0 connected_world = Ok (0, life_error).
Proof. apply get_ok_snd. vm_compute. reflexivity. Qed.

Lemma life_kni : kni_qp_step demo_allocs [] life_error = Ok (KniRemoved false, life_released).
Proof. apply get_ok_snd. vm_compute. reflexivity. Qed.

Lemma lib_step_monotone_witness :
  qp_state_val (conn_state (shm_qp (w_qp connected_world))) <=
    qp_state_val (conn_state (shm_qp (w_qp life_released))) /\
  (conn_state (shm_qp (w_qp connected_world)) = usiw_qp_error ->
   conn_state (shm_qp (w_qp life_released)) = usiw_qp_error).
Proof.
  apply (lib_step_monotone connected_world life_released).
  eapply rtc_l; [eapply ls_modify, life_modify|]. eapply rtc_l; [eapply ls_kni, life_kni|]. constructor.
Defined.

(** Then the application destroys it. *)
Definition life_destroyed : world :=
  snd (get_ok (0, false, running_world) (usiw_destroy_qp 0 life_released)).

Lemma life_destroy : usiw_destroy_qp 0 life_released = Ok (0, true, life_destroyed).
Proof. apply get_ok_snd. vm_compute. reflexivity. Qed.


Definition unbound_world : world :=
  connected_world <| w_qp ::= update shm_qp (fun s => s <| conn_state := usiw_qp_unbound |>) |>
    <| w_ctx := Context_ 1 [5] [5] |>.
Definition unbound_destroyed : world :=
  snd (get_ok (0, false, running_world) (usiw_destroy_qp 0 unbound_world)).

Lemma unbound_destroy : usiw_destroy_qp 0 unbound_world = Ok (0, false, unbound_destroyed).
Proof. apply get_ok_snd. vm_compute. reflexivity. Qed.

Lemma destroy_unbound_leaks_witness :
  snd (0, false) = false /\ qp_refcnt (w_qp unbound_destroyed) = 1 /\
  qp_active (w_ctx unbound_destroyed) = qp_active (w_ctx unbound_world) /\
  forall al rx, kni_qp_step al rx unbound_destroyed = Ok (KniKeep, unbound_destroyed).
Proof.
  apply (destroy_unbound_leaks unbound_world unbound_destroyed 0 (0, false));
    [vm_compute; reflexivity..|exact unbound_destroy].
Defined.

(** ** Rounds of the progress thread *)

(** The library with one context and the queue pair of world [w]. *)
Definition one_qp (w : world) : lib :=
  Lib {[5 := (w_qp w, 0%nat)]} {[0%nat := w_pd w]} {[0%nat := (w_ctx w, 0%nat)]} {[0%nat := Some 0%nat]} [0%nat] [] 1
    (w_cqs w) (w_mem w) (w_env w) (w_wire w) (w_events w) (w_tx_bound w).

Lemma one_qp_round w w' rx : qp_active (w_ctx w) = [5] -> kni_qp_step demo_allocs rx w = Ok (KniKeep, w') ->
  kni_round (fun _ => demo_allocs) (fun _ => rx) (one_qp w) = Ok (put_world 0 5 0 0 w' (one_qp w)).
Proof.
  intros Hc Hs. change (kni_round (fun _ => demo_allocs) (fun _ => rx) (one_qp w)) with
    (s ← visit_handle (fun _ => demo_allocs) (fun _ => rx) 0 (one_qp w); Ok s).
  unfold visit_handle. change (lb_handles (one_qp w) !! 0%nat) with (Some (Some 0%nat)). cbv iota beta.
  change (lb_ctxs (one_qp w) !! 0%nat) with (Some (w_ctx w, 0%nat)). cbv iota beta. rewrite Hc. cbn [visit_qps].
  assert (qp_world 0 5 (one_qp w) = Some (w, 0%nat, 0%nat)) as E by by destruct w.
  unfold visit_qp. by rewrite E, Hs.
Qed.

Lemma one_qp_lookup w n qp pd : lb_qps (one_qp w) !! n = Some (qp, pd) -> n = 5 /\ qp = w_qp w.
Proof. unfold one_qp. simpl. intros [<- [= <- _]]%lookup_singleton_Some. done. Qed.
Lemma one_qp_pds w pd t : lb_pds (one_qp w) !! pd = Some t -> t = w_pd w.
Proof. unfold one_qp. simpl. by intros [_ <-]%lookup_singleton_Some. Qed.

Lemma kni_round_memory_safe_witness :
  lb_mem (put_world 0 5 0 0 received_world (one_qp recv_world)) !! 101 = lb_mem (one_qp recv_world) !! 101.
Proof.
  apply (kni_round_memory_safe (fun _ => demo_allocs) (fun _ => recv_rx) (one_qp recv_world) _ 101).
  - intros pd t c mr ->%one_qp_pds H. rewrite recv_world_pd in H. by apply demo_pd_empty in H.
  - intros n qp pd i x [_ ->]%one_qp_lookup Hi Hx. rewrite (recv_posted i x Hi Hx).
    split; [repeat constructor; vm_compute; discriminate|vm_compute; reflexivity].
  - assert (map_Forall (fun a _ => a < 2 ^ 64 - 2 ^ 32) (w_mem recv_world)) as H by eval_dec.
    intros a [v Hv]. exact (H a v Hv).
  - exact (one_qp_round recv_world received_world recv_rx eq_refl received_step).
  - intros pd t c mr ->%one_qp_pds H. rewrite recv_world_pd in H. by apply demo_pd_empty in H.
  - intros n qp pd i x [_ ->]%one_qp_lookup Hi Hx. rewrite (recv_posted i x Hi Hx). eval_dec.
Defined.

Lemma kni_round_conserves_witness :
  Forall cq_wf (lb_cqs (put_world 0 5 0 0 sent_world (one_qp (posted_world 10)))).
Proof.
  destruct posted_queues as (H1 & H2 & H3).
  refine (proj2 (kni_round_conserves (fun _ => demo_allocs) (fun _ => []) (fun _ => ([], [])) (one_qp (posted_world 10))
    (put_world 0 5 0 0 sent_world (one_qp (posted_world 10))) _ _ _)).
  - intros n qp pd [_ ->]%one_qp_lookup. exact (conj H1 H2).
  - exact H3.
  - exact (one_qp_round (posted_world 10) sent_world [] eq_refl sent_step).
Defined.

(** Two contexts are opened and the first is closed before the thread has seen
    it: a round visits the second one only. *)
Definition no_ctx_lib : lib := Lib ∅ ∅ ∅ ∅ [] [] 0 [] ∅ (w_env connected_world) [] [] 6.
Definition open_ctx (s : lib) : lib :=
  s <| lb_next ::= S |> <| lb_ctxs ::= <[lb_next s := (Context_ 0 [] [], lb_next s)]> |>
    <| lb_handles ::= <[lb_next s := Some (lb_next s)]> |> <| lb_new ::= fun l => l ++ [lb_next s] |>.
Lemma open_ctx_ok s : (List.length (lb_new s) <? NEW_CTX_MAX)%nat = true ->
  urdma_alloc_context true 0 true s = Ok (inl (lb_next s), open_ctx s).
Proof.
  intros H. unfold urdma_alloc_context. simpl. rewrite add_context_once. unfold enqueue. simpl. by rewrite H.
Qed.
Definition two_ctx_lib : lib := open_ctx (open_ctx no_ctx_lib).
Definition one_ctx_lib : lib := get_ok two_ctx_lib (urdma_free_context 0 two_ctx_lib).

Lemma kni_round_visits_witness : kni_round (fun _ => demo_allocs) (fun _ => []) one_ctx_lib =
  (s' ← visit_ctxs (fun _ => demo_allocs) (fun _ => []) [1%nat] (add_new one_ctx_lib); Ok (drop_dead s')).
Proof.
  apply (kni_round_visits no_ctx_lib [1%nat] one_ctx_lib (fun _ => demo_allocs) (fun _ => [])); [done|].
  apply (lib_free _ 0 [0; 1]%nat two_ctx_lib); [|left|reflexivity].
  apply (lib_alloc _ true 0 true [0%nat] (open_ctx no_ctx_lib) (inl 1%nat)); [|by apply open_ctx_ok].
  apply (lib_alloc _ true 0 true [] no_ctx_lib (inl 0%nat)); [constructor|by apply open_ctx_ok].
Defined.
